(* ===== verification/_CoqProject ===== *)
-Q . S2P
Prelude.v
Text.v
Base64.v
Utf8.v
Entities.v
RuleEngine.v
ConnectionTable.v
ConnectionTracker.v
PortBitmap.v
ProcessRules.v
UnitTests.v
Capture.v
Auth.v
Relay.v
Bridge.v
Handshake.v
MockProxy.v
TestTools.v
RelayServer.v
RedirectService.v
Driver.v
Rationals.v
Strtod.v
Dtoa.v
Grisu.v
FloatText.v
Json.v
JsonDump.v
JsonParse.v
JsonText.v
Lexer.v
ParseErrors.v
Agent.v
AgentThreads.v
Kerberos.v
Stats.v
ConfigManager.v
Library.v
AgentPipe.v
Ipc.v
PipeServer.v
TcpServer.v
Logger.v
LogRotator.v
IpcHandler.v
WinDivertDriver.v
Service.v
EntryPoint.v
ProxyEngine.v
Hook.v
Sspi.v
Tunnel.v
Wire.v
