(* ===== verification/Prelude.v ===== *)
(** TcpRedirector: a verification development of the transparent TCP
    redirector.

    The program takes the TCP connections of chosen processes and carries them
    through an HTTP proxy.  Its parts, all under src/src:

    - the service (service/TcpRedirectorService): a capture thread rewrites the
      packets WinDivert hands it so that proxied connections arrive at a local
      relay ([infrastructure/capture]); the relay asks the proxy for a tunnel
      and copies both directions ([infrastructure/relay]); rules decide which
      processes are proxied ([domain/services/RuleEngine.h]); a table maps the
      local port of a connection to its original destination, shared by both
      threads; a tracker counts traffic for the user interface;
    - the authentication agent (auth-agent): a process of the user's session
      that negotiates Kerberos tokens, which the service's provider asks for
      over a named pipe;
    - a kernel driver (driver) that redirects connections at the Windows
      Filtering Platform and queues them for user mode.

    * Files

    Prelude    machine integers at their width, list searches, tactics and hint
               databases shared by all files.
    Text       strings of the C and C++ runtime as lists of code units.
    Base64     the six encoders and three decoders that the program carries.
    Entities   domain/entities/ProxyConfig.h, infrastructure/config/Config.h.
    RuleEngine domain/services/RuleEngine.h.
    ConnectionTable
               infrastructure/relay/ConnectionTable.h; class
               [IConnectionTable] is the port domain/ports/IConnectionTable.h
               with its laws, which the hash table discharges.
    ConnectionTracker
               domain/services/ConnectionTracker.h; class
               [IConnectionMonitor] is its port.
    PortBitmap the decision bitmap of WinDivertCapture.h.
    ProcessRules
               FindPidBySourcePort, FindTargetPid and CheckProcessRule of
               WinDivertCapture.cpp.
    Capture    CaptureLoop and packet rewriting, against the two ports.
    WinDivertDriver
               loading WinDivert.dll and starting its kernel driver.
    Auth       class [IAuthenticationProvider] (domain/ports), the Basic
               provider, Parse407Challenge.
    Sspi       SspiNegotiate of infrastructure/auth/auth_sspi.cpp.
    Relay      TcpRelayServer::ConnectionHandler, against the provider class.
    Bridge     TcpRelayServer::OneWayRelay and StartBridge.
    Handshake  Relay and Bridge over the stream of the proxy; the invariants
               that a handler keeps.
    RelayServer
               Start, Stop, AcceptLoop and HandleNewConnection.
    RedirectService, Driver
               the kernel driver: queue, rule cache and pool memory; device
               control, classification, loading and unloading.
    Tunnel     Capture, RelayServer and Relay over one connection table: a
               connection from its first packet to its tunnel.
    Rationals, Strtod
               powers in the rational numbers; strtod of the C library.
    Dtoa       floating numbers as text: Grisu2 and the layouts of to_chars in
               the vendored nlohmann::json.
    Grisu      its digits are right.
    FloatText  its text is read back as the number it was printed from.
    Json       JSON values and the accessors of that library that the program
               applies.
    Utf8       UTF-8 in that library: its decoder and its encoder.
    JsonDump   its serializer, with the buffers it writes to.
    JsonParse  its lexer and its parser, as functions of the input.
    JsonText   what is printed is read back, and what is read is well typed.
    Lexer, ParseErrors
               the lexer and the parser with their states and the texts of
               their exceptions, which refine JsonParse.
    Library    printing and parsing as the components call them.
    Agent      the agent's context store, engine and request handling.
    AgentThreads
               the agent's main thread and cleanup thread, interleaved.
    Kerberos   the service's provider over an arbitrary pipe.
    AgentPipe  the provider and the agent run against each other, over the text
               of Library.
    Stats      the lock-free statistics collector.
    ConfigManager
               infrastructure/config/ConfigManager.h and .cpp: loading, saving,
               settings, rules and passwords.
    Ipc        the requests of a client of infrastructure/ipc/PipeServer.h and
               TcpIpcServer.h, and the push messages.
    PipeServer the pipe's thread, Start, Stop and the senders, interleaved.
    TcpServer  the thread, Start and Stop of TcpIpcServer.h, interleaved.
    Logger, LogRotator
               infrastructure/logging: queue and writer thread, files, the ring
               of recent entries; scheduled rotation and archives.
    IpcHandler adapters/driving/IpcHandler.h: every method of a request.
    Wire       Ipc, IpcHandler and ConfigManager over the library: requests,
               replies and the configuration file as bytes.
    Service    adapters/driving/ServiceMain.h and main.cpp: Initialize, Stop,
               the callbacks, and the process as three interleaved threads
               over the parts above.
    EntryPoint main.cpp: the command line, installing and removing the service.
    ProxyEngine
               adapters/driven/ProxyEngine.h: sessions with their bridge
               thread, and the engine.
    Hook       service/HookDLL/hook_connect.cpp over a byte memory.
    MockProxy  tests/mock_proxy.cpp, and the relay against it.
    TestTools  tests/packet_generator.cpp and the parsers the tests copy.
    UnitTests  the repository's unit tests, run on the models.

    * How the code is modelled

    A class or service is a record of its state, a method a function from state
    to state and result.  Methods that hold a lock from entry to return are
    single steps; where threads share state without one lock (the two
    directions of the bridge, the statistics counters, the threads of the pipe and
    TCP servers, the agent's cleanup, the logger's writer, the service and its
    control thread) a step relation, or a list of actions, interleaves their
    atomic actions.  System calls, the network, the security provider and the
    allocator are parameters: records of answers, functions of
    a world, or classes with laws; a law states documented behaviour (a fresh
    block, a new handle).  A read or write outside a buffer, a double release or
    a kernel bug check is [None], an uncaught exception a result of its own.  Fixed-width
    integers are [Z] with the wrap-around written where the code can overflow.

    * What the theorems show

    - Transparency and isolation (Capture): the first packet of a proxied
      connection goes to the relay and every answer is restored to come from
      the original destination; in every reachable state no packet of a tracked
      port escapes to the network; a packet changes nothing of another port;
      the loop never faults and keeps table and bitmap consistent.
    - The path of a connection (Tunnel): from its first packet on, through any
      other packets, the relay asks the proxy for a tunnel to exactly the place
      the connection was going to, and bridges it only after a 200.
    - The end of the handshake (Handshake): the tunnel starts behind the one
      piece that was received as the answer, so that the client gets exactly
      the tunnel's data when, and only when, that piece was the whole header;
      a proxy that grants is enough for a tunnel, whatever the provider does.
    - Decisions (ProcessRules, RuleEngine, PortBitmap): exact conditions of each
      verdict; least priority decides after any edits; what wildcards match; the
      bitmap is a map of 65536 decisions; process tree and owner cache.
    - Data (ConnectionTable, ConnectionTracker, Stats, Base64, Auth): the hash
      table refines per-port stacks and its count is exact; totals telescope;
      the lock-free counters are exact under every interleaving; every decoder
      inverts every encoder; a challenge survives its header.
    - Relaying (Relay, Bridge, RelayServer): the handler always returns and
      releases or hands over every socket, address list and context, unless a
      failing recv ends it by an exception; its requests are bounded; the bridge delivers a prefix of its input, all of it
      without errors, and closes both sockets exactly once; any sequence of
      Start and Stop is balanced.
    - Kernel driver: in every reachable state the driver owns exactly its pool
      blocks, and the calls that leave their buffers or read a process name
      where there is none are exactly those that are listed; the queue is a
      bounded FIFO; the first matching rule decides and matching stays in its
      arrays; what is redirected without a record; what SET_RULES installs; what
      loading and unloading leave.
    - Agent (Agent, AgentThreads, Kerberos, AgentPipe): SSPI handles are owned by exactly
      one stored context; a context lives while its negotiation continues; the
      cleanup frees a context in use exactly when its time has ended as it wakes;
      launches release what they acquire.
    - Configuration (ConfigManager, IpcHandler): what a save writes a load
      restores, up to the fields the format lacks; a password survives every
      sequence of calls that do not replace it, in memory and in the file; a
      refused request changes nothing; rules that are set are in force at once and
      survive a restart.
    - Floating numbers (Grisu, FloatText): the digits of every double lie
      strictly between the points halfway to its neighbours; its text fits its
      buffer and is read back as the same double, by correct rounding.
    - JSON text (Utf8, JsonDump, JsonParse, JsonText): the table decodes exactly
      UTF-8; printing stays in its buffers and gives the text of the value or
      throws; the parser always ends; what it returns has the library's types
      and a text that is parsed to it again; what is printed parses back,
      compact and indented, floating numbers included.
    - Its parser as it is written (Lexer, ParseErrors): putting characters back
      and collecting buffers, positions and messages, it accepts what the
      functions of JsonParse accept, with the same values, and ends on every
      other text with an exception of one line.
    - Over bytes (Wire): whatever a client sends, in whatever pieces, each line
      gets one line in answer; parameters that begin with a letter beyond ASCII
      are answered as a parse error of the request; rules that a client sends are in force at once and
      are read back from the bytes of the saved file.
    - Requests (Ipc, PipeServer, TcpServer): the replies of the TCP server
      depend on the bytes and not on how they are cut; the pipe answers each
      message once;
      its handle is never used after it was closed, except by a cancellation;
      the TCP server holds its own sockets only, and stopping it ends in every
      run, though it closes its client twice.
    - Logging (Logger, LogRotator): console, files, callback, listeners and ring
      receive the entries in their order, and the writer delivers all of them
      while the logger runs; recent entries are the latest; a rotation keeps the
      log in the log, its renamed file or a whole archive, unless the scans for
      old files delete it.
    - The service (Service): in every reachable state, between the settings of a
      reload excepted, capture and relay agree on the proxy and the provider, and
      the capture is whole; what a reload applies; what a stop releases and what
      it leaves; the command line closes every handle of the service manager
      (EntryPoint).
    - The rest (ProxyEngine, Hook, Sspi, WinDivertDriver): a session releases
      its sockets, but not Winsock, and its bridge ends when both directions
      have; the detour is
      a round trip; handles are released.
    - Tests (MockProxy, TestTools, UnitTests): the relay always reaches a tunnel
      through the test proxy, which serves one client at a time and logs its
      last line to a closed file; where the tested parsers differ from the
      programs; the unit tests pass on the models for every sorting function,
      and the two threads of the last leave exactly the ports they mean to.
    - Behaviour that differs from its documentation is stated as it is:
      substring rules, stale DIRECT decisions after a FIN, unloading with pending
      redirects, requests with short buffers, numbered agent requests, a broken
      agent pipe, a failing recv of the CONNECT answer, a stop that is lost or
      reopened, a pipe that waits for its client, a context freed
      in use, log entries lost at shutdown,
      archives that are never deleted, a trampoline that goes astray.

    * Bounds and fuel

    [auth_fuel] 6 and [gateway_fuel] 4 exceed the retry limits 5 and 3 that
    the code tests, and [Relay.handler_is_bounded] and
    [Relay.handler_owns_its_resources] hold for every run, so no run uses them
    up; [send_all] takes the length of its chunk, each turn sending at least a
    byte; the process tree walk has the 10 turns of the source; the drain of
    Stop its 50, the wait for the kernel driver its 30; [process_lines] takes the
    length of its input, each line of which consumes a byte; [parse_fuel] is two
    turns for each byte and two more, which [JsonParse.parser_terminates] shows
    to be enough; [scan_string] takes the length of its input, and the loops of
    Lexer that of what the input adapter has left, and one, which
    [ParseErrors.parser_refines_reference] shows to be enough;
    [count_digits] and [write_digits] have the 5 and 10 turns that 20 digits
    need; [normalize] has 64 turns, one for each bit; [round_fuel] 10 exceeds
    the 9 turns in which a digit reaches zero, and [fraction_fuel] 20 the 19 in
    which [delta] would outgrow 64 bits, as the lemmas of file Grisu show;
    [OneWayRelay] reports a run longer than its fuel as unfinished,
    and the theorems on it say what holds then.  [to_string] has 20 digits, as
    a 64-bit value needs.  The theorems on 32- and 64-bit counters state the
    number of calls they hold for.

    * What is not modelled

    The C# user interface, third-party code (WinDivert, boost, and of
    nlohmann::json what the program does not use: comments, callbacks, lenient
    error handlers, binary formats, pointers, patches) and packaging.  [strtod]
    belongs to the C library and is written as the correctly rounding function
    that its documentation promises.  The texts of log
    messages, console colours and most paths of files are left out.  In Service the proxy
    engine, which the service initializes and never asks for a session, is left
    out; its own file models it.  The push messages of TcpIpcServer are empty. *)

From stdpp Require Export base list gmap.
From Stdlib Require Export ZArith Lia.
From Stdlib Require String Ascii.
Export String.StringSyntax.

#[global] Open Scope Z_scope.

(** * Machine integers

    An unsigned w-bit integer is a [Z] in [0, 2^w); a signed one is a [Z] in
    [-2^(w-1), 2^(w-1)).  [wrap] and [swrap] are the conversions C and C++
    apply on assignment (modular, as MSVC does for signed types too). *)

Definition wrap (w z : Z) : Z := z mod 2 ^ w.

Definition swrap (w z : Z) : Z :=
  let m := z mod 2 ^ w in if m <? 2 ^ (w - 1) then m else m - 2 ^ w.

Definition in_u (w z : Z) : Prop := 0 <= z < 2 ^ w.
Definition in_s (w z : Z) : Prop := - 2 ^ (w - 1) <= z < 2 ^ (w - 1).

Abbreviation is_byte := (in_u 8).

Declare Scope word_scope.
Delimit Scope word_scope with word.
Notation "x +u8 y" := (wrap 8 (x + y)) (at level 50, left associativity) : word_scope.
Notation "x +u32 y" := (wrap 32 (x + y)) (at level 50, left associativity) : word_scope.
Notation "x -u32 y" := (wrap 32 (x - y)) (at level 50, left associativity) : word_scope.
Notation "x +u64 y" := (wrap 64 (x + y)) (at level 50, left associativity) : word_scope.
Notation "x -u64 y" := (wrap 64 (x - y)) (at level 50, left associativity) : word_scope.
Notation "x +i32 y" := (swrap 32 (x + y)) (at level 50, left associativity) : word_scope.
Notation "x +i64 y" := (swrap 64 (x + y)) (at level 50, left associativity) : word_scope.
Notation "x -i32 y" := (swrap 32 (x - y)) (at level 50, left associativity) : word_scope.
#[global] Open Scope word_scope.

Lemma wrap_range w z : 0 <= w → in_u w (wrap w z).
Proof. intros Hw. apply Z.mod_pos_bound. by apply Z.pow_pos_nonneg. Qed.

Lemma wrap_small w z : in_u w z → wrap w z = z.
Proof. apply Z.mod_small. Qed.

Lemma wrap_wrap w z : wrap w (wrap w z) = wrap w z.
Proof. apply Zmod_mod. Qed.

Lemma wrap_add_l w x y : wrap w (wrap w x + y) = wrap w (x + y).
Proof. apply Zplus_mod_idemp_l. Qed.

Lemma wrap_add_r w x y : wrap w (x + wrap w y) = wrap w (x + y).
Proof. apply Zplus_mod_idemp_r. Qed.

Lemma swrap_small w z : 0 < w → in_s w z → swrap w z = z.
Proof.
  unfold in_s, swrap. intros Hw Hz.
  assert (H2 : 2 ^ w = 2 * 2 ^ (w - 1)).
  { rewrite <- Z.pow_succ_r by lia. f_equal. lia. }
  destruct (decide (0 <= z)) as [Hp|Hn].
  - rewrite (Z.mod_small z) by lia.
    destruct (Z.ltb_spec z (2 ^ (w - 1))); lia.
  - replace (z mod 2 ^ w) with (z + 2 ^ w).
    + destruct (Z.ltb_spec (z + 2 ^ w) (2 ^ (w - 1))); lia.
    + replace z with ((z + 2 ^ w) + (-1) * 2 ^ w) at 2 by lia.
      rewrite Z_mod_plus_full. symmetry. apply Z.mod_small. lia.
Qed.

(** [swrap] differs from its argument by a multiple of 2^w. *)
Lemma swrap_eq w z : ∃ k, swrap w z = z + k * 2 ^ w.
Proof.
  unfold swrap. destruct (Z.ltb_spec (z mod 2 ^ w) (2 ^ (w - 1))).
  - exists (- (z / 2 ^ w)). pose proof (Z_div_mod_eq_full z (2 ^ w)). lia.
  - exists (- (z / 2 ^ w) - 1). pose proof (Z_div_mod_eq_full z (2 ^ w)). lia.
Qed.

Lemma swrap_range w z : 0 < w → in_s w (swrap w z).
Proof.
  intros Hw. unfold in_s, swrap.
  assert (H2 : 2 ^ w = 2 * 2 ^ (w - 1)).
  { rewrite <- Z.pow_succ_r by lia. f_equal. lia. }
  assert (0 <= z mod 2 ^ w < 2 ^ w)
    by (apply Z.mod_pos_bound, Z.pow_pos_nonneg; lia).
  destruct (Z.ltb_spec (z mod 2 ^ w) (2 ^ (w - 1))); lia.
Qed.

Create HintDb word discriminated.
Create Rewrite HintDb word.
#[export] Hint Resolve wrap_range swrap_range wrap_small : word.
#[export] Hint Rewrite wrap_wrap wrap_add_l wrap_add_r : word.

(** Division and remainder by constants, for goals with bytes and digits. *)
Ltac zdivmod := unfold in_u in *; Z.div_mod_to_equations; nia.
Ltac zdivmod_lia := unfold in_u in *; Z.div_mod_to_equations; lia.

(** Masks and disjoint sums. *)
Lemma land_ones_mod x k n : 0 <= k → n = Z.ones k → Z.land x n = x mod 2 ^ k.
Proof. intros Hk ->. by apply Z.land_ones. Qed.

Lemma lor_shiftl_add x y k :
  0 <= k → 0 <= y < 2 ^ k → Z.lor (Z.shiftl x k) y = x * 2 ^ k + y.
Proof.
  intros Hk Hy. rewrite <- Z.shiftl_mul_pow2 by done.
  assert (Z.land (Z.shiftl x k) y = 0) as H0.
  { apply Z.bits_inj'. intros n Hn. rewrite Z.land_spec, Z.bits_0.
    destruct (decide (n < k)).
    - by rewrite Z.shiftl_spec_low.
    - rewrite <- (Z.mod_small y (2 ^ k)) by lia.
      rewrite Z.mod_pow2_bits_high by lia. by rewrite andb_false_r. }
  rewrite Z.add_nocarry_lxor by done. symmetry. by apply Z.lxor_lor.
Qed.

(** Exhaustive check of a range, for facts about 16-bit values. *)
Fixpoint all_from (n : nat) (z : Z) (p : Z → bool) : bool :=
  match n with
  | O => true
  | S n' => if p z then all_from n' (z + 1) p else false
  end.

Lemma all_from_spec n z p x :
  all_from n z p = true → z <= x < z + Z.of_nat n → p x = true.
Proof.
  revert z. induction n as [|n IH]; intros z H Hx; [lia|].
  cbn [all_from] in H. destruct (p z) eqn:E; [|done].
  destruct (decide (x = z)) as [->|Hne]; [done|]. apply (IH (z + 1)); [done|lia].
Qed.

(** * Case analysis *)

(** Destruct the scrutinee of some [match]/[if] of the goal. *)
Ltac case_match_goal :=
  match goal with
  | |- context [match ?x with _ => _ end] =>
      lazymatch x with context [match _ with _ => _ end] => fail | _ => idtac end;
      destruct x eqn:?
  end.

(** Turn boolean (in)equality hypotheses into propositions. *)
Ltac bool_to_prop :=
  repeat match goal with
  | H : (_ =? _) = true |- _ => apply Z.eqb_eq in H
  | H : (_ =? _) = false |- _ => apply Z.eqb_neq in H
  | H : (_ <? _) = true |- _ => apply Z.ltb_lt in H
  | H : (_ <? _) = false |- _ => apply Z.ltb_ge in H
  | H : (_ <=? _) = true |- _ => apply Z.leb_le in H
  | H : (_ <=? _) = false |- _ => apply Z.leb_gt in H
  | H : andb _ _ = true |- _ => apply andb_prop in H as [??]
  | H : orb _ _ = false |- _ => apply orb_false_elim in H as [??]
  | H : negb _ = true |- _ => apply negb_true_iff in H
  | H : negb _ = false |- _ => apply negb_false_iff in H
  end.

(** * Lists *)

(** First element satisfying a boolean test: the shape of every linear
    search of the code (bucket chains, rule lists, process tables). *)
Fixpoint find_first {A} (p : A → bool) (l : list A) : option A :=
  match l with
  | [] => None
  | x :: l' => if p x then Some x else find_first p l'
  end.

(** Update the first element satisfying the test, as a search loop that
    writes through the pointer it found and returns. *)
Fixpoint update_first {A} (p : A → bool) (f : A → A) (l : list A) : list A :=
  match l with
  | [] => []
  | x :: l' => if p x then f x :: l' else x :: update_first p f l'
  end.

(** Unlink the first element satisfying the test. *)
Fixpoint remove_first {A} (p : A → bool) (l : list A) : list A :=
  match l with
  | [] => []
  | x :: l' => if p x then l' else x :: remove_first p l'
  end.

Definition filterb {A} (p : A → bool) (l : list A) : list A := List.filter p l.

Section list_search.
Context {A : Type} (p : A → bool).
Implicit Types (l : list A) (f : A → A).

Lemma find_first_Some l x :
  find_first p l = Some x →
  ∃ l1 l2, l = l1 ++ x :: l2 ∧ p x = true ∧ Forall (λ y, p y = false) l1.
Proof.
  induction l as [|y l IH]; simpl; [done|].
  destruct (p y) eqn:Hy; intros H.
  - injection H as ->. exists [], l. auto.
  - destruct (IH H) as (l1 & l2 & -> & ? & ?). exists (y :: l1), l2. auto.
Qed.

Lemma find_first_None l : find_first p l = None ↔ Forall (λ y, p y = false) l.
Proof.
  induction l as [|y l IH]; simpl; [done|].
  destruct (p y) eqn:Hy; rewrite Forall_cons; [|rewrite IH; tauto].
  split; [done|]. intros [? _]. congruence.
Qed.

Lemma find_first_filter l : find_first p l = head (filterb p l).
Proof. induction l as [|y l IH]; simpl; [done|]. by destruct (p y). Qed.

Lemma length_update_first f l : length (update_first p f l) = length l.
Proof. induction l as [|y l IH]; simpl; [done|]. destruct (p y); simpl; auto. Qed.

Lemma remove_first_length l :
  length (remove_first p l) =
  match find_first p l with Some _ => pred (length l) | None => length l end.
Proof.
  induction l as [|y l IH]; simpl; [done|].
  destruct (p y); simpl; [done|]. rewrite IH.
  destruct (find_first p l) eqn:E; [|done].
  destruct l; simpl in *; [done|lia].
Qed.

Lemma update_first_None f l : find_first p l = None → update_first p f l = l.
Proof.
  induction l as [|y l IH]; simpl; [done|].
  destruct (p y); [done|]. intros H. by rewrite IH.
Qed.

Lemma remove_first_None l : find_first p l = None → remove_first p l = l.
Proof.
  induction l as [|y l IH]; simpl; [done|].
  destruct (p y); [done|]. intros H. by rewrite IH.
Qed.
End list_search.

Section list_search_Forall.
Context {A : Type} (p : A → bool) (P : A → Prop).

Lemma Forall_update_first f l :
  Forall P l → (∀ x, P x → p x = true → P (f x)) → Forall P (update_first p f l).
Proof.
  intros HF Hf. induction HF as [|y l Hy ? IH]; simpl; [done|].
  destruct (p y) eqn:E; constructor; auto.
Qed.

Lemma Forall_remove_first l : Forall P l → Forall P (remove_first p l).
Proof.
  intros HF. induction HF as [|y l Hy ? IH]; simpl; [done|].
  destruct (p y) eqn:E; auto.
Qed.
End list_search_Forall.

(** A filter on a test disjoint from the one searched is not affected. *)
Lemma filterb_update_first_other {A} (p q : A → bool) f (l : list A) :
  (∀ x, p x = true → q x = false ∧ q (f x) = false) →
  filterb q (update_first p f l) = filterb q l.
Proof.
  intros Hd. induction l as [|y l IH]; simpl; [done|].
  destruct (p y) eqn:E; simpl.
  - destruct (Hd y E) as [-> ->]. done.
  - by rewrite IH.
Qed.

Lemma filterb_remove_first_other {A} (p q : A → bool) (l : list A) :
  (∀ x, p x = true → q x = false) →
  filterb q (remove_first p l) = filterb q l.
Proof.
  intros Hd. induction l as [|y l IH]; simpl; [done|].
  destruct (p y) eqn:E; simpl; [by rewrite Hd|by rewrite IH].
Qed.

Lemma filterb_remove_first_same {A} (p : A → bool) (l : list A) :
  filterb p (remove_first p l) = tail (filterb p l).
Proof.
  induction l as [|y l IH]; simpl; [done|].
  destruct (p y) eqn:E; simpl; [done|]. by rewrite E.
Qed.

Lemma filterb_update_first_same {A} (p q : A → bool) f (l : list A) :
  (∀ x, p x = true → q x = true) → (∀ x, q x = true → q (f x) = true) →
  filterb q (update_first p f l) = update_first p f (filterb q l).
Proof.
  intros Hpq Hf. induction l as [|y l IH]; simpl; [done|].
  destruct (p y) eqn:E; simpl.
  - rewrite (Hf y), (Hpq y) by auto. simpl. by rewrite E.
  - destruct (q y) eqn:Eq; simpl; [rewrite E|]; by rewrite IH.
Qed.

Create HintDb lists discriminated.
Create Rewrite HintDb lists.
#[export] Hint Resolve Forall_update_first Forall_remove_first : lists.
#[export] Hint Rewrite @length_update_first : lists.
