(* ===== verification/Text.v ===== *)
(** Strings of the C and C++ runtime: narrow strings are lists of bytes, wide
    strings lists of UTF-16 code units, both as [list Z].  The operations of
    [std::string], [std::wstring] and the C string functions that the program
    calls are defined here, with the lemmas that characterise them. *)

From S2P Require Import Prelude.

Abbreviation text := (list Z).

(** Literal text of the sources. *)
Definition lit (s : String.string) : text :=
  List.map (λ a, Z.of_N (Ascii.N_of_ascii a)) (String.list_ascii_of_string s).

Arguments lit s%_string_scope.

Definition text_eqb (s t : text) : bool := bool_decide (s = t).

(** [std::to_string] of an unsigned value, by repeated division. *)
Fixpoint digits_of (fuel : nat) (z : Z) : text :=
  match fuel with
  | O => []
  | S f => if z <? 10 then [48 + z] else digits_of f (z / 10) ++ [48 + z mod 10]
  end.

(** 20 digits hold any 64-bit value. *)
Definition to_string (z : Z) : text :=
  if z <? 0 then 45 :: digits_of 20 (- z) else digits_of 20 z.

(** Inverse reading of decimal digits, used to state round trips. *)
Definition value_of (s : text) : Z := fold_left (λ acc c, acc * 10 + (c - 48)) s 0.

(** * Searching *)

Fixpoint prefixb (p s : text) : bool :=
  match p, s with
  | [], _ => true
  | a :: p', b :: s' => (a =? b) && prefixb p' s'
  | _ :: _, [] => false
  end.

(** [s.find(pat)]: the lowest position where [pat] occurs. *)
Fixpoint find_sub (pat s : text) : option nat :=
  if prefixb pat s then Some O
  else match s with
       | [] => None
       | _ :: s' => match find_sub pat s' with Some n => Some (S n) | None => None end
       end.

Definition contains (pat s : text) : bool :=
  match find_sub pat s with Some _ => true | None => false end.

(** [s.find_first_of(set, pos)] with [pos] already applied by [drop]. *)
Fixpoint find_first_of (set s : text) : option nat :=
  match s with
  | [] => None
  | c :: s' =>
      if existsb (Z.eqb c) set then Some O
      else match find_first_of set s' with Some n => Some (S n) | None => None end
  end.

(** [s.find_last_of(set)] / [wcsrchr]: the part of [s] after the last
    character of [set], and whether there was one. *)
Fixpoint after_last_of (set s : text) : option text :=
  match s with
  | [] => None
  | c :: s' =>
      match after_last_of set s' with
      | Some t => Some t
      | None => if existsb (Z.eqb c) set then Some s' else None
      end
  end.

(** The part up to and including the last character of [set]. *)
Definition upto_last_of (set s : text) : option text :=
  match after_last_of set s with
  | Some t => Some (take (length s - length t) s)
  | None => None
  end.

(** A C string ends at its first NUL. *)
Fixpoint cstr (s : text) : text :=
  match s with
  | [] => []
  | c :: s' => if c =? 0 then [] else c :: cstr s'
  end.

(** [strstr(hay, needle) != nullptr], both NUL-terminated. *)
Definition strstr (hay needle : text) : bool := contains (cstr needle) (cstr hay).

(** [std::string(s).pop_back()] while the last character satisfies [p]. *)
Fixpoint drop_while (p : Z → bool) (s : text) : text :=
  match s with
  | [] => []
  | c :: s' => if p c then drop_while p s' else s
  end.

Definition rstrip (p : Z → bool) (s : text) : text := rev (drop_while p (rev s)).

Fixpoint take_while (p : Z → bool) (s : text) : text :=
  match s with
  | [] => []
  | c :: s' => if p c then c :: take_while p s' else []
  end.

Definition digit_char (c : Z) : bool := (48 <=? c) && (c <=? 57).

(** ASCII part of [towlower] as used with the C locale. *)
Definition lower_c (c : Z) : Z := if (65 <=? c) && (c <=? 90) then c + 32 else c.

(** * Conversions *)

(** [infrastructure/utf8_convert.h]: both functions give the empty string for
    the empty string and when the system call refuses the text; the conversion
    itself is the operating system's. *)
Section utf8.
Context (MultiByteToWideChar WideCharToMultiByte : text → option text).

Definition Utf8ToWide (s : text) : text :=
  match s with
  | [] => []
  | _ => match MultiByteToWideChar s with Some ws => ws | None => [] end
  end.

Definition WideToUtf8 (ws : text) : text :=
  match ws with
  | [] => []
  | _ => match WideCharToMultiByte ws with Some s => s | None => [] end
  end.

End utf8.

(** * Properties *)

Lemma text_eqb_spec s t : text_eqb s t = true ↔ s = t.
Proof. unfold text_eqb. apply bool_decide_eq_true. Qed.

Lemma prefixb_spec p s : prefixb p s = true ↔ ∃ t, s = p ++ t.
Proof.
  revert s. induction p as [|a p IH]; intros s; simpl.
  - split; [eauto|done].
  - destruct s as [|b s].
    + split; [done|]. intros [t Ht]. done.
    + rewrite andb_true_iff, Z.eqb_eq, IH. split.
      * intros [-> [t ->]]. eauto.
      * intros [t [= -> ->]]. eauto.
Qed.

Lemma prefixb_length p s : prefixb p s = true → (length p <= length s)%nat.
Proof. rewrite prefixb_spec. intros [t ->]. rewrite length_app. lia. Qed.

Lemma find_sub_Some pat s n :
  find_sub pat s = Some n →
  prefixb pat (drop n s) = true ∧ (n <= length s)%nat ∧
  ∀ m, (m < n)%nat → prefixb pat (drop m s) = false.
Proof.
  revert n. induction s as [|c s IH]; intros n; cbn [find_sub].
  - destruct (prefixb pat []) eqn:E; [|done]. intros [= <-]. simpl. split; [done|]. split; lia.
  - destruct (prefixb pat (c :: s)) eqn:E.
    + intros [= <-]. split; [done|]. split; [simpl; lia|lia].
    + destruct (find_sub pat s) as [k|] eqn:Ek; [|done]. intros [= <-].
      destruct (IH k eq_refl) as (H1 & H2 & H3). simpl. split; [done|]. split; [lia|].
      intros [|m] Hm; [exact E|]. simpl. apply H3. lia.
Qed.

Lemma find_sub_None pat s :
  find_sub pat s = None → ∀ m, prefixb pat (drop m s) = false.
Proof.
  induction s as [|c s IH]; cbn [find_sub]; intros H m.
  - destruct (prefixb pat []) eqn:E; [done|]. by rewrite drop_nil.
  - destruct (prefixb pat (c :: s)) eqn:E; [done|].
    destruct (find_sub pat s) eqn:Ek; [done|].
    destruct m as [|m]; [exact E|]. simpl. by apply IH.
Qed.

(** [contains] is "occurs as a substring". *)
Lemma contains_spec pat s : contains pat s = true ↔ ∃ a b, s = a ++ pat ++ b.
Proof.
  unfold contains. destruct (find_sub pat s) as [n|] eqn:E.
  - apply find_sub_Some in E as (H & Hn & _). apply prefixb_spec in H as [t Ht].
    split; [intros _|done]. exists (take n s), t. by rewrite <- Ht, take_drop.
  - split; [done|]. intros (a & b & ->).
    pose proof (find_sub_None _ _ E (length a)) as H.
    rewrite drop_app_length in H.
    assert (prefixb pat (pat ++ b) = true) by (apply prefixb_spec; eauto). congruence.
Qed.

Lemma contains_refl s : contains s s = true.
Proof. apply contains_spec. exists [], []. by rewrite app_nil_r. Qed.

Lemma contains_nil s : contains [] s = true.
Proof. apply contains_spec. by exists [], s. Qed.

Lemma contains_app pat a b : contains pat (a ++ pat ++ b) = true.
Proof. apply contains_spec. eauto. Qed.

Lemma find_first_of_spec set s n :
  find_first_of set s = Some n →
  (n < length s)%nat ∧ Forall (λ c, existsb (Z.eqb c) set = false) (take n s).
Proof.
  revert n. induction s as [|c s IH]; intros n; simpl; [done|].
  destruct (existsb (Z.eqb c) set) eqn:E.
  - intros [= <-]. simpl. split; [lia|done].
  - destruct (find_first_of set s) as [k|] eqn:Ek; [|done]. intros [= <-].
    destruct (IH k eq_refl). simpl. split; [lia|]. by constructor.
Qed.

Lemma find_first_of_app_sep set a c b :
  Forall (λ x, existsb (Z.eqb x) set = false) a → existsb (Z.eqb c) set = true →
  find_first_of set (a ++ c :: b) = Some (length a).
Proof.
  intros Ha Hc. induction Ha as [|x a Hx _ IH]; simpl; [by rewrite Hc|].
  by rewrite Hx, IH.
Qed.

Lemma cstr_no_nul s : Forall (λ c, c ≠ 0) (cstr s).
Proof.
  induction s as [|c s IH]; simpl; [done|].
  destruct (Z.eqb_spec c 0); constructor; auto.
Qed.

Lemma cstr_id s : Forall (λ c, c ≠ 0) s → cstr s = s.
Proof.
  induction 1 as [|c s Hc _ IH]; simpl; [done|].
  destruct (Z.eqb_spec c 0); [done|]. by rewrite IH.
Qed.

Lemma cstr_app_nul s t : Forall (λ c, c ≠ 0) s → cstr (s ++ 0 :: t) = s.
Proof.
  induction 1 as [|c s Hc _ IH]; simpl; [done|].
  destruct (Z.eqb_spec c 0); [done|]. by rewrite IH.
Qed.

Lemma after_last_of_spec set s t :
  after_last_of set s = Some t →
  ∃ a c, s = a ++ c :: t ∧ existsb (Z.eqb c) set = true ∧
         Forall (λ x, existsb (Z.eqb x) set = false) t.
Proof.
  assert (HN : ∀ s, after_last_of set s = None →
                Forall (λ x, existsb (Z.eqb x) set = false) s).
  { induction s0 as [|c s0 IH]; simpl; [done|].
    destruct (after_last_of set s0); [done|].
    destruct (existsb (Z.eqb c) set) eqn:E; [done|]. intros _. constructor; auto. }
  induction s as [|c s IH]; simpl; [done|].
  destruct (after_last_of set s) as [u|] eqn:E.
  - intros [= ->]. destruct (IH eq_refl) as (a & d & -> & ? & ?).
    exists (c :: a), d. auto.
  - destruct (existsb (Z.eqb c) set) eqn:Ec; [|done]. intros [= ->].
    exists [], c. auto.
Qed.

(** Decimal printing is injective: the digits read back to the value. *)
Lemma value_of_app s c : value_of (s ++ [c]) = value_of s * 10 + (c - 48).
Proof. unfold value_of. by rewrite fold_left_app. Qed.

Lemma value_of_digits fuel z :
  0 <= z < 10 ^ Z.of_nat fuel → value_of (digits_of fuel z) = z.
Proof.
  revert z. induction fuel as [|f IH]; intros z Hz.
  - simpl in *. assert (z = 0) by lia. by subst.
  - cbn [digits_of]. destruct (Z.ltb_spec z 10).
    + unfold value_of. simpl. lia.
    + rewrite value_of_app, IH; [zdivmod_lia|].
      rewrite Nat2Z.inj_succ, Z.pow_succ_r in Hz by lia. zdivmod_lia.
Qed.

Lemma value_of_to_string z : 0 <= z < 10 ^ 20 → value_of (to_string z) = z.
Proof.
  intros Hz. unfold to_string. destruct (Z.ltb_spec z 0); [lia|].
  apply value_of_digits. exact Hz.
Qed.

Lemma digits_of_range f x : 0 <= x → Forall (λ c, 48 <= c <= 57) (digits_of f x).
Proof.
  revert x. induction f as [|f IH]; intros x Hx; cbn [digits_of]; [constructor|].
  destruct (Z.ltb_spec x 10); [repeat constructor; lia|].
  apply Forall_app. split; [apply IH; zdivmod_lia|]. constructor; [zdivmod_lia|constructor].
Qed.

(** Visible ASCII, and text without control characters, which is one line. *)
Abbreviation plain := (Forall (λ b, 0x20 <= b < 0x80)).
Abbreviation visible := (Forall (λ b, 0x20 <= b)).

Lemma plain_forallb s : forallb (λ b, (0x20 <=? b) && (b <? 0x80)) s = true → plain s.
Proof.
  intros H. apply Forall_forall. intros b Hb%list_elem_of_In. rewrite forallb_forall in H. apply H in Hb.
  bool_to_prop. lia.
Qed.

Lemma plain_visible s : plain s → visible s.
Proof. intros H. eapply Forall_impl; [exact H|]. cbn. lia. Qed.

Lemma to_string_plain z : plain (to_string z).
Proof.
  assert (Hd : ∀ f x, 0 <= x → plain (digits_of f x)).
  { intros f x Hx. eapply Forall_impl; [by apply digits_of_range|]. cbn. lia. }
  unfold to_string. destruct (Z.ltb_spec z 0); [constructor; [lia|]|]; apply Hd; lia.
Qed.

Lemma cstr_Forall (P : Z → Prop) s : Forall P s → Forall P (cstr s).
Proof. induction 1 as [|c s Hc _ IH]; cbn [cstr]; [constructor|]. destruct (c =? 0); by constructor. Qed.

(** The literals and numbers of a text are visible; what is left is not. *)
Ltac visible_text :=
  repeat first [by apply plain_visible, plain_forallb | by apply plain_visible, to_string_plain
               | apply Forall_app; split | done].

Create HintDb text discriminated.
#[export] Hint Resolve contains_refl contains_nil contains_app : text.
