(* ===== verification/Base64.v ===== *)
(** The Base64 codecs of the program.  Four files carry their own encoder and
    three their own decoder; they are modelled one by one, shown to agree where
    they do, and to invert each other on every byte string.

    - [TcpRelayServer::Base64Encode], [SspiBase64Encode]: index loop, step 3.
    - [BasicAuthenticationProvider], [SspiEngine] (agent), [ConfigManager],
      [ProxySession]: streaming loop over a three-byte buffer.
    - decoders: a 32-bit accumulator [val] and a bit count [valb]. *)

From S2P Require Import Prelude.
From S2P Require Import Text.

Definition kBase64 : text :=
  lit "ABCDEFGHIJKLMNOPQRSTUVWXYZabcdefghijklmnopqrstuvwxyz0123456789+/".

Definition b64_char (i : Z) : Z := nth (Z.to_nat i) kBase64 0.

Definition pad : Z := 61. (* '=' *)

(** * Encoders *)

(** [SspiBase64Encode] and [TcpRelayServer::Base64Encode]: one 24-bit group
    per step, the bytes past the end left out of it. *)
Fixpoint SspiBase64Encode (data : text) : text :=
  match data with
  | [] => []
  | d0 :: [] =>
      let b := Z.shiftl d0 16 in
      [b64_char (Z.land (Z.shiftr b 18) 63); b64_char (Z.land (Z.shiftr b 12) 63); pad; pad]
  | d0 :: d1 :: [] =>
      let b := Z.lor (Z.shiftl d0 16) (Z.shiftl d1 8) in
      [b64_char (Z.land (Z.shiftr b 18) 63); b64_char (Z.land (Z.shiftr b 12) 63);
       b64_char (Z.land (Z.shiftr b 6) 63); pad]
  | d0 :: d1 :: d2 :: rest =>
      let b := Z.lor (Z.lor (Z.shiftl d0 16) (Z.shiftl d1 8)) d2 in
      [b64_char (Z.land (Z.shiftr b 18) 63); b64_char (Z.land (Z.shiftr b 12) 63);
       b64_char (Z.land (Z.shiftr b 6) 63); b64_char (Z.land b 63)]
      ++ SspiBase64Encode rest
  end.

(** The four sextets of a full buffer [c3] (or [a3]), as [unsigned char]. *)
Definition sextet0 (c0 : Z) : Z := Z.shiftr (Z.land c0 252) 2.
Definition sextet1 (c0 c1 : Z) : Z :=
  Z.shiftl (Z.land c0 3) 4 + Z.shiftr (Z.land c1 240) 4.
Definition sextet2 (c1 c2 : Z) : Z :=
  Z.shiftl (Z.land c1 15) 2 + Z.shiftr (Z.land c2 192) 6.
Definition sextet3 (c2 : Z) : Z := Z.land c2 63.

(** Body of the streaming loop: append the byte to the buffer and, when it
    holds three, emit four characters and reset [i]. *)
Definition stream_step (st : text * text) (c : Z) : text * text :=
  match st with
  | (out, [c0; c1]) =>
      (out ++ [b64_char (sextet0 c0); b64_char (sextet1 c0 c1);
               b64_char (sextet2 c1 c); b64_char (sextet3 c)], [])
  | (out, buf) => (out, buf ++ [c])
  end.

(** Tail of [ConfigManager::Base64Encode] and [ProxySession::Base64Encode]:
    zero fill, then [i + 1] characters and [3 - i] pads. *)
Definition flush_config (st : text * text) : text :=
  match st with
  | (out, []) => out
  | (out, buf) =>
      let c0 := nth 0 buf 0 in let c1 := nth 1 buf 0 in let c2 := nth 2 buf 0 in
      out ++ take (length buf + 1)
               [b64_char (sextet0 c0); b64_char (sextet1 c0 c1); b64_char (sextet2 c1 c2)]
          ++ repeat pad (3 - length buf)
  end.

(** Tail of [BasicAuthenticationProvider::Base64Encode] and
    [SspiEngine::Base64Encode]. *)
Definition flush_basic (st : text * text) : text :=
  match st with
  | (out, []) => out
  | (out, buf) =>
      let c0 := nth 0 buf 0 in let c1 := nth 1 buf 0 in let c2 := nth 2 buf 0 in
      out ++ [b64_char (sextet0 c0); b64_char (sextet1 c0 c1)]
          ++ (if (length buf =? 2)%nat then [b64_char (sextet2 c1 c2)] else [pad])
          ++ [pad]
  end.

Definition ConfigBase64Encode (data : text) : text :=
  flush_config (fold_left stream_step data ([], [])).

Definition BasicBase64Encode (data : text) : text :=
  flush_basic (fold_left stream_step data ([], [])).

(** The remaining copies.  [TcpRelayServer::Base64Encode] repeats the index
    loop; [ProxySession::Base64Encode] repeats ConfigManager's streaming loop
    and tail; the agent's [SspiEngine::Base64Encode] repeats Basic's. *)
Definition RelayBase64Encode (in_ : text) : text := SspiBase64Encode in_.
Definition ProxyBase64Encode (input : text) : text :=
  flush_config (fold_left stream_step input ([], [])).
Definition EngineBase64Encode (data : text) : text :=
  flush_basic (fold_left stream_step data ([], [])).

Definition all_encoders : list (text → text) :=
  [SspiBase64Encode; RelayBase64Encode; ConfigBase64Encode; ProxyBase64Encode;
   BasicBase64Encode; EngineBase64Encode].

(** * Decoders *)

Inductive b64_class := Digit (v : Z) | Skip | Stop.

(** The common loop: [val = (val << 6) + D[c]; valb += 6; if (valb >= 0)
    push (val >> valb) & 0xFF, valb -= 8], on a 32-bit [int]. *)
Fixpoint decode_loop (cls : Z → b64_class) (val valb : Z) (data : text) : text :=
  match data with
  | [] => []
  | c :: data' =>
      match cls c with
      | Stop => []
      | Skip => decode_loop cls val valb data'
      | Digit d =>
          let val := swrap 32 (Z.shiftl val 6 + d) in
          let valb := valb + 6 in
          if 0 <=? valb
          then Z.land (Z.shiftr val valb) 255 :: decode_loop cls val (valb - 8) data'
          else decode_loop cls val valb data'
      end
  end.

(** Value of an alphabet character, as the ranges the tables spell out. *)
Definition b64_value (c : Z) : option Z :=
  if (65 <=? c) && (c <=? 90) then Some (c - 65)
  else if (97 <=? c) && (c <=? 122) then Some (c - 97 + 26)
  else if (48 <=? c) && (c <=? 57) then Some (c - 48 + 52)
  else if c =? 43 then Some 62
  else if c =? 47 then Some 63
  else None.

(** [ConfigManager::Base64Decode]: D[] is 0xFF outside the alphabet, and
    such characters ('=' included) are skipped. *)
Definition config_class (c : Z) : b64_class :=
  match b64_value c with Some v => Digit v | None => Skip end.

(** [SspiBase64Decode]: '=' ends the data.  The initialiser of [D[256]] has
    128 elements, so the entries 128..255 are zero, not 0xFF. *)
Definition sspi_class (c : Z) : b64_class :=
  if c =? 61 then Stop
  else match b64_value c with
       | Some v => Digit v
       | None => if 128 <=? c then Digit 0 else Skip
       end.

(** [SspiEngine::Base64Decode] of the agent: 64 marks a character to skip,
    as does a character above 127. *)
Definition engine_class (c : Z) : b64_class :=
  if 128 <=? c then Skip
  else match b64_value c with Some v => Digit v | None => Skip end.

(** The accumulator of all three is an [int] whose left shift overflows after
    six digits: C++17 leaves that undefined, C++20 and the compiler of the
    project wrap. *)
Definition ConfigBase64Decode (data : text) : text := decode_loop config_class 0 (-8) data.
Definition SspiBase64Decode (data : text) : text := decode_loop sspi_class 0 (-8) data.
Definition EngineBase64Decode (data : text) : text := decode_loop engine_class 0 (-8) data.

Example encode_ex : SspiBase64Encode (lit "user:pass") = lit "dXNlcjpwYXNz".
Proof. reflexivity. Qed.
Example basic_encode_ex : BasicBase64Encode (lit "a:bc") = lit "YTpiYw==".
Proof. reflexivity. Qed.
Example config_decode_ex : ConfigBase64Decode (lit "YTpiYw==") = lit "a:bc".
Proof. reflexivity. Qed.

(** * The sextets of a group, arithmetically *)

(** Rewrite masks and shifts by constants into division and remainder. *)
Ltac bits_to_arith :=
  rewrite ?(land_ones_mod _ 6 63), ?(land_ones_mod _ 8 255), ?(land_ones_mod _ 4 15),
          ?(land_ones_mod _ 2 3) by done;
  rewrite ?Z.shiftr_div_pow2, ?Z.shiftl_mul_pow2 by lia;
  repeat match goal with
  | |- context [2 ^ ?k] => let v := eval vm_compute in (2 ^ k) in change (2 ^ k) with v
  end.

Lemma sextet0_eq c0 : is_byte c0 → sextet0 c0 = c0 / 4.
Proof.
  intros H. unfold sextet0. rewrite Z.shiftr_land.
  change (Z.shiftr 252 2) with 63. bits_to_arith. zdivmod_lia.
Qed.

Lemma sextet1_eq c0 c1 : is_byte c0 → is_byte c1 → sextet1 c0 c1 = c0 mod 4 * 16 + c1 / 16.
Proof.
  intros H0 H1. unfold sextet1. rewrite Z.shiftr_land.
  change (Z.shiftr 240 4) with 15. bits_to_arith. zdivmod_lia.
Qed.

Lemma sextet2_eq c1 c2 : is_byte c1 → is_byte c2 → sextet2 c1 c2 = c1 mod 16 * 4 + c2 / 64.
Proof.
  intros H0 H1. unfold sextet2. rewrite Z.shiftr_land.
  change (Z.shiftr 192 6) with 3. bits_to_arith. zdivmod_lia.
Qed.

Lemma sextet3_eq c2 : is_byte c2 → sextet3 c2 = c2 mod 64.
Proof. intros H. unfold sextet3. bits_to_arith. done. Qed.

Lemma group3_eq d0 d1 d2 :
  is_byte d0 → is_byte d1 → is_byte d2 →
  Z.lor (Z.lor (Z.shiftl d0 16) (Z.shiftl d1 8)) d2 = d0 * 65536 + d1 * 256 + d2.
Proof.
  unfold in_u. intros H0 H1 H2.
  rewrite <- Z.lor_assoc, (lor_shiftl_add d1) by lia.
  rewrite lor_shiftl_add by (simpl; lia). simpl. lia.
Qed.

Lemma group2_eq d0 d1 :
  is_byte d0 → is_byte d1 → Z.lor (Z.shiftl d0 16) (Z.shiftl d1 8) = d0 * 65536 + d1 * 256.
Proof.
  intros H0 H1. pose proof (group3_eq d0 d1 0 H0 H1) as H. rewrite Z.lor_0_r in H.
  rewrite H; unfold in_u; lia.
Qed.

(** * The encoders agree *)

(** Reference encoding: the RFC 4648 groups written arithmetically. *)
Fixpoint b64_spec (data : text) : text :=
  match data with
  | [] => []
  | a :: [] => [b64_char (a / 4); b64_char (a mod 4 * 16); pad; pad]
  | a :: b :: [] =>
      [b64_char (a / 4); b64_char (a mod 4 * 16 + b / 16); b64_char (b mod 16 * 4); pad]
  | a :: b :: c :: rest =>
      [b64_char (a / 4); b64_char (a mod 4 * 16 + b / 16);
       b64_char (b mod 16 * 4 + c / 64); b64_char (c mod 64)] ++ b64_spec rest
  end.

(** Induction by groups of three bytes. *)
Lemma triples_ind (P : text → Prop) :
  P [] → (∀ a, P [a]) → (∀ a b, P [a; b]) →
  (∀ a b c l, P l → P (a :: b :: c :: l)) → ∀ l, P l.
Proof.
  intros H0 H1 H2 H3 l.
  enough (P l ∧ (∀ a, P (a :: l)) ∧ (∀ a b, P (a :: b :: l))) by tauto.
  induction l as [|x l (IH & IH1 & IH2)]; [auto|].
  split; [auto|]. split; auto.
Qed.

Ltac forall_inv :=
  repeat match goal with
  | H : Forall _ (_ :: _) |- _ => apply Forall_cons in H as [? H]
  end.

Lemma SspiBase64Encode_spec data : Forall is_byte data → SspiBase64Encode data = b64_spec data.
Proof.
  induction data as [|a|a b|a b c l IH] using triples_ind; intros H; forall_inv;
    cbn [SspiBase64Encode b64_spec app].
  - done.
  - bits_to_arith. repeat (f_equal; try zdivmod_lia).
  - rewrite group2_eq by done. bits_to_arith. repeat (f_equal; try zdivmod_lia).
  - rewrite group3_eq, IH by done. bits_to_arith. repeat (f_equal; try zdivmod_lia).
Qed.

Lemma stream_fold_triple out a b c l :
  fold_left stream_step (a :: b :: c :: l) (out, []) =
  fold_left stream_step l
    (out ++ [b64_char (sextet0 a); b64_char (sextet1 a b);
             b64_char (sextet2 b c); b64_char (sextet3 c)], []).
Proof. done. Qed.

Lemma stream_encode_spec flush :
  (∀ out, flush (out, []) = out) →
  (∀ out a, is_byte a → flush (out, [a]) = out ++ b64_spec [a]) →
  (∀ out a b, is_byte a → is_byte b → flush (out, [a; b]) = out ++ b64_spec [a; b]) →
  ∀ data out, Forall is_byte data →
    flush (fold_left stream_step data (out, [])) = out ++ b64_spec data.
Proof.
  intros F0 F1 F2 data. induction data as [|a|a b|a b c l IH] using triples_ind;
    intros out H; forall_inv.
  - simpl. by rewrite F0, app_nil_r.
  - simpl. by apply F1.
  - simpl. by apply F2.
  - rewrite stream_fold_triple, IH by done. cbn [b64_spec].
    rewrite sextet0_eq, sextet1_eq, sextet2_eq, sextet3_eq by done.
    by rewrite app_assoc.
Qed.

Lemma byte_0 : is_byte 0.
Proof. unfold in_u. lia. Qed.
#[export] Hint Resolve byte_0 : word.

Lemma flush_pieces a b : is_byte a → is_byte b →
  b64_char (sextet1 a 0) = b64_char (a mod 4 * 16) ∧
  b64_char (sextet2 b 0) = b64_char (b mod 16 * 4).
Proof.
  intros Ha Hb. rewrite sextet1_eq, sextet2_eq by auto with word.
  rewrite !Z.div_0_l, !Z.add_0_r by done. done.
Qed.

Lemma flush_config_1 out a : is_byte a → flush_config (out, [a]) = out ++ b64_spec [a].
Proof.
  intros Ha. unfold flush_config. simpl.
  destruct (flush_pieces a a Ha Ha) as [-> _]. by rewrite sextet0_eq.
Qed.

Lemma flush_config_2 out a b :
  is_byte a → is_byte b → flush_config (out, [a; b]) = out ++ b64_spec [a; b].
Proof.
  intros Ha Hb. unfold flush_config. simpl.
  destruct (flush_pieces a b Ha Hb) as [_ ->]. by rewrite sextet0_eq, sextet1_eq.
Qed.

Lemma flush_basic_1 out a : is_byte a → flush_basic (out, [a]) = out ++ b64_spec [a].
Proof.
  intros Ha. unfold flush_basic. simpl.
  destruct (flush_pieces a a Ha Ha) as [-> _]. by rewrite sextet0_eq.
Qed.

Lemma flush_basic_2 out a b :
  is_byte a → is_byte b → flush_basic (out, [a; b]) = out ++ b64_spec [a; b].
Proof.
  intros Ha Hb. unfold flush_basic. simpl.
  destruct (flush_pieces a b Ha Hb) as [_ ->]. by rewrite sextet0_eq, sextet1_eq.
Qed.

Lemma ConfigBase64Encode_spec data :
  Forall is_byte data → ConfigBase64Encode data = b64_spec data.
Proof.
  intros H. apply (stream_encode_spec flush_config); auto using flush_config_1, flush_config_2.
Qed.

Lemma BasicBase64Encode_spec data :
  Forall is_byte data → BasicBase64Encode data = b64_spec data.
Proof.
  intros H. apply (stream_encode_spec flush_basic); auto using flush_basic_1, flush_basic_2.
Qed.

(** * The decoders invert the encoders *)

(** What a decoder table must say of the alphabet and of the padding. *)
Class B64Table (cls : Z → b64_class) : Prop := {
  b64_digit : ∀ i, 0 <= i < 64 → cls (b64_char i) = Digit i;
  b64_pad : cls pad = Skip ∨ cls pad = Stop
}.

Lemma table_digits (cls : Z → b64_class) :
  forallb (λ i, match cls (b64_char i) with Digit v => v =? i | _ => false end) (seqZ 0 64)
  = true →
  ∀ i, 0 <= i < 64 → cls (b64_char i) = Digit i.
Proof.
  intros H i Hi. rewrite forallb_forall in H.
  assert (In i (seqZ 0 64)) as Hin by (apply list_elem_of_In, elem_of_seqZ; lia).
  apply H in Hin. destruct (cls (b64_char i)); try done.
  apply Z.eqb_eq in Hin. by subst.
Qed.

#[export] Instance config_table : B64Table config_class.
Proof. split; [by apply table_digits; vm_compute|left; done]. Qed.
#[export] Instance sspi_table : B64Table sspi_class.
Proof. split; [by apply table_digits; vm_compute|right; done]. Qed.
#[export] Instance engine_table : B64Table engine_class.
Proof. split; [by apply table_digits; vm_compute|left; done]. Qed.

(** The low bits of the accumulator survive its wrap-around. *)
Lemma acc_byte x k :
  0 <= k <= 24 → Z.land (Z.shiftr (swrap 32 x) k) 255 = (x / 2 ^ k) mod 256.
Proof.
  intros Hk. rewrite (land_ones_mod _ 8 255), Z.shiftr_div_pow2 by (done || lia).
  destruct (swrap_eq 32 x) as [q ->].
  replace (q * 2 ^ 32) with (q * 2 ^ (32 - k) * 2 ^ k)
    by (rewrite <- Z.mul_assoc, <- Z.pow_add_r by lia; do 2 f_equal; lia).
  rewrite Z_div_plus_full by (apply Z.pow_nonzero; lia).
  replace (2 ^ (32 - k)) with (2 ^ (24 - k) * 2 ^ 8)
    by (rewrite <- Z.pow_add_r by lia; f_equal; lia).
  rewrite Z.mul_assoc. apply Z_mod_plus_full.
Qed.

Section decode.
Context (cls : Z → b64_class) `{!B64Table cls}.

Lemma decode_digit_low val valb d rest :
  0 <= d < 64 → valb < -6 →
  decode_loop cls val valb (b64_char d :: rest) =
  decode_loop cls (swrap 32 (Z.shiftl val 6 + d)) (valb + 6) rest.
Proof.
  intros Hd Hv. cbn [decode_loop]. rewrite b64_digit by done.
  destruct (Z.leb_spec 0 (valb + 6)); [lia|done].
Qed.

Lemma decode_digit_high val valb d rest :
  0 <= d < 64 → -6 <= valb <= 0 →
  decode_loop cls val valb (b64_char d :: rest) =
  ((val * 64 + d) / 2 ^ (valb + 6)) mod 256
    :: decode_loop cls (swrap 32 (Z.shiftl val 6 + d)) (valb - 2) rest.
Proof.
  intros Hd Hv. cbn [decode_loop]. rewrite b64_digit by done.
  destruct (Z.leb_spec 0 (valb + 6)); [|lia].
  rewrite acc_byte by lia. rewrite Z.shiftl_mul_pow2 by lia.
  f_equal. f_equal. lia.
Qed.

(** Decoding two, three or four digits of a group, from any accumulator. *)
Lemma decode_two val d0 d1 rest :
  0 <= d0 < 64 → 0 <= d1 < 64 →
  ∃ val', (val' mod 16 = d1 mod 16) ∧
  decode_loop cls val (-8) (b64_char d0 :: b64_char d1 :: rest) =
  d0 * 4 + d1 / 16 :: decode_loop cls val' (-4) rest.
Proof.
  intros H0 H1. rewrite decode_digit_low, decode_digit_high by lia.
  simpl (2 ^ _). eexists. split; [|f_equal; rewrite Z.shiftl_mul_pow2 by lia].
  - destruct (swrap_eq 32 (Z.shiftl (swrap 32 (Z.shiftl val 6 + d0)) 6 + d1)) as [q ->].
    rewrite Z.shiftl_mul_pow2 by lia. simpl. zdivmod_lia.
  - destruct (swrap_eq 32 (val * 2 ^ 6 + d0)) as [q ->]. simpl. zdivmod_lia.
Qed.

Lemma decode_third val d1 d2 rest :
  0 <= d1 < 64 → 0 <= d2 < 64 → val mod 16 = d1 mod 16 →
  ∃ val', (val' mod 4 = d2 mod 4) ∧
  decode_loop cls val (-4) (b64_char d2 :: rest) =
  d1 mod 16 * 16 + d2 / 4 :: decode_loop cls val' (-6) rest.
Proof.
  intros H1 H2 Hv. rewrite decode_digit_high by lia. simpl (2 ^ _).
  eexists. split; [|f_equal; zdivmod_lia].
  destruct (swrap_eq 32 (Z.shiftl val 6 + d2)) as [q ->].
  rewrite Z.shiftl_mul_pow2 by lia. simpl. zdivmod_lia.
Qed.

Lemma decode_fourth val d2 d3 rest :
  0 <= d2 < 64 → 0 <= d3 < 64 → val mod 4 = d2 mod 4 →
  ∃ val', decode_loop cls val (-6) (b64_char d3 :: rest) =
  d2 mod 4 * 64 + d3 :: decode_loop cls val' (-8) rest.
Proof.
  intros H1 H2 Hv. rewrite decode_digit_high by lia. simpl (2 ^ _).
  eexists. f_equal. zdivmod_lia.
Qed.

Lemma decode_pads val valb n : decode_loop cls val valb (repeat pad n) = [].
Proof.
  revert val valb. induction n as [|n IH]; intros val valb; simpl; [done|].
  destruct b64_pad as [-> | ->]; auto.
Qed.

Lemma decode_spec data val :
  Forall is_byte data → decode_loop cls val (-8) (b64_spec data) = data.
Proof.
  revert val. induction data as [|a|a b|a b c l IH] using triples_ind;
    intros val H; forall_inv; cbn [b64_spec app].
  - done.
  - destruct (decode_two val (a / 4) (a mod 4 * 16) [pad; pad]) as (v & _ & ->);
      [zdivmod_lia..|].
    change [pad; pad] with (repeat pad 2). rewrite decode_pads. f_equal. zdivmod_lia.
  - destruct (decode_two val (a / 4) (a mod 4 * 16 + b / 16) [b64_char (b mod 16 * 4); pad])
      as (v & Hv & ->); [zdivmod_lia..|].
    destruct (decode_third v (a mod 4 * 16 + b / 16) (b mod 16 * 4) [pad]) as (v' & _ & ->);
      [zdivmod_lia..|].
    change [pad] with (repeat pad 1). rewrite decode_pads. f_equal; [|f_equal]; zdivmod_lia.
  - destruct (decode_two val (a / 4) (a mod 4 * 16 + b / 16)
                (b64_char (b mod 16 * 4 + c / 64) :: b64_char (c mod 64) :: b64_spec l))
      as (v & Hv & ->); [zdivmod_lia..|].
    destruct (decode_third v (a mod 4 * 16 + b / 16) (b mod 16 * 4 + c / 64)
                (b64_char (c mod 64) :: b64_spec l))
      as (v' & Hv' & ->); [zdivmod_lia..|].
    destruct (decode_fourth v' (b mod 16 * 4 + c / 64) (c mod 64) (b64_spec l))
      as (v'' & ->); [zdivmod_lia..|].
    rewrite IH by done. f_equal; [|f_equal; [|f_equal]]; zdivmod_lia.
Qed.
End decode.

Lemma all_encoders_spec data enc :
  Forall is_byte data → In enc all_encoders → enc data = b64_spec data.
Proof.
  intros H Henc.
  destruct Henc as [<-|[<-|[<-|[<-|[<-|[<-|[]]]]]]];
    auto using SspiBase64Encode_spec, ConfigBase64Encode_spec, BasicBase64Encode_spec.
Qed.

Definition all_decoders : list (text → text) :=
  [SspiBase64Decode; ConfigBase64Decode; EngineBase64Decode].

(** C21: every decoder of the program returns, for every byte string, the bytes
    that any of its six encoders encoded, whatever the wrap-around of the
    32-bit accumulator does on long inputs. *)
Theorem base64_roundtrip (data : text) :
  Forall is_byte data →
  ∀ enc dec, In enc all_encoders → In dec all_decoders → dec (enc data) = data.
Proof.
  intros H enc dec Henc Hdec. rewrite (all_encoders_spec data enc) by done.
  destruct Hdec as [<-|[<-|[<-|[]]]]; by apply decode_spec; try apply _.
Qed.

Lemma base64_roundtrip_witness :
  ConfigBase64Decode (ConfigBase64Encode [0; 255; 16; 7]) = [0; 255; 16; 7].
Proof.
  apply (base64_roundtrip [0; 255; 16; 7]).
  - repeat constructor; unfold in_u; lia.
  - simpl. auto.
  - simpl. auto.
Defined.

(** The characters that carry data. *)
Definition in_alphabet (c : Z) : bool :=
  match b64_value c with Some _ => true | None => false end.

Lemma decode_loop_filter cls val valb data :
  (∀ c, in_alphabet c = false → cls c = Skip) →
  decode_loop cls val valb data = decode_loop cls val valb (filterb in_alphabet data).
Proof.
  intros Hs. revert val valb. induction data as [|c data IH]; intros val valb; simpl; [done|].
  destruct (in_alphabet c) eqn:E; simpl.
  - destruct (cls c) eqn:Ec; [|done..]. case_match; by rewrite IH.
  - by rewrite Hs, IH.
Qed.

Lemma config_class_skip c : in_alphabet c = false → config_class c = Skip.
Proof. unfold in_alphabet, config_class. by destruct (b64_value c). Qed.

Lemma engine_class_skip c : in_alphabet c = false → engine_class c = Skip.
Proof. unfold in_alphabet, engine_class. destruct (128 <=? c); [done|]. by destruct (b64_value c). Qed.

(** ConfigManager's and the agent's decoder read through characters outside
    the alphabet, wherever they stand.  [SspiBase64Decode] means to do the same,
    but its table has zeros for 128..255: such a byte is read as the digit 0 and
    changes the result. *)
Theorem decoders_skip_foreign_bytes :
  (∀ data, ConfigBase64Decode data = ConfigBase64Decode (filterb in_alphabet data) ∧
           EngineBase64Decode data = EngineBase64Decode (filterb in_alphabet data)) ∧
  (∀ c, 128 <= c < 256 → in_alphabet c = false ∧ sspi_class c = Digit 0) ∧
  SspiBase64Decode (200 :: lit "YTpi") ≠
    SspiBase64Decode (filterb in_alphabet (200 :: lit "YTpi")).
Proof.
  split; [|split].
  - intros data. split; apply decode_loop_filter;
      [apply config_class_skip|apply engine_class_skip].
  - intros c Hc. unfold in_alphabet, sspi_class.
    assert (b64_value c = None) as ->.
    { unfold b64_value. repeat case_match; bool_to_prop; first [done|lia]. }
    split; [done|]. repeat case_match; bool_to_prop; first [done|lia].
  - vm_compute. discriminate.
Qed.
