(* ===== verification/Utf8.v ===== *)
(** UTF-8 in the vendored nlohmann::json (src/external/nlohmann/json.hpp): the
    table-driven decoder with which the serializer checks the text it prints
    ([decode]), and the bytes the lexer gives a code point ([scan_string]).
    Both are compared with UTF-8 itself: a text is UTF-8 when it is the encoding
    of a list of Unicode scalar values. *)

From S2P Require Import Prelude.
From S2P Require Import Text.

(** * The decoder *)

Definition UTF8_ACCEPT : Z := 0.
Definition UTF8_REJECT : Z := 1.

Definition utf8d : list Z :=
  [0; 0; 0; 0; 0; 0; 0; 0; 0; 0; 0; 0; 0; 0; 0; 0; 0; 0; 0; 0; 0; 0; 0; 0; 0; 0; 0; 0; 0; 0; 0; 0;
   0; 0; 0; 0; 0; 0; 0; 0; 0; 0; 0; 0; 0; 0; 0; 0; 0; 0; 0; 0; 0; 0; 0; 0; 0; 0; 0; 0; 0; 0; 0; 0;
   0; 0; 0; 0; 0; 0; 0; 0; 0; 0; 0; 0; 0; 0; 0; 0; 0; 0; 0; 0; 0; 0; 0; 0; 0; 0; 0; 0; 0; 0; 0; 0;
   0; 0; 0; 0; 0; 0; 0; 0; 0; 0; 0; 0; 0; 0; 0; 0; 0; 0; 0; 0; 0; 0; 0; 0; 0; 0; 0; 0; 0; 0; 0; 0;
   1; 1; 1; 1; 1; 1; 1; 1; 1; 1; 1; 1; 1; 1; 1; 1; 9; 9; 9; 9; 9; 9; 9; 9; 9; 9; 9; 9; 9; 9; 9; 9;
   7; 7; 7; 7; 7; 7; 7; 7; 7; 7; 7; 7; 7; 7; 7; 7; 7; 7; 7; 7; 7; 7; 7; 7; 7; 7; 7; 7; 7; 7; 7; 7;
   8; 8; 2; 2; 2; 2; 2; 2; 2; 2; 2; 2; 2; 2; 2; 2; 2; 2; 2; 2; 2; 2; 2; 2; 2; 2; 2; 2; 2; 2; 2; 2;
   10; 3; 3; 3; 3; 3; 3; 3; 3; 3; 3; 3; 3; 4; 3; 3;
   11; 6; 6; 6; 5; 8; 8; 8; 8; 8; 8; 8; 8; 8; 8; 8;
   0; 1; 2; 3; 5; 8; 7; 1; 1; 1; 4; 6; 1; 1; 1; 1;
   1; 1; 1; 1; 1; 1; 1; 1; 1; 1; 1; 1; 1; 1; 1; 1; 1; 0; 1; 1; 1; 1; 1; 0; 1; 0; 1; 1; 1; 1; 1; 1;
   1; 2; 1; 1; 1; 1; 1; 2; 1; 2; 1; 1; 1; 1; 1; 1; 1; 1; 1; 1; 1; 1; 1; 2; 1; 1; 1; 1; 1; 1; 1; 1;
   1; 2; 1; 1; 1; 1; 1; 1; 1; 2; 1; 1; 1; 1; 1; 1; 1; 1; 1; 1; 1; 1; 1; 3; 1; 3; 1; 1; 1; 1; 1; 1;
   1; 3; 1; 1; 1; 1; 1; 3; 1; 3; 1; 1; 1; 1; 1; 1; 1; 3; 1; 1; 1; 1; 1; 1; 1; 1; 1; 1; 1; 1; 1; 1].

(** [decode]: the new state and code point. *)
Definition decode (state codep byte : Z) : Z * Z :=
  let type := nth (Z.to_nat byte) utf8d 0 in
  let codep :=
    if negb (state =? UTF8_ACCEPT) then Z.lor (Z.land byte 0x3f) (wrap 32 (Z.shiftl codep 6))
    else Z.land (Z.shiftr 0xFF type) byte in
  let index := 256 + state * 16 + type in
  (nth (Z.to_nat index) utf8d 0, codep).

(** The code points of a text, as the decoder reports them; [None] when it
    rejects a byte, or the text ends inside a sequence. *)
Fixpoint decode_text (state codep : Z) (s : text) : option (list Z) :=
  match s with
  | [] => if state =? UTF8_ACCEPT then Some [] else None
  | b :: s' =>
      let '(state, codep) := decode state codep b in
      if state =? UTF8_REJECT then None
      else if state =? UTF8_ACCEPT then cons codep <$> decode_text state codep s'
      else decode_text state codep s'
  end.

(** * Encoding *)

(** "translate codepoint into bytes" of [scan_string]. *)
Definition codepoint_bytes (codepoint : Z) : text :=
  if codepoint <? 0x80 then [codepoint]
  else if codepoint <=? 0x7FF then
    [Z.lor 0xC0 (Z.shiftr codepoint 6); Z.lor 0x80 (Z.land codepoint 0x3F)]
  else if codepoint <=? 0xFFFF then
    [Z.lor 0xE0 (Z.shiftr codepoint 12); Z.lor 0x80 (Z.land (Z.shiftr codepoint 6) 0x3F);
     Z.lor 0x80 (Z.land codepoint 0x3F)]
  else
    [Z.lor 0xF0 (Z.shiftr codepoint 18); Z.lor 0x80 (Z.land (Z.shiftr codepoint 12) 0x3F);
     Z.lor 0x80 (Z.land (Z.shiftr codepoint 6) 0x3F); Z.lor 0x80 (Z.land codepoint 0x3F)].

Definition scalar (c : Z) : Prop := 0 <= c < 0xD800 ∨ 0xE000 <= c <= 0x10FFFF.

#[export] Instance scalar_dec c : Decision (scalar c).
Proof. unfold scalar. apply _. Defined.

(** The text of a list of code points. *)
Definition utf8_of (cps : list Z) : text := cps ≫= codepoint_bytes.

Definition utf8 (s : text) : Prop := ∃ cps, Forall scalar cps ∧ s = utf8_of cps.

(** * Bits and bytes *)

Lemma lor_disjoint k n x :
  all_from (Z.to_nat n) 0 (λ x, Z.lor k x =? k + x) = true → 0 <= x < n → Z.lor k x = k + x.
Proof. intros H Hx. apply Z.eqb_eq. apply (all_from_spec _ _ _ x H). lia. Qed.

Lemma land_63 x : Z.land x 0x3F = x mod 64.
Proof. by apply (land_ones_mod x 6). Qed.

(** The four shapes of an encoding, in arithmetic. *)
Lemma codepoint_bytes_eq c :
  0 <= c <= 0x10FFFF →
  codepoint_bytes c =
    if c <? 0x80 then [c]
    else if c <=? 0x7FF then [0xC0 + c / 64; 0x80 + c mod 64]
    else if c <=? 0xFFFF then [0xE0 + c / 4096; 0x80 + (c / 64) mod 64; 0x80 + c mod 64]
    else [0xF0 + c / 262144; 0x80 + (c / 4096) mod 64; 0x80 + (c / 64) mod 64; 0x80 + c mod 64].
Proof.
  intros Hc. unfold codepoint_bytes. rewrite !land_63, !Z.shiftr_div_pow2 by lia.
  change (2 ^ 6) with 64. change (2 ^ 12) with 4096. change (2 ^ 18) with 262144.
  assert (Hm : ∀ x, Z.lor 0x80 (x mod 64) = 0x80 + x mod 64).
  { intros x. apply (lor_disjoint _ 64); [done|zdivmod_lia]. }
  rewrite !Hm.
  destruct (Z.ltb_spec c 0x80); [done|]. destruct (Z.leb_spec c 0x7FF).
  { rewrite (lor_disjoint _ 32); [done..|zdivmod_lia]. }
  destruct (Z.leb_spec c 0xFFFF).
  { rewrite (lor_disjoint _ 16); [done..|zdivmod_lia]. }
  rewrite (lor_disjoint _ 8); [done..|zdivmod_lia].
Qed.

(** * The table *)

(** What a first byte leads to: the state and the code point so far. *)
Definition first_byte (b : Z) : Z * Z :=
  if b <? 0x80 then (0, b)
  else if b <? 0xC2 then (1, 0)
  else if b <? 0xE0 then (2, b - 0xC0)
  else if b =? 0xE0 then (4, 0)
  else if b =? 0xED then (5, 13)
  else if b <? 0xF0 then (3, b - 0xE0)
  else if b =? 0xF0 then (6, 0)
  else if b <? 0xF4 then (7, b - 0xF0)
  else if b =? 0xF4 then (8, 4)
  else (1, 0).

(** The bytes that may follow in a state, and the state after them. *)
Definition follow (state : Z) : Z * Z * Z :=
  if state =? 2 then (0x80, 0xBF, 0)
  else if state =? 3 then (0x80, 0xBF, 2)
  else if state =? 4 then (0xA0, 0xBF, 2)
  else if state =? 5 then (0x80, 0x9F, 2)
  else if state =? 6 then (0x90, 0xBF, 3)
  else if state =? 7 then (0x80, 0xBF, 3)
  else (0x80, 0x8F, 3).

Definition next_state (state b : Z) : Z :=
  let '(lo, hi, state') := follow state in
  if (lo <=? b) && (b <=? hi) then state' else 1.

Lemma decode_first codep b :
  is_byte b → fst (decode 0 codep b) = fst (first_byte b) ∧
  (fst (first_byte b) ≠ 1 → snd (decode 0 codep b) = snd (first_byte b)).
Proof.
  intros Hb. set (p b := let '(s, c) := decode 0 0 b in let '(s', c') := first_byte b in
                         (s =? s') && ((s' =? 1) || (c =? c'))).
  assert (H : p b = true) by (apply (all_from_spec 256 0); [by vm_compute|unfold in_u in Hb; lia]).
  unfold p in H. change (decode 0 codep b) with (decode 0 0 b).
  destruct (decode 0 0 b) as [s c], (first_byte b) as [s' c']. cbn.
  apply andb_prop in H as [Hs Hc]. apply Z.eqb_eq in Hs as ->. split; [done|].
  apply orb_prop in Hc as [Hc|Hc]; apply Z.eqb_eq in Hc; [by subst|done].
Qed.

Lemma decode_next state codep b :
  2 <= state <= 8 → is_byte b → fst (decode state codep b) = next_state state b.
Proof.
  intros Hs Hb. set (p s := all_from 256 0 (λ b, fst (decode s 0 b) =? next_state s b)).
  assert (H : p state = true) by (apply (all_from_spec 7 2); [by vm_compute|lia]).
  apply (all_from_spec _ _ _ b) in H; [|unfold in_u in Hb; lia]. by apply Z.eqb_eq in H.
Qed.

Lemma decode_next_codep state codep b :
  2 <= state <= 8 → 0x80 <= b <= 0xBF → 0 <= codep < 2 ^ 21 →
  snd (decode state codep b) = codep * 64 + (b - 0x80).
Proof.
  intros Hs Hb Hc. unfold decode. destruct (Z.eqb_spec state UTF8_ACCEPT) as [->|_]; [unfold UTF8_ACCEPT in Hs; lia|].
  cbn [negb snd]. rewrite wrap_small by (unfold in_u; rewrite Z.shiftl_mul_pow2 by lia; lia).
  rewrite Z.lor_comm, land_63, lor_shiftl_add by (lia || zdivmod_lia). zdivmod_lia.
Qed.

(** * Sequences *)

Lemma decode_text_cons state codep b s :
  decode_text state codep (b :: s) =
  let '(state, codep) := decode state codep b in
  if state =? UTF8_REJECT then None
  else if state =? UTF8_ACCEPT then cons codep <$> decode_text state codep s
  else decode_text state codep s.
Proof. done. Qed.

(** One byte that continues a sequence. *)
Lemma decode_text_next state codep b s :
  2 <= state <= 8 → is_byte b → 0 <= codep < 2 ^ 21 →
  decode_text state codep (b :: s) =
  let codep' := codep * 64 + (b - 0x80) in
  if next_state state b =? 1 then None
  else if next_state state b =? 0 then cons codep' <$> decode_text 0 codep' s
  else decode_text (next_state state b) codep' s.
Proof.
  intros Hs Hb Hc. rewrite decode_text_cons. pose proof (decode_next state codep b Hs Hb) as E.
  pose proof (decode_next_codep state codep b Hs) as Ec. destruct (decode state codep b) as [st cp]. cbn in E, Ec. subst st.
  unfold UTF8_REJECT, UTF8_ACCEPT. cbn zeta.
  destruct (Z.eqb_spec (next_state state b) 1) as [|Hn]; [done|].
  assert (Hr : 0x80 <= b <= 0xBF).
  { unfold next_state in Hn. destruct (follow state) as [[lo hi] st'] eqn:Ef.
    destruct (_ && _) eqn:E2; [|done]. bool_to_prop. unfold follow in Ef.
    repeat match goal with H : context [if ?b then _ else _] |- _ => destruct b end; simplify_eq; lia. }
  rewrite Ec by (done || lia). destruct (Z.eqb_spec (next_state state b) 0) as [E0|]; [by rewrite E0|done].
Qed.

Lemma decode_text_first codep b s :
  is_byte b →
  decode_text 0 codep (b :: s) =
  let '(state, codep') := first_byte b in
  if state =? 1 then None
  else if state =? 0 then cons codep' <$> decode_text 0 codep' s
  else decode_text state codep' s.
Proof.
  intros Hb. rewrite decode_text_cons. destruct (decode_first codep b Hb) as [E Ec].
  destruct (decode 0 codep b) as [st cp], (first_byte b) as [st' cp']. cbn in E, Ec. subst st.
  unfold UTF8_REJECT, UTF8_ACCEPT. destruct (Z.eqb_spec st' 1) as [|Hn]; [done|]. rewrite Ec by done.
  by destruct (Z.eqb_spec st' 0) as [->|].
Qed.

Ltac seq_byte :=
  match goal with
  | |- context [decode_text 0 ?cp (_ :: _)] => rewrite decode_text_first by (unfold in_u; zdivmod_lia)
  | |- context [decode_text _ _ (_ :: _)] => rewrite decode_text_next by (unfold in_u; (lia || zdivmod_lia))
  end.

Lemma first_byte_2 x : 2 <= x < 32 → first_byte (0xC0 + x) = (2, x).
Proof.
  intros Hx. unfold first_byte. rewrite !(proj2 (Z.ltb_ge _ _)), (proj2 (Z.ltb_lt _ 0xE0)) by lia.
  f_equal. lia.
Qed.

Lemma first_byte_3 x :
  0 <= x < 16 →
  first_byte (0xE0 + x) = (if x =? 0 then 4 else if x =? 13 then 5 else 3, x).
Proof.
  intros Hx. set (p x := let '(s, c) := first_byte (0xE0 + x) in
    (s =? (if x =? 0 then 4 else if x =? 13 then 5 else 3)) && (c =? x)).
  assert (H : p x = true) by (apply (all_from_spec 16 0); [by vm_compute|lia]).
  unfold p in H. destruct (first_byte (0xE0 + x)) as [s c]. apply andb_prop in H as [H1 H2].
  apply Z.eqb_eq in H1, H2. by subst.
Qed.

Lemma first_byte_4 x :
  0 <= x <= 4 → first_byte (0xF0 + x) = (if x =? 0 then 6 else if x =? 4 then 8 else 7, x).
Proof.
  intros Hx. set (p x := let '(s, c) := first_byte (0xF0 + x) in
    (s =? (if x =? 0 then 6 else if x =? 4 then 8 else 7)) && (c =? x)).
  assert (H : p x = true) by (apply (all_from_spec 5 0); [by vm_compute|lia]).
  unfold p in H. destruct (first_byte (0xF0 + x)) as [s c]. apply andb_prop in H as [H1 H2].
  apply Z.eqb_eq in H1, H2. by subst.
Qed.

Lemma next_state_in state b lo hi st :
  follow state = (lo, hi, st) → lo <= b <= hi → next_state state b = st.
Proof.
  intros Hf Hb. unfold next_state. rewrite Hf.
  by rewrite (proj2 (Z.leb_le lo b)), (proj2 (Z.leb_le b hi)) by lia.
Qed.

(** The decoder reads the code point of an encoding. *)
Lemma decode_encoded c codep s :
  scalar c → decode_text 0 codep (codepoint_bytes c ++ s) = cons c <$> decode_text 0 c s.
Proof.
  intros Hc. assert (Hr : 0 <= c <= 0x10FFFF) by (unfold scalar in Hc; lia).
  rewrite codepoint_bytes_eq by done. destruct (Z.ltb_spec c 0x80).
  { cbn [app]. rewrite decode_text_first by (unfold in_u; lia). unfold first_byte.
    by rewrite (proj2 (Z.ltb_lt _ _)) by lia. }
  destruct (Z.leb_spec c 0x7FF).
  { cbn [app]. rewrite decode_text_first by zdivmod_lia. rewrite first_byte_2 by zdivmod_lia. cbn [Z.eqb].
    rewrite decode_text_next by zdivmod_lia. erewrite next_state_in by (reflexivity || zdivmod_lia). cbn [Z.eqb].
    cbv zeta. replace (c / 64 * 64 + (128 + c mod 64 - 128)) with c by zdivmod_lia. done. }
  destruct (Z.leb_spec c 0xFFFF).
  { cbn [app]. rewrite decode_text_first by zdivmod_lia. rewrite first_byte_3 by zdivmod_lia.
    set (st := if c / 4096 =? 0 then 4 else _).
    assert (Hst : 2 <= st <= 8 ∧ st ≠ 1 ∧ st ≠ 0 ∧ next_state st (128 + (c / 64) mod 64) = 2).
    { subst st. destruct (Z.eqb_spec (c / 4096) 0) as [E|E].
      { split_and!; try lia. eapply next_state_in; [reflexivity|zdivmod_lia]. }
      destruct (Z.eqb_spec (c / 4096) 13) as [E'|E'].
      - split_and!; try lia. eapply next_state_in; [reflexivity|unfold scalar in Hc; zdivmod_lia].
      - split_and!; try lia. eapply next_state_in; [reflexivity|zdivmod_lia]. }
    destruct Hst as (H1' & H2' & H3' & H4'). clearbody st.
    rewrite (proj2 (Z.eqb_neq st 1)), (proj2 (Z.eqb_neq st 0)) by done.
    rewrite decode_text_next by (done || zdivmod_lia). rewrite H4'. cbn [Z.eqb]. cbv zeta.
    rewrite decode_text_next by zdivmod_lia. erewrite next_state_in by (reflexivity || zdivmod_lia). cbn [Z.eqb].
    cbv zeta. match goal with |- context [cons ?x] => replace x with c by zdivmod_lia end. done. }
  cbn [app]. rewrite decode_text_first by zdivmod_lia. rewrite first_byte_4 by zdivmod_lia.
  set (st := if c / 262144 =? 0 then 6 else _).
  assert (Hst : 2 <= st <= 8 ∧ st ≠ 1 ∧ st ≠ 0 ∧ next_state st (128 + (c / 4096) mod 64) = 3).
  { subst st. destruct (Z.eqb_spec (c / 262144) 0) as [E|E].
    { split_and!; try lia. eapply next_state_in; [reflexivity|zdivmod_lia]. }
    destruct (Z.eqb_spec (c / 262144) 4) as [E'|E'].
    - split_and!; try lia. eapply next_state_in; [reflexivity|zdivmod_lia].
    - split_and!; try lia. eapply next_state_in; [reflexivity|zdivmod_lia]. }
  destruct Hst as (H1' & H2' & H3' & H4'). clearbody st.
  rewrite (proj2 (Z.eqb_neq st 1)), (proj2 (Z.eqb_neq st 0)) by done.
  rewrite decode_text_next by (done || zdivmod_lia). rewrite H4'. cbn [Z.eqb]. cbv zeta.
  rewrite decode_text_next by zdivmod_lia. erewrite next_state_in by (reflexivity || zdivmod_lia). cbn [Z.eqb]. cbv zeta.
  rewrite decode_text_next by zdivmod_lia. erewrite next_state_in by (reflexivity || zdivmod_lia). cbn [Z.eqb].
  cbv zeta. match goal with |- context [cons ?x] => replace x with c by zdivmod_lia end. done.
Qed.

Lemma decode_text_next_inv state codep s cps lo hi st :
  follow state = (lo, hi, st) → 2 <= state <= 8 → st ≠ 1 → Forall is_byte s → 0 <= codep < 2 ^ 21 →
  decode_text state codep s = Some cps →
  ∃ b s', s = b :: s' ∧ lo <= b <= hi ∧ Forall is_byte s' ∧
    (let codep' := codep * 64 + (b - 0x80) in
     if st =? 0 then ∃ cps', cps = codep' :: cps' ∧ decode_text 0 codep' s' = Some cps'
     else decode_text st codep' s' = Some cps).
Proof.
  intros Hf Hs Hst Hb Hc H. destruct Hb as [|b s Hb Hbs].
  { cbn in H. destruct (Z.eqb_spec state UTF8_ACCEPT) as [->|]; [unfold UTF8_ACCEPT in Hs; lia|done]. }
  rewrite decode_text_next in H by done. cbv zeta in H. unfold next_state in H. rewrite Hf in H.
  destruct (Z.leb_spec lo b), (Z.leb_spec b hi); try done. cbn [andb] in H. cbv zeta.
  rewrite (proj2 (Z.eqb_neq st 1)) in H by done. eexists b, s. split; [done|]. split; [lia|]. split; [done|].
  destruct (st =? 0) eqn:E; [|done]. apply fmap_Some in H as (cps' & Hd & ->). eauto.
Qed.

Ltac next_byte b s Hb Hs Hd :=
  match goal with
  | H : decode_text _ _ _ = Some _ |- _ =>
      eapply decode_text_next_inv in H; [|reflexivity|lia|lia|eassumption|lia];
      destruct H as (b & s & -> & Hb & Hs & Hd); cbn [Z.eqb] in Hd; cbv zeta in Hd
  end.

(** A list of bytes that add up to the encoding of [c]. *)
Ltac encoded c :=
  rewrite (codepoint_bytes_eq c) by lia;
  repeat match goal with
  | |- context [?a <? ?b] => first [rewrite (proj2 (Z.ltb_lt a b)) by lia | rewrite (proj2 (Z.ltb_ge a b)) by lia]
  | |- context [?a <=? ?b] => first [rewrite (proj2 (Z.leb_le a b)) by lia | rewrite (proj2 (Z.leb_gt a b)) by lia]
  end; cbn [app]; repeat f_equal; zdivmod_lia.

Lemma decode_two_bytes x codep s cps :
  2 <= x < 32 → Forall is_byte s → decode_text 2 x s = Some cps →
  ∃ c s' cps', scalar c ∧ (0xC0 + x) :: s = codepoint_bytes c ++ s' ∧ cps = c :: cps' ∧
    Forall is_byte s' ∧ decode_text 0 codep s' = Some cps'.
Proof.
  intros Hx Hs H. next_byte b1 s1 Hb1 Hs1 Hd. destruct Hd as (cps' & -> & Hd).
  eexists _, s1, cps'. split_and!; [| |done|done|].
  - unfold scalar. lia.
  - encoded (x * 64 + (b1 - 128)).
  - revert Hd. destruct s1; [done|]. inversion_clear Hs1. by rewrite !decode_text_first.
Qed.

Lemma decode_three state x lo hi s cps codep :
  2 <= state <= 8 → follow state = (lo, hi, 2) → 0x80 <= lo → hi <= 0xBF → 0 <= x < 16 →
  (∀ b, lo <= b <= hi → 0x800 <= x * 4096 + (b - 0x80) * 64 ∧
                        (x * 4096 + (b - 0x80) * 64 < 0xD800 ∨ 0xE000 <= x * 4096 + (b - 0x80) * 64)) →
  Forall is_byte s → decode_text state x s = Some cps →
  ∃ c s' cps', scalar c ∧ (0xE0 + x) :: s = codepoint_bytes c ++ s' ∧ cps = c :: cps' ∧
    Forall is_byte s' ∧ decode_text 0 codep s' = Some cps'.
Proof.
  intros Hst Hf Hlo Hhi Hx Hr Hs H.
  eapply decode_text_next_inv in H; [|exact Hf|lia|lia|eassumption|lia].
  destruct H as (b1 & s1 & -> & Hb1 & Hs1 & Hd). cbn [Z.eqb] in Hd. cbv zeta in Hd.
  pose proof (Hr b1 Hb1) as [Hr1 Hr2]. next_byte b2 s2 Hb2 Hs2 Hd2. destruct Hd2 as (cps' & -> & Hd2).
  eexists _, s2, cps'. split_and!; [| |done|done|].
  - unfold scalar. lia.
  - encoded ((x * 64 + (b1 - 128)) * 64 + (b2 - 128)).
  - revert Hd2. destruct s2; [done|]. inversion_clear Hs2. by rewrite !decode_text_first.
Qed.

Lemma decode_four state x lo hi s cps codep :
  2 <= state <= 8 → follow state = (lo, hi, 3) → 0x80 <= lo → hi <= 0xBF → 0 <= x < 5 →
  (∀ b, lo <= b <= hi → 0x10 <= x * 64 + (b - 0x80) < 0x110) →
  Forall is_byte s → decode_text state x s = Some cps →
  ∃ c s' cps', scalar c ∧ (0xF0 + x) :: s = codepoint_bytes c ++ s' ∧ cps = c :: cps' ∧
    Forall is_byte s' ∧ decode_text 0 codep s' = Some cps'.
Proof.
  intros Hst Hf Hlo Hhi Hx Hr Hs H.
  eapply decode_text_next_inv in H; [|exact Hf|lia|lia|eassumption|lia].
  destruct H as (b1 & s1 & -> & Hb1 & Hs1 & Hd). cbn [Z.eqb] in Hd. cbv zeta in Hd.
  pose proof (Hr b1 Hb1) as Hr1. next_byte b2 s2 Hb2 Hs2 Hd2. next_byte b3 s3 Hb3 Hs3 Hd3.
  destruct Hd3 as (cps' & -> & Hd3).
  eexists _, s3, cps'. split_and!; [| |done|done|].
  - unfold scalar. lia.
  - encoded (((x * 64 + (b1 - 128)) * 64 + (b2 - 128)) * 64 + (b3 - 128)).
  - revert Hd3. destruct s3; [done|]. inversion_clear Hs3. by rewrite !decode_text_first.
Qed.

(** What the decoder reads first is an encoded scalar value. *)
Lemma decode_text_inv codep b s cps :
  Forall is_byte (b :: s) → decode_text 0 codep (b :: s) = Some cps →
  ∃ c s' cps', scalar c ∧ b :: s = codepoint_bytes c ++ s' ∧ cps = c :: cps' ∧
    Forall is_byte s' ∧ decode_text 0 codep s' = Some cps'.
Proof.
  intros [Hb Hs]%Forall_cons H. rewrite decode_text_first in H by done. unfold first_byte in H. unfold in_u in Hb.
  destruct (Z.ltb_spec b 0x80).
  { cbn [Z.eqb] in H. apply fmap_Some in H as (cps' & Hd & ->). exists b, s, cps'. split_and!; [| |done|done|].
    - unfold scalar. lia.
    - encoded b.
    - revert Hd. destruct s; [done|]. inversion_clear Hs. by rewrite !decode_text_first. }
  destruct (Z.ltb_spec b 0xC2); [done|]. destruct (Z.ltb_spec b 0xE0).
  { replace b with (0xC0 + (b - 0xC0)) by lia. apply decode_two_bytes; [lia|done|exact H]. }
  destruct (Z.eqb_spec b 0xE0) as [->|].
  { apply (decode_three 4 0 0xA0 0xBF); try done; lia. }
  destruct (Z.eqb_spec b 0xED) as [->|].
  { apply (decode_three 5 13 0x80 0x9F); try done; lia. }
  destruct (Z.ltb_spec b 0xF0).
  { replace b with (0xE0 + (b - 0xE0)) by lia. apply (decode_three 3 (b - 0xE0) 0x80 0xBF); try done; lia. }
  destruct (Z.eqb_spec b 0xF0) as [->|].
  { apply (decode_four 6 0 0x90 0xBF); try done; lia. }
  destruct (Z.ltb_spec b 0xF4).
  { replace b with (0xF0 + (b - 0xF0)) by lia. apply (decode_four 7 (b - 0xF0) 0x80 0xBF); try done; lia. }
  destruct (Z.eqb_spec b 0xF4) as [->|]; [|done]. apply (decode_four 8 4 0x80 0x8F); try done; lia.
Qed.

Lemma codepoint_bytes_byte c : 0 <= c <= 0x10FFFF → Forall is_byte (codepoint_bytes c).
Proof.
  intros Hc. rewrite codepoint_bytes_eq by done.
  destruct (Z.ltb_spec c 0x80); [|destruct (Z.leb_spec c 0x7FF); [|destruct (Z.leb_spec c 0xFFFF)]];
    repeat constructor; unfold in_u in *; zdivmod_lia.
Qed.

Lemma codepoint_bytes_length c : (1 <= length (codepoint_bytes c) <= 4)%nat.
Proof. unfold codepoint_bytes. repeat case_match_goal; cbn; lia. Qed.

Lemma utf8_bytes s : utf8 s → Forall is_byte s.
Proof.
  intros (cps & Hc & ->). unfold utf8_of. induction Hc as [|c cps Hc _ IH]; cbn; [constructor|].
  apply Forall_app. split; [|exact IH]. apply codepoint_bytes_byte. unfold scalar in Hc. lia.
Qed.

Lemma decode_utf8_of codep cps s :
  Forall scalar cps → decode_text 0 codep (utf8_of cps ++ s) = app cps <$> decode_text 0 codep s.
Proof.
  assert (Hin : ∀ c d s, decode_text 0 c s = decode_text 0 d s) by (by intros c d [|b s']).
  intros H. unfold utf8_of. induction H as [|c cps Hc _ IH]; cbn [mbind list_bind].
  - cbn. by destruct (decode_text 0 codep s).
  - rewrite <- app_assoc, decode_encoded by done. rewrite (Hin c codep), IH.
    by destruct (decode_text 0 codep s).
Qed.

Lemma decode_text_spec codep s cps :
  Forall is_byte s → decode_text 0 codep s = Some cps ↔ Forall scalar cps ∧ s = utf8_of cps.
Proof.
  intros Hs. split.
  - remember (length s) as n eqn:En. revert s cps Hs En. induction (lt_wf n) as [n _ IH]. intros s cps Hs -> H.
    destruct s as [|b s]; [cbn in H; simplify_eq; by split|].
    destruct (decode_text_inv codep b s cps Hs H) as (c & s' & cps' & Hc & E & -> & Hs' & Hd).
    pose proof (codepoint_bytes_length c). assert (Hl : (length s' < length (b :: s))%nat).
    { rewrite E, length_app. lia. }
    destruct (IH _ Hl s' cps' Hs' eq_refl Hd) as [Hcs ->]. split; [by constructor|]. by rewrite E.
  - intros [Hc ->]. rewrite <- (app_nil_r (utf8_of cps)), decode_utf8_of by done. cbn. by rewrite app_nil_r.
Qed.

(** UTF-8 is what the decoder accepts. *)
Lemma utf8_decoded s : Forall is_byte s → utf8 s ↔ is_Some (decode_text 0 0 s).
Proof.
  intros Hs. unfold utf8, is_Some. split; intros [cps H]; exists cps; by apply (decode_text_spec 0 s cps Hs).
Qed.

(** * One code point, byte by byte *)

(** The decoder after bytes inside a sequence. *)
Fixpoint decode_part (state codep : Z) (s : text) : option (Z * Z) :=
  match s with
  | [] => Some (state, codep)
  | b :: s' =>
      let '(state, codep) := decode state codep b in
      if (state =? UTF8_ACCEPT) || (state =? UTF8_REJECT) then None else decode_part state codep s'
  end.

Lemma decode_text_nil state codep s : decode_text state codep s = Some [] → s = [] ∧ state = 0.
Proof.
  revert state codep. induction s as [|b s IH]; intros state codep; cbn [decode_text].
  - by destruct (Z.eqb_spec state UTF8_ACCEPT) as [->|].
  - destruct (decode state codep b) as [st cp]. destruct (st =? UTF8_REJECT); [done|].
    destruct (Z.eqb_spec st UTF8_ACCEPT) as [->|Hn].
    + by destruct (decode_text _ cp s).
    + intros H%IH. by destruct H.
Qed.

Lemma decode_text_one state codep s c :
  decode_text state codep s = Some [c] →
  ∃ bs b, s = bs ++ [b] ∧ ∃ st cp, decode_part state codep bs = Some (st, cp) ∧ decode st cp b = (0, c).
Proof.
  revert state codep. induction s as [|b s IH]; intros state codep; cbn [decode_text].
  - by destruct (state =? UTF8_ACCEPT).
  - destruct (decode state codep b) as [st cp] eqn:E. destruct (st =? UTF8_REJECT) eqn:E1; [done|].
    destruct (Z.eqb_spec st UTF8_ACCEPT) as [->|Hn].
    + intros (l & H & Hl)%fmap_Some. injection Hl as -> <-. apply decode_text_nil in H as [-> _].
      exists [], b. split; [done|]. by exists state, codep.
    + intros (bs & b' & -> & st' & cp' & Hp & Hd)%IH. exists (b :: bs), b'. split; [done|].
      exists st', cp'. cbn [decode_part]. rewrite E, E1, (proj2 (Z.eqb_neq st UTF8_ACCEPT)) by done. by cbn [orb].
Qed.

Lemma codepoint_trace c codep :
  scalar c →
  ∃ bs b, codepoint_bytes c = bs ++ [b] ∧
    ∃ st cp, decode_part 0 codep bs = Some (st, cp) ∧ decode st cp b = (0, c).
Proof.
  intros Hc. apply decode_text_one. rewrite <- (app_nil_r (codepoint_bytes c)). by rewrite decode_encoded.
Qed.

(** Bytes still expected in a state. *)
Definition remaining (state : Z) : nat :=
  if state =? 0 then 4 else if state =? 2 then 1 else if state <=? 5 then 2 else 3.

Lemma decode_remaining state codep b st cp :
  state = 0 ∨ 2 <= state <= 8 → is_byte b → decode state codep b = (st, cp) → st ≠ 0 → st ≠ 1 →
  2 <= st <= 8 ∧ (remaining st < remaining state)%nat.
Proof.
  intros Hs Hb E H0 H1. destruct Hs as [->|Hs].
  - destruct (decode_first codep b Hb) as [Hf _]. rewrite E in Hf. cbn [fst] in Hf. subst st. revert H0 H1.
    unfold first_byte. repeat case_match_goal; cbn; intros; try done; lia.
  - pose proof (decode_next state codep b Hs Hb) as Hf. rewrite E in Hf. cbn [fst] in Hf. subst st. revert H0 H1.
    set (p s := (λ st, (st =? 0) || (st =? 1) || ((2 <=? st) && (st <=? 8) && (remaining st <? remaining s)%nat))
                  (snd (follow s))).
    assert (H : p state = true) by (apply (all_from_spec 7 2); [by vm_compute|lia]).
    unfold p in H. unfold next_state. destruct (follow state) as [[lo hi] st]. cbn [snd] in H.
    destruct ((lo <=? b) && (b <=? hi)); [|by intros _ []]. intros H0 H1. rewrite (proj2 (Z.eqb_neq st 0)), (proj2 (Z.eqb_neq st 1)) in H by done.
    cbn [orb] in H. apply andb_prop in H as [[H2 H3]%andb_prop H4%Nat.ltb_lt]. bool_to_prop. split; [lia|done].
Qed.

(** * UTF-8 *)

(** The table of the serializer decodes UTF-8.  On every text of bytes
    the 400-entry table, stepped byte by byte from its accepting state, ends
    there with the code points [cps] exactly when the text is the encoding of
    [cps] and each is a Unicode scalar value: overlong forms, surrogates,
    values above 0x10FFFF and cut sequences are rejected, and nothing else. *)
Theorem decoder_accepts_utf8 codep s cps :
  Forall is_byte s →
  decode_text UTF8_ACCEPT codep s = Some cps ↔ Forall scalar cps ∧ s = utf8_of cps.
Proof. apply decode_text_spec. Qed.

Lemma decoder_accepts_utf8_witness :
  decode_text UTF8_ACCEPT 0 [206; 187; 240; 159; 152; 128] = Some [955; 128512].
Proof.
  apply (decoder_accepts_utf8 0 [206; 187; 240; 159; 152; 128] [955; 128512]).
  - repeat apply List.Forall_cons; try apply Forall_nil; split; vm_compute; congruence.
  - split; [|vm_compute; reflexivity].
    repeat apply List.Forall_cons; try apply Forall_nil; apply (bool_decide_unpack _); vm_compute; exact I.
Defined.

Example overlong_is_rejected : decode_text UTF8_ACCEPT 0 [192; 128] = None ∧ decode_text UTF8_ACCEPT 0 [237; 160; 128] = None.
Proof. by vm_compute. Qed.
