(* ===== verification/Entities.v ===== *)
(** The domain entities of [domain/entities/ProxyConfig.h] and the settings of
    [infrastructure/config/Config.h]: one Inductive per enumeration, one
    Record per struct, and the values their default member initialisers give. *)

From S2P Require Import Prelude.
From S2P Require Import Text.
From Stdlib Require Import SpecFloat.

(** [double]: IEEE binary64 with the rounding of [SpecFloat]. *)
Abbreviation double := spec_float.
Definition double_0 : double := S754_zero false.
Definition double_mul (x y : double) : double := SFmul 53 1024 x y.
Definition double_add (x y : double) : double := SFadd 53 1024 x y.
Definition double_div (x y : double) : double := SFdiv 53 1024 x y.
Definition double_eqb (x y : double) : bool := SFeqb x y.
Definition is_finite (x : double) : bool :=
  match x with S754_zero _ | S754_finite _ _ _ => true | _ => false end.

(** * ProxyConfig.h *)

Record ProxyConfig := mkProxyConfig {
  pc_host : text;
  pc_port : Z;
  pc_auth_required : bool;
  pc_kerberos_auth : bool;
  pc_login : text;
  pc_encrypted_password : text;
  pc_has_password : bool;
  pc_plain_password : text
}.

Definition ProxyConfig_default : ProxyConfig := mkProxyConfig [] 3128 false false [] [] false [].

(** The enumerations are plain [int]s once read from JSON: a value outside the
    declared constants is representable and kept. *)
Inductive RuleType := ProcessName | ProcessPath | Global | RuleTypeOther (n : Z).

Definition RuleType_of_int (n : Z) : RuleType :=
  if n =? 0 then ProcessName else if n =? 1 then ProcessPath
  else if n =? 2 then Global else RuleTypeOther n.

Definition RuleType_to_int (t : RuleType) : Z :=
  match t with ProcessName => 0 | ProcessPath => 1 | Global => 2 | RuleTypeOther n => n end.

Inductive RuleAction := Proxy | Direct | Block | RuleActionOther (n : Z).

Definition RuleAction_of_int (n : Z) : RuleAction :=
  if n =? 0 then Proxy else if n =? 1 then Direct
  else if n =? 2 then Block else RuleActionOther n.

Definition RuleAction_to_int (a : RuleAction) : Z :=
  match a with Proxy => 0 | Direct => 1 | Block => 2 | RuleActionOther n => n end.

#[export] Instance RuleType_eq_dec : EqDecision RuleType.
Proof. solve_decision. Defined.
#[export] Instance RuleAction_eq_dec : EqDecision RuleAction.
Proof. solve_decision. Defined.

Lemma RuleType_int n : RuleType_to_int (RuleType_of_int n) = n.
Proof. unfold RuleType_of_int. repeat case_match; bool_to_prop; simpl; lia. Qed.
Lemma RuleAction_int n : RuleAction_to_int (RuleAction_of_int n) = n.
Proof. unfold RuleAction_of_int. repeat case_match; bool_to_prop; simpl; lia. Qed.

Record Rule := mkRule {
  r_id : text;
  r_type : RuleType;
  r_action : RuleAction;
  r_pattern : text;
  r_description : text;
  r_priority : Z;
  r_enabled : bool;
  r_created : Z;
  r_modified : Z
}.

Definition Rule_default : Rule := mkRule [] ProcessName Proxy [] [] 0 true 0 0.

#[export] Instance Rule_eq_dec : EqDecision Rule.
Proof. solve_decision. Defined.

Inductive ConnectionState :=
  Redirecting | ConnectingToProxy | TunnelEstablished | Closing | Closed | CSError.

#[export] Instance ConnectionState_eq_dec : EqDecision ConnectionState.
Proof. solve_decision. Defined.

Definition ConnectionState_to_int (s : ConnectionState) : Z :=
  match s with
  | Redirecting => 0 | ConnectingToProxy => 1 | TunnelEstablished => 2
  | Closing => 3 | Closed => 4 | CSError => 5
  end.

Record ConnectionRecord := mkConnectionRecord {
  cr_id : Z;
  cr_pid : Z;
  cr_process_name : text;
  cr_process_path : text;
  cr_destination_host : text;
  cr_destination_ip : text;
  cr_destination_port : Z;
  cr_start_time : Z;
  cr_duration : Z;
  cr_rx_bytes : Z;
  cr_tx_bytes : Z;
  cr_proxy_enabled : bool;
  cr_state : ConnectionState
}.

Definition ConnectionRecord_default : ConnectionRecord :=
  mkConnectionRecord 0 0 [] [] [] [] 0 0 0 0 0 true Redirecting.

Record RedirectEvent := mkRedirectEvent {
  re_redirect_id : Z;
  re_pid : Z;
  re_process_path : text;
  re_original_address_v4 : Z;
  re_original_port : Z;
  re_redirect_local_port : Z;
  re_is_ipv6 : bool
}.

Inductive LogLevel := LTrace | LDebug | LInfo | LWarn | LError | LOff | LogLevelOther (n : Z).

#[export] Instance LogLevel_eq_dec : EqDecision LogLevel.
Proof. solve_decision. Defined.

Definition LogLevel_to_int (l : LogLevel) : Z :=
  match l with LTrace => 0 | LDebug => 1 | LInfo => 2 | LWarn => 3 | LError => 4 | LOff => 5
  | LogLevelOther n => n end.

Definition LogLevel_of_int (n : Z) : LogLevel :=
  if n =? 0 then LTrace else if n =? 1 then LDebug else if n =? 2 then LInfo
  else if n =? 3 then LWarn else if n =? 4 then LError else if n =? 5 then LOff
  else LogLevelOther n.

Record LogEntry := mkLogEntry {
  le_timestamp : Z;
  le_level : LogLevel;
  le_logger : text;
  le_message : text;
  le_file : text;
  le_line : Z;
  le_function : text
}.

Definition LogEntry_default : LogEntry := mkLogEntry 0 LInfo [] [] [] 0 [].

Record ServiceStats := mkServiceStats {
  ss_active_connections : Z;
  ss_total_rx_bytes : Z;
  ss_total_tx_bytes : Z;
  ss_proxy_errors : Z;
  ss_avg_latency_ms : double;
  ss_uptime_seconds : Z
}.

Definition ServiceStats_default : ServiceStats := mkServiceStats 0 0 0 0 double_0 0.

Record DriverStats := mkDriverStats {
  ds_pending_redirects : Z;
  ds_total_redirects : Z;
  ds_failed_redirects : Z;
  ds_rules_count : Z;
  ds_queue_max_size : Z
}.

Definition DriverStats_default : DriverStats := mkDriverStats 0 0 0 0 4096.

(** * Config.h *)

Record AppSettings := mkAppSettings { app_exePath : text }.

Record ProxySettings := mkProxySettings {
  px_host : text; px_port : Z; px_enabled : bool
}.

Inductive AuthenticationMode := KerberosOnly | KerberosPreferred | BasicOnly.

#[export] Instance AuthenticationMode_eq_dec : EqDecision AuthenticationMode.
Proof. solve_decision. Defined.

Record AuthSettings := mkAuthSettings {
  au_enabled : bool;
  au_username : text;
  au_encryptedPassword : text;
  au_kerberos : bool;
  au_authMode : AuthenticationMode
}.

Record LogSettings := mkLogSettings {
  lg_level : Z; lg_fileEnabled : bool; lg_maxSizeMB : Z
}.

Record LogRotationSettings := mkLogRotationSettings {
  lr_enabled : bool;
  lr_schedule : text;
  lr_hour : Z;
  lr_minute : Z;
  lr_max_age_days : Z;
  lr_archive_dir : text;
  lr_compress : bool
}.

Record StatsSettings := mkStatsSettings { st_updateIntervalMs : Z }.

Record Config := mkConfig {
  c_app : AppSettings;
  c_proxy : ProxySettings;
  c_auth : AuthSettings;
  c_log : LogSettings;
  c_log_rotation : LogRotationSettings;
  c_stats : StatsSettings
}.

Definition Config_default : Config :=
  mkConfig (mkAppSettings [])
           (mkProxySettings (lit "127.0.0.1") 3128 true)
           (mkAuthSettings false [] [] false KerberosPreferred)
           (mkLogSettings 2 true 10)
           (mkLogRotationSettings true (lit "daily") 3 0 30 [] true)
           (mkStatsSettings 2000).

(** [Config::GetExeName]: the last path component. *)
Definition GetExeName (c : Config) : text :=
  match after_last_of [92] (app_exePath (c_app c)) with
  | Some name => name
  | None => app_exePath (c_app c)
  end.

Example GetExeName_ex :
  GetExeName (mkConfig (mkAppSettings (lit "C:\bin\app.exe")) (c_proxy Config_default)
    (c_auth Config_default) (c_log Config_default) (c_log_rotation Config_default)
    (c_stats Config_default)) = lit "app.exe".
Proof. reflexivity. Qed.
