(* ===== verification/RuleEngine.v ===== *)
(** [domain/services/RuleEngine.h]: the thread-safe rule list and the decision
    it takes for a process.

    Each public method holds the mutex from entry to return, so an execution of
    several threads is a sequence of whole operations; [op] and [run] below
    speak of such sequences.  [std::sort] does not fix the order of equal
    elements: it is a class of sorting functions, and the theorems hold for all
    of them. *)

From stdpp Require Import sorting.
From S2P Require Import Prelude.
From S2P Require Import Text.
From S2P Require Import Entities.

(** * std::sort *)

Definition prio_le (a b : Rule) : Prop := r_priority a <= r_priority b.
#[export] Instance prio_le_dec : RelDecision prio_le.
Proof. intros a b. unfold prio_le. apply _. Defined.
#[export] Instance prio_le_total : Total prio_le.
Proof. intros a b. unfold prio_le. lia. Qed.
#[export] Instance prio_le_trans : Transitive prio_le.
Proof. intros a b c. unfold prio_le. lia. Qed.

(** What the standard promises of [std::sort] with the comparator
    [a.priority < b.priority]. *)
Class StdSort (sort : list Rule → list Rule) : Prop := {
  sort_perm : ∀ l, sort l ≡ₚ l;
  sort_sorted : ∀ l, StronglySorted prio_le (sort l)
}.

(** One such function: insertion sort, which is what the runtime uses for
    short vectors. *)
#[export] Instance insertion_StdSort : StdSort (merge_sort prio_le).
Proof.
  split; intros l; [apply merge_sort_Permutation|by apply (StronglySorted_merge_sort prio_le)].
Qed.

(** * WildcardMatch *)

Definition star : Z := 42.
Definition front (s : text) : Z := nth 0 s 0.
Definition back (s : text) : Z := List.last s 0.

Definition WildcardMatch (pattern txt : text) : bool :=
  if text_eqb pattern [star] then true
  else if contains pattern txt then true
  else if (2 <=? length pattern)%nat && (front pattern =? star) && (back pattern =? star)
  then contains (take (length pattern - 2) (drop 1 pattern)) txt
  else if back pattern =? star
  then match find_sub (take (length pattern - 1) pattern) txt with
       | Some O => true | _ => false end
  else if (front pattern =? star)
          && (length (drop 1 pattern) <=? length txt)%nat
  then text_eqb (drop (length txt - length (drop 1 pattern)) txt) (drop 1 pattern)
  else text_eqb pattern txt.

(** * The engine *)

Record RuleEngine := mkRuleEngine { m_rules : list Rule }.

Section engine.
Context (sort : list Rule → list Rule).

Definition SortRules (e : RuleEngine) : RuleEngine := mkRuleEngine (sort (m_rules e)).

Definition AddRule (rule : Rule) (e : RuleEngine) : RuleEngine * bool :=
  (SortRules (mkRuleEngine (m_rules e ++ [rule])), true).

(** [std::remove_if] keeps the others in order; nothing removed means false. *)
Definition RemoveRule (rule_id : text) (e : RuleEngine) : RuleEngine * bool :=
  let kept := filterb (λ r, negb (text_eqb (r_id r) rule_id)) (m_rules e) in
  if (length kept =? length (m_rules e))%nat then (e, false)
  else (mkRuleEngine kept, true).

Definition UpdateRule (rule : Rule) (e : RuleEngine) : RuleEngine * bool :=
  match find_first (λ r, text_eqb (r_id r) (r_id rule)) (m_rules e) with
  | Some _ =>
      (SortRules (mkRuleEngine
         (update_first (λ r, text_eqb (r_id r) (r_id rule)) (λ _, rule) (m_rules e))), true)
  | None => (e, false)
  end.

Definition SetRules (rules : list Rule) (e : RuleEngine) : RuleEngine :=
  SortRules (mkRuleEngine rules).

Definition GetRules (e : RuleEngine) : list Rule := m_rules e.
End engine.

(** Does this rule decide for the process?  One iteration of [Match]: a
    disabled rule is skipped, an unknown type falls through the switch. *)
Definition rule_matches (process_name process_path : text) (r : Rule) : bool :=
  r_enabled r &&
  match r_type r with
  | Global => true
  | ProcessName => WildcardMatch (r_pattern r) process_name
  | ProcessPath => WildcardMatch (r_pattern r) process_path
  | RuleTypeOther _ => false
  end.

Fixpoint match_rules (process_name process_path : text) (rules : list Rule) : RuleAction :=
  match rules with
  | [] => Direct
  | r :: rules' =>
      if negb (r_enabled r) then match_rules process_name process_path rules'
      else match r_type r with
           | Global => r_action r
           | ProcessName =>
               if WildcardMatch (r_pattern r) process_name then r_action r
               else match_rules process_name process_path rules'
           | ProcessPath =>
               if WildcardMatch (r_pattern r) process_path then r_action r
               else match_rules process_name process_path rules'
           | RuleTypeOther _ => match_rules process_name process_path rules'
           end
  end.

Definition Match (process_name process_path : text) (e : RuleEngine) : RuleAction :=
  match_rules process_name process_path (m_rules e).

Definition ShouldRedirect (process_name process_path : text) (e : RuleEngine) : bool :=
  bool_decide (Match process_name process_path e = Proxy).

(** * Properties of Match *)

Lemma match_rules_find name path rules :
  match_rules name path rules =
  match find_first (rule_matches name path) rules with
  | Some r => r_action r | None => Direct end.
Proof.
  induction rules as [|r rules IH]; simpl; [done|].
  unfold rule_matches at 1. destruct (r_enabled r); simpl; [|done].
  destruct (r_type r); simpl; [..|done]; repeat case_match; auto.
Qed.

(** The engine state is well formed when its rules are in priority order. *)
Definition engine_wf (e : RuleEngine) : Prop := StronglySorted prio_le (m_rules e).

Lemma StronglySorted_filterb (p : Rule → bool) l :
  StronglySorted prio_le l → StronglySorted prio_le (filterb p l).
Proof.
  induction 1 as [|x l Hs IH Hx]; simpl; [constructor|].
  destruct (p x); [|done]. constructor; [done|].
  rewrite Forall_forall in *. intros y Hy. apply Hx.
  apply list_elem_of_In in Hy. apply filter_In in Hy as [Hy _].
  by apply list_elem_of_In.
Qed.

Section ops.
Context (sort : list Rule → list Rule) `{!StdSort sort}.

Inductive op := OpAdd (r : Rule) | OpRemove (id : text) | OpUpdate (r : Rule)
             | OpSet (rs : list Rule).

Definition apply_op (o : op) (e : RuleEngine) : RuleEngine :=
  match o with
  | OpAdd r => fst (AddRule sort r e)
  | OpRemove id => fst (RemoveRule id e)
  | OpUpdate r => fst (UpdateRule sort r e)
  | OpSet rs => SetRules sort rs e
  end.

Definition run (ops : list op) (e : RuleEngine) : RuleEngine :=
  fold_left (λ e o, apply_op o e) ops e.

Lemma apply_op_wf o e : engine_wf e → engine_wf (apply_op o e).
Proof.
  intros Hw. unfold engine_wf in *.
  destruct o; simpl; try apply sort_sorted.
  - unfold RemoveRule. case_match; simpl; [done|]. by apply StronglySorted_filterb.
  - unfold UpdateRule. case_match; simpl; [apply sort_sorted|done].
Qed.

Lemma run_wf ops e : engine_wf e → engine_wf (run ops e).
Proof. revert e. induction ops as [|o ops IH]; intros e H; simpl; auto using apply_op_wf. Qed.
End ops.

Lemma sorted_split_le l1 (r : Rule) l2 r' :
  StronglySorted prio_le (l1 ++ r :: l2) → In r' l2 → r_priority r <= r_priority r'.
Proof.
  intros Hs Hin. apply StronglySorted_app_1_r in Hs. inversion Hs as [|? ? _ HF]; subst.
  rewrite Forall_forall in HF. apply HF. by apply list_elem_of_In.
Qed.

(** C16: after any sequence of additions, removals, updates and replacements,
    and whatever order [std::sort] gives to equal priorities, the action of
    [Match] is that of an enabled matching rule of least priority, and it is
    Direct exactly when there is no such rule to decide otherwise. *)
Theorem match_decides_by_priority (sort : list Rule → list Rule) `{!StdSort sort}
    (ops : list op) (name path : text) :
  let e := run sort ops (mkRuleEngine []) in
  (Match name path e = Direct ∧ Forall (λ r, rule_matches name path r = false) (GetRules e)) ∨
  ∃ r, In r (GetRules e) ∧ rule_matches name path r = true ∧
       Match name path e = r_action r ∧
       ∀ r', In r' (GetRules e) → rule_matches name path r' = true →
             r_priority r <= r_priority r'.
Proof.
  intros e. assert (Hw : engine_wf e) by (apply run_wf; [done|constructor]).
  unfold Match, GetRules. rewrite match_rules_find.
  destruct (find_first (rule_matches name path) (m_rules e)) as [r|] eqn:E.
  - right. apply find_first_Some in E as (l1 & l2 & El & Hm & Hl1).
    unfold engine_wf in Hw. rewrite El in *. exists r.
    split; [apply in_or_app; simpl; auto|]. split; [done|]. split; [done|].
    intros r' Hin Hr'. apply in_app_or in Hin as [Hin|[->|Hin]].
    + rewrite Forall_forall in Hl1. apply list_elem_of_In, Hl1 in Hin. congruence.
    + lia.
    + by apply (sorted_split_le l1 r l2).
  - left. split; [done|]. by apply find_first_None.
Qed.

Lemma match_decides_by_priority_witness :
  let e := run (merge_sort prio_le)
    [OpAdd (mkRule (lit "b") Global Block [] [] 9 true 0 0);
     OpAdd (mkRule (lit "a") ProcessName Proxy (lit "chrome.exe") [] 1 true 0 0)]
    (mkRuleEngine []) in
  Match (lit "chrome.exe") [] e = Proxy ∧ Match (lit "x") [] e = Block ∧
  ∃ r, In r (GetRules e) ∧ rule_matches (lit "x") [] r = true.
Proof.
  split; [reflexivity|]. split; [reflexivity|].
  destruct (match_decides_by_priority (merge_sort prio_le)
    [OpAdd (mkRule (lit "b") Global Block [] [] 9 true 0 0);
     OpAdd (mkRule (lit "a") ProcessName Proxy (lit "chrome.exe") [] 1 true 0 0)]
    (lit "x") []) as [[H _]|(r & H1 & H2 & _)]; [discriminate H|eauto].
Defined.

(** * What the patterns mean *)

(** The header comment gives the meaning of a pattern: "*" any text, "t*" a
    prefix, "*t" a suffix, "*t*" a substring, and "t" an exact match. *)
Inductive documented_match : text → text → Prop :=
| doc_any txt : documented_match [star] txt
| doc_prefix t rest : documented_match (t ++ [star]) (t ++ rest)
| doc_suffix t rest : documented_match (star :: t) (rest ++ t)
| doc_substring t a b : documented_match (star :: t ++ [star]) (a ++ t ++ b)
| doc_exact t : documented_match t t.

Lemma back_app t c : back (t ++ [c]) = c.
Proof. unfold back. apply List.last_last. Qed.

Lemma find_sub_prefix t rest : find_sub t (t ++ rest) = Some O.
Proof.
  destruct (t ++ rest) eqn:E; cbn [find_sub]; rewrite <- E;
    assert (prefixb t (t ++ rest) = true) as -> by (apply prefixb_spec; eauto); done.
Qed.

Lemma wildcard_prefix t rest : WildcardMatch (t ++ [star]) (t ++ rest) = true.
Proof.
  unfold WildcardMatch. case_match; [done|]. case_match; [done|].
  rewrite back_app, Z.eqb_refl, andb_true_r. rewrite length_app. simpl length.
  destruct ((2 <=? length t + 1)%nat && (front (t ++ [star]) =? star)) eqn:E.
  - apply andb_prop in E as [E1 E2]. apply Nat.leb_le in E1. apply Z.eqb_eq in E2.
    destruct t as [|c t]; [simpl in E1; lia|]. simpl in E2. unfold front in E2. simpl in E2. subst c.
    simpl. rewrite ?drop_0. replace (length t + 1 - 1)%nat with (length t) by lia.
    rewrite take_app_length. apply contains_spec. exists [star], rest. done.
  - replace (length t + 1 - 1)%nat with (length t) by lia.
    by rewrite take_app_length, find_sub_prefix.
Qed.

Lemma between_stars t :
  (2 <=? length (star :: t ++ [star]))%nat = true ∧ front (star :: t ++ [star]) = star ∧
  back (star :: t ++ [star]) = star ∧
  take (length (star :: t ++ [star]) - 2) (drop 1 (star :: t ++ [star])) = t.
Proof.
  split; [apply Nat.leb_le; simpl; rewrite length_app; simpl; lia|].
  split; [done|]. split; [apply (back_app (star :: t))|].
  cbn [drop]. rewrite drop_0. simpl length. rewrite length_app. simpl length.
  replace (S (length t + 1) - 2)%nat with (length t) by lia. apply take_app_length.
Qed.

Lemma wildcard_substring t a b : WildcardMatch (star :: t ++ [star]) (a ++ t ++ b) = true.
Proof.
  unfold WildcardMatch. destruct (between_stars t) as (-> & -> & -> & ->).
  rewrite Z.eqb_refl. simpl. rewrite contains_app. repeat case_match; done.
Qed.

Lemma wildcard_suffix t rest : WildcardMatch (star :: t) (rest ++ t) = true.
Proof.
  destruct (decide (t = [])) as [->|Hne]; [by rewrite app_nil_r|].
  destruct (decide (back (star :: t) = star)) as [Hb|Hb].
  - destruct (exists_last Hne) as (t' & c & ->).
    change (star :: t' ++ [c]) with ((star :: t') ++ [c]) in Hb. rewrite back_app in Hb. subst c.
    pose proof (wildcard_substring t' rest [star]) as H. done.
  - unfold WildcardMatch. case_match; [done|]. case_match; [done|].
    apply Z.eqb_neq in Hb. rewrite Hb, andb_false_r. unfold front. simpl.
    rewrite drop_0.
    replace (length t <=? length (rest ++ t))%nat with true
      by (symmetry; apply Nat.leb_le; rewrite length_app; lia).
    apply text_eqb_spec. rewrite length_app.
    replace (length rest + length t - length t)%nat with (length rest) by lia.
    by rewrite drop_app_length.
Qed.

Lemma wildcard_substring_text p txt : contains p txt = true → WildcardMatch p txt = true.
Proof. intros H. unfold WildcardMatch. rewrite H. by case_match. Qed.

Lemma front_inv p : front p = star → p = star :: drop 1 p.
Proof.
  destruct p as [|c p]; unfold front; simpl; intros H; [unfold star in H; lia|].
  subst. by rewrite drop_0.
Qed.

Lemma back_inv p : back p = star → p = take (length p - 1) p ++ [star].
Proof.
  intros H. destruct (decide (p = [])) as [->|Hne]; [unfold back, star in H; simpl in H; lia|].
  destruct (exists_last Hne) as (p' & c & ->). rewrite back_app in H. subst c.
  rewrite length_app. simpl. replace (length p' + 1 - 1)%nat with (length p') by lia.
  by rewrite take_app_length.
Qed.

Lemma stars_inv p :
  (2 <= length p)%nat → front p = star → back p = star →
  p = star :: take (length p - 2) (drop 1 p) ++ [star].
Proof.
  intros Hl Hf Hb. destruct p as [|c [|d q]]; [simpl in Hl; lia..|].
  unfold front in Hf. simpl in Hf. subst c.
  assert (back (d :: q) = star) as Hb' by exact Hb.
  cbn [drop]. rewrite ?drop_0. rewrite (back_inv _ Hb') at 1. done.
Qed.

Lemma wildcard_inv p txt :
  WildcardMatch p txt = true → documented_match p txt ∨ contains p txt = true.
Proof.
  unfold WildcardMatch. destruct (text_eqb p [star]) eqn:E1.
  { apply text_eqb_spec in E1. subst. left. constructor. }
  destruct (contains p txt) eqn:E2; [auto|].
  destruct ((2 <=? length p)%nat && (front p =? star) && (back p =? star)) eqn:E3.
  { bool_to_prop. apply Nat.leb_le in H. intros Hc. apply contains_spec in Hc as (a & b & ->).
    left. rewrite (stars_inv p) at 1 by done. constructor. }
  destruct (back p =? star) eqn:E4.
  { bool_to_prop. destruct (find_sub _ txt) as [[|n]|] eqn:E5; [|done..].
    intros _. left. apply find_sub_Some in E5 as (H & _). rewrite drop_0 in H.
    apply prefixb_spec in H as [rest ->]. rewrite (back_inv _ E4) at 1. constructor. }
  destruct ((front p =? star) && (length (drop 1 p) <=? length txt)%nat) eqn:E5.
  { bool_to_prop. intros Ht. apply text_eqb_spec in Ht. left.
    rewrite (front_inv _ H). rewrite <- (take_drop (length txt - length (drop 1 p)) txt).
    rewrite Ht. constructor. }
  intros Ht. apply text_eqb_spec in Ht. subst. left. constructor.
Qed.

(** C22: a pattern matches a text exactly when the documented wildcard meaning
    holds or the raw pattern occurs in the text as a substring.  So a pattern
    without stars is not an exact match, as the comment says, but a substring
    match, and the empty pattern matches everything. *)
Theorem wildcard_match_meaning (p txt : text) :
  (WildcardMatch p txt = true ↔ documented_match p txt ∨ contains p txt = true) ∧
  WildcardMatch [] txt = true.
Proof.
  split; [split|].
  - apply wildcard_inv.
  - intros [Hd|Hc]; [|by apply wildcard_substring_text].
    destruct Hd; auto using wildcard_prefix, wildcard_suffix, wildcard_substring,
      wildcard_substring_text, contains_refl.
  - apply wildcard_substring_text, contains_nil.
Qed.

(** The documented exact match differs: a concrete pair. *)
Example plain_pattern_is_substring :
  WildcardMatch (lit "chrome.exe") (lit "notchrome.exe") = true.
Proof. reflexivity. Qed.

(** * Editing operations *)

Section edits.
Context (sort : list Rule → list Rule) `{!StdSort sort}.

Lemma AddRule_perm rule e : m_rules (fst (AddRule sort rule e)) ≡ₚ rule :: m_rules e.
Proof. simpl. rewrite sort_perm. by rewrite <- Permutation_cons_append. Qed.

Lemma filterb_negb_length (q : Rule → bool) l :
  (length (filterb (λ r, negb (q r)) l) =? length l)%nat = negb (existsb q l) ∧
  (existsb q l = false → filterb (λ r, negb (q r)) l = l).
Proof.
  induction l as [|r l [IH1 IH2]]; [done|]. cbn [filterb List.filter existsb length].
  pose proof (List.filter_length_le (λ r, negb (q r)) l) as Hle.
  destruct (q r); simpl.
  - split; [|done]. apply Nat.eqb_neq. unfold filterb in *. lia.
  - split; [exact IH1|]. intros H. f_equal. by apply IH2.
Qed.

Lemma RemoveRule_spec id e :
  m_rules (fst (RemoveRule id e)) = filterb (λ r, negb (text_eqb (r_id r) id)) (m_rules e) ∧
  snd (RemoveRule id e) = existsb (λ r, text_eqb (r_id r) id) (m_rules e).
Proof.
  unfold RemoveRule.
  destruct (filterb_negb_length (λ r, text_eqb (r_id r) id) (m_rules e)) as [-> H].
  destruct (existsb _ (m_rules e)) eqn:E; simpl; [done|].
  split; [|done]. by rewrite H.
Qed.

Lemma UpdateRule_result rule e :
  snd (UpdateRule sort rule e) = existsb (λ r, text_eqb (r_id r) (r_id rule)) (m_rules e).
Proof.
  unfold UpdateRule. generalize (m_rules e). intros l.
  destruct (find_first _ l) eqn:E; simpl.
  - symmetry. apply existsb_exists. apply find_first_Some in E as (l1 & l2 & -> & ? & _).
    eexists. split; [|done]. apply in_or_app. simpl. auto.
  - symmetry. apply not_true_is_false. rewrite existsb_exists. intros (r & Hin & Hr).
    rewrite find_first_None, Forall_forall in E.
    apply list_elem_of_In, E in Hin. congruence.
Qed.
End edits.

(** Adding a rule keeps exactly the old rules and the new one; removing an
    id drops every rule with that id, keeps the others in order, and reports
    whether there was one; updating an unknown id changes nothing and reports
    false. *)
Theorem rule_edits (sort : list Rule → list Rule) `{!StdSort sort} (e : RuleEngine) :
  (∀ rule, GetRules (fst (AddRule sort rule e)) ≡ₚ rule :: GetRules e) ∧
  (∀ id, GetRules (fst (RemoveRule id e))
           = filterb (λ r, negb (text_eqb (r_id r) id)) (GetRules e) ∧
         snd (RemoveRule id e) = existsb (λ r, text_eqb (r_id r) id) (GetRules e)) ∧
  (∀ rule, snd (UpdateRule sort rule e)
             = existsb (λ r, text_eqb (r_id r) (r_id rule)) (GetRules e) ∧
           (snd (UpdateRule sort rule e) = false → fst (UpdateRule sort rule e) = e)).
Proof.
  split; [|split].
  - intros rule. by apply AddRule_perm.
  - intros id. apply RemoveRule_spec.
  - intros rule. split; [apply UpdateRule_result|].
    unfold UpdateRule. by case_match.
Qed.

Lemma rule_edits_witness :
  let e := mkRuleEngine [mkRule (lit "a") Global Block [] [] 9 true 0 0] in
  snd (RemoveRule (lit "a") e) = true ∧
  snd (UpdateRule (merge_sort prio_le) (mkRule (lit "zz") Global Block [] [] 9 true 0 0) e) = false.
Proof.
  intros e. destruct (rule_edits (merge_sort prio_le) e) as (_ & HR & HU). split.
  - destruct (HR (lit "a")) as [_ ->]. reflexivity.
  - destruct (HU (mkRule (lit "zz") Global Block [] [] 9 true 0 0)) as [-> _]. reflexivity.
Defined.
