(* ===== verification/ConnectionTable.v ===== *)
(** [infrastructure/relay/ConnectionTable.h] and its port
    [domain/ports/IConnectionTable.h]: the chained hash table from local source
    ports to original destinations, shared by the capture thread and the relay.

    A bucket is the list of its chain, head first.  Every method holds the
    SRW lock from entry to return; executions are sequences of whole methods.
    [abs] is the abstraction: for each port, the stack of its connections, most
    recently created first.  Each method is shown to act on that stack alone. *)

From S2P Require Import Prelude.
From S2P Require Import Text.

Definition CONNECTION_HASH_SIZE : Z := 4096.

Record ConnectionEntry := mkEntry {
  ce_src_port : Z;
  ce_src_ip : Z;
  ce_orig_dest_ip : Z;
  ce_orig_dest_port : Z;
  ce_proxy_config_id : Z;
  ce_is_tracked : bool;
  ce_pid : Z;
  ce_proc_path : text;
  ce_bytes_up : Z;
  ce_bytes_down : Z
}.

Record ConnectionInfo := mkInfo {
  ci_pid : Z; ci_proc_path : text; ci_bytes_up : Z; ci_bytes_down : Z
}.

Record ConnectionTable := mkTable {
  m_table : list (list ConnectionEntry);
  m_trackedCount : Z
}.

(** * Operations *)

Definition ConnectionTable_new : ConnectionTable :=
  mkTable (replicate (Z.to_nat CONNECTION_HASH_SIZE) []) 0.

Definition hash (src_port : Z) : nat := Z.to_nat (src_port mod CONNECTION_HASH_SIZE).

Definition bucket (t : ConnectionTable) (h : nat) : list ConnectionEntry :=
  default [] (m_table t !! h).

Definition set_bucket (t : ConnectionTable) (h : nat) (b : list ConnectionEntry)
    : ConnectionTable :=
  mkTable (<[h := b]> (m_table t)) (m_trackedCount t).

Definition GetTrackedCount (t : ConnectionTable) : Z := m_trackedCount t.

Definition port_is (src_port : Z) (e : ConnectionEntry) : bool := ce_src_port e =? src_port.

Definition port_tracked (src_port : Z) (e : ConnectionEntry) : bool :=
  (ce_src_port e =? src_port) && ce_is_tracked e.

Definition same_key (src_port orig_dest_ip : Z) (e : ConnectionEntry) : bool :=
  (ce_src_port e =? src_port) && (ce_orig_dest_ip e =? orig_dest_ip).

Definition refresh_entry (src_ip orig_dest_port proxy_config_id : Z) (e : ConnectionEntry) :=
  mkEntry (ce_src_port e) src_ip (ce_orig_dest_ip e) orig_dest_port proxy_config_id true
          (ce_pid e) (ce_proc_path e) (ce_bytes_up e) (ce_bytes_down e).

Definition fresh_entry (src_port src_ip orig_dest_ip orig_dest_port proxy_config_id : Z) :=
  mkEntry src_port src_ip orig_dest_ip orig_dest_port proxy_config_id true 0 [] 0 0.

Definition Add (src_port src_ip orig_dest_ip orig_dest_port proxy_config_id : Z)
    (t : ConnectionTable) : ConnectionTable :=
  let h := hash src_port in
  match find_first (same_key src_port orig_dest_ip) (bucket t h) with
  | Some _ =>
      set_bucket t h (update_first (same_key src_port orig_dest_ip)
        (refresh_entry src_ip orig_dest_port proxy_config_id) (bucket t h))
  | None =>
      mkTable (<[h := fresh_entry src_port src_ip orig_dest_ip orig_dest_port proxy_config_id
                       :: bucket t h]> (m_table t))
              (m_trackedCount t +u32 1)
  end.

Definition Get (src_port : Z) (t : ConnectionTable) : option (Z * Z) :=
  match find_first (port_tracked src_port) (bucket t (hash src_port)) with
  | Some e => Some (ce_orig_dest_ip e, ce_orig_dest_port e)
  | None => None
  end.

Definition GetProxyConfigId (src_port : Z) (t : ConnectionTable) : Z :=
  match find_first (port_tracked src_port) (bucket t (hash src_port)) with
  | Some e => ce_proxy_config_id e
  | None => 0
  end.

Definition IsTracked (src_port : Z) (t : ConnectionTable) : bool :=
  match find_first (port_tracked src_port) (bucket t (hash src_port)) with
  | Some _ => true
  | None => false
  end.

Definition Remove (src_port : Z) (t : ConnectionTable) : ConnectionTable :=
  let h := hash src_port in
  match find_first (port_is src_port) (bucket t h) with
  | Some _ =>
      mkTable (<[h := remove_first (port_is src_port) (bucket t h)]> (m_table t))
              (if 0 <? m_trackedCount t then m_trackedCount t -u32 1 else m_trackedCount t)
  | None => t
  end.

Definition with_process (pid : Z) (path : option text) (e : ConnectionEntry) :=
  mkEntry (ce_src_port e) (ce_src_ip e) (ce_orig_dest_ip e) (ce_orig_dest_port e)
          (ce_proxy_config_id e) (ce_is_tracked e) pid
          (match path with Some p => cstr p | None => ce_proc_path e end)
          (ce_bytes_up e) (ce_bytes_down e).

(** [wcscpy_s] into [wchar_t proc_path[260]] calls the invalid parameter
    handler, which ends the process, when the text does not fit: [None]. *)
Definition SetProcessInfo (src_port pid : Z) (proc_path : option text) (t : ConnectionTable)
    : option ConnectionTable :=
  let h := hash src_port in
  match find_first (port_tracked src_port) (bucket t h) with
  | Some _ =>
      match proc_path with
      | Some p => if 260 <=? Z.of_nat (length (cstr p)) then None
                  else Some (set_bucket t h (update_first (port_tracked src_port)
                              (with_process pid proc_path) (bucket t h)))
      | None => Some (set_bucket t h (update_first (port_tracked src_port)
                              (with_process pid proc_path) (bucket t h)))
      end
  | None => Some t
  end.

Definition Clear (t : ConnectionTable) : ConnectionTable :=
  mkTable (replicate (Z.to_nat CONNECTION_HASH_SIZE) []) 0.

Definition with_bytes (up down : Z) (e : ConnectionEntry) :=
  mkEntry (ce_src_port e) (ce_src_ip e) (ce_orig_dest_ip e) (ce_orig_dest_port e)
          (ce_proxy_config_id e) (ce_is_tracked e) (ce_pid e) (ce_proc_path e)
          (ce_bytes_up e +u64 up) (ce_bytes_down e +u64 down).

Definition AddBytes (src_port up down : Z) (t : ConnectionTable) : ConnectionTable :=
  let h := hash src_port in
  match find_first (port_tracked src_port) (bucket t h) with
  | Some _ => set_bucket t h (update_first (port_tracked src_port)
                               (with_bytes up down) (bucket t h))
  | None => t
  end.

Definition GetInfo (src_port : Z) (t : ConnectionTable) : option ConnectionInfo :=
  match find_first (port_tracked src_port) (bucket t (hash src_port)) with
  | Some e => Some (mkInfo (ce_pid e) (ce_proc_path e) (ce_bytes_up e) (ce_bytes_down e))
  | None => None
  end.

(** * Invariant *)

Definition entry_ok (h : nat) (e : ConnectionEntry) : Prop :=
  hash (ce_src_port e) = h ∧ ce_is_tracked e = true.

Record table_wf (t : ConnectionTable) : Prop := {
  wf_size : length (m_table t) = Z.to_nat CONNECTION_HASH_SIZE;
  wf_entries : ∀ h, Forall (entry_ok h) (bucket t h)
}.

Lemma hash_lt p : (hash p < Z.to_nat CONNECTION_HASH_SIZE)%nat.
Proof.
  unfold hash, CONNECTION_HASH_SIZE. pose proof (Z.mod_pos_bound p 4096). lia.
Qed.

Lemma hash_bound t p : table_wf t → (hash p < length (m_table t))%nat.
Proof. intros []. rewrite wf_size0. apply hash_lt. Qed.

Lemma bucket_insert t h h' b c :
  (h < length (m_table t))%nat →
  bucket (mkTable (<[h := b]> (m_table t)) c) h' = if decide (h = h') then b else bucket t h'.
Proof.
  intros Hlt. unfold bucket. simpl. case_decide as E.
  - subst. by rewrite list_lookup_insert_eq.
  - by rewrite list_lookup_insert_ne.
Qed.

Lemma wf_insert t h b c :
  table_wf t → Forall (entry_ok h) b → table_wf (mkTable (<[h := b]> (m_table t)) c).
Proof.
  intros [Hs He] Hb. split; simpl.
  - by rewrite length_insert.
  - intros h'. destruct (decide (h < length (m_table t))%nat) as [Hlt|Hge].
    + rewrite bucket_insert by done. case_decide; subst; auto.
    + unfold bucket. simpl. rewrite list_insert_ge by lia. apply He.
Qed.

Lemma bucket_new c h : bucket (mkTable (replicate (Z.to_nat CONNECTION_HASH_SIZE) []) c) h = [].
Proof.
  unfold bucket. cbn [m_table]. generalize (Z.to_nat CONNECTION_HASH_SIZE). intros n.
  destruct (_ !! h) as [b|] eqn:E; [|done].
  apply lookup_replicate in E as [-> _]. done.
Qed.

Lemma new_wf : table_wf ConnectionTable_new.
Proof.
  split.
  - unfold ConnectionTable_new. cbn [m_table]. by rewrite length_replicate.
  - intros h. unfold ConnectionTable_new. by rewrite bucket_new.
Qed.

Lemma Clear_wf t : table_wf (Clear t).
Proof. exact new_wf. Qed.

Lemma Add_wf p sip dip dport cfg t : table_wf t → table_wf (Add p sip dip dport cfg t).
Proof.
  intros Hw. unfold Add. case_match; apply wf_insert; auto.
  - apply Forall_update_first; [apply Hw|]. intros e [? ?] _. done.
  - constructor; [done|apply Hw].
Qed.

Lemma Remove_wf p t : table_wf t → table_wf (Remove p t).
Proof.
  intros Hw. unfold Remove. case_match; [|done].
  apply wf_insert; auto. apply Forall_remove_first, Hw.
Qed.

Lemma update_bucket_wf p f t :
  table_wf t → (∀ e, ce_src_port (f e) = ce_src_port e ∧ ce_is_tracked (f e) = ce_is_tracked e) →
  table_wf (set_bucket t (hash p) (update_first (port_tracked p) f (bucket t (hash p)))).
Proof.
  intros Hw Hf. apply wf_insert; [done|]. apply Forall_update_first; [apply Hw|].
  intros e [H1 H2] _. unfold entry_ok. by destruct (Hf e) as [-> ->].
Qed.

Lemma SetProcessInfo_wf p pid path t t' :
  table_wf t → SetProcessInfo p pid path t = Some t' → table_wf t'.
Proof.
  intros Hw. unfold SetProcessInfo.
  destruct (find_first _ _); [|by intros [= <-]].
  destruct path as [path|]; [destruct (260 <=? _); [done|]|];
    intros [= <-]; by apply update_bucket_wf.
Qed.

Lemma AddBytes_wf p up down t : table_wf t → table_wf (AddBytes p up down t).
Proof. intros Hw. unfold AddBytes. case_match; [|done]. by apply update_bucket_wf. Qed.

Create HintDb conntable discriminated.
#[export] Hint Resolve new_wf Clear_wf Add_wf Remove_wf SetProcessInfo_wf AddBytes_wf : conntable.

(** * Refinement: a table is a family of stacks indexed by port *)

Definition abs (t : ConnectionTable) (p : Z) : list ConnectionEntry :=
  filterb (port_is p) (bucket t (hash p)).

Module Stack.
Definition dest_is (dip : Z) (e : ConnectionEntry) : bool := ce_orig_dest_ip e =? dip.

Definition add (p sip dip dport cfg : Z) (s : list ConnectionEntry) :=
  match find_first (dest_is dip) s with
  | Some _ => update_first (dest_is dip) (refresh_entry sip dport cfg) s
  | None => fresh_entry p sip dip dport cfg :: s
  end.

Definition modify_top (f : ConnectionEntry → ConnectionEntry) (s : list ConnectionEntry) :=
  match s with [] => [] | e :: s' => f e :: s' end.
End Stack.

Definition upd {A} (p : Z) (x : A) (f : Z → A) (q : Z) : A := if decide (p = q) then x else f q.

Lemma port_is_spec p e : port_is p e = true ↔ ce_src_port e = p.
Proof. apply Z.eqb_eq. Qed.

Lemma port_is_other p q e : p ≠ q → port_is p e = true → port_is q e = false.
Proof.
  rewrite port_is_spec. intros Hne Hp. unfold port_is. rewrite Hp. by apply Z.eqb_neq.
Qed.

Lemma tracked_is p l h :
  Forall (entry_ok h) l → find_first (port_tracked p) l = head (filterb (port_is p) l) ∧
  ∀ f, update_first (port_tracked p) f l = update_first (port_is p) f l.
Proof.
  intros HF. rewrite <- find_first_filter.
  induction HF as [|e l [_ Ht] _ [IH1 IH2]]; simpl; [done|].
  unfold port_tracked, port_is in *. rewrite Ht, andb_true_r.
  destruct (ce_src_port e =? p); [done|]. split; [done|]. intros f. by rewrite IH2.
Qed.

Lemma find_tracked t p :
  table_wf t → find_first (port_tracked p) (bucket t (hash p)) = head (abs t p).
Proof. intros Hw. apply (tracked_is p _ (hash p)), Hw. Qed.

Lemma abs_ports t p : Forall (λ e, port_is p e = true) (abs t p).
Proof.
  unfold abs. apply Forall_forall. intros e He.
  apply list_elem_of_In in He. by apply filter_In in He as [_ He].
Qed.

Lemma update_first_top p f s :
  Forall (λ e, port_is p e = true) s → update_first (port_is p) f s = Stack.modify_top f s.
Proof. intros HF. destruct HF as [|e s He]; simpl; [done|by rewrite He]. Qed.

Lemma update_top_abs p f t q :
  table_wf t → (∀ e, ce_src_port (f e) = ce_src_port e) →
  abs (set_bucket t (hash p) (update_first (port_tracked p) f (bucket t (hash p)))) q
  = upd p (Stack.modify_top f (abs t p)) (abs t) q.
Proof.
  intros Hw Hf. unfold abs, set_bucket, upd.
  rewrite bucket_insert by (by apply hash_bound).
  rewrite (proj2 (tracked_is p _ (hash p) (wf_entries t Hw _))).
  assert (Hpf : ∀ x e, port_is x (f e) = port_is x e) by (intros; unfold port_is; by rewrite Hf).
  destruct (decide (p = q)) as [->|Hne].
  - rewrite decide_True by done.
    rewrite filterb_update_first_same by (intros; by rewrite ?Hpf).
    apply update_first_top, abs_ports.
  - case_decide as Hh; [|done]. rewrite filterb_update_first_other; [by rewrite Hh|].
    intros e He. rewrite Hpf. split; by apply (port_is_other p q).
Qed.

Lemma same_key_split p dip e : same_key p dip e = port_is p e && Stack.dest_is dip e.
Proof. done. Qed.

Lemma find_same_key p dip l :
  find_first (same_key p dip) l = find_first (Stack.dest_is dip) (filterb (port_is p) l).
Proof.
  induction l as [|e l IH]; simpl; [done|]. rewrite same_key_split.
  destruct (port_is p e); simpl; [by rewrite IH|done].
Qed.

Lemma update_same_key p dip f l :
  (∀ e, ce_src_port (f e) = ce_src_port e) →
  filterb (port_is p) (update_first (same_key p dip) f l)
  = update_first (Stack.dest_is dip) f (filterb (port_is p) l).
Proof.
  intros Hf. induction l as [|e l IH]; simpl; [done|]. rewrite same_key_split.
  destruct (port_is p e) eqn:E; simpl.
  - destruct (Stack.dest_is dip e); simpl.
    + assert (port_is p (f e) = true) as -> by (unfold port_is; rewrite Hf; exact E). done.
    + by rewrite E, IH.
  - by rewrite E.
Qed.

Lemma Add_abs p sip dip dport cfg t q :
  table_wf t →
  abs (Add p sip dip dport cfg t) q = upd p (Stack.add p sip dip dport cfg (abs t p)) (abs t) q.
Proof.
  intros Hw. unfold Add, Stack.add. rewrite find_same_key. fold (abs t p).
  destruct (find_first (Stack.dest_is dip) (abs t p)) eqn:E; unfold abs at 1, upd, set_bucket;
    rewrite bucket_insert by (by apply hash_bound).
  - destruct (decide (p = q)) as [->|Hne].
    + rewrite decide_True by done. by apply update_same_key.
    + case_decide as Hh; [|done]. rewrite filterb_update_first_other; [by rewrite Hh|].
      intros e He. rewrite same_key_split in He. apply andb_prop in He as [He _].
      split; by apply (port_is_other p q).
  - destruct (decide (p = q)) as [->|Hne].
    + rewrite decide_True by done. simpl. unfold port_is at 1. simpl. by rewrite Z.eqb_refl.
    + case_decide as Hh; [|done]. simpl. unfold port_is at 1. simpl.
      destruct (Z.eqb_spec p q); [done|]. by rewrite Hh.
Qed.

Lemma Remove_abs p t q :
  table_wf t → abs (Remove p t) q = upd p (tail (abs t p)) (abs t) q.
Proof.
  intros Hw. unfold Remove, upd. rewrite find_first_filter. fold (abs t p).
  destruct (abs t p) as [|e s] eqn:E; simpl.
  { case_decide; subst; by rewrite ?E. }
  unfold abs at 1. rewrite bucket_insert by (by apply hash_bound).
  destruct (decide (p = q)) as [->|Hne].
  - rewrite decide_True by done. rewrite filterb_remove_first_same.
    fold (abs t q). by rewrite E.
  - case_decide as Hh; [|done]. rewrite filterb_remove_first_other; [by rewrite Hh|].
    intros x Hx. by apply (port_is_other p q).
Qed.

Lemma AddBytes_abs p up down t q :
  table_wf t →
  abs (AddBytes p up down t) q
  = upd p (Stack.modify_top (with_bytes up down) (abs t p)) (abs t) q.
Proof.
  intros Hw. unfold AddBytes. rewrite find_tracked by done.
  destruct (abs t p) as [|e s] eqn:E; simpl.
  - unfold upd. case_decide; subst; by rewrite ?E.
  - rewrite update_top_abs by done. by rewrite E.
Qed.

Lemma SetProcessInfo_abs p pid path t t' q :
  table_wf t → SetProcessInfo p pid path t = Some t' →
  abs t' q = upd p (Stack.modify_top (with_process pid path) (abs t p)) (abs t) q.
Proof.
  intros Hw. unfold SetProcessInfo. rewrite find_tracked by done.
  destruct (abs t p) as [|e s] eqn:E; cbn [head].
  - intros [= <-]. unfold upd. case_decide; subst; by rewrite ?E.
  - destruct path as [path|]; [destruct (260 <=? _); [done|]|];
      intros [= <-]; rewrite update_top_abs by done; by rewrite E.
Qed.

(** C17: the hash table implements a family of stacks, one per source port.
    Adding pushes a connection on the port's stack, or refreshes the one with
    the same destination; removing pops; byte counts and process information
    go to the top; lookups read the top; no method touches another port, even
    one that shares the bucket. *)
Theorem table_refines_stacks (t : ConnectionTable) (p : Z) :
  table_wf t →
  (∀ sip dip dport cfg q,
     abs (Add p sip dip dport cfg t) q
     = upd p (Stack.add p sip dip dport cfg (abs t p)) (abs t) q) ∧
  (∀ q, abs (Remove p t) q = upd p (tail (abs t p)) (abs t) q) ∧
  (∀ up down q, abs (AddBytes p up down t) q
     = upd p (Stack.modify_top (with_bytes up down) (abs t p)) (abs t) q) ∧
  (∀ pid path t' q, SetProcessInfo p pid path t = Some t' →
     abs t' q = upd p (Stack.modify_top (with_process pid path) (abs t p)) (abs t) q) ∧
  (∀ q, abs (Clear t) q = []) ∧
  Get p t = (λ e, (ce_orig_dest_ip e, ce_orig_dest_port e)) <$> head (abs t p) ∧
  GetProxyConfigId p t = default 0 (ce_proxy_config_id <$> head (abs t p)) ∧
  IsTracked p t = bool_decide (is_Some (head (abs t p))) ∧
  GetInfo p t = (λ e, mkInfo (ce_pid e) (ce_proc_path e) (ce_bytes_up e) (ce_bytes_down e))
                  <$> head (abs t p).
Proof.
  intros Hw. split; [intros; by apply Add_abs|]. split; [intros; by apply Remove_abs|].
  split; [intros; by apply AddBytes_abs|].
  split; [intros; by eapply SetProcessInfo_abs|].
  split.
  { intros q. unfold abs, Clear. by rewrite bucket_new. }
  unfold Get, GetProxyConfigId, IsTracked, GetInfo. rewrite find_tracked by done.
  destruct (head (abs t p)); simpl; repeat split; by rewrite ?bool_decide_true.
Qed.

Definition sample_table : ConnectionTable :=
  Add 4099 7 20 443 1 (Add 3 7 10 80 1 ConnectionTable_new).

Lemma table_refines_stacks_witness :
  table_wf sample_table ∧ Get 3 sample_table = Some (10, 80) ∧
  abs (Remove 4099 sample_table) 3 = abs sample_table 3.
Proof.
  assert (table_wf sample_table) as Hw by (unfold sample_table; auto with conntable).
  split; [done|]. split; [reflexivity|].
  destruct (table_refines_stacks sample_table 4099 Hw) as (_ & HR & _).
  rewrite (HR 3). reflexivity.
Defined.

(** * The count of tracked connections *)

Definition total (t : ConnectionTable) : nat := length (concat (m_table t)).

Lemma length_concat_insert {A} (ls : list (list A)) h b b' :
  ls !! h = Some b →
  (length (concat (<[h := b']> ls)) + length b = length (concat ls) + length b')%nat.
Proof.
  revert h. induction ls as [|l ls IH]; intros h; [done|].
  destruct h as [|h]; simpl; rewrite !length_app.
  - intros [= ->]. lia.
  - intros H. specialize (IH h H). lia.
Qed.

Lemma total_insert t p b c :
  table_wf t →
  (total (mkTable (<[hash p := b]> (m_table t)) c) + length (bucket t (hash p))
   = total t + length b)%nat.
Proof.
  intros Hw. unfold total. cbn [m_table]. apply length_concat_insert.
  destruct (lookup_lt_is_Some_2 _ _ (hash_bound t p Hw)) as [x Hx].
  unfold bucket. by rewrite Hx.
Qed.

Lemma total_new c : total (mkTable (replicate (Z.to_nat CONNECTION_HASH_SIZE) []) c) = O.
Proof.
  unfold total. cbn [m_table]. generalize (Z.to_nat CONNECTION_HASH_SIZE). intros n.
  induction n; [done|]. simpl. done.
Qed.

Lemma total_update t p f q :
  table_wf t →
  total (set_bucket t (hash p) (update_first q f (bucket t (hash p)))) = total t.
Proof.
  intros Hw. pose proof (total_insert t p (update_first q f (bucket t (hash p)))
    (m_trackedCount t) Hw) as H.
  rewrite length_update_first in H. unfold set_bucket. lia.
Qed.

(** Calls of the methods, in the order the lock serialises them. *)
Inductive table_op :=
| TAdd (src_port src_ip orig_dest_ip orig_dest_port proxy_config_id : Z)
| TRemove (src_port : Z)
| TSetProcessInfo (src_port pid : Z) (path : option text)
| TAddBytes (src_port up down : Z)
| TClear.

Definition table_step (o : table_op) (t : ConnectionTable) : option ConnectionTable :=
  match o with
  | TAdd p sip dip dport cfg => Some (Add p sip dip dport cfg t)
  | TRemove p => Some (Remove p t)
  | TSetProcessInfo p pid path => SetProcessInfo p pid path t
  | TAddBytes p up down => Some (AddBytes p up down t)
  | TClear => Some (Clear t)
  end.

Fixpoint table_run (ops : list table_op) (t : ConnectionTable) : option ConnectionTable :=
  match ops with
  | [] => Some t
  | o :: ops' => match table_step o t with Some t' => table_run ops' t' | None => None end
  end.

Lemma table_step_wf o t t' : table_wf t → table_step o t = Some t' → table_wf t'.
Proof.
  intros Hw. destruct o; simpl; try (intros [= <-]); auto with conntable.
  by apply SetProcessInfo_wf.
Qed.

Lemma remove_first_found {A} (p : A → bool) l x :
  find_first p l = Some x → S (length (remove_first p l)) = length l.
Proof.
  intros E. rewrite remove_first_length, E. destruct l; [done|]. simpl. done.
Qed.

(** The counter of the table agrees with its contents: one call keeps it so. *)
Lemma count_step o t t' :
  table_wf t → m_trackedCount t = Z.of_nat (total t) → Z.of_nat (total t) + 1 < 2 ^ 32 →
  table_step o t = Some t' →
  m_trackedCount t' = Z.of_nat (total t') ∧ (total t' <= S (total t))%nat.
Proof.
  intros Hw Hc Hlt. destruct o as [p sip dip dport cfg|p|p pid path|p up down|]; cbn [table_step].
  - intros [= <-]. unfold Add. case_match.
    + rewrite total_update by done. split; [exact Hc|lia].
    + cbn [m_trackedCount].
      pose proof (total_insert t p (fresh_entry p sip dip dport cfg :: bucket t (hash p))
        (m_trackedCount t +u32 1) Hw) as HT.
      cbn [length] in HT. rewrite Hc, wrap_small in * by (unfold in_u; lia). lia.
  - intros [= <-]. unfold Remove. destruct (find_first _ _) as [x|] eqn:E; [|split; [done|lia]].
    apply remove_first_found in E.
    pose proof (total_insert t p (remove_first (port_is p) (bucket t (hash p)))
      (m_trackedCount t - 1) Hw) as HT.
    destruct (Z.ltb_spec 0 (m_trackedCount t)); [|unfold total in *; cbn [m_table] in *; lia].
    rewrite wrap_small by (unfold in_u; lia). cbn [m_trackedCount]. lia.
  - unfold SetProcessInfo. case_match; [|intros [= <-]; split; [done|lia]].
    destruct path as [path|]; [destruct (260 <=? _); [done|]|]; intros [= <-];
      (rewrite total_update by done); (split; [exact Hc|lia]).
  - intros [= <-]. unfold AddBytes. case_match; [|split; [done|lia]].
    rewrite total_update by done. split; [exact Hc|lia].
  - intros [= <-]. unfold Clear. rewrite total_new. cbn [m_trackedCount]. lia.
Qed.

(** after any sequence of method calls shorter than 2^32, the tracked count
    is the number of entries stored: each connection counted once however
    often it is added again, and the counter neither wraps nor underflows. *)
Theorem tracked_count_is_size (ops : list table_op) (t : ConnectionTable) :
  table_run ops ConnectionTable_new = Some t → Z.of_nat (length ops) < 2 ^ 32 →
  GetTrackedCount t = Z.of_nat (length (concat (m_table t))) ∧
  GetTrackedCount t <= Z.of_nat (length ops).
Proof.
  assert (Hgen : ∀ t0, table_wf t0 → m_trackedCount t0 = Z.of_nat (total t0) →
    Z.of_nat (total t0 + length ops) < 2 ^ 32 → table_run ops t0 = Some t →
    m_trackedCount t = Z.of_nat (total t) ∧ (total t <= total t0 + length ops)%nat).
  { induction ops as [|o ops IH]; intros t0 Hw Hc Hlt.
    - intros [= <-]. split; [done|]. lia.
    - cbn [table_run length] in *. destruct (table_step o t0) as [t1|] eqn:E; [|done].
      intros Hr. destruct (count_step o t0 t1) as [H1 H2]; [done..|lia|done|].
      destruct (IH t1) as [H3 H4]; [by eapply table_step_wf|done|lia|done|]. lia. }
  intros Hr Hlt. destruct (Hgen ConnectionTable_new) as [H1 H2]; [apply new_wf|..|done|].
  - unfold ConnectionTable_new. by rewrite total_new.
  - unfold ConnectionTable_new. rewrite total_new. simpl. exact Hlt.
  - unfold ConnectionTable_new in H2. rewrite total_new in H2.
    unfold GetTrackedCount. unfold total in *. lia.
Qed.

Lemma tracked_count_is_size_witness :
  match table_run [TAdd 5 1 2 80 0; TAdd 5 1 2 81 0; TAdd 4101 1 2 80 0; TRemove 5; TRemove 5]
          ConnectionTable_new with
  | Some t => GetTrackedCount t = 1 ∧ GetTrackedCount t <= 5
  | None => False
  end.
Proof.
  destruct (table_run _ _) as [t|] eqn:E; [|vm_compute in E; discriminate E].
  destruct (tracked_count_is_size _ t E) as [_ H]; [simpl; lia|].
  split; [|exact H]. vm_compute in E. injection E as <-. reflexivity.
Defined.

(** * The port [IConnectionTable]

    What the capture thread and the relay rely on: a table maps a local port
    to an original destination.  [it_wf] is the invariant of the
    implementation. *)

Class IConnectionTable (T : Type) := {
  it_wf : T → Prop;
  it_Add : Z → Z → Z → Z → Z → T → T;
  it_Get : Z → T → option (Z * Z);
  it_GetProxyConfigId : Z → T → Z;
  it_IsTracked : Z → T → bool;
  it_Remove : Z → T → T;
  it_Clear : T → T;
  it_SetProcessInfo : Z → Z → option text → T → option T;
  it_AddBytes : Z → Z → Z → T → T;
  it_GetInfo : Z → T → option ConnectionInfo;
  it_GetTrackedCount : T → Z;
  it_depth : Z → T → nat;    (* connections recorded for a port *)

  it_Add_wf : ∀ p a b c d t, it_wf t → it_wf (it_Add p a b c d t);
  it_Remove_wf : ∀ p t, it_wf t → it_wf (it_Remove p t);
  it_AddBytes_wf : ∀ p u d t, it_wf t → it_wf (it_AddBytes p u d t);
  it_SetProcessInfo_wf : ∀ p pid path t t',
    it_wf t → it_SetProcessInfo p pid path t = Some t' → it_wf t';
  it_tracked : ∀ p t, it_wf t → it_IsTracked p t = bool_decide (is_Some (it_Get p t));
  it_depth_Get : ∀ p t, it_wf t → it_Get p t = None ↔ it_depth p t = O;
  it_Add_same : ∀ p a dip dport d t, it_wf t → it_Get p t = None →
    it_Get p (it_Add p a dip dport d t) = Some (dip, dport) ∧
    it_depth p (it_Add p a dip dport d t) = 1%nat;
  it_Add_other : ∀ p q a b c d t, it_wf t → p ≠ q →
    it_Get q (it_Add p a b c d t) = it_Get q t ∧ it_depth q (it_Add p a b c d t) = it_depth q t;
  it_Remove_same : ∀ p t, it_wf t → it_depth p (it_Remove p t) = pred (it_depth p t);
  it_Remove_other : ∀ p q t, it_wf t → p ≠ q →
    it_Get q (it_Remove p t) = it_Get q t ∧ it_depth q (it_Remove p t) = it_depth q t;
  it_AddBytes_Get : ∀ p q u d t, it_wf t →
    it_Get q (it_AddBytes p u d t) = it_Get q t ∧
    it_depth q (it_AddBytes p u d t) = it_depth q t;
  it_SetProcessInfo_Get : ∀ p q pid path t t',
    it_wf t → it_SetProcessInfo p pid path t = Some t' →
    it_Get q t' = it_Get q t ∧ it_depth q t' = it_depth q t;
  it_SetProcessInfo_fits : ∀ p pid path t,
    Z.of_nat (length path) < 260 → is_Some (it_SetProcessInfo p pid (Some path) t);
  it_GetInfo_tracked : ∀ p t, it_wf t → is_Some (it_GetInfo p t) ↔ is_Some (it_Get p t)
}.

Section ports.
Implicit Types t : ConnectionTable.

Lemma Get_abs p t :
  table_wf t → Get p t = (λ e, (ce_orig_dest_ip e, ce_orig_dest_port e)) <$> head (abs t p).
Proof. intros Hw. unfold Get. rewrite find_tracked by done. by destruct (head (abs t p)). Qed.

Lemma IsTracked_Get p t : table_wf t → IsTracked p t = bool_decide (is_Some (Get p t)).
Proof.
  intros Hw. unfold IsTracked, Get. rewrite find_tracked by done.
  destruct (head (abs t p)); [by rewrite bool_decide_true|done].
Qed.

Lemma Get_None_abs p t : table_wf t → Get p t = None → abs t p = [].
Proof. intros Hw. rewrite Get_abs by done. by destruct (abs t p). Qed.

Definition depth (p : Z) (t : ConnectionTable) : nat := length (abs t p).

Lemma depth_Get p t : table_wf t → Get p t = None ↔ depth p t = O.
Proof.
  intros Hw. rewrite Get_abs by done. unfold depth.
  destruct (abs t p); simpl; split; done.
Qed.

Lemma same_stack p t t' :
  table_wf t → table_wf t' → abs t' p = abs t p → Get p t' = Get p t ∧ depth p t' = depth p t.
Proof. intros Hw Hw' E. unfold depth. rewrite !Get_abs, E by done. done. Qed.

Lemma Add_same p a dip dport d t :
  table_wf t → Get p t = None →
  Get p (Add p a dip dport d t) = Some (dip, dport) ∧ depth p (Add p a dip dport d t) = 1%nat.
Proof.
  intros Hw Hn. apply Get_None_abs in Hn; [|done].
  unfold depth. rewrite Get_abs, Add_abs by auto with conntable. unfold upd.
  rewrite decide_True by done. rewrite Hn. done.
Qed.

Lemma Add_other p q a b c d t : table_wf t → p ≠ q →
  Get q (Add p a b c d t) = Get q t ∧ depth q (Add p a b c d t) = depth q t.
Proof.
  intros Hw Hne. apply same_stack; auto with conntable.
  rewrite Add_abs by done. unfold upd. by rewrite decide_False.
Qed.

Lemma Remove_same p t : table_wf t → depth p (Remove p t) = pred (depth p t).
Proof.
  intros Hw. unfold depth. rewrite Remove_abs by done. unfold upd.
  rewrite decide_True by done. by destruct (abs t p).
Qed.

Lemma Remove_other p q t : table_wf t → p ≠ q →
  Get q (Remove p t) = Get q t ∧ depth q (Remove p t) = depth q t.
Proof.
  intros Hw Hne. apply same_stack; auto with conntable.
  rewrite Remove_abs by done. unfold upd. by rewrite decide_False.
Qed.

Lemma Get_top p f t t' :
  table_wf t → table_wf t' → (∀ q, abs t' q = upd p (Stack.modify_top f (abs t p)) (abs t) q) →
  (∀ e, ce_orig_dest_ip (f e) = ce_orig_dest_ip e ∧
        ce_orig_dest_port (f e) = ce_orig_dest_port e) →
  ∀ q, Get q t' = Get q t ∧ depth q t' = depth q t.
Proof.
  intros Hw Hw' Ha Hf q. unfold depth. rewrite !Get_abs, Ha by done. unfold upd.
  case_decide as E; [subst q|done]. destruct (abs t p) as [|e s]; [done|]. simpl.
  by destruct (Hf e) as [-> ->].
Qed.

Lemma AddBytes_Get p q u d t : table_wf t →
  Get q (AddBytes p u d t) = Get q t ∧ depth q (AddBytes p u d t) = depth q t.
Proof.
  intros Hw. apply (Get_top p (with_bytes u d)); auto with conntable.
  intros. by apply AddBytes_abs.
Qed.

Lemma SetProcessInfo_Get p q pid path t t' :
  table_wf t → SetProcessInfo p pid path t = Some t' →
  Get q t' = Get q t ∧ depth q t' = depth q t.
Proof.
  intros Hw Hs. apply (Get_top p (with_process pid path)); eauto with conntable.
  intros. by apply SetProcessInfo_abs.
Qed.

Lemma cstr_length s : (length (cstr s) <= length s)%nat.
Proof. induction s as [|c s IH]; simpl; [done|]. destruct (c =? 0); simpl; lia. Qed.

Lemma SetProcessInfo_fits p pid path t :
  Z.of_nat (length path) < 260 → is_Some (SetProcessInfo p pid (Some path) t).
Proof.
  intros Hl. unfold SetProcessInfo. case_match; [|done].
  destruct (Z.leb_spec 260 (Z.of_nat (length (cstr path)))); [|done].
  pose proof (cstr_length path). lia.
Qed.

Lemma GetInfo_tracked p t : table_wf t → is_Some (GetInfo p t) ↔ is_Some (Get p t).
Proof.
  intros Hw. unfold GetInfo, Get. rewrite find_tracked by done.
  destruct (head (abs t p)); split; done || (intros [? ?]; done).
Qed.
End ports.

#[export] Instance ConnectionTable_port : IConnectionTable ConnectionTable := {
  it_wf := table_wf;
  it_Add := Add; it_Get := Get; it_GetProxyConfigId := GetProxyConfigId;
  it_IsTracked := IsTracked; it_Remove := Remove; it_Clear := Clear;
  it_SetProcessInfo := SetProcessInfo; it_AddBytes := AddBytes; it_GetInfo := GetInfo;
  it_GetTrackedCount := GetTrackedCount; it_depth := depth;
  it_Add_wf := Add_wf; it_Remove_wf := Remove_wf; it_AddBytes_wf := AddBytes_wf;
  it_SetProcessInfo_wf := SetProcessInfo_wf;
  it_tracked := IsTracked_Get; it_Add_same := Add_same; it_Add_other := Add_other;
  it_Remove_same := Remove_same; it_Remove_other := Remove_other;
  it_depth_Get := depth_Get;
  it_AddBytes_Get := AddBytes_Get; it_SetProcessInfo_Get := SetProcessInfo_Get;
  it_SetProcessInfo_fits := SetProcessInfo_fits; it_GetInfo_tracked := GetInfo_tracked
}.
