(* ===== verification/ConnectionTracker.v ===== *)
(** [domain/services/ConnectionTracker.h] behind its port
    [domain/ports/IConnectionMonitor.h]: the records of the live connections,
    shown to the user, and the totals aggregated over them.

    Methods hold [m_mutex] for their whole critical section, so executions are
    sequences of whole methods.  A method that changes the records returns,
    beside the new state, the snapshots passed to the change callback.  The
    iteration order of [std::unordered_map] is unspecified: [map_to_list]
    stands for it and the theorems speak of membership and length only. *)

From S2P Require Import Prelude.
From S2P Require Import Text.
From S2P Require Import Entities.
From Stdlib Require Import SpecFloat.

Record ConnectionTracker := mkTracker {
  m_connections : gmap Z ConnectionRecord;
  m_stats : ServiceStats;
  m_next_id : Z;
  m_callback : bool   (* is a callback registered? *)
}.

Definition ConnectionTracker_new : ConnectionTracker :=
  mkTracker ∅ ServiceStats_default 1 false.

(** * Field updates *)

Definition set_stats (s : ServiceStats) (t : ConnectionTracker) :=
  mkTracker (m_connections t) s (m_next_id t) (m_callback t).

Definition set_active (n : Z) (s : ServiceStats) : ServiceStats :=
  mkServiceStats n (ss_total_rx_bytes s) (ss_total_tx_bytes s) (ss_proxy_errors s)
    (ss_avg_latency_ms s) (ss_uptime_seconds s).

Definition add_traffic (rx tx : Z) (s : ServiceStats) : ServiceStats :=
  mkServiceStats (ss_active_connections s) (ss_total_rx_bytes s +u64 rx)
    (ss_total_tx_bytes s +u64 tx) (ss_proxy_errors s) (ss_avg_latency_ms s)
    (ss_uptime_seconds s).

Definition set_duration (d : Z) (r : ConnectionRecord) : ConnectionRecord :=
  mkConnectionRecord (cr_id r) (cr_pid r) (cr_process_name r) (cr_process_path r)
    (cr_destination_host r) (cr_destination_ip r) (cr_destination_port r)
    (cr_start_time r) d (cr_rx_bytes r) (cr_tx_bytes r) (cr_proxy_enabled r) (cr_state r).

(** [duration_cast] from nanosecond ticks of [steady_clock] to milliseconds. *)
Definition elapsed_ms (now start : Z) : Z := Z.quot (now - start) 1000000.

Definition size_u32 (t : gmap Z ConnectionRecord) : Z := wrap 32 (Z.of_nat (size t)).

(** * Operations *)

Definition records (m : gmap Z ConnectionRecord) : list ConnectionRecord :=
  snd <$> map_to_list m.

Definition BuildSnapshotLocked (t : ConnectionTracker) : list ConnectionRecord :=
  records (m_connections t).

(** [if (!snapshot.empty() && m_callback) m_callback(snapshot);] *)
Definition notify (t : ConnectionTracker) : list (list ConnectionRecord) :=
  if m_callback t then
    match BuildSnapshotLocked t with [] => [] | snapshot => [snapshot] end
  else [].

Definition AddConnection (record : ConnectionRecord) (t : ConnectionTracker)
    : ConnectionTracker * list (list ConnectionRecord) :=
  let conns := <[cr_id record := record]> (m_connections t) in
  let t' := mkTracker conns (set_active (size_u32 conns) (m_stats t))
              (m_next_id t) (m_callback t) in
  (t', notify t').

Definition UpdateConnection (now id : Z) (updates : ConnectionRecord) (t : ConnectionTracker)
    : ConnectionTracker * list (list ConnectionRecord) :=
  match m_connections t !! id with
  | None => (t, [])
  | Some old =>
      let s1 := if (0 <? cr_rx_bytes updates) || (0 <? cr_tx_bytes updates)
                then add_traffic (cr_rx_bytes updates -u64 cr_rx_bytes old)
                       (cr_tx_bytes updates -u64 cr_tx_bytes old) (m_stats t)
                else m_stats t in
      let conns := <[id := set_duration (elapsed_ms now (cr_start_time updates)) updates]>
                     (m_connections t) in
      let s2 := match cr_state updates with
                | Closed | CSError => set_active (size_u32 conns -u32 1) s1
                | _ => s1
                end in
      let t' := mkTracker conns s2 (m_next_id t) (m_callback t) in
      (t', notify t')
  end.

Definition RemoveConnection (id : Z) (t : ConnectionTracker)
    : ConnectionTracker * list (list ConnectionRecord) :=
  let conns := delete id (m_connections t) in
  let t' := mkTracker conns (set_active (size_u32 conns) (m_stats t))
              (m_next_id t) (m_callback t) in
  (t', notify t').

Definition GetActiveConnections (now : Z) (t : ConnectionTracker) : list ConnectionRecord :=
  (λ c, set_duration (elapsed_ms now (cr_start_time c)) c) <$> records (m_connections t).

Definition match_field (lower_query field : text) : bool :=
  contains lower_query (lower_c <$> field).

Definition Search (query : text) (t : ConnectionTracker) : list ConnectionRecord :=
  match query with
  | [] => records (m_connections t)
  | _ =>
      let lower_query := lower_c <$> query in
      filterb (λ conn, match_field lower_query (cr_process_name conn)
                       || match_field lower_query (cr_destination_host conn)
                       || match_field lower_query (to_string (cr_pid conn)))
        (records (m_connections t))
  end.

Definition FilterByProcess (pid : Z) (t : ConnectionTracker) : list ConnectionRecord :=
  filterb (λ conn, cr_pid conn =? pid) (records (m_connections t)).

Definition GetAggregatedStats (t : ConnectionTracker) : ServiceStats :=
  set_active (Z.of_nat (size (m_connections t))) (m_stats t).

Definition IncrementProxyErrors (t : ConnectionTracker) : ConnectionTracker :=
  let s := m_stats t in
  set_stats (mkServiceStats (ss_active_connections s) (ss_total_rx_bytes s)
    (ss_total_tx_bytes s) (ss_proxy_errors s +u64 1) (ss_avg_latency_ms s)
    (ss_uptime_seconds s)) t.

(** The [double] literals 0.8 and 0.2. *)
Definition double_0_8 : double := S754_finite false 7205759403792794 (-53).
Definition double_0_2 : double := S754_finite false 7205759403792794 (-55).

Definition RecordLatency (ms : double) (t : ConnectionTracker) : ConnectionTracker :=
  let s := m_stats t in
  let avg := if double_eqb (ss_avg_latency_ms s) double_0 then ms
             else double_add (double_mul (ss_avg_latency_ms s) double_0_8)
                             (double_mul ms double_0_2) in
  set_stats (mkServiceStats (ss_active_connections s) (ss_total_rx_bytes s)
    (ss_total_tx_bytes s) (ss_proxy_errors s) avg (ss_uptime_seconds s)) t.

Definition SetUptimeSeconds (seconds : Z) (t : ConnectionTracker) : ConnectionTracker :=
  let s := m_stats t in
  set_stats (mkServiceStats (ss_active_connections s) (ss_total_rx_bytes s)
    (ss_total_tx_bytes s) (ss_proxy_errors s) (ss_avg_latency_ms s) seconds) t.

Definition SetOnConnectionsChanged (callback : bool) (t : ConnectionTracker)
    : ConnectionTracker :=
  mkTracker (m_connections t) (m_stats t) (m_next_id t) callback.

Definition GenerateId (t : ConnectionTracker) : ConnectionTracker * Z :=
  (mkTracker (m_connections t) (m_stats t) (m_next_id t +u64 1) (m_callback t), m_next_id t).

(** * The port [IConnectionMonitor] as the capture and the relay use it *)

Class IConnectionMonitor (M : Type) := {
  im_AddConnection : ConnectionRecord → M → M;
  im_RemoveConnection : Z → M → M;
  im_IncrementProxyErrors : M → M;
  im_RecordLatency : double → M → M;
  im_records : M → gmap Z ConnectionRecord;

  im_Add_records : ∀ r m, im_records (im_AddConnection r m) = <[cr_id r := r]> (im_records m);
  im_Remove_records : ∀ id m, im_records (im_RemoveConnection id m) = delete id (im_records m);
  im_Error_records : ∀ m, im_records (im_IncrementProxyErrors m) = im_records m;
  im_Latency_records : ∀ ms m, im_records (im_RecordLatency ms m) = im_records m
}.

#[export] Program Instance ConnectionTracker_port : IConnectionMonitor ConnectionTracker := {
  im_AddConnection r t := fst (AddConnection r t);
  im_RemoveConnection id t := fst (RemoveConnection id t);
  im_IncrementProxyErrors := IncrementProxyErrors;
  im_RecordLatency := RecordLatency;
  im_records := m_connections
}.
Solve All Obligations with done.

(** * Search *)

Lemma elem_of_records m r : In r (records m) ↔ ∃ id, m !! id = Some r.
Proof.
  unfold records. rewrite <- list_elem_of_In, list_elem_of_fmap. split.
  - intros ([id r'] & -> & H). exists id. by apply elem_of_map_to_list.
  - intros [id H]. exists (id, r). split; [done|]. by apply elem_of_map_to_list.
Qed.

Lemma length_records m : length (records m) = size m.
Proof. unfold records. by rewrite length_fmap, length_map_to_list. Qed.

Definition folds_in (query field : text) : Prop :=
  ∃ a b, lower_c <$> field = a ++ (lower_c <$> query) ++ b.

Lemma match_field_spec q f : match_field (lower_c <$> q) f = true ↔ folds_in q f.
Proof. apply contains_spec. Qed.

(** a search returns exactly the stored connections whose process name,
    host or decimal pid contains the query up to the case of ASCII letters;
    the empty query returns all of them. *)
Theorem search_is_case_insensitive_substring (query : text) (t : ConnectionTracker) r :
  In r (Search query t) ↔
  (∃ id, m_connections t !! id = Some r) ∧
  (folds_in query (cr_process_name r) ∨ folds_in query (cr_destination_host r) ∨
   folds_in query (to_string (cr_pid r))).
Proof.
  rewrite <- elem_of_records. unfold Search. destruct query as [|c q].
  - split; [|tauto]. intros H. split; [done|]. left. by exists [], (lower_c <$> cr_process_name r).
  - unfold filterb. rewrite filter_In, !orb_true_iff, !match_field_spec. tauto.
Qed.

(** * Totals *)

(** Successive updates of one connection. *)
Definition update_all (now id : Z) (us : list ConnectionRecord) (t : ConnectionTracker)
    : ConnectionTracker :=
  fold_left (λ t u, fst (UpdateConnection now id u t)) us t.

Definition counted (u : ConnectionRecord) : Prop :=
  (0 < cr_rx_bytes u ∨ 0 < cr_tx_bytes u) ∧ in_u 64 (cr_rx_bytes u) ∧ in_u 64 (cr_tx_bytes u).

Lemma update_step now id u t old :
  m_connections t !! id = Some old → counted u →
  let t' := fst (UpdateConnection now id u t) in
  (∃ d, m_connections t' !! id = Some (set_duration d u)) ∧
  ss_total_rx_bytes (m_stats t') = wrap 64 (ss_total_rx_bytes (m_stats t)
                                            + cr_rx_bytes u - cr_rx_bytes old) ∧
  ss_total_tx_bytes (m_stats t') = wrap 64 (ss_total_tx_bytes (m_stats t)
                                            + cr_tx_bytes u - cr_tx_bytes old).
Proof.
  intros Ho [Hp _]. unfold UpdateConnection. rewrite Ho. cbn [fst m_connections m_stats].
  split; [eexists; apply lookup_insert_eq|].
  assert ((0 <? cr_rx_bytes u) || (0 <? cr_tx_bytes u) = true) as ->
    by (apply orb_true_iff; rewrite !Z.ltb_lt; done).
  unfold set_active, add_traffic.
  destruct (cr_state u); cbn [ss_total_rx_bytes ss_total_tx_bytes];
    rewrite !wrap_add_r; split; f_equal; lia.
Qed.

(** over a sequence of updates of one connection, each carrying its
    cumulative byte counters, the service totals grow by the last counter minus
    the first, modulo 2^64: nothing is counted twice and the order of rx/tx
    progress does not matter. *)
Theorem updates_telescope (now id : Z) (us : list ConnectionRecord) (last old : ConnectionRecord)
    (t : ConnectionTracker) :
  m_connections t !! id = Some old → Forall counted (us ++ [last]) →
  let t' := update_all now id (us ++ [last]) t in
  ss_total_rx_bytes (m_stats t') =
    wrap 64 (ss_total_rx_bytes (m_stats t) + (cr_rx_bytes last - cr_rx_bytes old)) ∧
  ss_total_tx_bytes (m_stats t') =
    wrap 64 (ss_total_tx_bytes (m_stats t) + (cr_tx_bytes last - cr_tx_bytes old)) ∧
  ∃ d, m_connections t' !! id = Some (set_duration d last).
Proof.
  revert t old. induction us as [|u us IH]; intros t old Ho HF; cbn [app update_all fold_left].
  - apply Forall_cons in HF as [Hc _].
    destruct (update_step now id last t old Ho Hc) as (? & -> & ->).
    split; [f_equal; lia|]. split; [f_equal; lia|done].
  - apply Forall_cons in HF as [Hc HF].
    destruct (update_step now id u t old Ho Hc) as ([d Hl] & Hrx & Htx).
    destruct (IH _ _ Hl HF) as (H1 & H2 & H3). unfold update_all in *.
    rewrite H1, H2, Hrx, Htx, !wrap_add_l. cbn [set_duration cr_rx_bytes cr_tx_bytes].
    split; [f_equal; lia|]. split; [f_equal; lia|done].
Qed.

Definition traffic (rx tx : Z) : ConnectionRecord :=
  mkConnectionRecord 7 1 [] [] [] [] 443 0 0 rx tx true TunnelEstablished.

Lemma updates_telescope_witness :
  let t := fst (AddConnection (traffic 0 0) ConnectionTracker_new) in
  let t' := update_all 5 7 [traffic 10 0; traffic 25 4; traffic 100 9] t in
  ss_total_rx_bytes (m_stats t') = wrap 64 (0 + (100 - 0)) ∧
  ss_total_tx_bytes (m_stats t') = 9.
Proof.
  destruct (updates_telescope 5 7 [traffic 10 0; traffic 25 4] (traffic 100 9) (traffic 0 0)
    (fst (AddConnection (traffic 0 0) ConnectionTracker_new))) as (H1 & H2 & _).
  - reflexivity.
  - repeat constructor; simpl; lia.
  - split; [exact H1|exact H2].
Defined.

(** * Notifications *)

(** what listeners see.  A change with a callback registered reports the
    complete set of records after the change, except that removing the last
    connection reports nothing; adding always reports. *)
Theorem listeners_see_every_nonempty_state (t : ConnectionTracker) :
  (∀ r, m_callback t = true →
     let '(t', n) := AddConnection r t in n = [BuildSnapshotLocked t']) ∧
  (∀ id, let '(t', n) := RemoveConnection id t in
     m_callback t = true →
     if decide (m_connections t' = ∅) then n = [] else n = [BuildSnapshotLocked t']) ∧
  (∀ r id, m_callback t = false →
     snd (AddConnection r t) = [] ∧ snd (RemoveConnection id t) = []) ∧
  ss_active_connections (GetAggregatedStats t) = Z.of_nat (length (BuildSnapshotLocked t)).
Proof.
  assert (Hn : ∀ t', m_callback t' = true →
    if decide (m_connections t' = ∅) then notify t' = [] else notify t' = [BuildSnapshotLocked t']).
  { intros t' Hc. unfold notify, BuildSnapshotLocked. rewrite Hc.
    pose proof (length_records (m_connections t')) as HL.
    case_decide as E; destruct (records (m_connections t')) eqn:Er; try done.
    - rewrite E in HL. by rewrite map_size_empty in HL.
    - symmetry in HL. by apply map_size_empty_inv in HL. }
  split; [|split; [|split]].
  - intros r Hc. unfold AddConnection.
    match goal with |- notify ?t' = _ => specialize (Hn t' Hc) end.
    cbn [m_connections] in Hn. rewrite decide_False in Hn; [done|]. apply insert_non_empty.
  - intros id. unfold RemoveConnection. intros Hc. by apply Hn.
  - intros r id Hc. unfold AddConnection, RemoveConnection, notify. simpl. by rewrite Hc.
  - unfold GetAggregatedStats, BuildSnapshotLocked. by rewrite length_records.
Qed.

(** The moving average: the first sample is taken as it is, then 80/20. *)
Example latency_ema :
  let s100 := S754_finite false 7036874417766400 (-46) in   (* 100.0 *)
  let s200 := S754_finite false 7036874417766400 (-45) in   (* 200.0 *)
  ss_avg_latency_ms (m_stats (RecordLatency s200 (RecordLatency s100 ConnectionTracker_new)))
  = S754_finite false 8444249301319680 (-46).               (* 120.0 *)
Proof. vm_compute. reflexivity. Qed.
