(* ===== verification/PortBitmap.v ===== *)
(** The per-port decision bitmap of [infrastructure/capture/WinDivertCapture.h]:
    two arrays of 2048 signed 32-bit words, one bit per TCP port, read with a
    shift and written with [InterlockedOr]/[InterlockedAnd].

    The capture keeps one decision per port: none, DIRECT, or PROXY/BLOCK.
    Bit 31 of a word is the sign bit of a [LONG]; the lemmas show that the
    conversions the code writes treat it like the others. *)

From S2P Require Import Prelude.

Record Bitmap := mkBitmap { m_portDecided : list Z; m_portDirect : list Z }.

Definition bitmap_words : Z := 2048.

Definition Bitmap_zero : Bitmap :=
  mkBitmap (replicate (Z.to_nat bitmap_words) 0) (replicate (Z.to_nat bitmap_words) 0).

Definition word_index (port : Z) : nat := Z.to_nat (Z.shiftr port 5).
Definition bit_index (port : Z) : Z := Z.land port 31.

(** [(LONG)(1u << (port & 31))] and [(LONG)~(1u << (port & 31))] *)
Definition bit_mask (port : Z) : Z := swrap 32 (Z.shiftl 1 (bit_index port)).
Definition clear_mask (port : Z) : Z :=
  swrap 32 (Z.lxor (2 ^ 32 - 1) (Z.shiftl 1 (bit_index port))).

Definition read_bit (words : list Z) (port : Z) : bool :=
  negb (Z.land (Z.shiftr (nth (word_index port) words 0) (bit_index port)) 1 =? 0).

Definition InterlockedOr (words : list Z) (i : nat) (m : Z) : list Z :=
  alter (λ w, Z.lor w m) i words.
Definition InterlockedAnd (words : list Z) (i : nat) (m : Z) : list Z :=
  alter (λ w, Z.land w m) i words.

Definition IsPortDecided (port : Z) (b : Bitmap) : bool := read_bit (m_portDecided b) port.
Definition IsPortDirect (port : Z) (b : Bitmap) : bool := read_bit (m_portDirect b) port.

Definition SetPortDirect (port : Z) (b : Bitmap) : Bitmap :=
  mkBitmap (InterlockedOr (m_portDecided b) (word_index port) (bit_mask port))
           (InterlockedOr (m_portDirect b) (word_index port) (bit_mask port)).

Definition SetPortDecided (port : Z) (b : Bitmap) : Bitmap :=
  mkBitmap (InterlockedOr (m_portDecided b) (word_index port) (bit_mask port))
           (m_portDirect b).

Definition ClearPort (port : Z) (b : Bitmap) : Bitmap :=
  mkBitmap (InterlockedAnd (m_portDecided b) (word_index port) (clear_mask port))
           (InterlockedAnd (m_portDirect b) (word_index port) (clear_mask port)).

(** * Bits of the masks *)

Lemma bit_index_range port : 0 <= bit_index port < 32.
Proof.
  unfold bit_index. change 31 with (Z.ones 5). rewrite Z.land_ones by lia.
  apply Z.mod_pos_bound. lia.
Qed.

Lemma bit_index_mod port : bit_index port = port mod 32.
Proof. unfold bit_index. change 31 with (Z.ones 5). by rewrite Z.land_ones by lia. Qed.

Lemma word_index_div port : word_index port = Z.to_nat (port / 32).
Proof. unfold word_index. by rewrite Z.shiftr_div_pow2 by lia. Qed.

Lemma swrap_testbit z k : 0 <= k < 32 → Z.testbit (swrap 32 z) k = Z.testbit z k.
Proof.
  intros Hk. destruct (swrap_eq 32 z) as [q ->].
  rewrite <- (Z.mod_pow2_bits_low (z + q * 2 ^ 32) 32), <- (Z.mod_pow2_bits_low z 32) by lia.
  by rewrite Z_mod_plus_full.
Qed.

Lemma read_bit_testbit words port :
  read_bit words port = Z.testbit (nth (word_index port) words 0) (bit_index port).
Proof.
  unfold read_bit. generalize (nth (word_index port) words 0). intros w.
  pose proof (bit_index_range port).
  rewrite Z.testbit_odd, Zodd_mod. change 1 with (Z.ones 1). rewrite Z.land_ones by lia.
  change (2 ^ 1) with 2.
  set (x := Z.shiftr w (bit_index port)).
  destruct (Z.eqb_spec (x mod 2) 0) as [->|Hne]; [done|].
  simpl. pose proof (Z.mod_pos_bound x 2). assert (x mod 2 = 1) as -> by lia. done.
Qed.

Lemma bit_mask_testbit port k :
  0 <= k < 32 → Z.testbit (bit_mask port) k = bool_decide (k = bit_index port).
Proof.
  intros Hk. pose proof (bit_index_range port). unfold bit_mask.
  rewrite swrap_testbit, Z.shiftl_1_l, Z.pow2_bits_eqb by lia.
  destruct (Z.eqb_spec (bit_index port) k); case_bool_decide; congruence.
Qed.

Lemma clear_mask_testbit port k :
  0 <= k < 32 → Z.testbit (clear_mask port) k = negb (bool_decide (k = bit_index port)).
Proof.
  intros Hk. pose proof (bit_index_range port). unfold clear_mask.
  rewrite swrap_testbit, Z.lxor_spec, Z.shiftl_1_l, Z.pow2_bits_eqb by lia.
  change (2 ^ 32 - 1) with (Z.ones 32). rewrite Z.ones_spec_low by lia.
  destruct (Z.eqb_spec (bit_index port) k); case_bool_decide; try congruence; done.
Qed.

(** * The bitmap as a set of ports *)

Definition port_ok (port : Z) : Prop := in_u 16 port.

Record bitmap_wf (b : Bitmap) : Prop := {
  decided_size : length (m_portDecided b) = Z.to_nat bitmap_words;
  direct_size : length (m_portDirect b) = Z.to_nat bitmap_words
}.

Lemma word_index_lt port : port_ok port → (word_index port < Z.to_nat bitmap_words)%nat.
Proof.
  unfold port_ok, in_u, bitmap_words. intros H. rewrite word_index_div.
  assert (0 <= port / 32 < 2048) by (Z.div_mod_to_equations; lia). lia.
Qed.

Lemma nth_alter {A} (f : A → A) i j (l : list A) d :
  (i < length l)%nat →
  nth j (alter f i l) d = if decide (i = j) then f (nth j l d) else nth j l d.
Proof.
  intros Hi. rewrite !nth_lookup. case_decide as E.
  - subst j. rewrite list_lookup_alter_eq.
    destruct (lookup_lt_is_Some_2 _ _ Hi) as [x ->]. done.
  - by rewrite list_lookup_alter_ne.
Qed.

Lemma same_port p q :
  port_ok p → port_ok q → word_index p = word_index q → bit_index p = bit_index q → p = q.
Proof.
  unfold port_ok, in_u. intros Hp Hq. rewrite !word_index_div, !bit_index_mod. intros Hw Hb.
  apply Z2Nat.inj in Hw; [|Z.div_mod_to_equations; lia..].
  rewrite (Z_div_mod_eq_full p 32), (Z_div_mod_eq_full q 32). congruence.
Qed.

Lemma read_or words p q :
  length words = Z.to_nat bitmap_words → port_ok p → port_ok q →
  read_bit (InterlockedOr words (word_index p) (bit_mask p)) q
  = bool_decide (p = q) || read_bit words q.
Proof.
  intros Hl Hp Hq. pose proof (word_index_lt p Hp) as Hlt. rewrite <- Hl in Hlt.
  rewrite !read_bit_testbit. unfold InterlockedOr. rewrite nth_alter by done.
  pose proof (bit_index_range q). case_decide as E.
  - rewrite Z.lor_spec, bit_mask_testbit by lia. rewrite orb_comm. f_equal.
    apply bool_decide_ext. split; intros Heq; [|congruence].
    apply same_port; auto.
  - rewrite bool_decide_false by congruence. done.
Qed.

Lemma read_and words p q :
  length words = Z.to_nat bitmap_words → port_ok p → port_ok q →
  read_bit (InterlockedAnd words (word_index p) (clear_mask p)) q
  = negb (bool_decide (p = q)) && read_bit words q.
Proof.
  intros Hl Hp Hq. pose proof (word_index_lt p Hp) as Hlt. rewrite <- Hl in Hlt.
  rewrite !read_bit_testbit. unfold InterlockedAnd. rewrite nth_alter by done.
  pose proof (bit_index_range q). case_decide as E.
  - rewrite Z.land_spec, clear_mask_testbit by lia. rewrite andb_comm. do 2 f_equal.
    apply bool_decide_ext. split; intros Heq; [|congruence].
    apply same_port; auto.
  - rewrite bool_decide_false by congruence. done.
Qed.

Lemma Bitmap_zero_wf : bitmap_wf Bitmap_zero.
Proof. split; unfold Bitmap_zero; cbn [m_portDecided m_portDirect]; apply length_replicate. Qed.

Lemma read_zero port : read_bit (replicate (Z.to_nat bitmap_words) 0) port = false.
Proof.
  unfold read_bit. rewrite nth_lookup. generalize (Z.to_nat bitmap_words). intros n.
  destruct (_ !! _) as [w|] eqn:E; [apply lookup_replicate in E as [-> _]|]; simpl;
    by rewrite Z.shiftr_0_l.
Qed.

Lemma SetPortDirect_wf p b : bitmap_wf b → bitmap_wf (SetPortDirect p b).
Proof. intros []. split; simpl; unfold InterlockedOr; by rewrite length_alter. Qed.
Lemma SetPortDecided_wf p b : bitmap_wf b → bitmap_wf (SetPortDecided p b).
Proof. intros []. split; simpl; [unfold InterlockedOr; by rewrite length_alter|done]. Qed.
Lemma ClearPort_wf p b : bitmap_wf b → bitmap_wf (ClearPort p b).
Proof. intros []. split; simpl; unfold InterlockedAnd; by rewrite length_alter. Qed.

Section reads.
Context (b : Bitmap) (p q : Z) (Hb : bitmap_wf b) (Hp : port_ok p) (Hq : port_ok q).

Lemma decided_SetPortDirect :
  IsPortDecided q (SetPortDirect p b) = bool_decide (p = q) || IsPortDecided q b.
Proof using Hb Hp Hq. by apply read_or; [apply Hb|..]. Qed.
Lemma direct_SetPortDirect :
  IsPortDirect q (SetPortDirect p b) = bool_decide (p = q) || IsPortDirect q b.
Proof using Hb Hp Hq. by apply read_or; [apply Hb|..]. Qed.
Lemma decided_SetPortDecided :
  IsPortDecided q (SetPortDecided p b) = bool_decide (p = q) || IsPortDecided q b.
Proof using Hb Hp Hq. by apply read_or; [apply Hb|..]. Qed.
Lemma direct_SetPortDecided : IsPortDirect q (SetPortDecided p b) = IsPortDirect q b.
Proof. done. Qed.
Lemma decided_ClearPort :
  IsPortDecided q (ClearPort p b) = negb (bool_decide (p = q)) && IsPortDecided q b.
Proof using Hb Hp Hq. by apply read_and; [apply Hb|..]. Qed.
Lemma direct_ClearPort :
  IsPortDirect q (ClearPort p b) = negb (bool_decide (p = q)) && IsPortDirect q b.
Proof using Hb Hp Hq. by apply read_and; [apply Hb|..]. Qed.
End reads.

Create HintDb bitmap discriminated.
#[export] Hint Resolve Bitmap_zero_wf SetPortDirect_wf SetPortDecided_wf ClearPort_wf : bitmap.

(** * The three decisions *)

Inductive decision := Undecided | DecidedDirect | DecidedOther.

Definition decision_of (port : Z) (b : Bitmap) : decision :=
  if IsPortDecided port b then
    if IsPortDirect port b then DecidedDirect else DecidedOther
  else Undecided.

(** [SetPortDecided] keeps the direct bit, so a port must be cleared first. *)
Definition sane (b : Bitmap) : Prop :=
  ∀ q, port_ok q → IsPortDirect q b = true → IsPortDecided q b = true.

Section decisions.
Context (b : Bitmap) (p : Z) (Hb : bitmap_wf b) (Hp : port_ok p).

Lemma decision_SetPortDirect q : port_ok q →
  decision_of q (SetPortDirect p b) = if decide (p = q) then DecidedDirect else decision_of q b.
Proof using Hb Hp.
  intros Hq. unfold decision_of. rewrite decided_SetPortDirect, direct_SetPortDirect by done.
  by repeat (case_decide || case_bool_decide).
Qed.

Lemma decision_SetPortDecided q : port_ok q →
  decision_of q (SetPortDecided p b) =
    if decide (p = q) then (if IsPortDirect q b then DecidedDirect else DecidedOther)
    else decision_of q b.
Proof using Hb Hp.
  intros Hq. unfold decision_of. rewrite decided_SetPortDecided, direct_SetPortDecided by done.
  by repeat (case_decide || case_bool_decide).
Qed.

Lemma decision_ClearPort q : port_ok q →
  decision_of q (ClearPort p b) = if decide (p = q) then Undecided else decision_of q b.
Proof using Hb Hp.
  intros Hq. unfold decision_of. rewrite decided_ClearPort, direct_ClearPort by done.
  by repeat (case_decide || case_bool_decide).
Qed.

Lemma decision_zero q : decision_of q Bitmap_zero = Undecided.
Proof. unfold decision_of, IsPortDecided. cbn. by rewrite read_zero. Qed.

Lemma sane_zero : sane Bitmap_zero.
Proof. intros q _. unfold IsPortDirect. cbn. by rewrite read_zero. Qed.

Lemma sane_SetPortDirect : sane b → sane (SetPortDirect p b).
Proof using Hb Hp.
  intros Hs r Hr. specialize (Hs r Hr).
  rewrite decided_SetPortDirect, direct_SetPortDirect by done. by case_bool_decide.
Qed.
Lemma sane_SetPortDecided : sane b → sane (SetPortDecided p b).
Proof using Hb Hp.
  intros Hs r Hr. specialize (Hs r Hr).
  rewrite decided_SetPortDecided, direct_SetPortDecided by done.
  case_bool_decide; simpl; auto.
Qed.
Lemma sane_ClearPort : sane b → sane (ClearPort p b).
Proof using Hb Hp.
  intros Hs r Hr. specialize (Hs r Hr).
  rewrite decided_ClearPort, direct_ClearPort by done. by case_bool_decide.
Qed.
End decisions.

#[export] Hint Resolve sane_zero sane_SetPortDirect sane_SetPortDecided sane_ClearPort : bitmap.

(** C20: for every pair of ports of the 65536, the sign bit of a word included:
    recording a decision for one port changes the decision read back for that
    port and for no other; clearing makes it undecided again; the fresh bitmap
    has no decision. *)
Theorem bitmap_is_decision_map (b : Bitmap) (p q : Z) :
  bitmap_wf b → sane b → port_ok p → port_ok q →
  decision_of q (SetPortDirect p b) = (if decide (p = q) then DecidedDirect else decision_of q b) ∧
  decision_of q (SetPortDecided p b) =
    (if decide (p = q) then
       (if IsPortDirect q b then DecidedDirect else DecidedOther) else decision_of q b) ∧
  decision_of q (ClearPort p b) = (if decide (p = q) then Undecided else decision_of q b) ∧
  decision_of q Bitmap_zero = Undecided ∧
  sane (SetPortDirect p b) ∧ sane (SetPortDecided p b) ∧ sane (ClearPort p b).
Proof.
  intros Hb Hs Hp Hq.
  rewrite decision_SetPortDirect, decision_SetPortDecided, decision_ClearPort, decision_zero by done.
  auto 10 with bitmap.
Qed.

Lemma bitmap_is_decision_map_witness :
  decision_of 31 (SetPortDirect 31 Bitmap_zero) = DecidedDirect ∧
  decision_of 30 (SetPortDirect 31 Bitmap_zero) = Undecided.
Proof.
  pose proof sane_zero as Hs.
  destruct (bitmap_is_decision_map Bitmap_zero 31 31) as [H1 _];
    [apply Bitmap_zero_wf|exact Hs|unfold port_ok, in_u; lia..|].
  destruct (bitmap_is_decision_map Bitmap_zero 31 30) as [H2 _];
    [apply Bitmap_zero_wf|exact Hs|unfold port_ok, in_u; lia..|].
  split; [exact H1|]. etransitivity; [exact H2|reflexivity].
Defined.
