(* ===== verification/ProcessRules.v ===== *)
(** Which process owns a packet, and what to do with it:
    [FindPidBySourcePort], [FindTargetPid] and [CheckProcessRule] of
    [infrastructure/capture/WinDivertCapture.cpp].

    The operating system is a parameter: a record [Os] of what its calls answer
    while one packet is handled (the TCP table, the process snapshot, the image
    path of a process, the tick count). *)

From S2P Require Import Prelude.
From S2P Require Import Text.
From S2P Require Import Entities.
From S2P Require Import RuleEngine.

Record Os := mkOs {
  os_tick : Z;                             (* GetTickCount64 *)
  os_self : Z;                             (* GetCurrentProcessId *)
  os_tcp_table : option (list (Z * Z));    (* GetExtendedTcpTable: dwLocalPort, dwOwningPid *)
  os_processes : option (list (Z * Z));    (* process snapshot: id, parent id *)
  os_image : Z → option text               (* OpenProcess and QueryFullProcessImageNameW *)
}.

(** The image path is returned in a [wchar_t] buffer of [MAX_PATH] units that
    holds its terminator, and the call fails when the path does not fit. *)
Definition MAX_PATH : Z := 260.
Definition os_ok (os : Os) : Prop :=
  ∀ pid path, os_image os pid = Some path →
    Z.of_nat (length path) < MAX_PATH ∧ Forall (λ c, c ≠ 0) path.

(** Network byte order on a little-endian host. *)
Definition ntohs (x : Z) : Z := Z.lor (Z.shiftl (Z.land x 255) 8) (Z.shiftr (Z.land x 65280) 8).
Definition htons (x : Z) : Z := ntohs x.
Definition ntohl (x : Z) : Z :=
  Z.lor (Z.lor (Z.shiftl (Z.land x 255) 24) (Z.shiftl (Z.land x 65280) 8))
        (Z.lor (Z.shiftr (Z.land x 16711680) 8) (Z.shiftr (Z.land x 4278190080) 24)).

(** * The owner of a port *)

Definition PID_CACHE_TTL_MS : Z := 30000.

Record PidCacheEntry := mkPidCacheEntry { pce_pid : Z; pce_timestamp_ms : Z }.

Abbreviation PidCache := (gmap Z PidCacheEntry).

Definition scan_tcp_table (src_port : Z) (table : list (Z * Z)) : option (Z * Z) :=
  find_first (λ row, ntohs (wrap 16 (fst row)) =? src_port) table.

Definition FindPidBySourcePort (os : Os) (src_port : Z) (cache : PidCache) : PidCache * Z :=
  let scan :=
    match os_tcp_table os with
    | None => (cache, 0)
    | Some table =>
        match scan_tcp_table src_port table with
        | Some (_, pid) => (<[src_port := mkPidCacheEntry pid (os_tick os)]> cache, pid)
        | None => (cache, 0)
        end
    end in
  match cache !! src_port with
  | Some e => if os_tick os -u64 pce_timestamp_ms e <? PID_CACHE_TTL_MS
              then (cache, pce_pid e) else scan
  | None => scan
  end.

(** [_wcsicmp(a, b) == 0] in the C locale. *)
Definition wcsicmp_eq (a b : text) : bool :=
  text_eqb (lower_c <$> cstr a) (lower_c <$> cstr b).

Definition backslash : Z := 92.

(** [wcsrchr(path, '\\')], one past it, or the whole path. *)
Definition ShortName (path : text) : text :=
  match after_last_of [backslash] path with Some name => name | None => path end.

Fixpoint find_target (os : Os) (target : text) (procs : list (Z * Z)) : Z :=
  match procs with
  | [] => 0
  | (pid, _) :: procs' =>
      if (pid =? 0) || (pid =? os_self os) then find_target os target procs'
      else match os_image os pid with
           | Some path =>
               if wcsicmp_eq (ShortName path) (ShortName target) then pid
               else find_target os target procs'
           | None => find_target os target procs'
           end
  end.

Definition FindTargetPid (os : Os) (m_targetProcessPath : text) : Z :=
  match os_processes os with
  | None => 0
  | Some procs => find_target os m_targetProcessPath procs
  end.

(** The walk up the process tree: the loop runs while the current id is not 0
    and fewer than ten links were followed. *)
Fixpoint tree_search (budget : nat) (procs : list (Z * Z)) (target currentPid : Z) : bool :=
  match budget with
  | O => false
  | S budget' =>
      if currentPid =? 0 then false
      else match find_first (λ pe, fst pe =? currentPid) procs with
           | Some (id, parent) =>
               if id =? target then true else tree_search budget' procs target parent
           | None => false
           end
  end.

(** * CheckProcessRule *)

(** What the check reads and writes of the capture object. *)
Record RuleState := mkRuleState {
  m_targetProcessPath : text;
  m_targetPid : Z;
  m_proxyHost : text;
  m_proxyPort : Z;
  m_ruleEngine : option RuleEngine;
  m_pidCache : PidCache
}.

Definition set_targetPid (pid : Z) (s : RuleState) : RuleState :=
  mkRuleState (m_targetProcessPath s) pid (m_proxyHost s) (m_proxyPort s) (m_ruleEngine s)
    (m_pidCache s).

Definition set_pidCache (c : PidCache) (s : RuleState) : RuleState :=
  mkRuleState (m_targetProcessPath s) (m_targetPid s) (m_proxyHost s) (m_proxyPort s)
    (m_ruleEngine s) c.

Inductive verdict := DIRECT | PROXY | BLOCK.

#[export] Instance verdict_eq_dec : EqDecision verdict.
Proof. solve_decision. Defined.

Record CheckResult := mkCheckResult {
  cr_action : verdict;
  cr_proxy_config_id : option Z;    (* written for PROXY *)
  cr_out_pid : option Z;            (* written once the image path is known *)
  cr_out_path : option text
}.

Definition proxy_configured (s : RuleState) : bool :=
  negb (text_eqb (m_proxyHost s) []) && negb (m_proxyPort s =? 0).

(** Every PROXY answer is guarded by the same test. *)
Definition proxy_or_direct (s : RuleState) : verdict :=
  if proxy_configured s then PROXY else DIRECT.

Definition result_of (v : verdict) (pid : option Z) (path : option text) : CheckResult :=
  mkCheckResult v (match v with PROXY => Some 0 | _ => None end) pid path.

(** Steps 5 and 6: the configured target process and its descendants. *)
Definition check_target (os : Os) (pid : Z) (procPath : text) (s : RuleState)
    : RuleState * verdict :=
  if wcsicmp_eq procPath (m_targetProcessPath s) then
    let s' := set_targetPid pid s in (s', proxy_or_direct s')
  else if negb (m_targetPid s =? 0) then
    match os_processes os with
    | Some procs =>
        if tree_search 10 procs (m_targetPid s) pid then (s, proxy_or_direct s) else (s, DIRECT)
    | None => (s, DIRECT)
    end
  else (s, DIRECT).

Definition CheckProcessRule (os : Os) (src_port : Z) (s : RuleState) : RuleState * CheckResult :=
  let '(cache, pid) := FindPidBySourcePort os src_port (m_pidCache s) in
  let s := set_pidCache cache s in
  if pid =? 0 then
    let s :=
      if (m_targetPid s =? 0) && negb (text_eqb (m_targetProcessPath s) []) then
        let newPid := FindTargetPid os (m_targetProcessPath s) in
        if negb (newPid =? 0) then set_targetPid newPid s else s
      else s in
    (s, result_of DIRECT None None)
  else if pid =? os_self os then (s, result_of DIRECT None None)
  else match os_image os pid with
  | None => (s, result_of DIRECT None None)
  | Some procPath =>
      let out v := result_of v (Some pid) (Some procPath) in
      let action :=
        match m_ruleEngine s with
        | Some engine => Match (ShortName procPath) procPath engine
        | None => Direct
        end in
      match action with
      | Block => (s, out BLOCK)
      | Proxy => (s, out (proxy_or_direct s))
      | _ => let '(s', v) := check_target os pid procPath s in (s', out v)
      end
  end.

(** * Byte order *)

Definition u16 (x : Z) : Prop := in_u 16 x.

Lemma ntohs_involutive x : u16 x → ntohs (ntohs x) = x ∧ u16 (ntohs x).
Proof.
  intros Hx.
  assert (H : (ntohs (ntohs x) =? x) && (0 <=? ntohs x) && (ntohs x <? 65536) = true).
  { apply (all_from_spec (Z.to_nat 65536) 0
      (λ x, (ntohs (ntohs x) =? x) && (0 <=? ntohs x) && (ntohs x <? 65536))).
    - vm_compute. reflexivity.
    - unfold u16, in_u in Hx. lia. }
  bool_to_prop. unfold u16, in_u. lia.
Qed.

(** * The owner of a port, and its cache *)

Definition owner_in (src_port : Z) (table : list (Z * Z)) : Z :=
  match scan_tcp_table src_port table with Some (_, pid) => pid | None => 0 end.

(** a port's owner is answered from the cache while the cached answer is
    less than 30 seconds old, whatever the TCP table says by then; otherwise it
    is the owner in the first row of the table with that local port, and that
    answer, if there is one, is the only thing the cache records. *)
Theorem pid_lookup_is_cached_30s (os os' : Os) (p : Z) (cache : PidCache) :
  let '(cache1, pid1) := FindPidBySourcePort os p cache in
  (cache !! p = None →
     pid1 = from_option (owner_in p) 0 (os_tcp_table os) ∧
     (∀ q, q ≠ p → cache1 !! q = cache !! q)) ∧
  (0 <= os_tick os <= os_tick os' → os_tick os' < 2 ^ 64 →
   os_tick os' - os_tick os < PID_CACHE_TTL_MS →
   cache !! p = None → pid1 ≠ 0 →
   FindPidBySourcePort os' p cache1 = (cache1, pid1)) ∧
  (∀ e, cache !! p = Some e → 0 <= pce_timestamp_ms e <= os_tick os → os_tick os < 2 ^ 64 →
     PID_CACHE_TTL_MS <= os_tick os - pce_timestamp_ms e →
     pid1 = from_option (owner_in p) 0 (os_tcp_table os)).
Proof.
  unfold FindPidBySourcePort at 1.
  set (scan := match os_tcp_table os with None => (cache, 0) | Some _ => _ end).
  assert (Hscan : snd scan = from_option (owner_in p) 0 (os_tcp_table os) ∧
    (∀ q, q ≠ p → fst scan !! q = cache !! q) ∧
    (snd scan ≠ 0 → fst scan !! p = Some (mkPidCacheEntry (snd scan) (os_tick os)))).
  { unfold scan, owner_in. destruct (os_tcp_table os) as [table|]; simpl; [|done].
    destruct (scan_tcp_table p table) as [[k pid]|]; simpl; [|done].
    split; [done|]. split; [intros q Hq; by rewrite lookup_insert_ne|].
    intros _. apply lookup_insert_eq. }
  destruct scan as [cs ps] eqn:Es. cbn [fst snd] in Hscan. destruct Hscan as (H1 & H2 & H3).
  destruct (cache !! p) as [e|] eqn:Ec.
  - destruct (Z.ltb_spec (os_tick os -u64 pce_timestamp_ms e) PID_CACHE_TTL_MS) as [Hlt|Hge];
      (split; [done|]); (split; [done|]); intros e' [= <-] Ht Hb Hage; [|done].
    rewrite wrap_small in Hlt; [lia|]. unfold in_u. lia.
  - split; [auto|]. split; [|done].
    intros Ht Hb Hd _ Hp. unfold FindPidBySourcePort. rewrite (H3 Hp). cbn [pce_timestamp_ms pce_pid].
    rewrite wrap_small by (unfold in_u; lia).
    destruct (Z.ltb_spec (os_tick os' - os_tick os) PID_CACHE_TTL_MS); [done|lia].
Qed.

(** * The process tree *)

Definition parent_of (procs : list (Z * Z)) (pid : Z) : option Z :=
  snd <$> find_first (λ pe, fst pe =? pid) procs.

(** [n] links up from [pid], all of them through live processes. *)
Fixpoint ancestor (procs : list (Z * Z)) (n : nat) (pid : Z) : option Z :=
  if pid =? 0 then None
  else match parent_of procs pid with
       | None => None
       | Some parent => match n with O => Some pid | S n' => ancestor procs n' parent end
       end.

Lemma tree_search_is_ancestry_aux procs target pid budget :
  tree_search budget procs target pid = true ↔
  ∃ n, (n < budget)%nat ∧ ancestor procs n pid = Some target.
Proof.
  revert pid. induction budget as [|b IH]; intros pid; simpl.
  { split; [done|]. intros (n & Hn & _). lia. }
  assert (Hstep : ∀ x, ancestor procs 0 pid = Some x → x = pid).
  { intros x. simpl. destruct (pid =? 0); [done|]. by destruct (parent_of procs pid); intros [= ->]. }
  destruct (pid =? 0) eqn:E0.
  { split; [done|]. intros ([|n] & _ & H); simpl in H; by rewrite E0 in H. }
  destruct (find_first _ procs) as [[id parent]|] eqn:Ef.
  2:{ split; [done|]. intros ([|n] & _ & H); simpl in H; unfold parent_of in H;
      by rewrite E0, Ef in H. }
  assert (Hid : id = pid).
  { apply find_first_Some in Ef as (? & ? & _ & Hp & _). by apply Z.eqb_eq in Hp. }
  subst id. assert (Hpar : parent_of procs pid = Some parent) by (unfold parent_of; by rewrite Ef).
  destruct (Z.eqb_spec pid target) as [->|Hne].
  - split; [intros _|done]. exists O. split; [lia|]. simpl. by rewrite E0, Hpar.
  - rewrite IH. split.
    + intros (n & Hn & Ha). exists (S n). split; [lia|]. simpl. by rewrite E0, Hpar.
    + intros ([|n] & Hn & Ha); [apply Hstep in Ha; congruence|].
      exists n. split; [lia|]. simpl in Ha. by rewrite E0, Hpar in Ha.
Qed.

(** the walk answers yes exactly when the target is the process itself or
    one of its first nine ancestors, all present in the snapshot; it ends
    within ten links whatever the snapshot, cycles in it included. *)
Theorem tree_search_is_ancestry (procs : list (Z * Z)) (target pid : Z) (budget : nat) :
  tree_search budget procs target pid = true ↔
  ∃ n, (n < budget)%nat ∧ ancestor procs n pid = Some target.
Proof. apply tree_search_is_ancestry_aux. Qed.

(** * The verdict *)

(** What the rules ask for, before the state of the proxy configuration. *)
Definition wants_proxy (os : Os) (pid : Z) (path : text) (s : RuleState) : Prop :=
  (∃ engine, m_ruleEngine s = Some engine ∧ Match (ShortName path) path engine = Proxy) ∨
  ((∀ engine, m_ruleEngine s = Some engine →
      Match (ShortName path) path engine ≠ Block) ∧
   (wcsicmp_eq path (m_targetProcessPath s) = true ∨
    (m_targetPid s ≠ 0 ∧ ∃ procs n, os_processes os = Some procs ∧ (n < 10)%nat ∧
       ancestor procs n pid = Some (m_targetPid s)))).

Lemma check_target_PROXY os pid path s :
  snd (check_target os pid path s) = PROXY ↔
  proxy_configured s = true ∧
  (wcsicmp_eq path (m_targetProcessPath s) = true ∨
   (m_targetPid s ≠ 0 ∧ ∃ procs n, os_processes os = Some procs ∧ (n < 10)%nat ∧
      ancestor procs n pid = Some (m_targetPid s))).
Proof.
  unfold check_target, proxy_or_direct.
  destruct (wcsicmp_eq _ _).
  { change (proxy_configured (set_targetPid pid s)) with (proxy_configured s). simpl.
    destruct (proxy_configured s); split; auto; [done|]. by intros [? _]. }
  destruct (Z.eqb_spec (m_targetPid s) 0) as [E|E]; cbn [negb].
  { split; [done|]. by intros [_ [?|[? _]]]. }
  destruct (os_processes os) as [procs|].
  2:{ split; [done|]. by intros [_ [?|(_ & ? & ? & ? & _)]]. }
  destruct (tree_search 10 procs (m_targetPid s) pid) eqn:Et.
  - apply tree_search_is_ancestry_aux in Et as (n & Hn & Ha). simpl.
    destruct (proxy_configured s); split; try done.
    + intros _. split; [done|]. right. eauto 10.
    + by intros [? _].
  - simpl. split; [done|]. intros [_ [?|(_ & procs' & n & [= <-] & Hn & Ha)]]; [done|].
    assert (tree_search 10 procs (m_targetPid s) pid = true)
      by (apply tree_search_is_ancestry_aux; eauto). congruence.
Qed.

Lemma check_target_BLOCK os pid path s : snd (check_target os pid path s) ≠ BLOCK.
Proof.
  unfold check_target, proxy_or_direct. intros H. repeat case_match; simpl in H; congruence.
Qed.

Lemma proxy_or_direct_spec s :
  (proxy_or_direct s = PROXY ↔ proxy_configured s = true) ∧ proxy_or_direct s ≠ BLOCK.
Proof. unfold proxy_or_direct. by destruct (proxy_configured s). Qed.

(** C7: the verdict on a packet.  It is BLOCK exactly when the owner of the
    port is known, is not this service, its image path is readable and the
    rules say Block; it is PROXY exactly when, under the same conditions, a
    proxy is configured and either the rules say Proxy or, the rules not
    saying Block, the process is the configured target or a descendant of it;
    every other packet, those of the service itself included, is DIRECT. *)
Theorem check_process_rule_verdict (os : Os) (src_port : Z) (s : RuleState) :
  let pid := snd (FindPidBySourcePort os src_port (m_pidCache s)) in
  let v := cr_action (snd (CheckProcessRule os src_port s)) in
  (v = BLOCK ↔ ∃ path engine, pid ≠ 0 ∧ pid ≠ os_self os ∧ os_image os pid = Some path ∧
     m_ruleEngine s = Some engine ∧ Match (ShortName path) path engine = Block) ∧
  (v = PROXY ↔ ∃ path, pid ≠ 0 ∧ pid ≠ os_self os ∧ os_image os pid = Some path ∧
     proxy_configured s = true ∧ wants_proxy os pid path s).
Proof.
  unfold CheckProcessRule. destruct (FindPidBySourcePort _ _ _) as [cache pid]. cbn [snd].
  destruct (Z.eqb_spec pid 0) as [E0|E0].
  { split; (split; [done|]); [intros (? & ? & ? & _)|intros (? & ? & _)]; done. }
  destruct (Z.eqb_spec pid (os_self os)) as [E1|E1].
  { split; (split; [done|]); [intros (? & ? & _ & ? & _)|intros (? & _ & ? & _)]; done. }
  destruct (os_image os pid) as [path|].
  2:{ split; (split; [done|]); [intros (? & ? & _ & _ & ? & _)|intros (? & _ & _ & ? & _)]; done. }
  set (s' := set_pidCache cache s).
  pose proof (check_target_PROXY os pid path s') as HP.
  pose proof (check_target_BLOCK os pid path s') as HB.
  destruct (check_target os pid path s') as [s2 v2]. cbn [snd] in HP, HB.
  destruct (proxy_or_direct_spec s') as [HD1 HD2].
  change (proxy_configured s') with (proxy_configured s) in *.
  change (m_targetProcessPath s') with (m_targetProcessPath s) in *.
  change (m_targetPid s') with (m_targetPid s) in *.
  change (m_ruleEngine s') with (m_ruleEngine s) in *.
  unfold wants_proxy.
  destruct (m_ruleEngine s) as [engine|] eqn:Ee.
  - destruct (Match (ShortName path) path engine) eqn:Em; cbn [snd cr_action result_of].
    1: { rewrite HD1. split; (split; [|intros Hx]).
         - by intros ?.
         - destruct Hx as (? & ? & _ & _ & [= <-] & [= <-] & ?). congruence.
         - eauto 10.
         - by destruct Hx as (? & _ & _ & _ & ? & _). }
    2: { split; (split; [|intros Hx]); eauto 10; [done|].
         destruct Hx as (? & _ & _ & [= <-] & _ & [(? & [= <-] & ?)|[Hn _]]); [congruence|].
         by specialize (Hn engine eq_refl). }
    all: rewrite HP; split; (split; [intros ?; try done|]).
    all: try (by intros (? & ? & _ & _ & [= <-] & [= <-] & ?); congruence).
    all: try (by intros (? & _ & _ & [= <-] & Hc & [(? & [= <-] & ?)|[_ ?]]); [congruence|auto]).
    all: exists path; destruct H as [Hc Hw]; split; [done|]; split; [done|]; split; [done|];
         split; [done|]; right; split; [intros ? [= <-]; congruence|done].
  - cbn [snd cr_action result_of]. rewrite HP. split; (split; [intros ?; try done|]).
    + by intros (? & ? & _ & _ & _ & ? & _).
    + destruct H as [Hc Hw]. exists path. split; [done|]. split; [done|]. split; [done|].
      split; [done|]. right. by split.
    + by intros (? & _ & _ & [= <-] & Hc & [(? & ? & ?)|[_ ?]]).
Qed.
