(* ===== verification/UnitTests.v ===== *)
(** The unit tests of the repository, [tests/unit/service/RuleEngineTest.cpp]
    and [tests/test_comprehensive.cpp], run on the models of what they test:
    one definition per test, the conjunction of its assertions in their order.
    The tests of the rule engine pass for every function that [std::sort] may
    be.  The bitmap of the tests is a copy of the capture's, file PortBitmap;
    the two threads of its last test are interleaved. *)

From S2P Require Import Prelude.
From S2P Require Import Text.
From S2P Require Import Entities.
From S2P Require Import RuleEngine.
From S2P Require Import ConnectionTable.
From S2P Require Import PortBitmap.
From S2P Require Import ProcessRules.

(** A rule as the tests fill it in. *)
Definition test_rule (id : text) (type : RuleType) (action : RuleAction) (pattern : text) (priority : Z)
    (enabled : bool) : Rule :=
  mkRule id type action pattern [] priority enabled 0 0.

Definition new_engine : RuleEngine := mkRuleEngine [].

(** * RuleEngineTest.cpp *)

Section rule_engine.
Context (sort : list Rule → list Rule) `{!StdSort sort}.

Abbreviation add r e := (fst (AddRule sort r e)).
Abbreviation redirects e name path := (ShouldRedirect name path e).

Definition TestWildcardMatch : bool :=
  let engine := add (test_rule (lit "1") ProcessName Proxy (lit "chrome.exe") 1 true) new_engine in
  redirects engine (lit "chrome.exe") [] && negb (redirects engine (lit "firefox.exe") []).

Definition TestPathRule : bool :=
  let engine := add (test_rule (lit "1") ProcessPath Proxy (lit "C:\Program Files\") 1 true) new_engine in
  redirects engine (lit "chrome.exe") (lit "C:\Program Files\Google\Chrome\chrome.exe")
  && negb (redirects engine (lit "app.exe") (lit "D:\Custom\app.exe")).

Definition TestGlobalRule : bool :=
  let engine := add (test_rule (lit "1") Global Direct (lit "*") 999 true) new_engine in
  negb (redirects engine (lit "anything.exe") []).

Definition TestPriorityOrder : bool :=
  let engine := add (test_rule (lit "global") Global Proxy (lit "*") 999 true) new_engine in
  let engine := add (test_rule (lit "direct") ProcessName Direct (lit "ignore.exe") 1 true) engine in
  negb (redirects engine (lit "ignore.exe") []) && redirects engine (lit "other.exe") [].

Definition TestDisabledRule : bool :=
  let engine := add (test_rule (lit "1") ProcessName Proxy (lit "chrome.exe") 1 false) new_engine in
  negb (redirects engine (lit "chrome.exe") []).

Definition TestRemoveRule : bool :=
  let engine := add (test_rule (lit "1") ProcessName Proxy (lit "chrome.exe") 0 true) new_engine in
  let removed := fst (RemoveRule (lit "1") engine) in
  redirects engine (lit "chrome.exe") [] && negb (redirects removed (lit "chrome.exe") []).

(** * test_comprehensive.cpp: the rule engine *)

Definition test_empty_rule_set : bool := negb (redirects new_engine (lit "chrome.exe") []).

Definition test_block_action : bool :=
  let engine := add (test_rule (lit "block1") ProcessName Block (lit "blocked.exe") 1 true) new_engine in
  negb (redirects engine (lit "blocked.exe") []) && negb (redirects engine (lit "chrome.exe") []).

Definition test_update_rule : bool :=
  let rule := test_rule (lit "r1") ProcessName Proxy (lit "old.exe") 1 true in
  let engine := add rule new_engine in
  let updated := fst (UpdateRule sort (test_rule (lit "r1") ProcessName Proxy (lit "new.exe") 1 true) engine) in
  redirects engine (lit "old.exe") [] && negb (redirects updated (lit "old.exe") [])
  && redirects updated (lit "new.exe") [].

Definition test_set_rules : bool :=
  let engine := SetRules sort [test_rule (lit "p1") Global Proxy (lit "*") 999 true] new_engine in
  redirects engine (lit "anything.exe") []
  && negb (redirects (SetRules sort [] engine) (lit "anything.exe") []).

Definition test_get_rules : bool :=
  let engine := add (test_rule (lit "1") ProcessName Proxy (lit "a.exe") 1 true) new_engine in
  let engine := add (test_rule (lit "2") ProcessPath Proxy (lit "C:\") 2 true) engine in
  (length (GetRules engine) =? 2)%nat.

Definition test_disabled_rule : bool :=
  let engine := add (test_rule (lit "d1") ProcessName Proxy (lit "chrome.exe") 1 false) new_engine in
  negb (redirects engine (lit "chrome.exe") []).

Definition test_priority_order : bool :=
  let engine := add (test_rule (lit "g") Global Proxy (lit "*") 999 true) new_engine in
  let engine := add (test_rule (lit "d") ProcessName Direct (lit "direct.exe") 1 true) engine in
  negb (redirects engine (lit "direct.exe") []) && redirects engine (lit "other.exe") [].

Definition rule_engine_tests : list bool :=
  [TestWildcardMatch; TestPathRule; TestGlobalRule; TestPriorityOrder; TestDisabledRule; TestRemoveRule;
   test_empty_rule_set; test_block_action; test_update_rule; test_set_rules; test_get_rules;
   test_disabled_rule; test_priority_order].

(** Sorted by different priorities, there is one order. *)
Lemma sort_nil : sort [] = [].
Proof. apply Permutation_nil. symmetry. apply (sort_perm (sort := sort)). Qed.

Lemma sort_one r : sort [r] = [r].
Proof. apply Permutation_singleton_r. apply (sort_perm (sort := sort)). Qed.

Lemma sort_two a b :
  r_priority a ≠ r_priority b → sort [a; b] = if r_priority a <? r_priority b then [a; b] else [b; a].
Proof.
  intros Hne. pose proof (sort_perm (sort := sort) [a; b]) as Hp. pose proof (sort_sorted (sort := sort) [a; b]) as Hs.
  symmetry in Hp. apply Permutation_length_2_inv in Hp as [E|E]; rewrite E in Hs |- *;
    inversion Hs as [|? ? _ Hf]; apply Forall_inv in Hf; unfold prio_le in Hf;
    destruct (r_priority a <? r_priority b) eqn:El; bool_to_prop; done || lia.
Qed.

Lemma rule_engine_tests_pass : forallb id rule_engine_tests = true.
Proof.
  unfold rule_engine_tests, TestWildcardMatch, TestPathRule, TestGlobalRule, TestPriorityOrder, TestDisabledRule,
    TestRemoveRule, test_empty_rule_set, test_block_action, test_update_rule, test_set_rules, test_get_rules,
    test_disabled_rule, test_priority_order, AddRule, UpdateRule, SetRules, SortRules.
  cbn [fst m_rules new_engine app]. rewrite !sort_one. cbn [m_rules app find_first update_first].
  change (text_eqb (r_id (test_rule (lit "r1") ProcessName Proxy (lit "old.exe") 1 true))
    (r_id (test_rule (lit "r1") ProcessName Proxy (lit "new.exe") 1 true))) with true. cbn [fst m_rules].
  rewrite sort_one, sort_nil, !sort_two by (vm_compute; discriminate). vm_compute. reflexivity.
Qed.
End rule_engine.

(** * test_comprehensive.cpp: the connection table *)

#[export] Instance ConnectionInfo_eq_dec : EqDecision ConnectionInfo.
Proof. solve_decision. Defined.

Definition test_ip : Z := 0x0A0A0A0A.

Definition test_add_and_get : bool :=
  let table := Add 50000 0x0100007F test_ip 443 1 ConnectionTable_new in
  bool_decide (Get 50000 table = Some (test_ip, 443)) && bool_decide (Get 50001 table = None).

Definition test_is_tracked : bool :=
  let table := Add 50000 0 test_ip 80 1 ConnectionTable_new in
  negb (IsTracked 50000 ConnectionTable_new) && IsTracked 50000 table && negb (IsTracked 50001 table).

Definition test_get_proxy_config_id : bool :=
  let table := Add 50000 0 test_ip 443 42 ConnectionTable_new in
  (GetProxyConfigId 50000 table =? 42) && (GetProxyConfigId 50001 table =? 0).

Definition test_remove : bool :=
  let table := Add 50000 0 test_ip 443 1 ConnectionTable_new in
  IsTracked 50000 table && negb (IsTracked 50000 (Remove 50000 table)).

Definition test_clear : bool :=
  let table := Add 50001 0 test_ip 443 2 (Add 50000 0 test_ip 80 1 ConnectionTable_new) in
  IsTracked 50000 table && IsTracked 50001 table
  && negb (IsTracked 50000 (Clear table)) && negb (IsTracked 50001 (Clear table)).

Definition test_add_bytes_and_get_info : bool :=
  let table := Add 50000 0 test_ip 443 1 ConnectionTable_new in
  match SetProcessInfo 50000 12345 (Some (lit "C:\test.exe")) table with
  | None => false
  | Some table =>
      let table := AddBytes 50000 500 300 (AddBytes 50000 1000 2000 table) in
      bool_decide (GetInfo 50000 table = Some (mkInfo 12345 (lit "C:\test.exe") 1500 2300))
      && bool_decide (GetInfo 50000 (Remove 50000 table) = None)
  end.

Definition test_set_process_info : bool :=
  match SetProcessInfo 50000 999 (Some (lit "D:\app\chrome.exe")) (Add 50000 0 test_ip 443 1 ConnectionTable_new) with
  | None => false
  | Some table => bool_decide (GetInfo 50000 table = Some (mkInfo 999 (lit "D:\app\chrome.exe") 0 0))
  end.

Definition test_update_existing_entry : bool :=
  let table := Add 50000 0x0100007F test_ip 443 1 ConnectionTable_new in
  let table := Add 50000 0x0100007F 0x0B0B0B0B 8080 2 table in
  bool_decide (Get 50000 table = Some (0x0B0B0B0B, 8080)).

Definition stress_ports : list Z := seqZ 40000 100.

Definition test_multiple_entries_stress : bool :=
  let table := fold_left (λ t port, Add port 0 test_ip 443 1 t) stress_ports ConnectionTable_new in
  forallb (λ port, IsTracked port table) stress_ports
  && forallb (λ port, negb (IsTracked port (Clear table))) stress_ports.

Definition test_add_bytes_to_nothing : bool :=
  negb (IsTracked 60000 (AddBytes 60000 100 200 ConnectionTable_new)).

Definition connection_table_tests : list bool :=
  [test_add_and_get; test_is_tracked; test_get_proxy_config_id; test_remove; test_clear;
   test_add_bytes_and_get_info; test_set_process_info; test_update_existing_entry;
   test_multiple_entries_stress; test_add_bytes_to_nothing].

Lemma connection_table_tests_pass : forallb id connection_table_tests = true.
Proof. vm_compute. reflexivity. Qed.

(** The test that means to update an entry adds a second one: the entry of the
    first destination is there again once the port is removed. *)
Example update_adds_an_entry :
  let table := Add 50000 0x0100007F test_ip 443 1 ConnectionTable_new in
  let table := Add 50000 0x0100007F 0x0B0B0B0B 8080 2 table in
  GetTrackedCount table = 2 ∧ Get 50000 (Remove 50000 table) = Some (test_ip, 443).
Proof. vm_compute. split; reflexivity. Qed.

(** * test_comprehensive.cpp: the bitmap *)

Definition test_bitmap_zero : bool :=
  negb (IsPortDecided 0 Bitmap_zero) && negb (IsPortDecided 65535 Bitmap_zero)
  && negb (IsPortDirect 100 Bitmap_zero) && negb (IsPortDirect 50000 Bitmap_zero).

Definition test_set_direct : bool :=
  let bm := SetPortDirect 50000 Bitmap_zero in
  IsPortDecided 50000 bm && IsPortDirect 50000 bm && negb (IsPortDecided 50001 bm).

Definition test_set_decided : bool :=
  let bm := SetPortDecided 30000 Bitmap_zero in IsPortDecided 30000 bm && negb (IsPortDirect 30000 bm).

Definition test_clear_port : bool :=
  let bm := SetPortDirect 20000 Bitmap_zero in
  IsPortDecided 20000 bm && negb (IsPortDecided 20000 (ClearPort 20000 bm))
  && negb (IsPortDirect 20000 (ClearPort 20000 bm)).

Definition test_port_boundary : bool :=
  let bm := SetPortDirect 4095 (SetPortDirect 2048 (SetPortDirect 2047 Bitmap_zero)) in
  forallb (λ port, IsPortDecided port bm) [2047; 2048; 4095]
  && forallb (λ port, IsPortDirect port bm) [2047; 2048; 4095] && negb (IsPortDecided 2049 bm).

Lemma bitmap_tests_pass :
  forallb id [test_bitmap_zero; test_set_direct; test_set_decided; test_clear_port; test_port_boundary] = true.
Proof. vm_compute. reflexivity. Qed.

(** * test_comprehensive.cpp: two threads on the bitmap

    The operations on a port are two atomic ones each, on [decided] first and
    then on [direct]; the threads are interleaved by a step function over the
    actions of each. *)

Inductive StressWriter :=
| WriterCheck                            (* while (!stop) *)
| WriterAt (p : Z) (k : nat)             (* [k] atomic operations on port [p] are done *)
| WriterEnd.

Inductive StressReader :=
| ReaderCheck
| ReaderDecided (p : Z)
| ReaderDirect (p : Z)
| ReaderEnd.

Inductive StressMain := MainSleep | MainJoin | MainEnd (ops : Z).

Record Stress := mkStress {
  sx_bitmap : Bitmap;
  sx_stop : bool;
  sx_turns : Z;                          (* [ops], before it wraps *)
  sx_writer : StressWriter;
  sx_reader : StressReader;
  sx_main : StressMain
}.

Definition Stress_new : Stress := mkStress Bitmap_zero false 0 WriterCheck ReaderCheck MainSleep.

Definition stress_ops (s : Stress) : Z := wrap 64 (sx_turns s).

(** [SetDirect], [Clear] and [SetDecided] of a port, one atomic operation at a
    time. *)
Definition writer_op (k : nat) (p : Z) (b : Bitmap) : Bitmap :=
  match k with
  | 0%nat | 4%nat => mkBitmap (InterlockedOr (m_portDecided b) (word_index p) (bit_mask p)) (m_portDirect b)
  | 1%nat => mkBitmap (m_portDecided b) (InterlockedOr (m_portDirect b) (word_index p) (bit_mask p))
  | 2%nat => mkBitmap (InterlockedAnd (m_portDecided b) (word_index p) (clear_mask p)) (m_portDirect b)
  | _ => mkBitmap (m_portDecided b) (InterlockedAnd (m_portDirect b) (word_index p) (clear_mask p))
  end.

Definition stress_writer (s : Stress) : option Stress :=
  let put b n w := Some (mkStress b (sx_stop s) n w (sx_reader s) (sx_main s)) in
  match sx_writer s with
  | WriterCheck => put (sx_bitmap s) (sx_turns s) (if sx_stop s then WriterEnd else WriterAt 0 0)
  | WriterAt p k =>
      if (k <? 5)%nat then put (writer_op k p (sx_bitmap s)) (sx_turns s) (WriterAt p (S k))
      else put (sx_bitmap s) (sx_turns s + 1) (if p + 1 <? 1000 then WriterAt (p + 1) 0 else WriterCheck)
  | WriterEnd => None
  end.

Definition stress_reader (s : Stress) : option Stress :=
  let put r := Some (mkStress (sx_bitmap s) (sx_stop s) (sx_turns s) (sx_writer s) r (sx_main s)) in
  match sx_reader s with
  | ReaderCheck => put (if sx_stop s then ReaderEnd else ReaderDecided 0)
  | ReaderDecided p => put (ReaderDirect p)
  | ReaderDirect p => put (if p + 1 <? 1000 then ReaderDecided (p + 1) else ReaderCheck)
  | ReaderEnd => None
  end.

Definition stress_main (s : Stress) : option Stress :=
  let put stop m := Some (mkStress (sx_bitmap s) stop (sx_turns s) (sx_writer s) (sx_reader s) m) in
  match sx_main s, sx_writer s, sx_reader s with
  | MainSleep, _, _ => put true MainJoin
  | MainJoin, WriterEnd, ReaderEnd => put (sx_stop s) (MainEnd (stress_ops s))
  | _, _, _ => None
  end.

Inductive StressAct := ActWriter | ActReader | ActMain.

Definition stress_act (a : StressAct) : Stress → option Stress :=
  match a with ActWriter => stress_writer | ActReader => stress_reader | ActMain => stress_main end.

Fixpoint stress_run (acts : list StressAct) (s : Stress) : option Stress :=
  match acts with
  | [] => Some s
  | a :: acts' => match stress_act a s with Some s' => stress_run acts' s' | None => None end
  end.

(** [REQUIRE(ops > 0)] *)
Definition stress_verdict (s : Stress) : option bool :=
  match sx_main s with MainEnd ops => Some (0 <? ops) | _ => None end.

(** The two bits of a port. *)
Definition bits_of (s : Stress) (q : Z) : bool * bool :=
  let before := (q <? 1000) && (q <? sx_turns s) in
  match sx_writer s with
  | WriterAt p k =>
      if q =? p then
        match k with
        | 0%nat => (before, false) | 1%nat => (true, false) | 2%nat => (true, true) | 3%nat => (false, true)
        | 4%nat => (false, false) | _ => (true, false)
        end
      else (before, false)
  | _ => (before, false)
  end.

Definition writer_place (s : Stress) : Prop :=
  match sx_writer s with
  | WriterAt p k => 0 <= p < 1000 ∧ (k <= 5)%nat ∧ sx_turns s mod 1000 = p
  | _ => sx_turns s mod 1000 = 0
  end.

Record stress_inv (s : Stress) : Prop := {
  si_wf : bitmap_wf (sx_bitmap s);
  si_turns : 0 <= sx_turns s;
  si_place : writer_place s;
  si_bits : ∀ q, port_ok q → (IsPortDecided q (sx_bitmap s), IsPortDirect q (sx_bitmap s)) = bits_of s q
}.

Lemma writer_op_wf k p b : bitmap_wf b → bitmap_wf (writer_op k p b).
Proof.
  intros []. destruct k as [|[|[|[|[|k]]]]]; split; cbn; unfold InterlockedOr, InterlockedAnd; by rewrite ?length_alter.
Qed.

Lemma writer_op_bits k p q b :
  (k < 5)%nat → bitmap_wf b → port_ok p → port_ok q →
  (IsPortDecided q (writer_op k p b), IsPortDirect q (writer_op k p b)) =
  match k with
  | 0%nat | 4%nat => (bool_decide (p = q) || IsPortDecided q b, IsPortDirect q b)
  | 1%nat => (IsPortDecided q b, bool_decide (p = q) || IsPortDirect q b)
  | 2%nat => (negb (bool_decide (p = q)) && IsPortDecided q b, IsPortDirect q b)
  | _ => (IsPortDecided q b, negb (bool_decide (p = q)) && IsPortDirect q b)
  end.
Proof.
  intros Hk [H1 H2] Hp Hq. unfold IsPortDecided, IsPortDirect.
  destruct k as [|[|[|[|[|k]]]]]; [cbn [writer_op m_portDecided m_portDirect]..|lia]; by rewrite ?read_or, ?read_and.
Qed.

Lemma stress_writer_inv s s' : stress_writer s = Some s' → stress_inv s → stress_inv s'.
Proof.
  destruct s as [b stop n w r m]. unfold stress_writer. cbn [sx_writer sx_bitmap sx_stop sx_turns sx_reader sx_main].
  intros Hs [Hwf Hn Hp Hb]. unfold writer_place, bits_of in *. cbn [sx_writer sx_bitmap sx_turns] in *.
  destruct w as [|p k|]; [..|done].
  - injection Hs as <-. split; [done|done|unfold writer_place; cbn; destruct stop; lia|].
    intros q Hq. cbn [sx_bitmap]. rewrite (Hb q Hq). unfold bits_of. cbn. destruct stop; [done|]. by destruct (Z.eqb_spec q 0).
  - destruct Hp as (Hp & Hk & Hm). destruct (Nat.ltb_spec k 5) as [Hk5|Hk5]; injection Hs as <-.
    + split; [by apply writer_op_wf|done|unfold writer_place; cbn; lia|]. intros q Hq. cbn [sx_bitmap].
      rewrite writer_op_bits by (done || unfold port_ok, in_u; lia). specialize (Hb q Hq).
      unfold bits_of. cbn [sx_writer sx_turns]. destruct (Z.eqb_spec q p) as [E|Hne].
      * subst q. rewrite bool_decide_true by done. destruct k as [|[|[|[|[|k]]]]]; [injection Hb as E1 E2; rewrite E1, E2; cbn; by rewrite ?orb_true_r..|lia].
      * rewrite bool_decide_false by congruence. injection Hb as E1 E2. rewrite E1, E2. by destruct k as [|[|[|[|[|k]]]]].
    + assert (k = 5)%nat as -> by lia. pose proof (Z.div_mod n 1000 ltac:(lia)) as Hd. pose proof (Z.div_pos n 1000 Hn ltac:(lia)).
      split; [done|cbn; lia| |].
      * unfold writer_place. cbn [sx_writer sx_turns]. destruct (Z.ltb_spec (p + 1) 1000).
        -- split; [lia|]. split; [lia|]. rewrite Z.add_mod, Hm by lia. change (1 mod 1000) with 1. apply Z.mod_small. lia.
        -- rewrite Z.add_mod, Hm by lia. assert (p = 999) as -> by lia. done.
      * intros q Hq. unfold port_ok, in_u in Hq. cbn [sx_bitmap]. rewrite (Hb q Hq). unfold bits_of. cbn [sx_writer sx_turns].
        assert (Hb' : (if q =? p then (true, false) else ((q <? 1000) && (q <? n), false)) = ((q <? 1000) && (q <? n + 1), false)).
        { destruct (Z.eqb_spec q p) as [->|Hne]; f_equal.
          - symmetry. apply andb_true_iff. rewrite !Z.ltb_lt. lia.
          - destruct (Z.ltb_spec q 1000); [|done]. cbn [andb]. destruct (Z.ltb_spec q n), (Z.ltb_spec q (n + 1)); try done; lia. }
        rewrite Hb'. destruct (p + 1 <? 1000); [|done]. by destruct (q =? p + 1).
Qed.

Lemma stress_inv_same s b n w :
  sx_bitmap s = b → sx_turns s = n → sx_writer s = w → stress_inv s →
  ∀ stop r m, stress_inv (mkStress b stop n w r m).
Proof. intros <- <- <- [H1 H2 H3 H4] stop r m. by split. Qed.

Lemma stress_run_inv acts s s' : stress_run acts s = Some s' → stress_inv s → stress_inv s'.
Proof.
  revert s. induction acts as [|a acts IH]; intros s; cbn [stress_run]; [by intros [= <-]|].
  destruct (stress_act a s) as [s1|] eqn:E; [|done]. intros Hr Hs. apply (IH s1 Hr). destruct a; cbn [stress_act] in E.
  - by eapply stress_writer_inv.
  - unfold stress_reader in E. destruct (sx_reader s); simplify_eq; by eapply stress_inv_same.
  - unfold stress_main in E. destruct (sx_main s), (sx_writer s) eqn:?, (sx_reader s); simplify_eq; by eapply stress_inv_same.
Qed.

Lemma Stress_new_inv : stress_inv Stress_new.
Proof.
  split; [apply Bitmap_zero_wf|done|done|]. intros q Hq. unfold port_ok, in_u in Hq. unfold IsPortDecided, IsPortDirect. cbn [sx_bitmap Stress_new Bitmap_zero m_portDecided m_portDirect].
  rewrite !read_zero. unfold bits_of. cbn. rewrite (proj2 (Z.ltb_ge q 0)) by lia. by rewrite andb_false_r.
Qed.

(** Under every interleaving, when the writer has ended, either it never began
    or exactly the first thousand ports are decided, and no port is direct. *)
Lemma stress_leaves_ports acts s q :
  stress_run acts Stress_new = Some s → sx_writer s = WriterEnd → port_ok q →
  IsPortDirect q (sx_bitmap s) = false ∧
  IsPortDecided q (sx_bitmap s) = (q <? 1000) && (0 <? sx_turns s).
Proof.
  intros Hr Hw Hq. destruct (stress_run_inv _ _ _ Hr Stress_new_inv) as [_ Hn Hp Hb].
  specialize (Hb q Hq). unfold bits_of, writer_place in *. rewrite Hw in *. injection Hb as -> ->. split; [done|].
  pose proof (Z.div_mod (sx_turns s) 1000 ltac:(lia)). unfold port_ok, in_u in Hq.
  destruct (Z.ltb_spec q 1000); [|done]. cbn [andb].
  destruct (Z.ltb_spec q (sx_turns s)), (Z.ltb_spec 0 (sx_turns s)); try done; lia.
Qed.

(** The test fails if its writer first runs when the flag is set, which says
    nothing of the bitmap; and in between a port can be direct and undecided. *)
Lemma stress_test_can_fail :
  (∃ s, stress_run [ActMain; ActWriter; ActReader; ActMain] Stress_new = Some s ∧ stress_verdict s = Some false) ∧
  (∃ s, stress_run (replicate 4 ActWriter) Stress_new = Some s ∧
     IsPortDirect 0 (sx_bitmap s) = true ∧ IsPortDecided 0 (sx_bitmap s) = false).
Proof. split; eexists; split; [reflexivity| |reflexivity|]; vm_compute; done. Qed.

(** * test_comprehensive.cpp: default values and [ShortName] *)

Definition test_proxy_config : bool :=
  text_eqb (pc_host ProxyConfig_default) [] && (pc_port ProxyConfig_default =? 3128)
  && negb (pc_auth_required ProxyConfig_default).

(** "Rule: fields" *)
Definition test_rule_fields : bool :=
  let rule := test_rule (lit "test-rule") ProcessName Proxy (lit "chrome.exe") 10 true in
  text_eqb (r_id rule) (lit "test-rule") && bool_decide (r_type rule = ProcessName)
  && bool_decide (r_action rule = Proxy) && text_eqb (r_pattern rule) (lit "chrome.exe")
  && (r_priority rule =? 10) && r_enabled rule.

Definition test_connection_record : bool :=
  bool_decide (cr_state ConnectionRecord_default = Redirecting) && (cr_rx_bytes ConnectionRecord_default =? 0)
  && (cr_tx_bytes ConnectionRecord_default =? 0) && (cr_pid ConnectionRecord_default =? 0).

(** The test of [ServiceStats] also reads [total_connections], which the struct
    does not have: the file of the tests does not compile. *)
Definition test_service_stats : bool :=
  (ss_active_connections ServiceStats_default =? 0) && (ss_total_rx_bytes ServiceStats_default =? 0)
  && (ss_total_tx_bytes ServiceStats_default =? 0) && (ss_proxy_errors ServiceStats_default =? 0).

Definition test_driver_stats : bool :=
  (ds_pending_redirects DriverStats_default =? 0) && (ds_total_redirects DriverStats_default =? 0)
  && (ds_failed_redirects DriverStats_default =? 0) && (ds_rules_count DriverStats_default =? 0)
  && (ds_queue_max_size DriverStats_default =? 4096).

Definition test_log_entry : bool :=
  bool_decide (le_level LogEntry_default = LInfo) && text_eqb (le_message LogEntry_default) []
  && text_eqb (le_logger LogEntry_default) [].

Definition test_settings : bool :=
  text_eqb (app_exePath (c_app Config_default)) []
  && text_eqb (px_host (c_proxy Config_default)) (lit "127.0.0.1") && (px_port (c_proxy Config_default) =? 3128)
  && px_enabled (c_proxy Config_default)
  && negb (au_enabled (c_auth Config_default)) && text_eqb (au_username (c_auth Config_default)) []
  && negb (au_kerberos (c_auth Config_default))
  && (lg_level (c_log Config_default) =? 2) && lg_fileEnabled (c_log Config_default)
  && (lg_maxSizeMB (c_log Config_default) =? 10)
  && (st_updateIntervalMs (c_stats Config_default) =? 2000).

Definition test_short_name : bool :=
  forallb (λ '(path, name), text_eqb (ShortName path) name)
    [(lit "C:\Program Files\chrome.exe", lit "chrome.exe"); (lit "C:\test\app\sub\file.dll", lit "file.dll");
     (lit "chrome.exe", lit "chrome.exe"); (lit "test", lit "test");
     (lit "C:\windows.exe", lit "windows.exe"); (lit "\file.txt", lit "file.txt")].

Lemma value_tests_pass :
  forallb id [test_proxy_config; test_rule_fields; test_connection_record; test_service_stats; test_driver_stats; test_log_entry;
     test_settings; test_short_name] = true.
Proof. vm_compute. reflexivity. Qed.
