(* ===== verification/Capture.v ===== *)
(** The packet processor: [WinDivertCapture::CaptureLoop] and the helpers that
    rewrite packets ([infrastructure/capture/WinDivertCapture.cpp] and [.h],
    port [domain/ports/ICapture.h]).

    [process_packet] is one turn of the loop on an IPv4 TCP packet, with the
    four steps of the source in their order.  The connection table and the
    connection monitor are used through their ports, so the theorems hold for
    every implementation of those interfaces.  The relay thread only reads the
    table, so a turn of the loop is a sequence of table methods that nothing
    else interrupts with a write.  [None] stands for the process ending in the
    invalid parameter handler; [process_packet_total] shows it does not. *)

From S2P Require Import Prelude.
From S2P Require Import Text.
From S2P Require Import Entities.
From S2P Require Import RuleEngine.
From S2P Require Import ConnectionTable.
From S2P Require Import ConnectionTracker.
From S2P Require Import PortBitmap.
From S2P Require Import ProcessRules.

(** * Packets *)

(** The header fields the loop reads or writes, as stored in the packet
    (network byte order), and the direction WinDivert keeps beside it. *)
Record Packet := mkPacket {
  pk_SrcAddr : Z;
  pk_DstAddr : Z;
  pk_SrcPort : Z;
  pk_DstPort : Z;
  pk_Fin : bool;
  pk_Rst : bool;
  pk_Outbound : bool;
  pk_len : Z
}.

Definition set_DstPort (x : Z) (p : Packet) : Packet :=
  mkPacket (pk_SrcAddr p) (pk_DstAddr p) (pk_SrcPort p) x (pk_Fin p) (pk_Rst p)
    (pk_Outbound p) (pk_len p).
Definition set_SrcPort (x : Z) (p : Packet) : Packet :=
  mkPacket (pk_SrcAddr p) (pk_DstAddr p) x (pk_DstPort p) (pk_Fin p) (pk_Rst p)
    (pk_Outbound p) (pk_len p).

Definition IsLocalhost (ip : Z) : bool := Z.shiftr ip 24 =? 127.

Definition IsLocalhostPair (p : Packet) : bool :=
  IsLocalhost (ntohl (pk_SrcAddr p)) && IsLocalhost (ntohl (pk_DstAddr p)).

Definition SwapIpAndDirection (p : Packet) : Packet :=
  mkPacket (pk_DstAddr p) (pk_SrcAddr p) (pk_SrcPort p) (pk_DstPort p) (pk_Fin p) (pk_Rst p)
    false (pk_len p).

Definition ModifyDstToRelay (relayPort : Z) (p : Packet) : Packet :=
  let p := set_DstPort (htons relayPort) p in
  if IsLocalhostPair p then p else SwapIpAndDirection p.

Definition closing (p : Packet) : bool := pk_Fin p || pk_Rst p.

(** What [WinDivertSend] was called with, and whether the checksums were
    computed again first. *)
Record Sent := mkSent { sent_packet : Packet; sent_checksums : bool }.

Section capture.
Context {T : Type} `{!IConnectionTable T} {M : Type} `{!IConnectionMonitor M}.

(** * State *)

Record Capture := mkCapture {
  m_bitmap : Bitmap;
  m_rules : RuleState;
  m_connTable : option T;
  m_connectionMonitor : option M;
  m_relayPort : Z;
  m_packets_captured : Z;
  m_redirects_emitted : Z;
  m_totalRxBytes : Z;
  m_totalTxBytes : Z;
  m_activeConnections : Z
}.

Definition set_bitmap (b : Bitmap) (s : Capture) : Capture :=
  mkCapture b (m_rules s) (m_connTable s) (m_connectionMonitor s) (m_relayPort s)
    (m_packets_captured s) (m_redirects_emitted s) (m_totalRxBytes s) (m_totalTxBytes s)
    (m_activeConnections s).
Definition set_rules (r : RuleState) (s : Capture) : Capture :=
  mkCapture (m_bitmap s) r (m_connTable s) (m_connectionMonitor s) (m_relayPort s)
    (m_packets_captured s) (m_redirects_emitted s) (m_totalRxBytes s) (m_totalTxBytes s)
    (m_activeConnections s).
Definition set_table (t : T) (s : Capture) : Capture :=
  mkCapture (m_bitmap s) (m_rules s) (Some t) (m_connectionMonitor s) (m_relayPort s)
    (m_packets_captured s) (m_redirects_emitted s) (m_totalRxBytes s) (m_totalTxBytes s)
    (m_activeConnections s).
Definition set_monitor (m : option M) (s : Capture) : Capture :=
  mkCapture (m_bitmap s) (m_rules s) (m_connTable s) m (m_relayPort s)
    (m_packets_captured s) (m_redirects_emitted s) (m_totalRxBytes s) (m_totalTxBytes s)
    (m_activeConnections s).
Definition count_captured (s : Capture) : Capture :=
  mkCapture (m_bitmap s) (m_rules s) (m_connTable s) (m_connectionMonitor s) (m_relayPort s)
    (m_packets_captured s +u64 1) (m_redirects_emitted s) (m_totalRxBytes s)
    (m_totalTxBytes s) (m_activeConnections s).
Definition count_redirect (s : Capture) : Capture :=
  mkCapture (m_bitmap s) (m_rules s) (m_connTable s) (m_connectionMonitor s) (m_relayPort s)
    (m_packets_captured s) (m_redirects_emitted s +u64 1) (m_totalRxBytes s)
    (m_totalTxBytes s) (m_activeConnections s).
Definition add_totals (up down : Z) (s : Capture) : Capture :=
  mkCapture (m_bitmap s) (m_rules s) (m_connTable s) (m_connectionMonitor s) (m_relayPort s)
    (m_packets_captured s) (m_redirects_emitted s) (m_totalRxBytes s +u64 up)
    (m_totalTxBytes s +u64 down) (m_activeConnections s).
Definition drop_active (s : Capture) : Capture :=
  mkCapture (m_bitmap s) (m_rules s) (m_connTable s) (m_connectionMonitor s) (m_relayPort s)
    (m_packets_captured s) (m_redirects_emitted s) (m_totalRxBytes s) (m_totalTxBytes s)
    (if 0 <? m_activeConnections s then m_activeConnections s -u32 1
     else m_activeConnections s).

Definition on_bitmap (f : Bitmap → Bitmap) (s : Capture) : Capture :=
  set_bitmap (f (m_bitmap s)) s.

(** The object as constructed and configured, before any packet. *)
Definition Capture_new (r : RuleState) (t : option T) (m : option M) (relayPort : Z) : Capture :=
  mkCapture Bitmap_zero r t m relayPort 0 0 0 0 0.

(** * The four steps *)

Definition RestoreFromRelay (table : T) (p : Packet) : Packet :=
  let dstPort := ntohs (pk_DstPort p) in
  let p := match it_Get dstPort table with
           | Some (_, orig_dest_port) => set_SrcPort (htons orig_dest_port) p
           | None => p
           end in
  if IsLocalhostPair p then p else SwapIpAndDirection p.

(** Both directions account for a closed connection in the same way. *)
Definition log_summary (port : Z) (table : T) (s : Capture) : Capture :=
  match it_GetInfo port table with
  | Some info => add_totals (ci_bytes_up info) (ci_bytes_down info) s
  | None => s
  end.

(** Step 2: a packet of the relay back to the client. *)
Definition relay_response (table : T) (p : Packet) (s : Capture) : Capture * list Sent :=
  let dstPort := ntohs (pk_DstPort p) in
  match it_Get dstPort table with
  | None => (s, [mkSent p false])
  | Some _ =>
      let p' := RestoreFromRelay table p in
      let table := it_AddBytes dstPort 0 (pk_len p) table in
      let s :=
        if closing p then
          let s := log_summary dstPort table s in
          on_bitmap (ClearPort dstPort) (set_table (it_Remove dstPort table) s)
        else set_table table s in
      (s, [mkSent p' true])
  end.

(** Step 3: a packet of the client on a tracked connection. *)
Definition tracked_packet (table : T) (p : Packet) (s : Capture) : Capture * list Sent :=
  let srcPort := ntohs (pk_SrcPort p) in
  let table := it_AddBytes srcPort (pk_len p) 0 table in
  let s :=
    if closing p then
      let s := log_summary srcPort table s in
      let s := set_table (it_Remove srcPort table) s in
      let s := set_monitor (im_RemoveConnection srcPort <$> m_connectionMonitor s) s in
      on_bitmap (ClearPort srcPort) (drop_active s)
    else set_table table s in
  (s, [mkSent (ModifyDstToRelay (m_relayPort s) p) true]).

Definition new_record (now srcPort pid : Z) (procPath : text) (origDestPort : Z)
    : ConnectionRecord :=
  mkConnectionRecord srcPort pid procPath [] [] [] origDestPort now 0 0 0 true Redirecting.

(** Step 4: a packet of an unknown connection. *)
Definition untracked_packet (os : Os) (now : Z) (table : T) (p : Packet) (s : Capture)
    : option (Capture * list Sent) :=
  let srcPort := ntohs (pk_SrcPort p) in
  let dstPort := ntohs (pk_DstPort p) in
  let '(rules, r) := CheckProcessRule os srcPort (m_rules s) in
  let s := set_rules rules s in
  let pid := default 0 (cr_out_pid r) in
  let procPath := default [] (cr_out_path r) in
  match cr_action r with
  | DIRECT => Some (on_bitmap (SetPortDirect srcPort) s, [mkSent p false])
  | BLOCK => Some (on_bitmap (SetPortDecided srcPort) s, [])
  | PROXY =>
      let table := it_Add srcPort (pk_SrcAddr p) (pk_DstAddr p) dstPort
                     (default 0 (cr_proxy_config_id r)) table in
      match (if negb (pid =? 0) && negb (text_eqb (cstr procPath) [])
             then it_SetProcessInfo srcPort pid (Some procPath) table
             else Some table) with
      | None => None
      | Some table =>
          let s := set_table table s in
          let rec := new_record now srcPort pid (cstr procPath) dstPort in
          let s := set_monitor (im_AddConnection rec <$> m_connectionMonitor s) s in
          let s := count_redirect (on_bitmap (SetPortDecided srcPort) s) in
          Some (s, [mkSent (ModifyDstToRelay (m_relayPort s) p) true])
      end
  end.

(** One turn of the loop on an IPv4 TCP packet. *)
Definition process_packet (os : Os) (now : Z) (p : Packet) (s : Capture)
    : option (Capture * list Sent) :=
  let s := count_captured s in
  let srcPort := ntohs (pk_SrcPort p) in
  let '(s, direct) :=
    if IsPortDecided srcPort (m_bitmap s) then
      let s := if closing p then on_bitmap (ClearPort srcPort) s else s in
      (s, IsPortDirect srcPort (m_bitmap s))
    else (s, false) in
  if direct then Some (s, [mkSent p false])
  else match m_connTable s with
  | None => Some (s, [mkSent p false])
  | Some table =>
      if srcPort =? m_relayPort s then Some (relay_response table p s)
      else if it_IsTracked srcPort table then Some (tracked_packet table p s)
      else if pk_Outbound p then untracked_packet os now table p s
      else Some (s, [mkSent p false])
  end.

(** * The loop *)

(** What [WinDivertRecv] and the parser deliver, and the stop request of
    [Close], which clears [m_running] before it shuts the handle. *)
Inductive RecvEvent :=
| RecvFailed (no_more_items : bool)
| RecvEmpty
| RecvOther (raw : list Z)               (* not IPv4 TCP: sent on as it is *)
| RecvTcp (os : Os) (now : Z) (p : Packet)
| StopRequested.

Inductive Output := OutRaw (raw : list Z) | OutTcp (x : Sent).

(** The turns of the loop over a sequence of events, until it ends. *)
Fixpoint CaptureLoop (events : list RecvEvent) (s : Capture) : option (Capture * list Output) :=
  match events with
  | [] => Some (s, [])
  | StopRequested :: _ => Some (s, [])
  | RecvFailed true :: _ => Some (s, [])
  | RecvFailed false :: events' | RecvEmpty :: events' => CaptureLoop events' s
  | RecvOther raw :: events' =>
      match CaptureLoop events' s with
      | Some (s', out) => Some (s', OutRaw raw :: out)
      | None => None
      end
  | RecvTcp os now p :: events' =>
      match process_packet os now p s with
      | None => None
      | Some (s1, sent) =>
          match CaptureLoop events' s1 with
          | Some (s', out) => Some (s', (OutTcp <$> sent) ++ out)
          | None => None
          end
      end
  end.

Definition IsTargetProcess (pid : Z) (s : Capture) : bool :=
  if pid =? 0 then false else pid =? m_targetPid (m_rules s).

Definition GetStats (s : Capture) : DriverStats :=
  mkDriverStats (ds_pending_redirects DriverStats_default)
    (swrap 64 (m_redirects_emitted s)) (ds_failed_redirects DriverStats_default)
    (ds_rules_count DriverStats_default) (ds_queue_max_size DriverStats_default).

Definition GetActiveConnections (s : Capture) : Z :=
  match m_connTable s with Some t => it_GetTrackedCount t | None => 0 end.

Definition GetPendingRedirects (timeout_ms : Z) (s : Capture) : list RedirectEvent := [].
Definition AckRedirect (redirect_id : Z) (s : Capture) : bool := true.

Definition SetTargetProcess (exePath : text) (s : Capture) : Capture :=
  let r := m_rules s in
  set_rules (mkRuleState exePath 0 (m_proxyHost r) (m_proxyPort r) (m_ruleEngine r)
               (m_pidCache r)) s.
Definition SetProxyConfig (host : text) (port : Z) (s : Capture) : Capture :=
  let r := m_rules s in
  set_rules (mkRuleState (m_targetProcessPath r) (m_targetPid r) host port (m_ruleEngine r)
               (m_pidCache r)) s.
End capture.

Arguments Capture T M : clear implicits.

(** * Invariant

    A tracked port is decided and not direct, so the fast path never lets its
    packets through; the relay's own port is never decided, so the fast path
    never hides the relay's answers.  [except p] holds for a port whose bits
    were cleared while it is still in the table. *)

Section invariant.
Context {T : Type} `{!IConnectionTable T}.

Record table_inv (except : Z → Prop) (relayPort : Z) (b : Bitmap) (t : T) : Prop := {
  ti_bitmap : bitmap_wf b;
  ti_sane : sane b;
  ti_table : it_wf t;
  ti_relay_ok : port_ok relayPort;
  ti_depth : ∀ p, port_ok p → (it_depth p t <= 1)%nat;
  ti_tracked : ∀ p, port_ok p → ¬ except p → it_Get p t ≠ None → decision_of p b = DecidedOther;
  ti_untracked_relay : it_Get relayPort t = None;
  ti_relay : decision_of relayPort b = Undecided
}.

Definition nobody (p : Z) : Prop := False.
Lemma nobody_not p : ¬ nobody p.
Proof. by intros []. Qed.
#[local] Hint Resolve nobody_not : core.

Context (relayPort : Z).
Implicit Types (b : Bitmap) (t : T) (p q : Z).

Lemma inv_ClearPort p b t :
  port_ok p → table_inv nobody relayPort b t → table_inv (eq p) relayPort (ClearPort p b) t.
Proof.
  intros Hp []. split; auto with bitmap.
  - intros q Hq Hne Ht. rewrite decision_ClearPort by done. rewrite decide_False by auto.
    by apply ti_tracked0; auto.
  - rewrite decision_ClearPort by done. by case_decide.
Qed.

Lemma inv_except p b t :
  it_Get p t = None → table_inv (eq p) relayPort b t → table_inv nobody relayPort b t.
Proof.
  intros Hn []. split; auto. intros q Hq _ Ht. apply ti_tracked0; auto. congruence.
Qed.

Lemma inv_weaken p b t : table_inv nobody relayPort b t → table_inv (eq p) relayPort b t.
Proof. intros []. split; auto. Qed.

Lemma inv_SetPortDirect p b t :
  port_ok p → p ≠ relayPort → it_Get p t = None → table_inv nobody relayPort b t →
  table_inv nobody relayPort (SetPortDirect p b) t.
Proof.
  intros Hp Hr Hn []. split; auto with bitmap.
  - intros q Hq _ Ht. rewrite decision_SetPortDirect by done.
    rewrite decide_False by congruence. by apply ti_tracked0.
  - rewrite decision_SetPortDirect by done. by rewrite decide_False.
Qed.

Lemma inv_SetPortDecided p b t :
  port_ok p → p ≠ relayPort → it_Get p t = None → table_inv nobody relayPort b t →
  table_inv nobody relayPort (SetPortDecided p b) t.
Proof.
  intros Hp Hr Hn []. split; auto with bitmap.
  - intros q Hq _ Ht. rewrite decision_SetPortDecided by done.
    rewrite decide_False by congruence. by apply ti_tracked0.
  - rewrite decision_SetPortDecided by done. by rewrite decide_False.
Qed.

Lemma not_direct p b : sane b → port_ok p → decision_of p b ≠ DecidedDirect →
  IsPortDirect p b = false.
Proof.
  intros Hs Hp. unfold decision_of. specialize (Hs p Hp).
  destruct (IsPortDirect p b); [|done]. by rewrite Hs.
Qed.

Lemma inv_Add p a dip dport cfg b t :
  port_ok p → p ≠ relayPort → it_Get p t = None → decision_of p b ≠ DecidedDirect →
  table_inv nobody relayPort b t →
  table_inv nobody relayPort (SetPortDecided p b) (it_Add p a dip dport cfg t).
Proof.
  intros Hp Hr Hn Hd [].
  assert (HA : ∀ q, q ≠ p → it_Get q (it_Add p a dip dport cfg t) = it_Get q t ∧
    it_depth q (it_Add p a dip dport cfg t) = it_depth q t) by (intros; by apply it_Add_other).
  split; auto using it_Add_wf with bitmap.
  - intros q Hq. destruct (decide (q = p)) as [->|Hne].
    + by rewrite (proj2 (it_Add_same p a dip dport cfg t ti_table0 Hn)).
    + rewrite (proj2 (HA q Hne)). auto.
  - intros q Hq _ Ht. rewrite decision_SetPortDecided by done. case_decide as E.
    + subst q. by rewrite not_direct.
    + apply ti_tracked0; auto. rewrite (proj1 (HA q ltac:(done))) in Ht. done.
  - by rewrite (proj1 (HA relayPort ltac:(done))).
  - rewrite decision_SetPortDecided by done. by rewrite decide_False.
Qed.

(** Closing a connection: the entry is popped and the bits are cleared. *)
Lemma inv_Remove p b t :
  port_ok p → table_inv (eq p) relayPort b t →
  table_inv nobody relayPort (ClearPort p b) (it_Remove p t).
Proof.
  intros Hp [].
  assert (HR : ∀ q, q ≠ p → it_Get q (it_Remove p t) = it_Get q t ∧
    it_depth q (it_Remove p t) = it_depth q t) by (intros; by apply it_Remove_other).
  assert (Hself : it_Get p (it_Remove p t) = None).
  { apply it_depth_Get; [by apply it_Remove_wf|]. rewrite it_Remove_same by done.
    specialize (ti_depth0 p Hp). lia. }
  split; auto using it_Remove_wf with bitmap.
  - intros q Hq. destruct (decide (q = p)) as [->|Hne].
    + rewrite it_Remove_same by done. specialize (ti_depth0 p Hp). lia.
    + rewrite (proj2 (HR q Hne)). auto.
  - intros q Hq _ Ht. rewrite decision_ClearPort by done. case_decide as E; [by subst q|].
    apply ti_tracked0; auto. by rewrite (proj1 (HR q ltac:(done))) in Ht.
  - destruct (decide (relayPort = p)) as [->|Hne]; [done|].
    by rewrite (proj1 (HR relayPort Hne)).
  - rewrite decision_ClearPort by done. by case_decide.
Qed.

Lemma inv_same_Get ex b t t' :
  it_wf t' → (∀ q, it_Get q t' = it_Get q t ∧ it_depth q t' = it_depth q t) →
  table_inv ex relayPort b t → table_inv ex relayPort b t'.
Proof.
  intros Hw Hg []. split; auto.
  - intros p Hp. rewrite (proj2 (Hg p)). auto.
  - intros p Hp He. rewrite (proj1 (Hg p)). auto.
  - by rewrite (proj1 (Hg relayPort)).
Qed.

Lemma inv_AddBytes ex p u d b t :
  table_inv ex relayPort b t → table_inv ex relayPort b (it_AddBytes p u d t).
Proof.
  intros HI. pose proof (ti_table _ _ _ _ HI). apply (inv_same_Get ex b t); auto using it_AddBytes_wf.
  intros q. by apply it_AddBytes_Get.
Qed.

Lemma inv_SetProcessInfo ex p pid path b t t' :
  it_SetProcessInfo p pid path t = Some t' →
  table_inv ex relayPort b t → table_inv ex relayPort b t'.
Proof.
  intros Hs HI. pose proof (ti_table _ _ _ _ HI).
  apply (inv_same_Get ex b t); eauto using it_SetProcessInfo_wf.
  intros q. by eapply it_SetProcessInfo_Get.
Qed.
End invariant.

Lemma fast_path_direct src c b :
  bitmap_wf b → port_ok src →
  (if IsPortDecided src b
   then IsPortDirect src (if c : bool then ClearPort src b else b) else false)
  = match decision_of src b with DecidedDirect => negb c | _ => false end.
Proof.
  intros Hb Hs. unfold decision_of. destruct (IsPortDecided src b); [|done].
  destruct c.
  - rewrite direct_ClearPort, bool_decide_true by done. simpl. by destruct (IsPortDirect src b).
  - by destruct (IsPortDirect src b).
Qed.

(** * One turn of the loop *)

Definition packet_ok (p : Packet) : Prop := u16 (pk_SrcPort p) ∧ u16 (pk_DstPort p).

Lemma ntohs_port x : u16 x → port_ok (ntohs x).
Proof. intros H. by apply ntohs_involutive. Qed.

Lemma htons_ntohs x : u16 x → htons (ntohs x) = x.
Proof. intros H. by apply ntohs_involutive. Qed.

Lemma ntohs_htons x : u16 x → ntohs (htons x) = x.
Proof. intros H. by apply ntohs_involutive. Qed.

Lemma out_path_image os port s path :
  cr_out_path (snd (CheckProcessRule os port s)) = Some path →
  ∃ pid, os_image os pid = Some path.
Proof.
  unfold CheckProcessRule. destruct (FindPidBySourcePort _ _ _) as [c pid].
  destruct (pid =? 0); [done|]. destruct (pid =? os_self os); [done|].
  destruct (os_image os pid) as [path'|] eqn:E; [|done].
  intros Hc. exists pid. rewrite E. revert Hc.
  repeat case_match; simpl; intros; congruence.
Qed.

Section steps.
Context {T : Type} `{!IConnectionTable T} {M : Type} `{!IConnectionMonitor M}.
Implicit Types (s : Capture T M) (p : Packet).

Definition inv s : Prop :=
  ∃ t, m_connTable s = Some t ∧ table_inv nobody (m_relayPort s) (m_bitmap s) t.

Definition src_of p : Z := ntohs (pk_SrcPort p).
Definition dst_of p : Z := ntohs (pk_DstPort p).

Definition after_fast_path p s : Capture T M :=
  let s := count_captured s in
  if IsPortDecided (src_of p) (m_bitmap s) && closing p
  then on_bitmap (ClearPort (src_of p)) s else s.

Definition slow_path (os : Os) (now : Z) p s : option (Capture T M * list Sent) :=
  match m_connTable s with
  | None => Some (s, [mkSent p false])
  | Some table =>
      if src_of p =? m_relayPort s then Some (relay_response table p s)
      else if it_IsTracked (src_of p) table then Some (tracked_packet table p s)
      else if pk_Outbound p then untracked_packet os now table p s
      else Some (s, [mkSent p false])
  end.

Lemma process_packet_split os now p s :
  bitmap_wf (m_bitmap s) → packet_ok p →
  process_packet os now p s =
    if match decision_of (src_of p) (m_bitmap s) with
       | DecidedDirect => negb (closing p) | _ => false end
    then Some (count_captured s, [mkSent p false])
    else slow_path os now p (after_fast_path p s).
Proof.
  intros Hb [Hs _]. rewrite <- fast_path_direct by (done || by apply ntohs_port).
  unfold process_packet, after_fast_path. fold (src_of p).
  change (m_bitmap (count_captured s)) with (m_bitmap s).
  destruct (IsPortDecided (src_of p) (m_bitmap s)) eqn:Ed; [|done]. cbn [andb].
  assert (HD : IsPortDirect (src_of p) (ClearPort (src_of p) (m_bitmap s)) = false).
  { rewrite direct_ClearPort by (done || by apply ntohs_port). by rewrite bool_decide_true. }
  destruct (closing p); [|done].
  change (m_bitmap (on_bitmap (ClearPort (src_of p)) (count_captured s)))
    with (ClearPort (src_of p) (m_bitmap s)). by rewrite HD.
Qed.

Lemma after_fast_path_inv p s t :
  packet_ok p → m_connTable s = Some t → table_inv nobody (m_relayPort s) (m_bitmap s) t →
  let s1 := after_fast_path p s in
  m_connTable s1 = Some t ∧ m_relayPort s1 = m_relayPort s ∧ m_rules s1 = m_rules s ∧
  table_inv (eq (src_of p)) (m_relayPort s) (m_bitmap s1) t ∧
  (closing p = false ∨ decision_of (src_of p) (m_bitmap s) = Undecided →
   m_bitmap s1 = m_bitmap s).
Proof.
  intros [Hp _] Ht HI. unfold after_fast_path.
  change (m_bitmap (count_captured s)) with (m_bitmap s).
  destruct (IsPortDecided (src_of p) (m_bitmap s)) eqn:Ed; cbn [andb].
  - destruct (closing p) eqn:Ec; simpl.
    + split; [done|]. split; [done|]. split; [done|]. split; [|].
      { apply inv_ClearPort; [by apply ntohs_port|done]. }
      intros [?|Hd]; [done|]. unfold decision_of in Hd. rewrite Ed in Hd. by case_match.
    + eauto 10 using inv_weaken.
  - simpl. eauto 10 using inv_weaken.
Qed.

Lemma log_summary_same port table s :
  m_connTable (log_summary port table s) = m_connTable s ∧
  m_relayPort (log_summary port table s) = m_relayPort s ∧
  m_bitmap (log_summary port table s) = m_bitmap s.
Proof. unfold log_summary. by case_match. Qed.

Lemma relay_response_inv t p s :
  packet_ok p → table_inv nobody (m_relayPort s) (m_bitmap s) t → m_connTable s = Some t →
  inv (fst (relay_response t p s)).
Proof.
  intros [_ Hd] HI Ht. unfold relay_response. destruct (it_Get _ t) eqn:Eg; [|by exists t].
  simpl. destruct (closing p).
  - set (t' := it_AddBytes _ _ _ t). destruct (log_summary_same (ntohs (pk_DstPort p)) t' s)
      as (_ & Hr & Hb).
    eexists. split; [done|]. unfold on_bitmap. cbn. rewrite Hr, Hb.
    apply inv_Remove; [by apply ntohs_port|]. apply inv_weaken. by apply inv_AddBytes.
  - eexists. split; [done|]. by apply inv_AddBytes.
Qed.

Lemma tracked_packet_inv t p s :
  packet_ok p → table_inv (eq (src_of p)) (m_relayPort s) (m_bitmap s) t →
  (closing p = false → table_inv nobody (m_relayPort s) (m_bitmap s) t) →
  inv (fst (tracked_packet t p s)).
Proof.
  intros [Hs _] HI HI'. unfold tracked_packet. destruct (closing p); simpl.
  - set (t' := it_AddBytes _ _ _ t). destruct (log_summary_same (ntohs (pk_SrcPort p)) t' s)
      as (_ & Hr & Hb).
    eexists. split; [done|]. unfold on_bitmap. cbn. rewrite Hr, Hb.
    apply inv_Remove; [by apply ntohs_port|]. by apply inv_AddBytes.
  - eexists. split; [done|]. by apply inv_AddBytes, HI'.
Qed.

Lemma untracked_packet_total os now t p s :
  os_ok os → is_Some (untracked_packet os now t p s).
Proof.
  intros Hos. unfold untracked_packet.
  pose proof (out_path_image os (ntohs (pk_SrcPort p)) (m_rules s)) as Hp.
  destruct (CheckProcessRule _ _ _) as [rules r]. cbn [snd] in Hp.
  destruct (cr_action r); [done| |done].
  match goal with |- is_Some (match ?x with None => _ | _ => _ end) =>
    destruct x as [t1|] eqn:E; [done|exfalso] end.
  destruct (_ && _) eqn:Ec in E; [|done].
  destruct (cr_out_path r) as [path|]; [|by rewrite andb_comm in Ec].
  cbn [default from_option id] in E.
  destruct (Hp path eq_refl) as [pid Hi]. destruct (Hos _ _ Hi) as [Hl _].
  destruct (it_SetProcessInfo_fits (ntohs (pk_SrcPort p)) (default 0 (cr_out_pid r)) path
    (it_Add (ntohs (pk_SrcPort p)) (pk_SrcAddr p) (pk_DstAddr p) (ntohs (pk_DstPort p))
       (default 0 (cr_proxy_config_id r)) t) Hl) as [t' Ht']. congruence.
Qed.

(** The state after an untracked packet, by its verdict. *)
Lemma untracked_packet_inv os now t p s s' out :
  packet_ok p → src_of p ≠ m_relayPort s → it_Get (src_of p) t = None →
  decision_of (src_of p) (m_bitmap s) ≠ DecidedDirect →
  table_inv nobody (m_relayPort s) (m_bitmap s) t → m_connTable s = Some t →
  untracked_packet os now t p s = Some (s', out) → inv s'.
Proof.
  intros [Hs _] Hr Hg Hd HI Ht. unfold untracked_packet. fold (src_of p) (dst_of p).
  assert (port_ok (src_of p)) by (by apply ntohs_port).
  destruct (CheckProcessRule _ _ _) as [rules r]. destruct (cr_action r).
  - intros [= <- <-]. exists t. split; [done|]. by apply inv_SetPortDirect.
  - set (t1 := it_Add _ _ _ _ _ t).
    assert (HA : table_inv nobody (m_relayPort s) (SetPortDecided (src_of p) (m_bitmap s)) t1)
      by (by apply inv_Add).
    match goal with |- (match ?x with None => _ | _ => _ end) = _ → _ =>
      destruct x as [t2|] eqn:E; [|done] end. intros [= <- <-].
    exists t2. split; [done|]. cbn.
    destruct (_ && _) in E; [by eapply inv_SetProcessInfo|by injection E as <-].
  - intros [= <- <-]. exists t. split; [done|]. by apply inv_SetPortDecided.
Qed.

Lemma after_fast_path_decision p s :
  bitmap_wf (m_bitmap s) → packet_ok p →
  match decision_of (src_of p) (m_bitmap s) with
  | DecidedDirect => negb (closing p) | _ => false end = false →
  decision_of (src_of p) (m_bitmap (after_fast_path p s)) ≠ DecidedDirect.
Proof.
  intros Hb [Hp _] Hf. unfold after_fast_path.
  change (m_bitmap (count_captured s)) with (m_bitmap s).
  destruct (_ && _) eqn:E.
  - cbn. rewrite decision_ClearPort, decide_True by (done || by apply ntohs_port). done.
  - cbn. intros Hd. rewrite Hd in Hf. apply negb_false_iff in Hf. rewrite Hf, andb_true_r in E.
    unfold decision_of in Hd. by rewrite E in Hd.
Qed.

Lemma untracked_packet_relay os now t p s s' out :
  untracked_packet os now t p s = Some (s', out) → m_relayPort s' = m_relayPort s.
Proof.
  unfold untracked_packet. destruct (CheckProcessRule _ _ _) as [rules r].
  destruct (cr_action r); [by intros [= <- <-]| |by intros [= <- <-]].
  case_match; [|done]. by intros [= <- <-].
Qed.

Lemma handled_relay t p s :
  m_relayPort (fst (relay_response t p s)) = m_relayPort s ∧
  m_relayPort (fst (tracked_packet t p s)) = m_relayPort s.
Proof.
  unfold relay_response, tracked_packet. split.
  - case_match; [|done]. destruct (closing p); [|done]. simpl. apply log_summary_same.
  - destruct (closing p); [|done]. simpl. apply log_summary_same.
Qed.

(** What step 1 hands to the later steps. *)
Record handed_on (p : Packet) (s1 : Capture T M) (t : T) : Prop := {
  ho_table : m_connTable s1 = Some t;
  ho_inv : table_inv (eq (src_of p)) (m_relayPort s1) (m_bitmap s1) t;
  ho_open : closing p = false → table_inv nobody (m_relayPort s1) (m_bitmap s1) t;
  ho_relay : src_of p = m_relayPort s1 → table_inv nobody (m_relayPort s1) (m_bitmap s1) t;
  ho_decision : decision_of (src_of p) (m_bitmap s1) ≠ DecidedDirect
}.

Lemma fast_path_hands_on p s t :
  packet_ok p → m_connTable s = Some t → table_inv nobody (m_relayPort s) (m_bitmap s) t →
  match decision_of (src_of p) (m_bitmap s) with
  | DecidedDirect => negb (closing p) | _ => false end = false →
  handed_on p (after_fast_path p s) t.
Proof.
  intros Hp Ht HI Hf. pose proof (after_fast_path_inv p s t Hp Ht HI) as (H1 & H2 & _ & H4 & H5).
  split; [done|by rewrite H2|..].
  - intros Hc. rewrite H2, H5 by auto. done.
  - rewrite H2. intros Hr. rewrite H5; [done|]. right. rewrite Hr. apply HI.
  - apply after_fast_path_decision; auto. apply HI.
Qed.

Lemma slow_path_inv os now p s t :
  os_ok os → packet_ok p → handed_on p s t →
  ∃ s' out, slow_path os now p s = Some (s', out) ∧ inv s' ∧ m_relayPort s' = m_relayPort s.
Proof.
  intros Hos Hp []. unfold slow_path. rewrite ho_table0.
  destruct (handled_relay t p s) as [HR1 HR2].
  destruct (Z.eqb_spec (src_of p) (m_relayPort s)) as [Er|Er].
  { destruct (relay_response t p s) as [s' out] eqn:E. exists s', out. split; [done|].
    split; [|done]. change s' with (fst (s', out)). rewrite <- E.
    apply relay_response_inv; auto. }
  rewrite it_tracked by apply ho_inv0.
  destruct (it_Get (src_of p) t) as [d|] eqn:Eg.
  { rewrite bool_decide_true by eauto.
    destruct (tracked_packet t p s) as [s' out] eqn:E. exists s', out. split; [done|].
    split; [|done]. change s' with (fst (s', out)). rewrite <- E.
    apply tracked_packet_inv; auto. }
  rewrite bool_decide_false by (intros [? ?]; done).
  apply inv_except in ho_inv0; [|done].
  destruct (pk_Outbound p).
  - destruct (untracked_packet_total os now t p s Hos) as [[s' out] E]. exists s', out.
    split; [done|]. split; [|by eapply untracked_packet_relay].
    by eapply untracked_packet_inv.
  - exists s, [mkSent p false]. split; [done|]. split; [by exists t|done].
Qed.

Lemma process_packet_inv os now p s :
  os_ok os → packet_ok p → inv s →
  ∃ s' out, process_packet os now p s = Some (s', out) ∧ inv s' ∧ m_relayPort s' = m_relayPort s.
Proof.
  intros Hos Hp (t & Ht & HI). rewrite process_packet_split by (done || apply HI).
  match goal with |- context [if ?x then Some _ else _] => destruct x eqn:Ef end.
  - eexists _, _. split; [done|]. split; [by exists t|done].
  - destruct (slow_path_inv os now p (after_fast_path p s) t) as (s' & out & H1 & H2 & H3); auto.
    { by apply fast_path_hands_on. }
    exists s', out. split; [done|]. split; [done|]. rewrite H3.
    by pose proof (after_fast_path_inv p s t Hp Ht HI) as (_ & -> & _).
Qed.

(** * The whole loop *)

Definition event_ok (e : RecvEvent) : Prop :=
  match e with RecvTcp os _ p => os_ok os ∧ packet_ok p | _ => True end.

Lemma CaptureLoop_inv events s :
  Forall event_ok events → inv s →
  ∃ s' out, CaptureLoop events s = Some (s', out) ∧ inv s' ∧ m_relayPort s' = m_relayPort s.
Proof.
  intros HF. revert s. induction HF as [|e events He HF IH]; intros s Hi; simpl.
  { eauto. }
  destruct e as [[]| |raw|os now p|]; eauto.
  - destruct (IH s Hi) as (s' & out & -> & H2). eauto.
  - destruct He as [Hos Hp].
    destruct (process_packet_inv os now p s Hos Hp Hi) as (s1 & sent & -> & Hi1 & Hr1).
    destruct (IH s1 Hi1) as (s' & out & -> & Hi' & Hr'). rewrite Hr1 in Hr'. eauto.
Qed.

(** A table that records no connection. *)
Definition empty_table (t : T) : Prop := it_wf t ∧ ∀ q : Z, it_Get q t = None.

Definition started (s : Capture T M) : Prop :=
  ∃ rules t m relayPort, empty_table t ∧ port_ok relayPort ∧
    s = Capture_new rules (Some t) m relayPort.

Definition reachable (s : Capture T M) : Prop :=
  ∃ s0 events out, started s0 ∧ Forall event_ok events ∧ CaptureLoop events s0 = Some (s, out).

Lemma started_inv s : started s → inv s.
Proof.
  intros (rules & t & m & rp & [Hw He] & Hr & ->). exists t. split; [done|].
  split; auto with bitmap; try done.
  - intros q _. rewrite (proj1 (it_depth_Get q t Hw)); [lia|done].
  - intros q _ _ Hg. by rewrite He in Hg.
  - apply decision_zero.
Qed.

Lemma reachable_inv s : reachable s → inv s.
Proof.
  intros (s0 & events & out & Hs & HF & HL).
  destruct (CaptureLoop_inv events s0 HF (started_inv s0 Hs)) as (s' & out' & HL' & Hi & _).
  congruence.
Qed.
End steps.

(** * Properties *)

Section properties.
Context {T : Type} `{!IConnectionTable T} {M : Type} `{!IConnectionMonitor M}.
Implicit Types (s : Capture T M) (p : Packet).

Definition table_is (s : Capture T M) (t : T) : Prop := m_connTable s = Some t.

Lemma relay_untracked s t q :
  table_inv nobody (m_relayPort s) (m_bitmap s) t → it_Get q t ≠ None → q ≠ m_relayPort s.
Proof. intros HI Hg ->. apply Hg, HI. Qed.

Lemma process_tracked os now p s t :
  packet_ok p → m_connTable s = Some t → table_inv nobody (m_relayPort s) (m_bitmap s) t →
  it_Get (src_of p) t ≠ None →
  process_packet os now p s = Some (tracked_packet t p (after_fast_path p s)).
Proof.
  intros Hp Ht HI Hg. rewrite process_packet_split by (done || apply HI).
  rewrite (ti_tracked _ _ _ _ HI (src_of p)) by (done || apply nobody_not || apply ntohs_port, Hp).
  unfold slow_path. pose proof (after_fast_path_inv p s t Hp Ht HI) as (-> & -> & _ & _ & _).
  destruct (Z.eqb_spec (src_of p) (m_relayPort s)); [by apply (relay_untracked s t) in Hg|].
  rewrite it_tracked, bool_decide_true by (apply HI || by apply not_eq_None_Some). done.
Qed.

Lemma process_reply os now p s t :
  packet_ok p → m_connTable s = Some t → table_inv nobody (m_relayPort s) (m_bitmap s) t →
  src_of p = m_relayPort s →
  process_packet os now p s = Some (relay_response t p (count_captured s)).
Proof.
  intros Hp Ht HI Hr. rewrite process_packet_split by (done || apply HI).
  rewrite Hr, (ti_relay _ _ _ _ HI). unfold slow_path, after_fast_path.
  assert (IsPortDecided (src_of p) (m_bitmap s) = false) as Hd.
  { pose proof (ti_relay _ _ _ _ HI) as Hd. rewrite <- Hr in Hd. revert Hd.
    unfold decision_of. destruct (IsPortDecided _ _); [|done]. by case_match. }
  change (m_bitmap (count_captured s)) with (m_bitmap s). rewrite Hd. cbn [andb].
  change (m_connTable (count_captured s)) with (m_connTable s). rewrite Ht.
  change (m_relayPort (count_captured s)) with (m_relayPort s).
  rewrite Hr, Z.eqb_refl. done.
Qed.
End properties.

(** C18: from a start with an empty table, whatever packets and stop requests
    arrive, the loop never ends in a runtime fault, and in every state it
    reaches each port has at most one entry, a tracked port is decided and not
    direct, and the relay's own port is neither tracked nor decided. *)
Theorem capture_loop_safe {T} `{!IConnectionTable T} {M} `{!IConnectionMonitor M}
    (s0 : Capture T M) (events : list RecvEvent) :
  started s0 → Forall event_ok events →
  ∃ s out t, CaptureLoop events s0 = Some (s, out) ∧ m_connTable s = Some t ∧
    (∀ q, port_ok q → (it_depth q t <= 1)%nat ∧
       (it_IsTracked q t = true → decision_of q (m_bitmap s) = DecidedOther)) ∧
    it_IsTracked (m_relayPort s) t = false ∧
    decision_of (m_relayPort s) (m_bitmap s) = Undecided.
Proof.
  intros Hs HF. destruct (CaptureLoop_inv events s0 HF (started_inv s0 Hs))
    as (s & out & HL & (t & Ht & HI) & _).
  exists s, out, t. split; [done|]. split; [done|].
  split; [|split; [|apply HI]].
  - intros q Hq. split; [by apply HI|]. rewrite it_tracked by apply HI.
    intros Hb. apply bool_decide_eq_true in Hb. apply (ti_tracked _ _ _ _ HI); [done|apply nobody_not|].
    by apply not_eq_None_Some.
  - rewrite it_tracked, (ti_untracked_relay _ _ _ _ HI) by apply HI.
    apply bool_decide_false. by intros [? ?].
Qed.

(** C3: in every reachable state, a packet from a tracked port is sent exactly
    once, rewritten towards the relay and never as it came; while the packet
    does not close the connection the original destination stays recorded,
    and a FIN or RST forgets it and its decision. *)
Theorem tracked_connections_do_not_leak {T} `{!IConnectionTable T} {M} `{!IConnectionMonitor M}
    (os : Os) (now : Z) (p : Packet) (s : Capture T M) (t : T) :
  reachable s → packet_ok p → m_connTable s = Some t → it_IsTracked (src_of p) t = true →
  ∃ s' t', process_packet os now p s = Some (s', [mkSent (ModifyDstToRelay (m_relayPort s) p) true]) ∧
    m_connTable s' = Some t' ∧
    it_Get (src_of p) t' = (if closing p then None else it_Get (src_of p) t) ∧
    decision_of (src_of p) (m_bitmap s') = (if closing p then Undecided else DecidedOther).
Proof.
  intros HR Hp Ht Htr. destruct (reachable_inv s HR) as (t0 & Ht0 & HI). simplify_eq.
  rewrite it_tracked in Htr by apply HI. apply bool_decide_eq_true, not_eq_None_Some in Htr.
  rewrite (process_tracked os now p s t) by done.
  pose proof (after_fast_path_inv p s t Hp Ht HI) as (H1 & H2 & _ & H4 & H5).
  pose proof (ntohs_port _ (proj1 Hp)) as Hport.
  unfold tracked_packet. fold (src_of p). destruct (closing p) eqn:Ec.
  - set (t1 := it_AddBytes _ _ _ t).
    assert (HI1 : table_inv (eq (src_of p)) (m_relayPort s) (m_bitmap (after_fast_path p s)) t1)
      by by apply inv_AddBytes.
    destruct (log_summary_same (src_of p) t1 (after_fast_path p s)) as (_ & Hr & Hb).
    eexists _, (it_Remove (src_of p) t1).
    split; [by cbn; rewrite Hr, H2|]. split; [done|].
    cbn. rewrite Hb. split.
    + apply it_depth_Get; [apply it_Remove_wf, HI1|]. rewrite it_Remove_same by apply HI1.
      pose proof (ti_depth _ _ _ _ HI1 (src_of p) Hport). lia.
    + rewrite decision_ClearPort by (done || apply HI1). by rewrite decide_True.
  - eexists _, (it_AddBytes _ _ _ t). split; [by cbn; rewrite H2|]. split; [done|].
    split; [apply it_AddBytes_Get, HI|]. cbn. rewrite H5 by auto.
    apply (ti_tracked _ _ _ _ HI); [done|apply nobody_not|done].
Qed.

(** The relay's answer to a packet it received: both endpoints exchanged. *)
Definition answers (q r : Packet) : Prop :=
  pk_SrcAddr r = pk_DstAddr q ∧ pk_DstAddr r = pk_SrcAddr q ∧
  pk_SrcPort r = pk_DstPort q ∧ pk_DstPort r = pk_SrcPort q.

Lemma ModifyDst_ports relayPort p :
  pk_DstPort (ModifyDstToRelay relayPort p) = htons relayPort ∧
  pk_SrcPort (ModifyDstToRelay relayPort p) = pk_SrcPort p.
Proof. unfold ModifyDstToRelay. by case_match_goal. Qed.

Lemma reply_of_rewritten {T} `{!IConnectionTable T} (t : T) relayPort p r dport :
  packet_ok p → answers (ModifyDstToRelay relayPort p) r →
  it_Get (src_of p) t = Some (pk_DstAddr p, dport) → htons dport = pk_DstPort p →
  let r' := RestoreFromRelay t r in
  pk_SrcAddr r' = pk_DstAddr p ∧ pk_SrcPort r' = pk_DstPort p ∧
  pk_DstAddr r' = pk_SrcAddr p ∧ pk_DstPort r' = pk_SrcPort p ∧
  pk_Fin r' = pk_Fin r ∧ pk_Rst r' = pk_Rst r ∧ pk_len r' = pk_len r.
Proof.
  intros Hp (H1 & H2 & H3 & H4) Hg Hd.
  assert (HP : pk_DstPort r = pk_SrcPort p).
  { rewrite H4. apply ModifyDst_ports. }
  unfold RestoreFromRelay. rewrite HP. fold (src_of p). rewrite Hg, Hd.
  unfold ModifyDstToRelay in H1, H2.
  set (p1 := set_DstPort (htons relayPort) p) in *.
  assert (HL : IsLocalhostPair (set_SrcPort (pk_DstPort p) r) = IsLocalhostPair p1).
  { unfold IsLocalhostPair. cbn. rewrite H1, H2. destruct (IsLocalhostPair p1); cbn; [|done].
    apply andb_comm. }
  rewrite HL. destruct (IsLocalhostPair p1); cbn in *; rewrite ?H1, ?H2, ?HP; auto 10.
Qed.

Section untracked.
Context {T : Type} `{!IConnectionTable T} {M : Type} `{!IConnectionMonitor M}.
Implicit Types (s : Capture T M) (p : Packet).

(** The state after the first packet of a proxied connection. *)
Lemma untracked_proxied os now t p s s' out :
  it_wf t → it_Get (src_of p) t = None →
  cr_action (snd (CheckProcessRule os (src_of p) (m_rules s))) = PROXY →
  untracked_packet os now t p s = Some (s', out) →
  out = [mkSent (ModifyDstToRelay (m_relayPort s) p) true] ∧ m_relayPort s' = m_relayPort s ∧
  ∃ t', m_connTable s' = Some t' ∧ it_Get (src_of p) t' = Some (pk_DstAddr p, dst_of p).
Proof.
  intros Hw Hg Hv. unfold untracked_packet. fold (src_of p) (dst_of p).
  destruct (CheckProcessRule _ _ _) as [rules r]. cbn [snd] in Hv. rewrite Hv.
  set (t1 := it_Add _ _ _ _ _ t).
  destruct (it_Add_same (src_of p) (pk_SrcAddr p) (pk_DstAddr p) (dst_of p)
    (default 0 (cr_proxy_config_id r)) t Hw Hg) as [HA _].
  match goal with |- (match ?x with None => _ | _ => _ end) = _ → _ =>
    destruct x as [t2|] eqn:E; [|done] end.
  intros [= <- <-]. split; [done|]. split; [done|]. exists t2. split; [done|].
  destruct (_ && _) in E; [|by injection E as <-].
  assert (it_wf t1) by by apply it_Add_wf.
  rewrite (proj1 (it_SetProcessInfo_Get _ (src_of p) _ _ _ _ ltac:(done) E)). exact HA.
Qed.

Lemma slow_path_untracked os now p s t :
  handed_on p s t → src_of p ≠ m_relayPort s → it_Get (src_of p) t = None →
  pk_Outbound p = true → slow_path os now p s = untracked_packet os now t p s.
Proof.
  intros Hh Hr Hg Ho. unfold slow_path. rewrite (ho_table _ _ _ Hh).
  destruct (Z.eqb_spec (src_of p) (m_relayPort s)); [done|].
  rewrite it_tracked, Hg, Ho by apply (ho_inv _ _ _ Hh).
  by rewrite bool_decide_false by (intros [? ?]; done).
Qed.
End untracked.

(** The first packet of a proxied connection, and what it leaves. *)
Lemma first_packet_proxied {T} `{!IConnectionTable T} {M} `{!IConnectionMonitor M}
    (os : Os) (now : Z) (p : Packet) (s : Capture T M) (t : T) :
  inv s → os_ok os → packet_ok p → m_connTable s = Some t →
  pk_Outbound p = true → src_of p ≠ m_relayPort s → it_IsTracked (src_of p) t = false →
  decision_of (src_of p) (m_bitmap s) ≠ DecidedDirect →
  cr_action (snd (CheckProcessRule os (src_of p) (m_rules s))) = PROXY →
  ∃ s1 t1, process_packet os now p s = Some (s1, [mkSent (ModifyDstToRelay (m_relayPort s) p) true]) ∧
    m_connTable s1 = Some t1 ∧ m_relayPort s1 = m_relayPort s ∧
    table_inv nobody (m_relayPort s1) (m_bitmap s1) t1 ∧ it_Get (src_of p) t1 = Some (pk_DstAddr p, dst_of p).
Proof.
  intros (t0 & Ht0 & HI) Hos Hp Ht Ho Hne Htr Hd Hv. assert (t0 = t) as -> by congruence.
  rewrite it_tracked in Htr by apply HI. apply bool_decide_eq_false, eq_None_not_Some in Htr.
  destruct (process_packet_inv os now p s Hos Hp) as (s1 & out & HP & (t1 & Ht1 & HI1) & Hr1);
    [by exists t|].
  pose proof HP as HP'. rewrite process_packet_split in HP' by (done || apply HI).
  assert (Hf : match decision_of (src_of p) (m_bitmap s) with
    | DecidedDirect => negb (closing p) | _ => false end = false)
    by (by destruct (decision_of (src_of p) (m_bitmap s))).
  rewrite Hf in HP'. pose proof (fast_path_hands_on p s t Hp Ht HI Hf) as Hh.
  pose proof (after_fast_path_inv p s t Hp Ht HI) as (_ & Hr & Hrules & _).
  rewrite (slow_path_untracked os now p _ t) in HP' by (done || by rewrite Hr).
  rewrite <- Hrules in Hv.
  destruct (untracked_proxied os now t p (after_fast_path p s) s1 out)
    as (-> & Hr' & t' & Ht' & Hg'); auto; [apply HI|].
  simplify_eq. rewrite Hr in *. eexists s1, _. by split_and!.
Qed.

(** C1: the redirection is transparent.  When the rules send the first packet
    of a connection to the proxy, it goes to the relay port, and whatever the
    relay answers to it is handed to the client as coming from the address and
    port it had asked for, to the client's own address and port; loopback
    connections included. *)
Theorem redirection_is_transparent {T} `{!IConnectionTable T} {M} `{!IConnectionMonitor M}
    (os : Os) (now : Z) (p : Packet) (s : Capture T M) (t : T) :
  reachable s → os_ok os → packet_ok p → m_connTable s = Some t →
  pk_Outbound p = true → src_of p ≠ m_relayPort s → it_IsTracked (src_of p) t = false →
  decision_of (src_of p) (m_bitmap s) ≠ DecidedDirect →
  cr_action (snd (CheckProcessRule os (src_of p) (m_rules s))) = PROXY →
  ∃ s1 q, process_packet os now p s = Some (s1, [mkSent q true]) ∧
    pk_DstPort q = htons (m_relayPort s) ∧
    ∀ r os' now', answers q r → ∃ s2 r', process_packet os' now' r s1 = Some (s2, [mkSent r' true]) ∧
      pk_SrcAddr r' = pk_DstAddr p ∧ pk_SrcPort r' = pk_DstPort p ∧
      pk_DstAddr r' = pk_SrcAddr p ∧ pk_DstPort r' = pk_SrcPort p ∧
      pk_Fin r' = pk_Fin r ∧ pk_Rst r' = pk_Rst r ∧ pk_len r' = pk_len r.
Proof.
  intros HR Hos Hp Ht Ho Hne Htr Hd Hv.
  destruct (first_packet_proxied os now p s t) as (s1 & t1 & HP & Ht1 & Hr1 & HI1 & Hg1);
    [by apply reachable_inv|done..|].
  exists s1, (ModifyDstToRelay (m_relayPort s) p). split; [done|].
  split; [apply ModifyDst_ports|].
  intros r os' now' Ha.
  assert (Hrp : pk_SrcPort r = htons (m_relayPort s1) ∧ pk_DstPort r = pk_SrcPort p).
  { destruct Ha as (_ & _ & -> & ->). rewrite Hr1. apply ModifyDst_ports. }
  pose proof (ti_relay_ok _ _ _ _ HI1) as Hrok.
  assert (Hpr : packet_ok r).
  { destruct Hrp as [H1 H2]. split; [rewrite H1; by apply ntohs_port|rewrite H2; apply Hp]. }
  rewrite (process_reply os' now' r s1 t1) by
    (done || (unfold src_of; rewrite (proj1 Hrp); by apply ntohs_htons)).
  unfold relay_response. rewrite (proj2 Hrp). fold (src_of p). rewrite Hg1.
  eexists _, _. split; [done|]. apply (reply_of_rewritten t1 (m_relayPort s) p r (dst_of p)); auto.
  apply htons_ntohs, Hp.
Qed.

(** * Isolation of ports *)

Section isolation.
Context {T : Type} `{!IConnectionTable T} {M : Type} `{!IConnectionMonitor M}.
Implicit Types (s : Capture T M) (p : Packet).

(** What one port sees of the state. *)
Definition port_view (q : Z) (s : Capture T M) : option (Z * Z) * decision :=
  (match m_connTable s with Some t => it_Get q t | None => None end,
   decision_of q (m_bitmap s)).

Lemma port_view_eq q s s' t t' :
  m_connTable s = Some t → m_connTable s' = Some t' → it_Get q t' = it_Get q t →
  decision_of q (m_bitmap s') = decision_of q (m_bitmap s) → port_view q s' = port_view q s.
Proof. intros H1 H2 H3 H4. unfold port_view. by rewrite H1, H2, H3, H4. Qed.

Lemma relay_response_view q t p s :
  bitmap_wf (m_bitmap s) → it_wf t → m_connTable s = Some t → packet_ok p → port_ok q →
  q ≠ dst_of p → port_view q (fst (relay_response t p s)) = port_view q s.
Proof.
  intros Hb Hw Ht [_ Hd] Hq Hne. unfold relay_response. fold (dst_of p).
  destruct (it_Get (dst_of p) t); [|done]. cbn [fst].
  set (t1 := it_AddBytes _ _ _ t).
  assert (Hw1 : it_wf t1) by by apply it_AddBytes_wf.
  assert (Hg1 : it_Get q t1 = it_Get q t) by by apply it_AddBytes_Get.
  destruct (closing p).
  - destruct (log_summary_same (dst_of p) t1 s) as (_ & _ & HB).
    apply (port_view_eq q _ _ t (it_Remove (dst_of p) t1)); [done..| |].
    + rewrite <- Hg1. by apply it_Remove_other.
    + cbn. rewrite HB, decision_ClearPort by (done || by apply ntohs_port).
      by rewrite decide_False.
  - by apply (port_view_eq q _ _ t t1).
Qed.

Lemma tracked_packet_view q t p s :
  bitmap_wf (m_bitmap s) → it_wf t → m_connTable s = Some t → packet_ok p → port_ok q →
  q ≠ src_of p → port_view q (fst (tracked_packet t p s)) = port_view q s.
Proof.
  intros Hb Hw Ht [Hs _] Hq Hne. unfold tracked_packet. fold (src_of p). cbn [fst].
  set (t1 := it_AddBytes _ _ _ t).
  assert (Hw1 : it_wf t1) by by apply it_AddBytes_wf.
  assert (Hg1 : it_Get q t1 = it_Get q t) by by apply it_AddBytes_Get.
  destruct (closing p).
  - destruct (log_summary_same (src_of p) t1 s) as (_ & _ & HB).
    apply (port_view_eq q _ _ t (it_Remove (src_of p) t1)); [done..| |].
    + rewrite <- Hg1. by apply it_Remove_other.
    + cbn. rewrite HB, decision_ClearPort by (done || by apply ntohs_port).
      by rewrite decide_False.
  - by apply (port_view_eq q _ _ t t1).
Qed.

Lemma untracked_packet_view os now q t p s s' out :
  bitmap_wf (m_bitmap s) → it_wf t → m_connTable s = Some t → packet_ok p → port_ok q →
  q ≠ src_of p → untracked_packet os now t p s = Some (s', out) →
  port_view q s' = port_view q s.
Proof.
  intros Hb Hw Ht [Hs _] Hq Hne. unfold untracked_packet. fold (src_of p) (dst_of p).
  pose proof (ntohs_port _ Hs) as Hp. fold (src_of p) in Hp.
  destruct (CheckProcessRule _ _ _) as [rules r]. destruct (cr_action r).
  - intros [= <- <-]. apply (port_view_eq q _ _ t t); [done..|].
    cbn. rewrite decision_SetPortDirect by done. by rewrite decide_False.
  - set (t1 := it_Add _ _ _ _ _ t).
    match goal with |- (match ?x with None => _ | _ => _ end) = _ → _ =>
      destruct x as [t2|] eqn:E; [|done] end.
    intros [= <- <-]. assert (Hw1 : it_wf t1) by by apply it_Add_wf.
    apply (port_view_eq q _ _ t t2); [done..| |].
    + transitivity (it_Get q t1); [|by apply it_Add_other].
      destruct (_ && _) in E; [by eapply it_SetProcessInfo_Get|by injection E as <-].
    + cbn. rewrite decision_SetPortDecided by done. by rewrite decide_False.
  - intros [= <- <-]. apply (port_view_eq q _ _ t t); [done..|].
    cbn. rewrite decision_SetPortDecided by done. by rewrite decide_False.
Qed.

Lemma after_fast_path_view q p s :
  bitmap_wf (m_bitmap s) → packet_ok p → port_ok q → q ≠ src_of p →
  port_view q (after_fast_path p s) = port_view q s.
Proof.
  intros Hb [Hs _] Hq Hne. unfold after_fast_path. destruct (_ && _); [|done].
  unfold port_view. cbn. rewrite decision_ClearPort by (done || by apply ntohs_port).
  by rewrite decide_False.
Qed.
Lemma process_packet_view os now p s s' out q :
  inv s → packet_ok p → port_ok q → process_packet os now p s = Some (s', out) →
  q ≠ src_of p → (src_of p = m_relayPort s → q ≠ dst_of p) →
  port_view q s' = port_view q s.
Proof.
  intros (t & Ht & HI) Hp Hq HP Hne Hd.
  pose proof (ti_bitmap _ _ _ _ HI) as Hb.
  rewrite process_packet_split in HP by done.
  match type of HP with context [if ?x then Some _ else _] => destruct x eqn:Ef end.
  { by injection HP as <- <-. }
  rewrite <- (after_fast_path_view q p s) by done.
  destruct (fast_path_hands_on p s t Hp Ht HI Ef) as [H1 H2 _ _ _].
  pose proof (after_fast_path_inv p s t Hp Ht HI) as (_ & Hr & _). rewrite <- Hr in Hd.
  pose proof (ti_bitmap _ _ _ _ H2). pose proof (ti_table _ _ _ _ H2).
  unfold slow_path in HP. rewrite H1 in HP.
  destruct (Z.eqb_spec (src_of p) (m_relayPort (after_fast_path p s))) as [E|E].
  { pose proof (relay_response_view q t p (after_fast_path p s)) as HV.
    assert (relay_response t p (after_fast_path p s) = (s', out)) as HP' by congruence.
    rewrite HP' in HV. by apply HV; auto. }
  destruct (it_IsTracked (src_of p) t).
  { pose proof (tracked_packet_view q t p (after_fast_path p s)) as HV.
    assert (tracked_packet t p (after_fast_path p s) = (s', out)) as HP' by congruence.
    rewrite HP' in HV. by apply HV; auto. }
  destruct (pk_Outbound p); [|by injection HP as <- <-].
  by apply (untracked_packet_view os now q t p _ s' out).
Qed.
End isolation.

(** connections do not disturb each other.  A packet changes the recorded
    destination and the decision of its own source port only, or, for an
    answer of the relay, of the client port it goes to. *)
Theorem ports_are_isolated {T} `{!IConnectionTable T} {M} `{!IConnectionMonitor M}
    (os : Os) (now : Z) (p : Packet) (s s' : Capture T M) (out : list Sent) (q : Z) :
  reachable s → packet_ok p → port_ok q → process_packet os now p s = Some (s', out) →
  q ≠ src_of p → (src_of p = m_relayPort s → q ≠ dst_of p) →
  port_view q s' = port_view q s.
Proof. intros HR. by apply process_packet_view, reachable_inv. Qed.

(** * Stale decisions *)

(** closing a direct connection does not forget its decision.  The FIN or
    RST of a DIRECT port clears the cached decision and is then judged as an
    unknown packet; when that verdict is DIRECT again, the port stays cached as
    DIRECT, and the next packet from it, whichever process sends it and
    whatever the rules say then, passes without a check. *)
Theorem closing_recaches_direct {T} `{!IConnectionTable T} {M} `{!IConnectionMonitor M}
    (os : Os) (now : Z) (p : Packet) (s : Capture T M) :
  reachable s → os_ok os → packet_ok p → pk_Outbound p = true → closing p = true →
  src_of p ≠ m_relayPort s → decision_of (src_of p) (m_bitmap s) = DecidedDirect →
  cr_action (snd (CheckProcessRule os (src_of p) (m_rules s))) = DIRECT →
  ∃ s1, process_packet os now p s = Some (s1, [mkSent p false]) ∧
    ∀ os' now' p', packet_ok p' → src_of p' = src_of p → closing p' = false →
      process_packet os' now' p' s1 = Some (count_captured s1, [mkSent p' false]).
Proof.
  intros HR Hos Hp Ho Hc Hne Hd Hv. destruct (reachable_inv s HR) as (t & Ht & HI).
  assert (Hg : it_Get (src_of p) t = None).
  { destruct (it_Get (src_of p) t) eqn:E; [|done].
    rewrite (ti_tracked _ _ _ _ HI) in Hd;
      [done|apply ntohs_port, Hp|apply nobody_not|by rewrite E]. }
  rewrite process_packet_split by (done || apply HI). rewrite Hd, Hc. cbn [negb].
  assert (Hh : handed_on p (after_fast_path p s) t)
    by (apply fast_path_hands_on; auto; by rewrite Hd, Hc).
  pose proof (after_fast_path_inv p s t Hp Ht HI) as (_ & Hr & Hrules & _).
  rewrite (slow_path_untracked os now p _ t) by (done || by rewrite Hr).
  unfold untracked_packet. fold (src_of p) (dst_of p). rewrite Hrules.
  destruct (CheckProcessRule _ _ _) as [rules r]. cbn [snd] in Hv. rewrite Hv.
  eexists. split; [done|]. intros os' now' p' Hp' Hs' Hc'.
  pose proof (ti_bitmap _ _ _ _ (ho_inv _ _ _ Hh)) as Hb1.
  rewrite process_packet_split by (done || (cbn; auto with bitmap)).
  cbn [on_bitmap set_bitmap set_rules m_bitmap]. rewrite Hs', Hc'.
  rewrite decision_SetPortDirect, decide_True by (done || apply ntohs_port, Hp). done.
Qed.

(** * A concrete run *)

Definition sample_os : Os :=
  mkOs 1000 4 (Some [(ntohs 50000, 77); (ntohs 50001, 78)]) (Some [(77, 4); (78, 4)])
    (λ pid, if pid =? 77 then Some (lit "C:\app\chrome.exe")
            else if pid =? 78 then Some (lit "C:\app\other.exe") else None).

Definition sample_engine : RuleEngine :=
  mkRuleEngine [mkRule (lit "r1") ProcessName Proxy (lit "chrome.exe") [] 1 true 0 0].

Definition sample_capture : Capture ConnectionTable ConnectionTracker :=
  Capture_new (mkRuleState [] 0 (lit "10.0.0.1") 3128 (Some sample_engine) ∅)
    (Some ConnectionTable_new) (Some ConnectionTracker_new) 34010.

(** 192.168.1.5:50000 to 1.2.3.4:443, and a FIN of the process 78. *)
Definition client_packet : Packet :=
  mkPacket 83994816 67305985 (htons 50000) (htons 443) false false true 60.
Definition direct_fin (fin : bool) : Packet :=
  mkPacket 83994816 67305985 (htons 50001) (htons 443) fin false true 60.

Lemma sample_os_ok : os_ok sample_os.
Proof.
  intros pid path. unfold sample_os. cbn [os_image].
  destruct (pid =? 77); [|destruct (pid =? 78); [|done]]; intros [= <-];
    (split; [vm_compute; done|repeat constructor; done]).
Qed.

Lemma new_table_empty : empty_table ConnectionTable_new.
Proof.
  split; [exact new_wf|]. intros q. cbn [it_Get ConnectionTable_port].
  unfold Get, ConnectionTable_new. by rewrite bucket_new.
Qed.

Lemma sample_started : started sample_capture.
Proof.
  eexists _, _, _, _. split; [exact new_table_empty|]. split; [|reflexivity].
  unfold port_ok, in_u. lia.
Qed.

Lemma client_packet_ok : packet_ok client_packet.
Proof. split; vm_compute; split; congruence || done. Qed.

Definition run_packets (ps : list Packet) : option (Capture ConnectionTable ConnectionTracker * list Output) :=
  CaptureLoop ((λ p, RecvTcp sample_os 5 p) <$> ps) sample_capture.

Lemma run_packets_reachable ps s out :
  Forall packet_ok ps → run_packets ps = Some (s, out) → reachable s.
Proof.
  intros HF HR. exists sample_capture, ((λ p, RecvTcp sample_os 5 p) <$> ps), out.
  split; [exact sample_started|]. split; [|exact HR].
  apply Forall_fmap. eapply Forall_impl; [exact HF|]. intros p Hp. split; [exact sample_os_ok|exact Hp].
Qed.

Lemma capture_loop_safe_witness :
  ∃ s out t, CaptureLoop [RecvTcp sample_os 5 client_packet; StopRequested] sample_capture
             = Some (s, out) ∧ m_connTable s = Some t ∧ it_IsTracked 34010 t = false.
Proof.
  destruct (capture_loop_safe sample_capture [RecvTcp sample_os 5 client_packet; StopRequested])
    as (s & out & t & H1 & H2 & _ & H3 & _).
  - exact sample_started.
  - constructor; [exact (conj sample_os_ok client_packet_ok)|].
    constructor; [exact I|constructor].
  - exists s, out, t. split; [exact H1|]. split; [exact H2|].
    assert (m_relayPort s = 34010) as <-; [|exact H3].
    vm_compute in H1. injection H1 as <- _. reflexivity.
Defined.

Lemma tracked_connections_do_not_leak_witness :
  match run_packets [client_packet] with
  | Some (s, _) =>
      match process_packet sample_os 6 client_packet s with
      | Some (_, [x]) => pk_DstPort (sent_packet x) = htons 34010
      | _ => False
      end
  | None => False
  end.
Proof.
  destruct (run_packets [client_packet]) as [[s out]|] eqn:E; [|vm_compute in E; discriminate E].
  pose proof (run_packets_reachable _ s out (Forall_cons_2 _ _ _ client_packet_ok (Forall_nil_2 _)) E) as HR.
  destruct (m_connTable s) as [t|] eqn:Et.
  - destruct (tracked_connections_do_not_leak sample_os 6 client_packet s t HR client_packet_ok Et)
      as (s' & t' & -> & _ & _ & _).
    + vm_compute in E. injection E as <- _. injection Et as <-. vm_compute. reflexivity.
    + vm_compute in E. injection E as <- _. vm_compute. reflexivity.
  - vm_compute in E. injection E as <- _. discriminate Et.
Defined.

Lemma redirection_is_transparent_witness :
  ∃ s1 q, process_packet sample_os 5 client_packet sample_capture = Some (s1, [mkSent q true]) ∧
    ∀ r, answers q r →
    ∃ s2 r', process_packet sample_os 7 r s1 = Some (s2, [mkSent r' true]) ∧
      pk_SrcAddr r' = 67305985 ∧ pk_SrcPort r' = htons 443.
Proof.
  destruct (redirection_is_transparent sample_os 5 client_packet sample_capture ConnectionTable_new)
    as (s1 & q & H1 & _ & H2).
  - exact (run_packets_reachable [] _ [] (Forall_nil_2 _) eq_refl).
  - exact sample_os_ok.
  - exact client_packet_ok.
  - reflexivity.
  - reflexivity.
  - vm_compute. discriminate.
  - vm_compute. reflexivity.
  - vm_compute. discriminate.
  - vm_compute. reflexivity.
  - exists s1, q. split; [exact H1|]. intros r Hr.
    destruct (H2 r sample_os 7 Hr) as (s2 & r' & H3 & H4 & H5 & _). exists s2, r'. auto.
Defined.

Lemma ports_are_isolated_witness :
  match process_packet sample_os 5 client_packet sample_capture with
  | Some (s', _) => port_view 50001 s' = port_view 50001 sample_capture
  | None => False
  end.
Proof.
  destruct (process_packet sample_os 5 client_packet sample_capture) as [[s' out]|] eqn:E;
    [|vm_compute in E; discriminate E].
  apply (ports_are_isolated sample_os 5 client_packet sample_capture s' out 50001).
  - exact (run_packets_reachable [] _ [] (Forall_nil_2 _) eq_refl).
  - exact client_packet_ok.
  - unfold port_ok, in_u. lia.
  - exact E.
  - vm_compute. discriminate.
  - intros H. vm_compute in H. discriminate H.
Defined.

Lemma closing_recaches_direct_witness :
  match run_packets [direct_fin false] with
  | Some (s, _) => ∃ s1, process_packet sample_os 6 (direct_fin true) s
                         = Some (s1, [mkSent (direct_fin true) false])
  | None => False
  end.
Proof.
  assert (Hok : ∀ b, packet_ok (direct_fin b)) by (intros []; split; vm_compute; split; congruence || done).
  destruct (run_packets [direct_fin false]) as [[s out]|] eqn:E; [|vm_compute in E; discriminate E].
  pose proof (run_packets_reachable _ s out (Forall_cons_2 _ _ _ (Hok false) (Forall_nil_2 _)) E) as HR.
  destruct (closing_recaches_direct sample_os 6 (direct_fin true) s HR sample_os_ok (Hok true)
    eq_refl eq_refl) as (s1 & H1 & _).
  - vm_compute in E. injection E as <- _. vm_compute. discriminate.
  - vm_compute in E. injection E as <- _. vm_compute. reflexivity.
  - vm_compute in E. injection E as <- _. vm_compute. reflexivity.
  - by exists s1.
Defined.
