(* ===== verification/Auth.v ===== *)
(** The authentication port ([domain/ports/IAuthenticationProvider.h]) with
    its Basic implementation ([infrastructure/auth/
    BasicAuthenticationProvider.h/.cpp]), and the header parsing the relay does
    between two rounds ([Parse407Challenge] and [MakeSpn] of
    [infrastructure/auth/auth_sspi.cpp]).

    The interface is a class over the state of a provider: its three calls and
    its type, with the law the relay depends on (a provider does not change its
    type).  The relay is verified against the class; Basic is an instance here
    and the Kerberos agent one in its own file. *)

From S2P Require Import Prelude.
From S2P Require Import Text.
From S2P Require Import Base64.

Inductive AuthProviderType := KerberosAgent | Basic.

#[export] Instance AuthProviderType_eq_dec : EqDecision AuthProviderType.
Proof. solve_decision. Defined.

Record CreateContextResult := mkCreateResult {
  cc_success : bool;
  cc_context_id : Z;
  cc_token : text;
  cc_needs_continue : bool;
  cc_error_message : text
}.

Record ContinueContextResult := mkContinueResult {
  ct_success : bool;
  ct_token : text;
  ct_needs_continue : bool;
  ct_error_message : text
}.

Class IAuthenticationProvider (P : Type) := {
  ap_CreateContext : text → P → CreateContextResult * P;
  ap_ContinueContext : Z → text → P → ContinueContextResult * P;
  ap_CloseContext : Z → P → P;
  ap_Reset : P → P;
  ap_GetType : P → AuthProviderType;

  ap_Create_type : ∀ spn p, ap_GetType (snd (ap_CreateContext spn p)) = ap_GetType p;
  ap_Continue_type : ∀ id ch p, ap_GetType (snd (ap_ContinueContext id ch p)) = ap_GetType p;
  ap_Close_type : ∀ id p, ap_GetType (ap_CloseContext id p) = ap_GetType p
}.

(** * Basic *)

Record BasicAuthenticationProvider := mkBasic { m_username : text; m_password : text }.

Definition BasicCreateContext (spn : text) (p : BasicAuthenticationProvider)
    : CreateContextResult * BasicAuthenticationProvider :=
  (mkCreateResult true 0 (BasicBase64Encode (m_username p ++ lit ":" ++ m_password p)) false [], p).

Definition BasicContinueContext (context_id : Z) (challenge : text)
    (p : BasicAuthenticationProvider) : ContinueContextResult * BasicAuthenticationProvider :=
  (mkContinueResult false [] false (lit "Basic auth does not support multi-step negotiation"), p).

#[export] Program Instance Basic_provider : IAuthenticationProvider BasicAuthenticationProvider := {
  ap_CreateContext := BasicCreateContext;
  ap_ContinueContext := BasicContinueContext;
  ap_CloseContext _ p := p;
  ap_Reset p := p;
  ap_GetType _ := Basic
}.
Solve All Obligations with done.

(** * Parse407Challenge *)

Definition challenge_markers : list text :=
  [lit "Proxy-Authenticate: Negotiate "; lit "proxy-authenticate: negotiate ";
   lit "Proxy-Authenticate: negotiate "; lit "proxy-authenticate: Negotiate "].

Definition CR : Z := 13.
Definition LF : Z := 10.

(** The rest of the line after the marker, without trailing spaces. *)
Definition challenge_at (pos : nat) (responseBody : text) : text :=
  let rest := drop pos responseBody in
  let token := match find_first_of [CR; LF] rest with
               | Some n => take n rest
               | None => rest
               end in
  rstrip (λ c, (c =? 32) || (c =? CR)) token.

Fixpoint first_marker (markers : list text) (responseBody : text) : text :=
  match markers with
  | [] => []
  | marker :: markers' =>
      match find_sub marker responseBody with
      | None => first_marker markers' responseBody
      | Some pos => challenge_at (pos + length marker) responseBody
      end
  end.

Definition Parse407Challenge (responseBody : text) : text :=
  first_marker challenge_markers responseBody.

Definition MakeSpn (proxyHost : text) : text := lit "HTTP/" ++ proxyHost.

(** * Properties of the parser *)

Lemma rstrip_id p s : match rev s with [] => True | c :: _ => p c = false end → rstrip p s = s.
Proof.
  intros H. unfold rstrip. destruct (rev s) as [|c r] eqn:E.
  - simpl. by rewrite <- (rev_involutive s), E.
  - simpl. rewrite H. by rewrite <- E, rev_involutive.
Qed.

Lemma base64_line s :
  Forall (λ c, c ≠ CR ∧ c ≠ LF ∧ c ≠ 32) s →
  Forall (λ x, existsb (Z.eqb x) [CR; LF] = false) s.
Proof.
  intros H. eapply Forall_impl; [exact H|]. intros x (H1 & H2 & _). simpl.
  apply Z.eqb_neq in H1, H2. by rewrite H1, H2.
Qed.

Lemma challenge_at_header pre token post c :
  Forall (λ c, c ≠ CR ∧ c ≠ LF ∧ c ≠ 32) token → c = CR ∨ c = LF →
  challenge_at (length pre) (pre ++ token ++ c :: post) = token.
Proof.
  intros Ht Hc. unfold challenge_at. rewrite drop_app_length.
  rewrite find_first_of_app_sep; [|by apply base64_line|by destruct Hc; subst c].
  rewrite take_app_length. apply rstrip_id.
  destruct (rev token) as [|d r] eqn:E; [done|].
  assert (In d token) as Hin by (apply in_rev; rewrite E; by left).
  rewrite Forall_forall in Ht. apply list_elem_of_In in Hin. destruct (Ht d Hin) as (H1 & _ & H3).
  apply orb_false_intro; by apply Z.eqb_neq.
Qed.

(** The encoders emit the base64 alphabet and the padding only. *)
Definition header_char (c : Z) : Prop := c ≠ CR ∧ c ≠ LF ∧ c ≠ 32.

Lemma b64_char_header d : 0 <= d < 64 → header_char (b64_char d).
Proof.
  intros Hd.
  assert (H : negb (existsb (Z.eqb (b64_char d)) [CR; LF; 32]) = true).
  { apply (all_from_spec 64 0 (λ d, negb (existsb (Z.eqb (b64_char d)) [CR; LF; 32])));
      [vm_compute; reflexivity|exact Hd]. }
  apply negb_true_iff in H. cbn [existsb] in H.
  repeat (apply orb_false_elim in H as [? H]). bool_to_prop. done.
Qed.

Lemma b64_spec_header data : Forall is_byte data → Forall header_char (b64_spec data).
Proof.
  assert (header_char pad) by done.
  induction data as [|a|a b|a b c l IH] using triples_ind; intros HF; forall_inv;
    cbn [b64_spec app]; [done|..];
    repeat (constructor; [first [done | apply b64_char_header; zdivmod_lia]|]);
    by try apply IH.
Qed.

(** a challenge survives the 407 header.  When the marker first occurs after
    [pre], the parser returns the token on the rest of that line, and decoding
    it gives the bytes the proxy encoded, whatever follows the line. *)
Theorem challenge_header_roundtrip (enc : text → text) (data pre post : text) :
  let marker := lit "Proxy-Authenticate: Negotiate " in
  let body := pre ++ marker ++ enc data ++ [CR; LF] ++ post in
  Forall is_byte data → In enc all_encoders → find_sub marker body = Some (length pre) →
  Parse407Challenge body = enc data ∧
  SspiBase64Decode (Parse407Challenge body) = data ∧
  EngineBase64Decode (Parse407Challenge body) = data.
Proof.
  intros marker body Hd He Hf.
  assert (HP : Parse407Challenge body = enc data).
  { unfold Parse407Challenge, challenge_markers. cbn [first_marker]. fold marker.
    rewrite Hf. unfold body. rewrite (all_encoders_spec data enc) by done.
    rewrite app_assoc. rewrite <- length_app. cbn [app].
    apply challenge_at_header; [by apply b64_spec_header|by left]. }
  rewrite HP, (all_encoders_spec data enc) by done.
  split; [done|]. split; by apply decode_spec; try apply _.
Qed.

Lemma challenge_header_roundtrip_witness :
  EngineBase64Decode (Parse407Challenge
    (lit "HTTP/1.1 407 x" ++ [CR; LF] ++ lit "Proxy-Authenticate: Negotiate "
       ++ SspiBase64Encode [1; 2; 250] ++ [CR; LF] ++ lit "X: y")) = [1; 2; 250].
Proof.
  destruct (challenge_header_roundtrip SspiBase64Encode [1; 2; 250]
    (lit "HTTP/1.1 407 x" ++ [CR; LF]) (lit "X: y")) as (_ & _ & H).
  - repeat constructor; unfold in_u; lia.
  - left. reflexivity.
  - reflexivity.
  - exact H.
Defined.

(** A header without a challenge gives the empty token, as does one that is
    not spelled in one of the four ways. *)
Example no_challenge : Parse407Challenge (lit "Proxy-Authenticate: Basic realm=x") = [].
Proof. reflexivity. Qed.
Example upper_case_is_missed :
  Parse407Challenge (lit "PROXY-AUTHENTICATE: Negotiate YII=") = [].
Proof. reflexivity. Qed.
