(* ===== verification/Relay.v ===== *)
(** [TcpRelayServer::ConnectionHandler] of
    [infrastructure/relay/TcpRelayServer.h]: from an accepted client socket to a
    tunnel through the proxy (HTTP CONNECT, authentication rounds, gateway
    retries), or to a clean failure.

    The network is a parameter: functions of a state [W] that answer the socket
    calls.  The authentication provider is any instance of
    [IAuthenticationProvider].  Every call with an effect is recorded in a
    trace, on which the theorems speak: what is acquired and released, how many
    requests are sent, and what precedes a tunnel.  The two [goto] labels are
    two fuelled loops; [handler_owns_its_resources] shows the fuel is enough. *)

From stdpp Require Import gmultiset.
From S2P Require Import Prelude.
From S2P Require Import Text.
From S2P Require Import Auth.

(** * Configuration and data *)

Record RelayConfig := mkRelayConfig {
  m_proxyHost : text;
  m_proxyPort : Z;
  m_proxyAuthRequired : bool;
  m_kerberosAuth : bool;
  m_proxyConfigId : Z;
  m_proxyUser : text;
  m_proxyPassword : text
}.

Record RelayContext := mkRelayContext {
  rx_client_sock : Z;
  rx_orig_dest_ip : Z;
  rx_orig_dest_port : Z;
  rx_proxy_config_id : Z;
  rx_is_ipv6 : bool
}.

(** [inet_ntop(AF_INET)] of an address in network byte order. *)
Definition inet_ntop (ip : Z) : text :=
  to_string (Z.land ip 255) ++ lit "." ++ to_string (Z.land (Z.shiftr ip 8) 255) ++ lit "."
  ++ to_string (Z.land (Z.shiftr ip 16) 255) ++ lit "." ++ to_string (Z.land (Z.shiftr ip 24) 255).

Definition crlf : text := [13; 10].

Definition connect_line (ip_str : text) (dest_port : Z) : text :=
  lit "CONNECT " ++ ip_str ++ lit ":" ++ to_string dest_port ++ lit " HTTP/1.1" ++ crlf
  ++ lit "Host: " ++ ip_str ++ lit ":" ++ to_string dest_port ++ crlf.

Definition auth_line (t : AuthProviderType) (token : text) : text :=
  match t with
  | Basic => lit "Proxy-Authorization: Basic " ++ token ++ crlf
  | KerberosAgent => lit "Proxy-Authorization: Negotiate " ++ token ++ crlf
  end.

Definition connect_end : text := lit "Proxy-Connection: Keep-Alive" ++ crlf ++ crlf.

Inductive RecvResult := RecvData (bytes : text) | RecvClosed | RecvError.

Definition MAX_GATEWAY_RETRIES : Z := 3.

(** M2: "HTTP/1.x 200" at the start of the response. *)
Definition status_200 (resp : text) : bool :=
  (12 <=? Z.of_nat (length resp)) && text_eqb (take 7 resp) (lit "HTTP/1.")
  && (nth 8 resp 0 =? 32)
  && (nth 9 resp 0 =? 50) && (nth 10 resp 0 =? 48) && (nth 11 resp 0 =? 48).

Definition is_407 (resp : text) : bool := strstr resp (lit "407").

Definition is_gateway_error (resp : text) : bool :=
  contains (lit "504") resp || contains (lit "502") resp.

(** * The trace *)

Inductive Event :=
| EvResolved                               (* getaddrinfo returned a list *)
| EvSocket (s : Z)
| EvConnected (s : Z)
| EvSend (s : Z) (request : text)
| EvRecv (s : Z) (r : RecvResult)
| EvCreated (id : Z)                       (* CreateContext succeeded *)
| EvCreateFailed
| EvContinued (id : Z) (ok : bool)
| EvCloseContext (id : Z)
| EvCloseSocket (s : Z)
| EvFreeAddrInfo
| EvProxyError                             (* monitor->IncrementProxyErrors *)
| EvLatency                                (* monitor->RecordLatency *)
| EvSleep (ms : Z)
| EvStartBridge (client proxy : Z)
| EvWsaStartup
| EvWsaCleanup.

Inductive Outcome :=
| Returned                                 (* the handler returned an error *)
| Bridged (client proxy : Z)               (* the sockets went to StartBridge *)
| Terminated                               (* an exception left the thread *)
| OutOfFuel.

Section relay.
Context {W P : Type} `{!IAuthenticationProvider P}.
Context (net_resolve : text → W → option Z * W)
        (net_socket : W → option Z * W)
        (net_connect : Z → Z → Z → W → bool * W)
        (net_send : Z → text → W → bool * W)
        (net_recv : Z → W → RecvResult * W).
(** What the other handler threads have done to the shared token since. *)
Context (other_threads : W → text → text).
Context (cfg : RelayConfig).

Record HState := mkHState {
  hs_world : W;
  hs_provider : option P;      (* m_authProvider *)
  hs_token : text;             (* m_lastAuthToken *)
  hs_trace : list Event
}.

Definition emit (e : Event) (s : HState) : HState :=
  mkHState (hs_world s) (hs_provider s) (hs_token s) (hs_trace s ++ [e]).
Definition emits (es : list Event) (s : HState) : HState :=
  mkHState (hs_world s) (hs_provider s) (hs_token s) (hs_trace s ++ es).
Definition set_world (w : W) (s : HState) : HState :=
  mkHState w (hs_provider s) (hs_token s) (hs_trace s).
Definition set_provider (p : P) (s : HState) : HState :=
  mkHState (hs_world s) (Some p) (hs_token s) (hs_trace s).
Definition set_token (t : text) (s : HState) : HState :=
  mkHState (hs_world s) (hs_provider s) t (hs_trace s).

(** [if (authContextActive && m_authProvider) CloseContext(authContextId)]:
    the active context is [ctx]. *)
Definition close_context (ctx : option Z) (s : HState) : HState :=
  match ctx, hs_provider s with
  | Some id, Some p => emit (EvCloseContext id) (set_provider (ap_CloseContext id p) s)
  | _, _ => s
  end.

(** [CreateContext("HTTP/" + m_proxyHost)] *)
Definition create_context (p : P) (s : HState) : CreateContextResult * HState :=
  let '(r, p') := ap_CreateContext (lit "HTTP/" ++ m_proxyHost cfg) p in
  (r, emit (if cc_success r then EvCreated (cc_context_id r) else EvCreateFailed)
        (set_provider p' s)).

(** The way out of every failure after the proxy socket exists. *)
Definition abandon (client_sock proxy_sock : Z) (s : HState) : HState :=
  emits [EvCloseSocket client_sock; EvCloseSocket proxy_sock; EvFreeAddrInfo] s.

Definition fail_round (client_sock proxy_sock : Z) (ctx : option Z) (s : HState) : HState :=
  abandon client_sock proxy_sock (close_context ctx (emit EvProxyError s)).

(** The authorization header of a request: a fresh context when none is
    active, the shared token otherwise. *)
Definition authorize (ctx : option Z) (s : HState) : option Z * text * HState :=
  match hs_provider s with
  | Some p =>
      if m_proxyAuthRequired cfg then
        match ctx with
        | None =>
            let '(r, s) := create_context p s in
            if cc_success r
            then (Some (cc_context_id r), auth_line (ap_GetType p) (cc_token r), s)
            else (None, [], s)
        | Some id =>
            (ctx, auth_line (ap_GetType p) (other_threads (hs_world s) (hs_token s)), s)
        end
      else (ctx, [], s)
  | None => (ctx, [], s)
  end.

Inductive RoundResult :=
| Finished (o : Outcome)
| GatewayRetry
| RetryConnect (ctx : option Z) (authRetries : Z).

(** The answer 407 when authentication is configured. *)
Definition on_407 (client_sock proxy_sock : Z) (resp : text) (p : P) (ctx : option Z)
    (authRetries : Z) (s : HState) : RoundResult * HState :=
  match ctx with
  | Some id =>
      if bool_decide (ap_GetType p = KerberosAgent) then
        let challenge := Parse407Challenge (cstr resp) in
        if text_eqb challenge [] then
          (Finished Returned, fail_round client_sock proxy_sock ctx s)
        else
          let '(r, p') := ap_ContinueContext id challenge p in
          let s := emit (EvContinued id (ct_success r)) (set_provider p' s) in
          if negb (ct_success r) then
            (Finished Returned, fail_round client_sock proxy_sock ctx s)
          else if text_eqb (ct_token r) [] then
            (Finished Returned, fail_round client_sock proxy_sock ctx s)
          else
            let s := set_token (ct_token r) s in
            let authRetries := authRetries + 1 in
            if 5 <? authRetries then
              (Finished Returned, fail_round client_sock proxy_sock ctx s)
            else (RetryConnect ctx authRetries, s)
      else (Finished Returned, fail_round client_sock proxy_sock ctx s)
  | None =>
      let '(r, s) := create_context p s in
      if cc_success r then
        let s := set_token (cc_token r) s in
        let authRetries := authRetries + 1 in
        if 5 <? authRetries then
          (Finished Returned,
           abandon client_sock proxy_sock (close_context (Some (cc_context_id r)) s))
        else (RetryConnect (Some (cc_context_id r)) authRetries, s)
      else (Finished Returned, abandon client_sock proxy_sock (emit EvProxyError s))
  end.

(** From [retry_connect]: one request and its answer. *)
Definition connect_round (client_sock proxy_sock dest_ip dest_port gatewayRetries : Z)
    (ctx : option Z) (authRetries : Z) (s : HState) : RoundResult * HState :=
  let '(ctx, auth, s) := authorize ctx s in
  let connect_req := connect_line (inet_ntop dest_ip) dest_port ++ auth ++ connect_end in
  let '(sent, w) := net_send proxy_sock connect_req (hs_world s) in
  let s := emit (EvSend proxy_sock connect_req) (set_world w s) in
  if negb sent then (Finished Returned, fail_round client_sock proxy_sock ctx s)
  else
    let '(r, w) := net_recv proxy_sock (hs_world s) in
    let s := emit (EvRecv proxy_sock r) (set_world w s) in
    match r with
    | RecvError => (Finished Terminated, s)    (* std::string(resp_buf, -1) throws *)
    | RecvClosed => (Finished Returned, fail_round client_sock proxy_sock ctx s)
    | RecvData resp =>
        if status_200 resp then
          let s := close_context ctx (emit EvLatency s) in
          (Finished (Bridged client_sock proxy_sock),
           emits [EvFreeAddrInfo; EvStartBridge client_sock proxy_sock] s)
        else
          match (if is_407 resp && m_proxyAuthRequired cfg then hs_provider s else None) with
          | Some p => on_407 client_sock proxy_sock resp p ctx authRetries s
          | None =>
              if is_gateway_error resp && (gatewayRetries <? MAX_GATEWAY_RETRIES) then
                (GatewayRetry,
                 emits [EvCloseSocket proxy_sock; EvSleep 500] (close_context ctx s))
              else (Finished Returned, fail_round client_sock proxy_sock ctx s)
          end
    end.

Fixpoint connect_rounds (fuel : nat) (client_sock proxy_sock dest_ip dest_port gatewayRetries : Z)
    (ctx : option Z) (authRetries : Z) (s : HState) : option Outcome * HState :=
  match fuel with
  | O => (Some OutOfFuel, s)
  | S fuel' =>
      match connect_round client_sock proxy_sock dest_ip dest_port gatewayRetries
              ctx authRetries s with
      | (Finished o, s') => (Some o, s')
      | (GatewayRetry, s') => (None, s')
      | (RetryConnect ctx' n', s') =>
          connect_rounds fuel' client_sock proxy_sock dest_ip dest_port gatewayRetries ctx' n' s'
      end
  end.

(** A connection makes at most six requests: the first, and five retries. *)
Definition auth_fuel : nat := 6.

(** From [retry_proxy_connect]. *)
Fixpoint proxy_attempts (fuel : nat) (client_sock proxy_ip dest_ip dest_port gatewayRetries : Z)
    (s : HState) : Outcome * HState :=
  match fuel with
  | O => (OutOfFuel, s)
  | S fuel' =>
      let '(sock, w) := net_socket (hs_world s) in
      let s := set_world w s in
      match sock with
      | None =>
          (Returned, emits [EvProxyError; EvCloseSocket client_sock; EvFreeAddrInfo] s)
      | Some proxy_sock =>
          let s := emit (EvSocket proxy_sock) s in
          let '(ok, w) := net_connect proxy_sock proxy_ip (m_proxyPort cfg) (hs_world s) in
          let s := set_world w s in
          if negb ok then
            (Returned, abandon client_sock proxy_sock (emit EvProxyError s))
          else
            let s := emit (EvConnected proxy_sock) s in
            match connect_rounds auth_fuel client_sock proxy_sock dest_ip dest_port
                    gatewayRetries None 0 s with
            | (Some o, s) => (o, s)
            | (None, s) =>
                proxy_attempts fuel' client_sock proxy_ip dest_ip dest_port
                  (gatewayRetries + 1) s
            end
      end
  end.

Definition gateway_fuel : nat := 4.

Definition ConnectionHandler (ctx : RelayContext) (s : HState) : Outcome * HState :=
  let client_sock := rx_client_sock ctx in
  let '(r, w) := net_resolve (m_proxyHost cfg) (hs_world s) in
  let s := set_world w s in
  match r with
  | None => (Returned, emits [EvProxyError; EvCloseSocket client_sock] s)
  | Some proxy_ip =>
      proxy_attempts gateway_fuel client_sock proxy_ip (rx_orig_dest_ip ctx)
        (rx_orig_dest_port ctx) 0 (emit EvResolved s)
  end.
End relay.

Arguments HState W P : clear implicits.

(** * Ownership

    The trace is replayed on a multiset of held resources: acquiring adds one,
    releasing removes one that is held, and using one that is not held is a
    fault ([None]). *)

Inductive Resource := RAddrInfo | RWsa | RSock (s : Z) | RCtx (id : Z).

#[export] Instance Resource_eq_dec : EqDecision Resource.
Proof. solve_decision. Defined.
#[export] Instance Resource_countable : Countable Resource.
Proof.
  refine (inj_countable'
    (λ r, match r with RAddrInfo => inl true | RWsa => inl false
                     | RSock s => inr (inl s) | RCtx i => inr (inr i) end)
    (λ x, match x with inl true => RAddrInfo | inl false => RWsa
                     | inr (inl s) => RSock s | inr (inr i) => RCtx i end) _).
  by intros [].
Defined.

Abbreviation held := (gmultiset Resource).

Definition acquire (r : Resource) (h : held) : option held := Some ({[+ r +]} ⊎ h).
Definition release (r : Resource) (h : held) : option held :=
  if decide (r ∈ h) then Some (h ∖ {[+ r +]}) else None.
Definition use (r : Resource) (h : held) : option held :=
  if decide (r ∈ h) then Some h else None.

Definition ev_step (e : Event) (h : held) : option held :=
  match e with
  | EvResolved => acquire RAddrInfo h
  | EvSocket s => acquire (RSock s) h
  | EvConnected s | EvSend s _ | EvRecv s _ => use (RSock s) h
  | EvCreated id => acquire (RCtx id) h
  | EvContinued id _ => use (RCtx id) h
  | EvCloseContext id => release (RCtx id) h
  | EvCloseSocket s => release (RSock s) h
  | EvFreeAddrInfo => release RAddrInfo h
  | EvStartBridge c p => h' ← release (RSock c) h; release (RSock p) h'
  | EvWsaStartup => acquire RWsa h
  | EvWsaCleanup => release RWsa h
  | EvCreateFailed | EvProxyError | EvLatency | EvSleep _ => Some h
  end.

Fixpoint owns (tr : list Event) (h : held) : option held :=
  match tr with
  | [] => Some h
  | e :: tr' => h' ← ev_step e h; owns tr' h'
  end.

Lemma owns_app tr1 tr2 h h' : owns tr1 h = Some h' → owns (tr1 ++ tr2) h = owns tr2 h'.
Proof.
  revert h. induction tr1 as [|e tr1 IH]; intros h; simpl.
  - by intros [= ->].
  - destruct (ev_step e h) as [h1|]; simpl; [apply IH|done].
Qed.

Lemma release_held r h h' : h = {[+ r +]} ⊎ h' → release r h = Some h'.
Proof.
  intros ->. unfold release. rewrite decide_True by multiset_solver. f_equal. multiset_solver.
Qed.

Lemma use_held r h : r ∈ h → use r h = Some h.
Proof. intros H. unfold use. by rewrite decide_True. Qed.

Lemma release_in r h : r ∈ h → release r h = Some (h ∖ {[+ r +]}).
Proof. intros H. unfold release. by rewrite decide_True. Qed.

Definition ctx_held (ctx : option Z) : held :=
  match ctx with Some id => {[+ RCtx id +]} | None => ∅ end.

(** Replay a list of known events: solves [owns [e1; ...; en] h = Some h']. *)
Ltac replay :=
  cbn [app owns ev_step acquire mbind option_bind ctx_held];
  repeat first
    [ progress cbn [app owns ev_step acquire mbind option_bind]
    | rewrite use_held by multiset_solver
    | rewrite release_in by multiset_solver ];
  f_equal; multiset_solver.

Definition is_send (e : Event) : bool := match e with EvSend _ _ => true | _ => false end.
Definition is_socket (e : Event) : bool := match e with EvSocket _ => true | _ => false end.
Definition count (p : Event → bool) (tr : list Event) : Z := Z.of_nat (length (filterb p tr)).

Lemma count_app p a b : count p (a ++ b) = count p a + count p b.
Proof. unfold count, filterb. rewrite List.filter_app, length_app. lia. Qed.

Definition is_bridge (e : Event) : bool := match e with EvStartBridge _ _ => true | _ => false end.

(** The last answer received, and from which socket. *)
Definition last_recv (tr : list Event) : option (Z * RecvResult) :=
  fold_left (λ acc e, match e with EvRecv s r => Some (s, r) | _ => acc end) tr None.

Lemma last_recv_app tr e :
  last_recv (tr ++ [e]) = match e with EvRecv s r => Some (s, r) | _ => last_recv tr end.
Proof. unfold last_recv. rewrite fold_left_app. by destruct e. Qed.

Lemma last_recv_end tr c p :
  last_recv (tr ++ [EvFreeAddrInfo; EvStartBridge c p]) = last_recv tr.
Proof. unfold last_recv. by rewrite fold_left_app. Qed.

Section handler.
Context {W P : Type} `{!IAuthenticationProvider P}.
Context (net_resolve : text → W → option Z * W)
        (net_socket : W → option Z * W)
        (net_connect : Z → Z → Z → W → bool * W)
        (net_send : Z → text → W → bool * W)
        (net_recv : Z → W → RecvResult * W)
        (other_threads : W → text → text)
        (cfg : RelayConfig).
Context (client : Z).
Implicit Types (s : HState W P).

(** [s'] extends the trace of [s] by [es], which turns [h] into [h']. *)
Definition extends s s' (es : list Event) : Prop := hs_trace s' = hs_trace s ++ es.

Lemma extends_trans s1 s2 s3 es1 es2 :
  extends s1 s2 es1 → extends s2 s3 es2 → extends s1 s3 (es1 ++ es2).
Proof. unfold extends. intros -> ->. by rewrite app_assoc. Qed.

(** What a piece of the handler does: it extends the trace with events that
    turn the held resources [h] into [h'], sends at most [n] requests, opens
    at most [m] sockets and starts a bridge only if [b]. *)
Record does s s' (h h' : held) (n m : Z) (b : bool) : Prop := {
  do_events : ∃ es, extends s s' es ∧ owns es h = Some h' ∧
    count is_send es <= n ∧ count is_socket es <= m ∧ count is_bridge es = Z.b2z b;
  do_provider : is_Some (hs_provider s) → is_Some (hs_provider s')
}.

Lemma does_trans s1 s2 s3 h1 h2 h3 n1 n2 m1 m2 b :
  does s1 s2 h1 h2 n1 m1 false → does s2 s3 h2 h3 n2 m2 b →
  does s1 s3 h1 h3 (n1 + n2) (m1 + m2) b.
Proof.
  intros [(e1 & H1 & O1 & S1 & K1 & B1) P1] [(e2 & H2 & O2 & S2 & K2 & B2) P2].
  split; [|auto]. exists (e1 ++ e2). split; [by eapply extends_trans|].
  split; [by rewrite (owns_app e1 e2 h1 h2)|]. rewrite !count_app.
  split; [lia|]. split; [lia|]. rewrite B1, B2. simpl. lia.
Qed.

Lemma does_refl s h : does s s h h 0 0 false.
Proof.
  split; [|done]. exists []. split; [unfold extends; by rewrite app_nil_r|].
  by repeat split.
Qed.

(** A state with the same trace and provider. *)
Lemma does_silent s s' h :
  hs_trace s' = hs_trace s → (is_Some (hs_provider s) → is_Some (hs_provider s')) →
  does s s' h h 0 0 false.
Proof.
  intros Ht Hp. split; [|done]. exists []. split; [unfold extends; by rewrite app_nil_r|].
  by repeat split.
Qed.

Lemma does_events s s' es h h' n m b :
  hs_trace s' = hs_trace s ++ es → hs_provider s' = hs_provider s →
  owns es h = Some h' → count is_send es <= n → count is_socket es <= m →
  count is_bridge es = Z.b2z b → does s s' h h' n m b.
Proof. intros. split; [eauto 10|congruence]. Qed.

Definition base (proxy : Z) : held := {[+ RAddrInfo; RSock client; RSock proxy +]}.

Lemma close_context_does ctx s h :
  (is_Some ctx → is_Some (hs_provider s)) →
  does s (close_context ctx s) (ctx_held ctx ⊎ h) h 0 0 false.
Proof.
  intros Hp. unfold close_context. destruct ctx as [id|].
  - destruct (hs_provider s) as [p|] eqn:E; [|by destruct Hp].
    split; [|by eauto]. exists [EvCloseContext id]. split; [done|].
    split; [replay|done].
  - cbn [ctx_held]. replace (∅ ⊎ h) with h by multiset_solver.
    apply does_refl.
Qed.

Lemma create_context_does p s h :
  let '(r, s') := create_context cfg p s in
  does s s' h (ctx_held (if cc_success r then Some (cc_context_id r) else None) ⊎ h) 0 0 false ∧
  is_Some (hs_provider s').
Proof.
  unfold create_context. destruct (ap_CreateContext _ p) as [r p'].
  split; [|by eexists]. split; [|by eexists].
  eexists. split; [done|]. cbn [owns].
  destruct (cc_success r); (split; [replay|done]).
Qed.

Lemma abandon_does proxy s :
  does s (abandon client proxy s) (base proxy) ∅ 0 0 false.
Proof. eapply does_events; try done. unfold base. replay. Qed.

Lemma fail_round_does proxy ctx s :
  (is_Some ctx → is_Some (hs_provider s)) →
  does s (fail_round client proxy ctx s) (ctx_held ctx ⊎ base proxy) ∅ 0 0 false.
Proof.
  intros Hp. unfold fail_round.
  apply (does_trans _ (emit EvProxyError s) _ _ (ctx_held ctx ⊎ base proxy) _ 0 0 0 0).
  { by eapply does_events. }
  apply (does_trans _ (close_context ctx (emit EvProxyError s)) _ _ (base proxy) _ 0 0 0 0).
  { by apply close_context_does. }
  apply abandon_does.
Qed.

Lemma does_weaken s s' h h' n n' m m' b :
  does s s' h h' n m b → n <= n' → m <= m' → does s s' h h' n' m' b.
Proof. intros [(es & ? & ? & ? & ? & ?) ?] ??. split; [|done]. exists es. repeat split; auto; lia. Qed.

Lemma does_emit e s h h' n b :
  ev_step e h = Some h' → is_socket e = false → (if is_send e then 1 else 0) <= n →
  is_bridge e = b → does s (emit e s) h h' n 0 b.
Proof.
  intros Hs Hk Hn Hb. apply (does_events _ _ [e]); try done.
  - cbn. by rewrite Hs.
  - unfold count. cbn. destruct (is_send e); cbn; lia.
  - unfold count. cbn. by rewrite Hk.
  - unfold count. cbn. rewrite <- Hb. by destruct (is_bridge e).
Qed.

Lemma authorize_does ctx s h :
  (is_Some ctx → is_Some (hs_provider s)) →
  let '(ctx', auth, s') := authorize other_threads cfg ctx s in
  does s s' (ctx_held ctx ⊎ h) (ctx_held ctx' ⊎ h) 0 0 false ∧
  (is_Some ctx' → is_Some (hs_provider s')).
Proof.
  intros Hp. unfold authorize. destruct (hs_provider s) as [p|] eqn:E;
    [|split; [apply does_refl|by rewrite E]].
  assert (is_Some (hs_provider s)) by (rewrite E; eauto).
  destruct (m_proxyAuthRequired cfg); [|split; [apply does_refl|done]].
  destruct ctx as [id|]; [split; [apply does_refl|done]|].
  pose proof (create_context_does p s h) as Hc.
  destruct (create_context cfg p s) as [r s1]. destruct Hc as [Hd Hs].
  replace (ctx_held None ⊎ h) with h by (cbn [ctx_held]; multiset_solver).
  by destruct (cc_success r).
Qed.

(** What one round ends with, having sent at most [k] requests. *)
Definition round_post (k proxy n gw : Z) (h0 : held) s (out : RoundResult * HState W P) : Prop :=
  let '(r, s') := out in
  match r with
  | Finished Returned => does s s' h0 ∅ k 0 false
  | Finished (Bridged c p) =>
      c = client ∧ p = proxy ∧ does s s' h0 ∅ k 0 true ∧
      ∃ resp, last_recv (hs_trace s') = Some (proxy, RecvData resp) ∧ status_200 resp = true
  | Finished Terminated =>
      ∃ c, does s s' h0 (ctx_held c ⊎ base proxy) k 0 false ∧ last_recv (hs_trace s') = Some (proxy, RecvError)
  | Finished OutOfFuel => False
  | GatewayRetry => does s s' h0 {[+ RAddrInfo; RSock client +]} k 0 false ∧ gw < 3
  | RetryConnect ctx' n' =>
      does s s' h0 (ctx_held ctx' ⊎ base proxy) k 0 false ∧ n' = n + 1 ∧ n' <= 5 ∧
      (is_Some ctx' → is_Some (hs_provider s'))
  end.

Lemma round_post_trans k1 k2 proxy n gw h0 h1 s s1 out :
  does s s1 h0 h1 k1 0 false → round_post k2 proxy n gw h1 s1 out →
  round_post (k1 + k2) proxy n gw h0 s out.
Proof.
  intros H1. destruct out as [r s'].
  assert (HT : ∀ hb b, does s1 s' h1 hb k2 0 b → does s s' h0 hb (k1 + k2) 0 b)
    by (intros hb b Hd; exact (does_trans _ _ _ _ _ _ _ _ _ _ _ H1 Hd)).
  unfold round_post. destruct r as [[|c p| |]| |]; intros H2.
  - auto.
  - destruct H2 as (? & ? & ? & ?). auto.
  - destruct H2 as (h & H2 & ?). eauto.
  - done.
  - destruct H2. auto.
  - destruct H2 as (? & ? & ? & ?). auto.
Qed.

Lemma provider_close ctx s :
  is_Some (hs_provider s) → is_Some (hs_provider (close_context ctx s)).
Proof. intros [p Hp]. unfold close_context. destruct ctx; rewrite Hp; eauto. Qed.

Lemma last_recv_close ctx s e :
  match e with EvRecv _ _ => False | _ => True end →
  last_recv (hs_trace (close_context ctx (emit e s))) = last_recv (hs_trace s).
Proof.
  intros He. assert (HE : last_recv (hs_trace s ++ [e]) = last_recv (hs_trace s))
    by (rewrite last_recv_app; by destruct e).
  unfold close_context. cbn [hs_provider emit].
  destruct ctx as [id|]; [|exact HE]. destruct (hs_provider s); [|exact HE].
  cbn [hs_trace emit set_provider]. rewrite last_recv_app. exact HE.
Qed.

Lemma on_407_post proxy n gw resp p ctx s :
  hs_provider s = Some p →
  round_post 0 proxy n gw (ctx_held ctx ⊎ base proxy) s
    (on_407 cfg client proxy resp p ctx n s).
Proof.
  intros Hp. assert (HS : is_Some (hs_provider s)) by eauto.
  unfold on_407. destruct ctx as [id|].
  - case_bool_decide; [|cbn [round_post]; by apply fail_round_does].
    destruct (text_eqb _ []); [cbn [round_post]; by apply fail_round_does|].
    destruct (ap_ContinueContext id _ p) as [r p'].
    set (s1 := emit (EvContinued id (ct_success r)) (set_provider p' s)).
    assert (H1 : does s s1 (ctx_held (Some id) ⊎ base proxy) (ctx_held (Some id) ⊎ base proxy)
                   0 0 false).
    { split; [|by eexists]. exists [EvContinued id (ct_success r)]. split; [done|].
      split; [|done]. replay. }
    assert (HS1 : is_Some (hs_provider s1)) by by eexists.
    change (round_post 0) with (round_post (0 + 0)).
    assert (HF : ∀ s2, hs_trace s2 = hs_trace s1 → hs_provider s2 = hs_provider s1 →
      round_post (0 + 0) proxy n gw (ctx_held (Some id) ⊎ base proxy) s
        (Finished Returned, fail_round client proxy (Some id) s2)).
    { intros s2 Ht2 Hp2. apply (round_post_trans _ _ _ _ _ _ _ _ _ _ H1). cbn [round_post].
      apply (does_trans _ s2 _ _ (ctx_held (Some id) ⊎ base proxy) _ 0 0 0 0).
      - apply does_silent; [done|by rewrite Hp2].
      - apply fail_round_does. by rewrite Hp2. }
    destruct (negb (ct_success r)); [by apply HF|].
    destruct (text_eqb (ct_token r) []); [by apply HF|].
    destruct (Z.ltb_spec 5 (n + 1)); [by apply HF|].
    apply (round_post_trans _ _ _ _ _ _ _ _ _ _ H1). cbn [round_post].
    split; [by apply does_silent|]. by split; [|split].
  - pose proof (create_context_does p s (base proxy)) as Hc.
    destruct (create_context cfg p s) as [r s1]. destruct Hc as [Hd Hs1].
    replace (ctx_held None ⊎ base proxy) with (base proxy) by (cbn [ctx_held]; multiset_solver).
    destruct (cc_success r).
    + destruct (Z.ltb_spec 5 (n + 1)).
      * cbn [round_post]. apply (does_trans _ s1 _ _ _ _ 0 0 0 0 _ Hd).
        apply (does_trans _ (set_token (cc_token r) s1) _ _
          (ctx_held (Some (cc_context_id r)) ⊎ base proxy) _ 0 0 0 0).
        { by apply does_silent. }
        eapply (does_trans _ _ _ _ (base proxy) _ 0 0 0 0); [|apply abandon_does].
        by apply close_context_does.
      * cbn [round_post]. split; [|by split; [|split]].
        apply (does_trans _ s1 _ _ _ _ 0 0 0 0 _ Hd). by apply does_silent.
    + cbn [round_post]. replace (ctx_held None ⊎ base proxy) with (base proxy) in Hd
        by (cbn [ctx_held]; multiset_solver).
      apply (does_trans _ s1 _ _ _ _ 0 0 0 0 _ Hd).
      apply (does_trans _ (emit EvProxyError s1) _ _ (base proxy) _ 0 0 0 0);
        [by apply does_emit|]. apply abandon_does.
Qed.

Lemma send_recv_does proxy req s w1 w2 r h :
  RSock proxy ∈ h →
  does s (emit (EvRecv proxy r) (set_world w2 (emit (EvSend proxy req) (set_world w1 s)))) h h 1 0 false.
Proof.
  intros Hin. apply (does_events _ _ [EvSend proxy req; EvRecv proxy r]); try done.
  - cbn [hs_trace emit set_world]. by rewrite <- app_assoc.
  - cbn. rewrite use_held by done. cbn. by rewrite use_held.
Qed.

Lemma gateway_does proxy ctx s h0 :
  h0 = ctx_held ctx ⊎ base proxy → (is_Some ctx → is_Some (hs_provider s)) →
  does s (emits [EvCloseSocket proxy; EvSleep 500] (close_context ctx s)) h0
    {[+ RAddrInfo; RSock client +]} 0 0 false.
Proof.
  intros -> Hp.
  eapply (does_trans _ (close_context ctx s) _ _ (base proxy) _ 0 0 0 0); [by apply close_context_does|].
  eapply does_events; try done. unfold base. replay.
Qed.

Lemma tunnel_does proxy ctx s :
  (is_Some ctx → is_Some (hs_provider s)) →
  does s (emits [EvFreeAddrInfo; EvStartBridge client proxy] (close_context ctx (emit EvLatency s)))
    (ctx_held ctx ⊎ base proxy) ∅ 0 0 true.
Proof.
  intros Hp.
  apply (does_trans _ (emit EvLatency s) _ _ (ctx_held ctx ⊎ base proxy) _ 0 0 0 0);
    [by apply does_emit|].
  eapply (does_trans _ (close_context ctx (emit EvLatency s)) _ _ (base proxy) _ 0 0 0 0);
    [by apply close_context_does|].
  eapply does_events; try done. unfold base. replay.
Qed.

Lemma connect_round_post proxy dip dport n gw ctx s :
  (is_Some ctx → is_Some (hs_provider s)) →
  round_post 1 proxy n gw (ctx_held ctx ⊎ base proxy) s
    (connect_round net_send net_recv other_threads cfg client proxy dip dport gw ctx n s).
Proof.
  intros Hp. unfold connect_round.
  pose proof (authorize_does ctx s (base proxy) Hp) as Ha.
  destruct (authorize _ _ ctx s) as [[ctx1 auth] s1]. destruct Ha as [Hd1 Hp1].
  change 1 with (0 + 1). apply (round_post_trans _ _ _ _ _ _ _ _ _ _ Hd1). clear Hd1 Hp.
  set (req := connect_line _ _ ++ _). destruct (net_send proxy req (hs_world s1)) as [sent w1].
  assert (Hin : RSock proxy ∈ ctx_held ctx1 ⊎ base proxy) by (unfold base; multiset_solver).
  destruct (negb sent).
  { cbn [round_post].
    apply (does_trans _ (emit (EvSend proxy req) (set_world w1 s1)) _ _
      (ctx_held ctx1 ⊎ base proxy) _ 1 0 0 0); [|by apply fail_round_does].
    apply (does_events _ _ [EvSend proxy req]); try done. cbn. by rewrite use_held. }
  destruct (net_recv proxy _) as [r w2].
  set (s2 := emit (EvRecv proxy r) _).
  assert (Hd2 : does s1 s2 (ctx_held ctx1 ⊎ base proxy) (ctx_held ctx1 ⊎ base proxy) 1 0 false)
    by by apply send_recv_does.
  assert (Hp2 : is_Some ctx1 → is_Some (hs_provider s2)) by done.
  destruct r as [resp| |].
  - change 1 with (1 + 0). apply (round_post_trans _ _ _ _ _ _ _ _ _ _ Hd2).
    destruct (status_200 resp) eqn:E2.
    { cbn [round_post]. split; [done|]. split; [done|]. split; [by apply tunnel_does|].
      exists resp. split; [|done]. unfold emits. cbn [hs_trace].
      rewrite last_recv_end, last_recv_close by done.
      unfold s2. cbn [hs_trace emit]. by rewrite last_recv_app. }
    destruct (if _ && _ then hs_provider s2 else None) as [p|] eqn:Ep.
    { apply on_407_post. by destruct (_ && _). }
    destruct (is_gateway_error resp && (gw <? MAX_GATEWAY_RETRIES)) eqn:Eg.
    + cbn [round_post]. split; [by apply gateway_does|].
      apply andb_prop in Eg as [_ Eg]. by apply Z.ltb_lt in Eg.
    + cbn [round_post]. by apply fail_round_does.
  - change 1 with (1 + 0). apply (round_post_trans _ _ _ _ _ _ _ _ _ _ Hd2).
    cbn [round_post]. by apply fail_round_does.
  - cbn [round_post]. exists ctx1. split; [done|]. unfold s2. cbn [hs_trace emit]. by rewrite last_recv_app.
Qed.

Definition end_post (k m : Z) (h0 : held) s (o : Outcome) (s' : HState W P) : Prop :=
  match o with
  | Returned => does s s' h0 ∅ k m false
  | Bridged c p =>
      c = client ∧ does s s' h0 ∅ k m true ∧
      ∃ resp, last_recv (hs_trace s') = Some (p, RecvData resp) ∧ status_200 resp = true
  | Terminated =>
      ∃ c p, does s s' h0 (ctx_held c ⊎ base p) k m false ∧ last_recv (hs_trace s') = Some (p, RecvError)
  | OutOfFuel => False
  end.

Lemma end_post_trans k1 k2 m1 m2 h0 h1 s s1 o s' :
  does s s1 h0 h1 k1 m1 false → end_post k2 m2 h1 s1 o s' → end_post (k1 + k2) (m1 + m2) h0 s o s'.
Proof.
  intros H1.
  assert (HT : ∀ hb b, does s1 s' h1 hb k2 m2 b → does s s' h0 hb (k1 + k2) (m1 + m2) b)
    by (intros hb b Hd; exact (does_trans _ _ _ _ _ _ _ _ _ _ _ H1 Hd)).
  unfold end_post. destruct o as [|c p| |]; intros H2.
  - auto.
  - destruct H2 as (? & ? & ?). auto.
  - destruct H2 as (h & q & H2 & ?). eauto.
  - done.
Qed.

Lemma connect_rounds_post fuel proxy dip dport n gw ctx s :
  0 <= n <= 5 → 6 - n <= Z.of_nat fuel → (is_Some ctx → is_Some (hs_provider s)) →
  let '(r, s') := connect_rounds net_send net_recv other_threads cfg fuel client proxy dip dport
                    gw ctx n s in
  match r with
  | Some o => end_post (6 - n) 0 (ctx_held ctx ⊎ base proxy) s o s'
  | None => does s s' (ctx_held ctx ⊎ base proxy) {[+ RAddrInfo; RSock client +]} (6 - n) 0 false ∧
            gw < 3
  end.
Proof.
  revert n ctx s. induction fuel as [|fuel IH]; intros n ctx s Hn Hf Hp; [lia|].
  cbn [connect_rounds]. pose proof (connect_round_post proxy dip dport n gw ctx s Hp) as HR.
  destruct (connect_round _ _ _ _ _ _ _ _ _ _ _ _) as [r s1]. unfold round_post in HR.
  destruct r as [[|c p| |]| |ctx1 n1].
  - apply (does_weaken _ _ _ _ 1 _ 0); [done|lia..].
  - destruct HR as (-> & -> & Hd & Hr). split; [done|]. split; [|done].
    apply (does_weaken _ _ _ _ 1 _ 0); [done|lia..].
  - destruct HR as (h & HR & ?). exists h, proxy. split; [|done]. apply (does_weaken _ _ _ _ 1 _ 0); [done|lia..].
  - done.
  - destruct HR as [HR Hg]. split; [|done]. apply (does_weaken _ _ _ _ 1 _ 0); [done|lia..].
  - destruct HR as (Hd & -> & Hn1 & Hp1).
    specialize (IH (n + 1) ctx1 s1 ltac:(lia) ltac:(lia) Hp1).
    destruct (connect_rounds _ _ _ _ _ _ _ _ _ _ _ _ _) as [[o|] s2].
    + replace (6 - n) with (1 + (6 - (n + 1))) by lia.
      change (end_post (1 + (6 - (n + 1))) (0 + 0) (ctx_held ctx ⊎ base proxy) s o s2).
      by eapply end_post_trans.
    + destruct IH as [IH Hg]. split; [|done].
      eapply (does_weaken _ _ _ _ (1 + (6 - (n + 1))) _ (0 + 0)); [|lia..].
      by eapply does_trans.
Qed.

Lemma proxy_attempts_post fuel pip dip dport gw s :
  0 <= gw <= 3 → 4 - gw <= Z.of_nat fuel →
  let '(o, s') := proxy_attempts net_socket net_connect net_send net_recv other_threads cfg
                    fuel client pip dip dport gw s in
  end_post (6 * (4 - gw)) (4 - gw) {[+ RAddrInfo; RSock client +]} s o s'.
Proof.
  revert gw s. induction fuel as [|fuel IH]; intros gw s Hgw Hf; [lia|].
  cbn [proxy_attempts]. destruct (net_socket (hs_world s)) as [[proxy|] w].
  2:{ cbn [end_post]. eapply does_weaken; [eapply (does_events _ _ _ _ _ 0 0); try done|lia..].
      replay. }
  set (s1 := emit (EvSocket proxy) (set_world w s)).
  assert (Hd1 : does s s1 {[+ RAddrInfo; RSock client +]} (base proxy) 0 1 false).
  { apply (does_events _ _ [EvSocket proxy]); try done. unfold base. replay. }
  destruct (net_connect proxy pip _ _) as [ok w1]. destruct (negb ok).
  { cbn [end_post]. eapply (does_weaken _ _ _ _ (0 + 0) _ (1 + 0)); [|lia..].
    eapply does_trans; [exact Hd1|].
    apply (does_trans _ (emit EvProxyError (set_world w1 s1)) _ _ (base proxy) _ 0 0 0 0);
      [by eapply does_events|apply abandon_does]. }
  set (s2 := emit (EvConnected proxy) (set_world w1 s1)).
  assert (Hd2 : does s s2 {[+ RAddrInfo; RSock client +]} (base proxy) 0 1 false).
  { apply (does_trans _ s1 _ _ (base proxy) _ 0 0 1 0); [done|].
    apply (does_events _ _ [EvConnected proxy]); try done. unfold base. replay. }
  pose proof (connect_rounds_post auth_fuel proxy dip dport 0 gw None s2 ltac:(lia) ltac:(done)
    ltac:(by intros [? ?])) as HR.
  replace (ctx_held None ⊎ base proxy) with (base proxy) in HR by (cbn [ctx_held]; multiset_solver).
  destruct (connect_rounds _ _ _ _ _ _ _ _ _ _ _ _ _) as [[o|] s3].
  - assert (HE : end_post (0 + (6 - 0)) (1 + 0) {[+ RAddrInfo; RSock client +]} s o s3)
      by by eapply end_post_trans.
    unfold end_post in *. destruct o as [|c p| |].
    + eapply does_weaken; [exact HE|lia..].
    + destruct HE as (? & HE & ?). split; [done|]. split; [|done].
      eapply does_weaken; [exact HE|lia..].
    + destruct HE as (h & q & HE & ?). exists h, q. split; [|done]. eapply does_weaken; [exact HE|lia..].
    + done.
  - destruct HR as [HR Hg3]. specialize (IH (gw + 1) s3 ltac:(lia) ltac:(lia)).
    destruct (proxy_attempts _ _ _ _ _ _ _ _ _ _ _ _ _) as [o s4].
    replace (6 * (4 - gw)) with ((0 + (6 - 0)) + 6 * (4 - (gw + 1))) by lia.
    replace (4 - gw) with ((1 + 0) + (4 - (gw + 1))) by lia.
    eapply end_post_trans; [|exact IH]. by eapply does_trans.
Qed.

Lemma handler_post ctx s :
  rx_client_sock ctx = client → 
  let '(o, s') := ConnectionHandler net_resolve net_socket net_connect net_send net_recv
                    other_threads cfg ctx s in
  end_post 24 4 {[+ RSock client +]} s o s'.
Proof.
  intros Hc. unfold ConnectionHandler. rewrite Hc.
  destruct (net_resolve _ _) as [[pip|] w].
  - pose proof (proxy_attempts_post gateway_fuel pip (rx_orig_dest_ip ctx) (rx_orig_dest_port ctx)
      0 (emit EvResolved (set_world w s)) ltac:(lia) ltac:(done)) as HP.
    destruct (proxy_attempts _ _ _ _ _ _ _ _ _ _ _ _ _) as [o s'].
    change 24 with (0 + 6 * (4 - 0)). change 4 with (0 + (4 - 0)).
    eapply end_post_trans; [|exact HP].
    by apply (does_events _ _ [EvResolved]).
  - cbn [end_post]. eapply (does_weaken _ _ _ _ 0 _ 0); [|lia..].
    eapply does_events; try done. replay.
Qed.
End handler.

(** * Properties of the handler *)

Section handler_properties.
Context {W P : Type} `{!IAuthenticationProvider P}.
Context (net_resolve : text → W → option Z * W)
        (net_socket : W → option Z * W)
        (net_connect : Z → Z → Z → W → bool * W)
        (net_send : Z → text → W → bool * W)
        (net_recv : Z → W → RecvResult * W)
        (other_threads : W → text → text)
        (cfg : RelayConfig).

Definition start_state (w : W) (p : option P) (token : text) : HState W P := mkHState w p token [].

Definition run_handler (ctx : RelayContext) (w : W) (p : option P) (token : text) :=
  ConnectionHandler net_resolve net_socket net_connect net_send net_recv other_threads cfg ctx
    (start_state w p token).

(** C5: the handler always returns, and it owns what it acquires.  Whatever
    the network and the authentication provider answer, replaying its calls
    never uses, closes or frees anything it does not hold.  It ends with
    nothing held: it has closed or handed to the bridge both sockets, freed the
    address list and closed every authentication context, each exactly once.
    The one exception is the end by an exception, which comes only from a
    failing [recv]: then both sockets, the address list and a context that was
    open stay held. *)
Theorem handler_owns_its_resources (ctx : RelayContext) (w : W) (p : option P) (token : text) :
  let '(o, s) := run_handler ctx w p token in
  o ≠ OutOfFuel ∧
  ∃ h, owns (hs_trace s) {[+ RSock (rx_client_sock ctx) +]} = Some h ∧
       match o with
       | Terminated =>
           ∃ context proxy, h = ctx_held context ⊎ {[+ RAddrInfo; RSock (rx_client_sock ctx); RSock proxy +]} ∧
                            last_recv (hs_trace s) = Some (proxy, RecvError)
       | _ => h = ∅
       end.
Proof.
  unfold run_handler.
  pose proof (handler_post net_resolve net_socket net_connect net_send net_recv other_threads cfg
    (rx_client_sock ctx) ctx (start_state w p token) eq_refl) as HP.
  destruct (ConnectionHandler _ _ _ _ _ _ _ _ _) as [o s].
  destruct o as [|c q| |]; cbn [end_post] in HP.
  - destruct HP as [(es & He & Ho & _) _]. split; [done|]. exists ∅. by rewrite He.
  - destruct HP as (_ & [(es & He & Ho & _) _] & _). split; [done|]. exists ∅. by rewrite He.
  - destruct HP as (c & q & [(es & He & Ho & _) _] & Hl). split; [done|]. change (hs_trace s = es) in He. subst es.
    eexists. split; [exact Ho|]. by exists c, q.
  - done.
Qed.

(** the handler gives up.  It opens at most four proxy connections and
    sends at most twenty-four CONNECT requests, whatever the answers; it
    starts a bridge at most once, as its last act, only for the client's
    socket and only when the last answer, from that proxy socket, was a 200
    status line. *)
Theorem handler_is_bounded (ctx : RelayContext) (w : W) (p : option P) (token : text) :
  let '(o, s) := run_handler ctx w p token in
  count is_send (hs_trace s) <= 24 ∧ count is_socket (hs_trace s) <= 4 ∧
  match o with
  | Bridged c q =>
      c = rx_client_sock ctx ∧ count is_bridge (hs_trace s) = 1 ∧
      ∃ resp, last_recv (hs_trace s) = Some (q, RecvData resp) ∧ status_200 resp = true
  | _ => count is_bridge (hs_trace s) = 0
  end.
Proof.
  unfold run_handler.
  pose proof (handler_post net_resolve net_socket net_connect net_send net_recv other_threads cfg
    (rx_client_sock ctx) ctx (start_state w p token) eq_refl) as HP.
  destruct (ConnectionHandler _ _ _ _ _ _ _ _ _) as [o s].
  destruct o as [|c q| |]; cbn [end_post] in HP.
  - destruct HP as [(es & He & _ & H1 & H2 & H3) _]. change (hs_trace s = es) in He. subst es. auto.
  - destruct HP as (-> & [(es & He & _ & H1 & H2 & H3) _] & Hr). change (hs_trace s = es) in He. subst es. auto.
  - destruct HP as (h & q & [(es & He & _ & H1 & H2 & H3) _] & _). change (hs_trace s = es) in He. subst es. auto.
  - done.
Qed.

(** a failing [recv] ends the service.  The answer is logged as
    [std::string(resp_buf, bytes)] before [bytes <= 0] is tested, so when the
    wait for the proxy's answer fails (the 30 s receive timeout included) the
    constructor throws in a thread that catches nothing, with the sockets
    and the authentication context still open. *)
Theorem recv_error_terminates (ctx : RelayContext) (w : W) (p : option P) (token : text) :
  (∀ h w, is_Some (fst (net_resolve h w))) → (∀ w, is_Some (fst (net_socket w))) →
  (∀ s ip port w, fst (net_connect s ip port w) = true) →
  (∀ s req w, fst (net_send s req w) = true) → (∀ s w, fst (net_recv s w) = RecvError) →
  fst (run_handler ctx w p token) = Terminated.
Proof.
  intros Hres Hsock Hconn Hsend Hrecv. unfold run_handler, ConnectionHandler.
  specialize (Hres (m_proxyHost cfg) (hs_world (start_state w p token))).
  destruct (net_resolve _ _) as [[ip|] w1]; [|by destruct Hres].
  unfold gateway_fuel. cbn [proxy_attempts].
  match goal with |- context [net_socket ?x] => specialize (Hsock x) end.
  destruct (net_socket _) as [[proxy|] w2]; [|by destruct Hsock].
  match goal with |- context [net_connect ?a ?b ?c ?x] => specialize (Hconn a b c x) end.
  destruct (net_connect _ _ _ _) as [ok w3]. cbn [fst] in Hconn. subst ok. cbn [negb].
  unfold auth_fuel. cbn [connect_rounds]. unfold connect_round.
  destruct (authorize _ _ _ _) as [[ctx1 auth] s1].
  match goal with |- context [net_send ?a ?b ?x] => specialize (Hsend a b x) end.
  destruct (net_send _ _ _) as [sent w4]. cbn [fst] in Hsend. subst sent. cbn [negb].
  match goal with |- context [net_recv ?a ?x] => specialize (Hrecv a x) end.
  destruct (net_recv _ _) as [r w5]. cbn [fst] in Hrecv. by subst r.
Qed.
End handler_properties.

(** * Concrete runs *)

Definition sample_cfg : RelayConfig := mkRelayConfig (lit "proxy") 3128 true false 1 [] [].
Definition sample_ctx : RelayContext := mkRelayContext 7 67305985 443 0 false.

(** A network whose state is the list of the proxy's answers. *)
Definition scripted_recv (s : Z) (w : list RecvResult) : RecvResult * list RecvResult :=
  match w with [] => (RecvClosed, []) | r :: w' => (r, w') end.

Definition run_script (script : list RecvResult) : Outcome * HState (list RecvResult) BasicAuthenticationProvider :=
  run_handler (λ _ w, (Some 16777343, w)) (λ w, (Some 9, w)) (λ _ _ _ w, (true, w))
    (λ _ _ w, (true, w)) scripted_recv (λ _ t, t) sample_cfg sample_ctx script
    (Some (mkBasic (lit "u") (lit "p"))) [].

Example tunnel_ex : fst (run_script [RecvData (lit "HTTP/1.1 200 OK")]) = Bridged 7 9.
Proof. vm_compute. reflexivity. Qed.

Example gateway_retries_ex :
  let '(o, s) := run_script (replicate 5 (RecvData (lit "HTTP/1.1 504 Gateway"))) in
  o = Returned ∧ count is_socket (hs_trace s) = 4.
Proof. vm_compute. auto. Qed.

Lemma recv_error_terminates_witness :
  fst (run_handler (λ _ w, (Some 16777343, w)) (λ w, (Some 9, w)) (λ _ _ _ w, (true, w))
         (λ _ _ w, (true, w)) (λ _ w, (RecvError, w)) (λ _ t, t) sample_cfg sample_ctx tt
         (Some (mkBasic (lit "u") (lit "p"))) []) = Terminated.
Proof.
  apply recv_error_terminates.
  - intros. by eexists.
  - intros. by eexists.
  - reflexivity.
  - reflexivity.
  - reflexivity.
Defined.
