(* ===== verification/Bridge.v ===== *)
(** The bridge of [infrastructure/relay/TcpRelayServer.h]: [OneWayRelay] copies
    one direction, [StartBridge] runs two of them on the same pair of sockets,
    and the last to finish closes both.

    [OneWayRelay] is an executable loop over the answers of [recv] and [send]
    that yields the actions it performs; its fuel bounds the number of chunks,
    and a run that uses it up is reported as still running.  The two threads
    share [pair->refs] and the sockets: [bridge_step] interleaves their actions
    one at a time, in any order. *)

From S2P Require Import Prelude.
From S2P Require Import Text.
From S2P Require Import Relay.

Record RelayPair := mkRelayPair { sock_client : Z; sock_proxy : Z; refs : Z }.

(** What one thread does to the shared objects. *)
Inductive action :=
| ARecv (from : Z)
| ASend (to : Z) (bytes : text)
| AShutdownSend (to : Z)
| ACount (n : Z)                 (* counter->fetch_add *)
| ADecRef.                       (* InterlockedDecrement, and closing at 0 *)

(** * One direction *)

Section one_way.
Context {W : Type} (net_recv : Z → W → RecvResult * W)
        (net_send : Z → text → W → option Z * W).

(** [send] accepts at least one byte of a non-empty buffer, or fails. *)
Definition send_ok : Prop :=
  ∀ s buf w n, buf ≠ [] → fst (net_send s buf w) = Some n → 1 <= n <= Z.of_nat (length buf).

(** The inner loop [while (sent < len)]: what was accepted, and whether all of
    the chunk was.  The fuel is the length of the chunk. *)
Fixpoint send_all (fuel : nat) (to : Z) (buf : text) (w : W) : bool * text * list action * W :=
  match buf with
  | [] => (true, [], [], w)
  | _ =>
      match fuel with
      | O => (false, [], [], w)
      | S fuel' =>
          match net_send to buf w with
          | (None, w') => (false, [], [ASend to []], w')
          | (Some n, w') =>
              let sent := take (Z.to_nat n) buf in
              let '(ok, rest, acts, w'') := send_all fuel' to (drop (Z.to_nat n) buf) w' in
              (ok, sent ++ rest, ASend to sent :: acts, w'')
          end
      end
  end.

Record relayed := mkRelayed {
  rl_received : text;          (* what [recv] delivered *)
  rl_delivered : text;         (* what [send] accepted *)
  rl_total : Z;                (* total_bytes *)
  rl_finished : bool;
  rl_error : bool;             (* left through the send error *)
  rl_actions : list action
}.

Definition finish (to : Z) (total : Z) : list action := [ACount total; AShutdownSend to; ADecRef].

Fixpoint OneWayRelay (fuel : nat) (from to : Z) (total : Z) (w : W) : relayed :=
  match fuel with
  | O => mkRelayed [] [] total false false []
  | S fuel' =>
      match net_recv from w with
      | (RecvData chunk, w) =>
          let '(ok, sent, acts, w) := send_all (length chunk) to chunk w in
          if ok then
            let r := OneWayRelay fuel' from to (total +u64 Z.of_nat (length chunk)) w in
            mkRelayed (chunk ++ rl_received r) (sent ++ rl_delivered r) (rl_total r)
              (rl_finished r) (rl_error r) (ARecv from :: acts ++ rl_actions r)
          else mkRelayed chunk sent total true true (ARecv from :: acts ++ finish to total)
      | (_, _) => mkRelayed [] [] total true false (ARecv from :: finish to total)
      end
  end.

Lemma send_all_prefix fuel to buf w :
  let '(ok, sent, _, _) := send_all fuel to buf w in
  (∃ rest, buf = sent ++ rest) ∧ (ok = true → sent = buf).
Proof.
  revert buf w. induction fuel as [|fuel IH]; intros [|b buf] w; cbn [send_all].
  - split; [by exists []|done].
  - split; [by eexists|done].
  - split; [by exists []|done].
  - destruct (net_send to (b :: buf) w) as [[n|] w']; [|split; [by eexists|done]].
    specialize (IH (drop (Z.to_nat n) (b :: buf)) w').
    destruct (send_all fuel to _ w') as [[[ok rest] acts] w'']. destruct IH as [[more Hm] Ha].
    pose proof (take_drop (Z.to_nat n) (b :: buf)) as Htd. split.
    + exists more. rewrite <- app_assoc, <- Hm. done.
    + intros Hok. by rewrite (Ha Hok).
Qed.

(** Enough fuel: the inner loop ends by itself. *)
Lemma send_all_ends fuel to buf w :
  send_ok → (length buf <= fuel)%nat →
  let '(ok, sent, acts, _) := send_all fuel to buf w in
  ok = false → ∃ pre, acts = pre ++ [ASend to []].
Proof.
  intros Hs. revert buf w. induction fuel as [|fuel IH]; intros [|b buf] w Hl; cbn [send_all]; try done.
  - simpl in Hl. lia.
  - destruct (net_send to (b :: buf) w) as [[n|] w'] eqn:E; [|intros _; by exists []].
    assert (1 <= n <= Z.of_nat (length (b :: buf))) as Hn.
    { apply (Hs to (b :: buf) w); [done|by rewrite E]. }
    specialize (IH (drop (Z.to_nat n) (b :: buf)) w').
    rewrite length_drop in IH. specialize (IH ltac:(simpl in *; lia)).
    destruct (send_all fuel to _ w') as [[[ok rest] acts] w''].
    intros Hok. destruct (IH Hok) as [pre ->]. by eexists (_ :: pre).
Qed.

(** The actions of the copying loop itself. *)
Definition data_action (from to : Z) (a : action) : Prop :=
  match a with ARecv s => s = from | ASend s _ => s = to | _ => False end.

Lemma send_all_actions fuel from to buf w :
  let '(_, _, acts, _) := send_all fuel to buf w in Forall (data_action from to) acts.
Proof.
  revert buf w. induction fuel as [|fuel IH]; intros [|b buf] w; cbn [send_all]; try done.
  destruct (net_send to (b :: buf) w) as [[n|] w']; [|by repeat constructor].
  specialize (IH (drop (Z.to_nat n) (b :: buf)) w').
  destruct (send_all fuel to _ w') as [[[ok rest] acts] w'']. by constructor.
Qed.

Lemma OneWayRelay_data fuel from to total w :
  in_u 64 total →
  let r := OneWayRelay fuel from to total w in
  (∃ lost, rl_received r = rl_delivered r ++ lost) ∧
  (rl_error r = false → rl_delivered r = rl_received r ∧
     rl_total r = wrap 64 (total + Z.of_nat (length (rl_delivered r)))).
Proof.
  revert total w. induction fuel as [|fuel IH]; intros total w Ht; cbn [OneWayRelay].
  - split; [by exists []|]. intros _. split; [done|]. cbn. by rewrite Z.add_0_r, wrap_small.
  - destruct (net_recv from w) as [[chunk| |] w1].
    2,3: split; [by exists []|]; intros _; split; [done|]; cbn; by rewrite Z.add_0_r, wrap_small.
    pose proof (send_all_prefix (length chunk) to chunk w1) as HS.
    destruct (send_all _ to chunk w1) as [[[ok sent] acts] w2]. destruct HS as [[more Hm] Hall].
    destruct ok; [|split; [by exists more|done]].
    specialize (IH (total +u64 Z.of_nat (length chunk)) w2 ltac:(by apply wrap_range)).
    cbn zeta in IH. destruct IH as [[lost Hl] HE]. rewrite (Hall eq_refl).
    cbn [rl_received rl_delivered rl_error rl_total]. split.
    + exists lost. by rewrite Hl, app_assoc.
    + intros He. destruct (HE He) as [-> ->]. split; [done|].
      rewrite wrap_add_l, length_app. f_equal. lia.
Qed.

Lemma OneWayRelay_shape fuel from to total w :
  let r := OneWayRelay fuel from to total w in
  ∃ body, Forall (data_action from to) body ∧
    rl_actions r = body ++ (if rl_finished r then finish to (rl_total r) else []).
Proof.
  revert total w. induction fuel as [|fuel IH]; intros total w; cbn [OneWayRelay].
  - by exists [].
  - destruct (net_recv from w) as [[chunk| |] w1]; [|by exists [ARecv from]; split; [repeat constructor|]..].
    pose proof (send_all_actions (length chunk) from to chunk w1) as HS.
    destruct (send_all _ to chunk w1) as [[[ok sent] acts] w2].
    destruct ok; cbn [rl_actions rl_finished rl_total].
    + destruct (IH (total +u64 Z.of_nat (length chunk)) w2) as (body & Hb & ->).
      exists (ARecv from :: acts ++ body). split; [|by rewrite app_comm_cons, app_assoc].
      constructor; [done|]. by apply Forall_app.
    + exists (ARecv from :: acts). split; [by constructor|done].
Qed.
End one_way.

(** C19: a direction of the bridge delivers what it reads, in order and nothing
    else: what was sent is at every moment a prefix of what was received; as
    long as no send fails it is all of it, and the byte count kept is its
    length modulo 2^64. *)
Theorem relay_preserves_stream {W} (net_recv : Z → W → RecvResult * W)
    (net_send : Z → text → W → option Z * W) (fuel : nat) (from to : Z) (w : W) :
  let r := OneWayRelay net_recv net_send fuel from to 0 w in
  (∃ lost, rl_received r = rl_delivered r ++ lost) ∧
  (rl_error r = false →
     rl_delivered r = rl_received r ∧
     rl_total r = wrap 64 (Z.of_nat (length (rl_delivered r)))).
Proof.
  apply (OneWayRelay_data net_recv net_send fuel from to 0 w). unfold in_u. lia.
Qed.

(** * Two directions on one pair *)

Record Bridge := mkBridge {
  br_pair : RelayPair;
  br_live : bool;                 (* [pair] not deleted *)
  br_closed : list Z;             (* closesocket calls, in order *)
  br_up : list action;            (* what the UP thread has still to do *)
  br_down : list action;
  br_rx : Z;                      (* m_totalRxBytes *)
  br_tx : Z
}.

Definition is_open (s : Z) (b : Bridge) : Prop := s ∉ br_closed b.

(** Effect of one action of a thread; [counter] selects the shared counter. *)
Definition do_action (up : bool) (a : action) (b : Bridge) : Bridge :=
  match a with
  | ADecRef =>
      let r := refs (br_pair b) -i32 1 in
      let pair := mkRelayPair (sock_client (br_pair b)) (sock_proxy (br_pair b)) r in
      if r =? 0
      then mkBridge pair false (br_closed b ++ [sock_client pair; sock_proxy pair])
             (br_up b) (br_down b) (br_rx b) (br_tx b)
      else mkBridge pair (br_live b) (br_closed b) (br_up b) (br_down b) (br_rx b) (br_tx b)
  | ACount n =>
      mkBridge (br_pair b) (br_live b) (br_closed b) (br_up b) (br_down b)
        (if up then br_rx b +u64 n else br_rx b) (if up then br_tx b else br_tx b +u64 n)
  | _ => b
  end.

(** What an action touches must still exist. *)
Definition action_safe (a : action) (b : Bridge) : Prop :=
  match a with
  | ARecv s | ASend s _ | AShutdownSend s => is_open s b
  | ADecRef => br_live b = true
  | ACount _ => True
  end.

Definition set_up (l : list action) (b : Bridge) : Bridge :=
  mkBridge (br_pair b) (br_live b) (br_closed b) l (br_down b) (br_rx b) (br_tx b).
Definition set_down (l : list action) (b : Bridge) : Bridge :=
  mkBridge (br_pair b) (br_live b) (br_closed b) (br_up b) l (br_rx b) (br_tx b).

(** One step of either thread. *)
Inductive bridge_step : Bridge → Bridge → Prop :=
| step_up a l b : br_up b = a :: l → bridge_step b (do_action true a (set_up l b))
| step_down a l b : br_down b = a :: l → bridge_step b (do_action false a (set_down l b)).

(** [StartBridge], the UP thread created. *)
Definition StartBridge (client_sock proxy_sock rx tx : Z) (up down : list action) : Bridge :=
  mkBridge (mkRelayPair client_sock proxy_sock 2) true [] up down rx tx.

(** A thread's remaining actions: [n] reference counts to give back, the last
    of its actions, and sockets of the pair only. *)
Definition thread_ok (c p : Z) (l : list action) : Prop :=
  l = [] ∨ ∃ body, l = body ++ [ADecRef] ∧
    Forall (λ a, match a with
                 | ARecv s | ASend s _ | AShutdownSend s => s = c ∨ s = p
                 | ACount _ => True
                 | ADecRef => False end) body.

Definition pending (l : list action) : Z := match l with [] => 0 | _ => 1 end.

Record bridge_inv (c p : Z) (b : Bridge) : Prop := {
  bi_client : sock_client (br_pair b) = c;
  bi_proxy : sock_proxy (br_pair b) = p;
  bi_up : thread_ok c p (br_up b);
  bi_down : thread_ok c p (br_down b);
  bi_refs : refs (br_pair b) = pending (br_up b) + pending (br_down b);
  bi_closed : br_closed b = if refs (br_pair b) =? 0 then [c; p] else [];
  bi_live : br_live b = negb (refs (br_pair b) =? 0)
}.

Lemma thread_ok_cons c p a l :
  thread_ok c p (a :: l) →
  match a with
  | ADecRef => l = []
  | ARecv s | ASend s _ | AShutdownSend s => (s = c ∨ s = p) ∧ l ≠ [] ∧ thread_ok c p l
  | ACount _ => l ≠ [] ∧ thread_ok c p l
  end.
Proof.
  intros [|([|x body] & Hl & HF)]; [done|..].
  - by injection Hl as -> ->.
  - injection Hl as -> ->. apply Forall_cons in HF as [Hx HF].
    assert (body ++ [ADecRef] ≠ []) by (by destruct body).
    assert (thread_ok c p (body ++ [ADecRef])) by (right; eauto).
    by destruct x.
Qed.

Lemma pending_ne l : l ≠ [] → pending l = 1.
Proof. by destruct l. Qed.

Lemma pending_range l : 0 <= pending l <= 1.
Proof. destruct l; simpl; lia. Qed.

(** What remains to be added to a counter. *)
Fixpoint counts (l : list action) : Z :=
  match l with
  | [] => 0
  | ACount n :: l' => n + counts l'
  | _ :: l' => counts l'
  end.

Record count_inv (rx tx : Z) (b : Bridge) : Prop := {
  cn_rx : wrap 64 (br_rx b + counts (br_up b)) = wrap 64 rx;
  cn_tx : wrap 64 (br_tx b + counts (br_down b)) = wrap 64 tx
}.

(** The last reference given back closes the sockets, the other one does not. *)
Lemma dec_ref_inv c p b up down n :
  sock_client (br_pair b) = c → sock_proxy (br_pair b) = p →
  thread_ok c p up → thread_ok c p down → br_up b = up → br_down b = down →
  br_closed b = [] → br_live b = true → refs (br_pair b) = n + 1 → 0 <= n <= 1 →
  n = pending up + pending down → ∀ w, bridge_inv c p (do_action w ADecRef b).
Proof.
  intros Hc Hp Hup Hdn Eu Ed Hcl Hl Hr Hn Hpd w. unfold do_action. rewrite Hr.
  replace (n + 1 - 1) with n by lia. rewrite swrap_small by (unfold in_s; lia).
  destruct (Z.eqb_spec n 0) as [E|E]; split; cbn; rewrite ?Eu, ?Ed, ?Hc, ?Hp, ?Hcl, ?Hl; auto;
    destruct (Z.eqb_spec n 0); done.
Qed.

Lemma bridge_step_inv c p b b' : bridge_inv c p b → bridge_step b b' → bridge_inv c p b'.
Proof.
  intros [H1 H2 H3 H4 H5 H6 H7] Hs. destruct Hs as [a l b Hl|a l b Hl]; rewrite Hl in *.
  - apply thread_ok_cons in H3. pose proof (pending_range (br_down b)). cbn [pending] in H5.
    assert (br_closed b = [] ∧ br_live b = true) as [Hcl Hlv].
    { rewrite H6, H7. destruct (Z.eqb_spec (refs (br_pair b)) 0); [lia|done]. }
    assert (Hkeep : l ≠ [] → thread_ok c p l → ∀ rx tx, bridge_inv c p
      (mkBridge (br_pair b) (br_live b) (br_closed b) l (br_down b) rx tx)).
    { intros Hne Hok rx tx. split; cbn; auto. by rewrite (pending_ne l). }
    destruct a; try (destruct H3 as (? & ? & ?); by apply Hkeep).
    + destruct H3. by apply Hkeep.
    + subst l. eapply (dec_ref_inv c p _ [] (br_down b) (pending (br_down b))); cbn; auto; try lia.
      by left.
  - apply thread_ok_cons in H4. pose proof (pending_range (br_up b)). cbn [pending] in H5.
    assert (br_closed b = [] ∧ br_live b = true) as [Hcl Hlv].
    { rewrite H6, H7. destruct (Z.eqb_spec (refs (br_pair b)) 0); [lia|done]. }
    assert (Hkeep : l ≠ [] → thread_ok c p l → ∀ rx tx, bridge_inv c p
      (mkBridge (br_pair b) (br_live b) (br_closed b) (br_up b) l rx tx)).
    { intros Hne Hok rx tx. split; cbn; auto. by rewrite (pending_ne l). }
    destruct a; try (destruct H4 as (? & ? & ?); by apply Hkeep).
    + destruct H4. by apply Hkeep.
    + subst l. eapply (dec_ref_inv c p _ (br_up b) [] (pending (br_up b))); cbn; auto; try lia.
      by left.
Qed.

Lemma bridge_step_count rx tx b b' : count_inv rx tx b → bridge_step b b' → count_inv rx tx b'.
Proof.
  intros [H1 H2] Hs. destruct Hs as [a l b Hl|a l b Hl]; rewrite Hl in *; cbn [counts] in *;
    destruct a; unfold do_action; try case_match; split; cbn; auto;
    rewrite wrap_add_l, <- Z.add_assoc; auto.
Qed.

Lemma bridge_inv_safe c p b a l :
  bridge_inv c p b → br_up b = a :: l ∨ br_down b = a :: l → action_safe a b.
Proof.
  intros [H1 H2 H3 H4 H5 H6 H7] Hl.
  assert (1 <= refs (br_pair b)) as Hr.
  { pose proof (pending_range (br_up b)). pose proof (pending_range (br_down b)).
    destruct Hl as [Hl|Hl]; rewrite Hl in *; cbn [pending] in *; lia. }
  destruct (Z.eqb_spec (refs (br_pair b)) 0); [lia|]. cbn in H7.
  unfold action_safe, is_open. destruct a; auto; rewrite H6; apply not_elem_of_nil.
Qed.

Lemma start_inv c p rx tx up down :
  thread_ok c p up → thread_ok c p down → up ≠ [] → down ≠ [] →
  bridge_inv c p (StartBridge c p rx tx up down).
Proof.
  intros Hu Hd Hun Hdn. split; cbn; auto. by rewrite !pending_ne.
Qed.

(** The actions of a finished direction are a thread of the pair. *)
Lemma relay_thread_ok {W} net_recv net_send fuel c p from to (w : W) :
  (from = c ∧ to = p) ∨ (from = p ∧ to = c) →
  let r := OneWayRelay net_recv net_send fuel from to 0 w in
  rl_finished r = true → thread_ok c p (rl_actions r) ∧ rl_actions r ≠ [] ∧
  counts (rl_actions r) = rl_total r.
Proof.
  intros Hft r Hf. destruct (OneWayRelay_shape net_recv net_send fuel from to 0 w) as (body & Hb & He).
  fold r in He. rewrite Hf in He. split; [|split].
  - right. exists (body ++ [ACount (rl_total r); AShutdownSend to]).
    split; [rewrite He; unfold finish; by rewrite <- app_assoc|].
    apply Forall_app. split.
    + eapply Forall_impl; [exact Hb|]. intros [] Ha; simpl in Ha; subst; try done; tauto.
    + constructor; [exact I|]. constructor; [tauto|constructor].
  - rewrite He. by destruct body.
  - rewrite He. clear He. induction Hb as [|a body Ha _ IH]; simpl; [lia|].
    destruct a; simpl in Ha; try done; exact IH.
Qed.

(** C6: the two directions share the sockets safely, under every interleaving
    of their actions: no action touches a closed socket or the deleted pair;
    while one direction is still at work nothing is closed; when both are
    done both sockets have been closed exactly once and the totals have grown
    by the bytes of each direction. *)
Theorem bridge_closes_once {W1 W2} recv1 send1 recv2 send2 (fuel1 fuel2 : nat) (w1 : W1) (w2 : W2)
    (c p rx tx : Z) (b : Bridge) :
  let up := OneWayRelay recv1 send1 fuel1 c p 0 w1 in
  let down := OneWayRelay recv2 send2 fuel2 p c 0 w2 in
  rl_finished up = true → rl_finished down = true →
  rtc bridge_step (StartBridge c p rx tx (rl_actions up) (rl_actions down)) b →
  (∀ a l, br_up b = a :: l ∨ br_down b = a :: l → action_safe a b ∧ br_closed b = []) ∧
  (br_up b = [] → br_down b = [] →
     br_closed b = [c; p] ∧ br_live b = false ∧ refs (br_pair b) = 0 ∧
     wrap 64 (br_rx b) = wrap 64 (rx + rl_total up) ∧
     wrap 64 (br_tx b) = wrap 64 (tx + rl_total down)).
Proof.
  intros up down Hu Hd Hr.
  destruct (relay_thread_ok recv1 send1 fuel1 c p c p w1) as (U1 & U2 & U3); auto.
  destruct (relay_thread_ok recv2 send2 fuel2 c p p c w2) as (D1 & D2 & D3); auto.
  fold up in U1, U2, U3. fold down in D1, D2, D3.
  set (b0 := StartBridge c p rx tx (rl_actions up) (rl_actions down)) in Hr.
  assert (H0 : bridge_inv c p b0) by by apply start_inv.
  assert (N0 : count_inv (rx + rl_total up) (tx + rl_total down) b0).
  { split; cbn; f_equal; lia. }
  assert (bridge_inv c p b ∧ count_inv (rx + rl_total up) (tx + rl_total down) b) as [HI [N1 N2]].
  { clearbody b0. clear U1 U2 U3 D1 D2 D3. induction Hr as [|b1 b2 b3 Hs _ IH]; [done|].
    apply IH; [by eapply bridge_step_inv|by eapply bridge_step_count]. }
  split.
  - intros a l Hl. split; [by eapply bridge_inv_safe|].
    destruct HI as [_ _ _ _ H5 H6 _].
    pose proof (pending_range (br_up b)). pose proof (pending_range (br_down b)).
    rewrite H6. destruct (Z.eqb_spec (refs (br_pair b)) 0); [|done].
    destruct Hl as [Hl|Hl]; rewrite Hl in *; cbn [pending] in *; lia.
  - intros Eu Ed. rewrite Eu in N1. rewrite Ed in N2. destruct HI as [_ _ _ _ H5 H6 H7].
    rewrite Eu, Ed in H5. cbn in H5. rewrite H5 in *. cbn [counts] in *.
    rewrite Z.add_0_r in N1, N2. auto.
Qed.

(** The UP thread could not be created: nothing is shared yet. *)
Definition StartBridge_no_thread (client_sock proxy_sock rx tx : Z) : Bridge :=
  mkBridge (mkRelayPair client_sock proxy_sock 2) false [client_sock; proxy_sock] [] [] rx tx.

(** * A concrete bridge *)

Definition script_recv (s : Z) (w : list text) : RecvResult * list text :=
  match w with [] => (RecvClosed, []) | b :: w' => (RecvData b, w') end.

(** A peer that takes at most two bytes per call. *)
Definition slow_send (s : Z) (buf : text) (w : list text) : option Z * list text :=
  (Some (Z.min 2 (Z.of_nat (length buf))), w).

Example slow_relay :
  let r := OneWayRelay script_recv slow_send 3 1 2 0 [lit "hello"; lit "you"] in
  rl_delivered r = lit "helloyou" ∧ rl_finished r = true ∧ length (rl_actions r) = 11%nat.
Proof. vm_compute. auto. Qed.

Lemma bridge_closes_once_witness :
  let up := OneWayRelay script_recv slow_send 1 1 2 0 [] in
  let down := OneWayRelay script_recv slow_send 2 2 1 0 [lit "ok"] in
  ∃ b, rtc bridge_step (StartBridge 1 2 0 0 (rl_actions up) (rl_actions down)) b ∧
       br_up b = [] ∧ br_down b = [] ∧ br_closed b = [1; 2].
Proof.
  intros up down.
  assert (HS : ∃ b, rtc bridge_step (StartBridge 1 2 0 0 (rl_actions up) (rl_actions down)) b ∧
                    br_up b = [] ∧ br_down b = []).
  { eexists. split.
    - repeat (eapply rtc_l; [apply step_up; vm_compute; reflexivity|]).
      repeat (eapply rtc_l; [apply step_down; vm_compute; reflexivity|]).
      apply rtc_refl.
    - vm_compute. split; reflexivity. }
  destruct HS as (b & Hr & Eu & Ed). exists b. split; [exact Hr|]. split; [exact Eu|].
  split; [exact Ed|].
  destruct (bridge_closes_once script_recv slow_send script_recv slow_send 1 2 [] [lit "ok"] 1 2 0 0 b
    eq_refl eq_refl Hr) as [_ H]. apply (H Eu Ed).
Defined.
