(* ===== verification/Handshake.v ===== *)
(** The end of the handshake with the proxy and the beginning of the tunnel.

    [handler_invariant] lists what a predicate on the handler's state must
    survive to hold along every run of [ConnectionHandler] (file Relay): one
    clause for each call of the network and each kind of event.  It is used
    here for the position in the proxy's stream, and in file Tunnel for the
    destinations of the requests.

    The stream of the proxy is the sequence of pieces that successive calls of
    [recv] give.  The handler takes one piece as the answer to a request; the
    bridge (file Bridge) copies what is left. *)

From S2P Require Import Prelude.
From S2P Require Import Text.
From S2P Require Import Auth.
From S2P Require Import Relay.
From S2P Require Import Bridge.

(** * Invariants of the handler *)

Section invariant.
Context {W P : Type} `{!IAuthenticationProvider P}.
Context (net_resolve : text → W → option Z * W)
        (net_socket : W → option Z * W)
        (net_connect : Z → Z → Z → W → bool * W)
        (net_send : Z → text → W → bool * W)
        (net_recv : Z → W → RecvResult * W)
        (other_threads : W → text → text)
        (cfg : RelayConfig).
Context (ip port : Z).
Implicit Types (s : HState W P).

(** Events that carry nothing of a stream. *)
Definition silent (e : Event) : Prop :=
  match e with EvSend _ _ | EvRecv _ _ => False | _ => True end.

Definition header_ok (auth : text) : Prop := auth = [] ∨ ∃ kind token, auth = auth_line kind token.

Definition request_for (auth : text) : text := connect_line (inet_ntop ip) port ++ auth ++ connect_end.

Record handler_invariant (I : HState W P → Prop) : Prop := {
  hi_emits : ∀ es s, Forall silent es → I s → I (emits es s);
  hi_provider : ∀ p s, I s → I (set_provider p s);
  hi_token : ∀ t s, I s → I (set_token t s);
  hi_resolve : ∀ h s, I s → I (set_world (snd (net_resolve h (hs_world s))) s);
  hi_socket : ∀ s, I s → I (set_world (snd (net_socket (hs_world s))) s);
  hi_connect : ∀ x a b s, I s → I (set_world (snd (net_connect x a b (hs_world s))) s);
  hi_send : ∀ x auth s, header_ok auth → I s →
    I (emit (EvSend x (request_for auth)) (set_world (snd (net_send x (request_for auth) (hs_world s))) s));
  hi_recv : ∀ x s, I s →
    I (emit (EvRecv x (fst (net_recv x (hs_world s)))) (set_world (snd (net_recv x (hs_world s))) s))
}.

Context (I : HState W P → Prop) (HI : handler_invariant I).

Lemma keep_emits es s : Forall silent es → I s → I (emits es s).
Proof. apply (hi_emits _ HI). Qed.

Lemma keep_emit e s : silent e → I s → I (emit e s).
Proof. intros He. apply (keep_emits [e]). by repeat constructor. Qed.

Lemma keep_provider p s : I s → I (set_provider p s).
Proof. apply (hi_provider _ HI). Qed.

Lemma keep_token t s : I s → I (set_token t s).
Proof. apply (hi_token _ HI). Qed.

Lemma keep_close ctx s : I s → I (close_context ctx s).
Proof.
  intros H. unfold close_context. destruct ctx, (hs_provider s); try done.
  by apply keep_emit, keep_provider.
Qed.

Lemma keep_create p s : I s → I (snd (create_context cfg p s)).
Proof.
  intros H. unfold create_context. destruct (ap_CreateContext _ p) as [r p'].
  apply keep_emit; [by destruct (cc_success r)|by apply keep_provider].
Qed.

Lemma keep_abandon c x s : I s → I (abandon c x s).
Proof. apply keep_emits. by repeat constructor. Qed.

Lemma keep_fail c x ctx s : I s → I (fail_round c x ctx s).
Proof. intros H. by apply keep_abandon, keep_close, keep_emit. Qed.

Hint Resolve keep_emits keep_emit keep_provider keep_token keep_close keep_create keep_abandon
  keep_fail : core.

Lemma keep_authorize ctx s :
  I s → let '(_, auth, s') := authorize other_threads cfg ctx s in I s' ∧ header_ok auth.
Proof.
  intros H. unfold authorize, header_ok. destruct (hs_provider s) as [p|]; [|by auto].
  destruct (m_proxyAuthRequired cfg); [|by auto]. destruct ctx as [id|]; [by eauto|].
  pose proof (keep_create p s H) as Hc. destruct (create_context cfg p s) as [r s1]. cbn [snd] in Hc.
  destruct (cc_success r); eauto.
Qed.

Lemma keep_on_407 c x resp p ctx n s : I s → I (snd (on_407 cfg c x resp p ctx n s)).
Proof.
  intros H. unfold on_407. destruct ctx as [id|].
  - destruct (bool_decide _); [|by apply keep_fail]. destruct (text_eqb _ []); [by apply keep_fail|].
    destruct (ap_ContinueContext _ _ p) as [r p'].
    assert (H1 : I (emit (EvContinued id (ct_success r)) (set_provider p' s))) by by apply keep_emit, keep_provider.
    destruct (negb (ct_success r)); [by apply keep_fail|]. destruct (text_eqb _ []); [by apply keep_fail|].
    destruct (5 <? n + 1); [by apply keep_fail, keep_token|by apply keep_token].
  - pose proof (keep_create p s H) as Hc. destruct (create_context cfg p s) as [r s1]. cbn [snd] in Hc.
    destruct (cc_success r); [|by apply keep_abandon, keep_emit].
    destruct (5 <? n + 1); [by apply keep_abandon, keep_close, keep_token|by apply keep_token].
Qed.

Lemma keep_round c x gw ctx n s :
  I s → I (snd (connect_round net_send net_recv other_threads cfg c x ip port gw ctx n s)).
Proof.
  intros H. unfold connect_round. pose proof (keep_authorize ctx s H) as Ha.
  destruct (authorize _ _ ctx s) as [[ctx' auth] s1]. destruct Ha as [Ha Hauth].
  pose proof (hi_send _ HI x auth s1 Hauth Ha) as H2. fold (request_for auth).
  destruct (net_send x _ (hs_world s1)) as [sent w]. cbn [snd] in H2.
  set (s2 := emit _ (set_world w s1)) in *. clearbody s2.
  destruct (negb sent); [by apply keep_fail|].
  pose proof (hi_recv _ HI x s2 H2) as H3. destruct (net_recv x (hs_world s2)) as [r w']. cbn [fst snd] in H3.
  destruct r as [resp| |]; [|by apply keep_fail|done]. destruct (status_200 resp).
  - apply keep_emits; [by repeat constructor|]. by apply keep_close, keep_emit.
  - destruct (if is_407 resp && m_proxyAuthRequired cfg then _ else None); [by apply keep_on_407|].
    destruct (is_gateway_error resp && _); [|by apply keep_fail]. apply keep_emits; [by repeat constructor|by apply keep_close].
Qed.

Lemma keep_rounds f c x gw ctx n s :
  I s → I (snd (connect_rounds net_send net_recv other_threads cfg f c x ip port gw ctx n s)).
Proof.
  revert ctx n s. induction f as [|f IH]; intros ctx n s H; cbn [connect_rounds]; [done|].
  pose proof (keep_round c x gw ctx n s H) as Hr.
  destruct (connect_round _ _ _ _ _ _ _ _ _ _ _ _) as [[] s1]; [done..|by apply IH].
Qed.

Lemma keep_attempts f c pip gw s :
  I s → I (snd (proxy_attempts net_socket net_connect net_send net_recv other_threads cfg f c pip ip port gw s)).
Proof.
  revert gw s. induction f as [|f IH]; intros gw s H; cbn [proxy_attempts]; [done|].
  pose proof (hi_socket _ HI s H) as H1. destruct (net_socket (hs_world s)) as [[x|] w]; cbn [snd] in H1.
  2: { apply keep_emits; [by repeat constructor|done]. }
  apply (keep_emit (EvSocket x)) in H1; [|done].
  pose proof (hi_connect _ HI x pip (m_proxyPort cfg) _ H1) as H2.
  destruct (net_connect x pip _ _) as [ok w']. cbn [snd] in H2.
  destruct (negb ok); [by apply keep_abandon, keep_emit|].
  match goal with |- context [connect_rounds _ _ _ _ ?g c x ip port gw None 0 ?s'] =>
    pose proof (keep_rounds g c x gw None 0 s') as Hr end.
  destruct (connect_rounds _ _ _ _ _ _ _ _ _ _ _ _ _) as [[o|] s2]; cbn [snd] in *; [|apply IH]; apply Hr;
    by apply keep_emit.
Qed.

(** An invariant of the calls holds at the end of every run. *)
Lemma handler_keeps ctx s :
  rx_orig_dest_ip ctx = ip → rx_orig_dest_port ctx = port → I s →
  I (snd (ConnectionHandler net_resolve net_socket net_connect net_send net_recv other_threads cfg ctx s)).
Proof.
  intros Hip Hport H. unfold ConnectionHandler. rewrite Hip, Hport.
  pose proof (hi_resolve _ HI (m_proxyHost cfg) s H) as H1.
  destruct (net_resolve _ _) as [[pip|] w']; cbn [snd] in H1.
  - by apply keep_attempts, keep_emit.
  - apply keep_emits; [by repeat constructor|done].
Qed.
End invariant.

(** * A proxy that grants at once *)

Section granted.
Context {W P : Type} `{!IAuthenticationProvider P}.
Context (net_resolve : text → W → option Z * W)
        (net_socket : W → option Z * W)
        (net_connect : Z → Z → Z → W → bool * W)
        (net_send : Z → text → W → bool * W)
        (net_recv : Z → W → RecvResult * W)
        (other_threads : W → text → text)
        (cfg : RelayConfig).

Lemma authorize_world ctx (s : HState W P) : hs_world (snd (authorize other_threads cfg ctx s)) = hs_world s.
Proof.
  unfold authorize, create_context. destruct (hs_provider s) as [p|]; [|done].
  destruct (m_proxyAuthRequired cfg); [|done]. destruct ctx; [done|].
  destruct (ap_CreateContext _ p) as [r p']. by destruct (cc_success r).
Qed.

(** As long as the state of the network is in [Q], every call succeeds, the
    socket [x] is opened and the next answer on it is a 200, which leaves the
    network in [Q']. *)
Record grants (x : Z) (Q Q' : W → Prop) : Prop := {
  gr_resolve : ∀ h w, Q w → is_Some (fst (net_resolve h w)) ∧ Q (snd (net_resolve h w));
  gr_socket : ∀ w, Q w → fst (net_socket w) = Some x ∧ Q (snd (net_socket w));
  gr_connect : ∀ a b w, Q w → fst (net_connect x a b w) = true ∧ Q (snd (net_connect x a b w));
  gr_send : ∀ t w, Q w → fst (net_send x t w) = true ∧ Q (snd (net_send x t w));
  gr_recv : ∀ w, Q w → ∃ r, fst (net_recv x w) = RecvData r ∧ status_200 r = true ∧ Q' (snd (net_recv x w))
}.

Lemma close_context_world ctx (s : HState W P) : hs_world (close_context ctx s) = hs_world s.
Proof. unfold close_context. by destruct ctx, (hs_provider s). Qed.

(** Then the handler hands the socket over, whatever the provider does. *)
Lemma granted_at_once x Q Q' ctx w p token :
  grants x Q Q' → Q w →
  let '(o, h) := run_handler net_resolve net_socket net_connect net_send net_recv other_threads cfg ctx w p token in
  o = Bridged (rx_client_sock ctx) x ∧ Q' (hs_world h).
Proof.
  intros [Hres Hsock Hconn Hsend Hrecv] HQ. unfold run_handler, ConnectionHandler.
  destruct (Hres (m_proxyHost cfg) w HQ) as [[a Ha] H1]. cbn [hs_world start_state].
  destruct (net_resolve _ _) as [r w1]. cbn [fst snd] in Ha, H1. subst r. unfold gateway_fuel. cbn [proxy_attempts].
  cbn [hs_world set_world emit]. destruct (Hsock w1 H1) as [Hx H2]. destruct (net_socket w1) as [r w2].
  cbn [fst snd] in Hx, H2. subst r. cbn [hs_world set_world emit].
  destruct (Hconn a (m_proxyPort cfg) w2 H2) as [Hok H3]. destruct (net_connect _ _ _ _) as [ok w3].
  cbn [fst snd] in Hok, H3. subst ok. cbn [negb]. unfold auth_fuel. cbn [connect_rounds]. unfold connect_round.
  match goal with |- context [authorize other_threads cfg None ?s] => pose proof (authorize_world None s) as Hw;
    destruct (authorize other_threads cfg None s) as [[ctx1 auth] s1] end.
  cbn [snd hs_world set_world emit] in Hw. rewrite Hw.
  match goal with |- context [net_send x ?t w3] => destruct (Hsend t w3 H3) as [Hs H4]; destruct (net_send x t w3) as [sent w4] end.
  cbn [fst snd] in Hs, H4. subst sent. cbn [negb hs_world set_world emit].
  destruct (Hrecv w4 H4) as (r & Hr & H200 & H5). destruct (net_recv x w4) as [r' w5]. cbn [fst snd] in Hr, H5. subst r'.
  rewrite H200. split; [done|]. cbn [hs_world emits]. by rewrite close_context_world.
Qed.
End granted.

(** * The stream of the proxy *)

Section stream.
Context {V P : Type} `{!IAuthenticationProvider P}.

(** What each socket has still to receive, piece by piece, beside any other
    state of the network. *)
Abbreviation World := (gmap Z (list text) * V)%type.

Definition beside {A} (f : V → A * V) (w : World) : A * World :=
  let '(a, v) := f (snd w) in (a, (fst w, v)).

Definition stream_recv (x : Z) (w : World) : RecvResult * World :=
  match fst w !!! x with
  | [] => (RecvClosed, w)
  | piece :: rest => (RecvData piece, (<[x := rest]> (fst w), snd w))
  end.

(** The pieces received on a socket. *)
Fixpoint received (x : Z) (tr : list Event) : list text :=
  match tr with
  | [] => []
  | EvRecv y (RecvData b) :: tr' => if decide (y = x) then b :: received x tr' else received x tr'
  | _ :: tr' => received x tr'
  end.

Lemma received_app x tr tr' : received x (tr ++ tr') = received x tr ++ received x tr'.
Proof.
  induction tr as [|e tr IH]; [done|]. cbn [app received]. destruct e as [| | | |y [b| |]| | | | | | | | | | | |]; try done.
  destruct (decide (y = x)); [|done]. by rewrite IH.
Qed.

Lemma received_silent x es : Forall silent es → received x es = [].
Proof. induction 1 as [|e es He _ IH]; [done|]. cbn [received]. by destruct e. Qed.

(** What came and what is to come is the stream. *)
Definition positioned (segs : gmap Z (list text)) (s : HState World P) : Prop :=
  ∀ x, segs !!! x = received x (hs_trace s) ++ fst (hs_world s) !!! x.

Lemma beside_fst {A} (f : V → A * V) (w : World) : fst (snd (beside f w)) = fst w.
Proof. unfold beside. by destruct (f (snd w)). Qed.

Lemma positioned_world segs (w : World) s :
  fst w = fst (hs_world s) → positioned segs s → positioned segs (set_world w s).
Proof. intros E H x. cbn. rewrite E. apply H. Qed.

Lemma positioned_emits segs es s : Forall silent es → positioned segs s → positioned segs (emits es s).
Proof. intros He H x. cbn. rewrite received_app, (received_silent x es He), app_nil_r. apply H. Qed.

Lemma stream_recv_positioned segs x s :
  positioned segs s →
  positioned segs (emit (EvRecv x (fst (stream_recv x (hs_world s)))) (set_world (snd (stream_recv x (hs_world s))) s)).
Proof.
  intros H y. specialize (H y). unfold stream_recv. cbn. rewrite received_app.
  destruct (fst (hs_world s) !!! x) as [|piece rest] eqn:E; cbn; [by rewrite app_nil_r|].
  rewrite H, <- app_assoc. f_equal. destruct (decide (x = y)) as [->|Hne].
  - by rewrite E, lookup_total_insert_eq.
  - by rewrite lookup_total_insert_ne.
Qed.

Section run.
Context (net_resolve : text → V → option Z * V)
        (net_socket : V → option Z * V)
        (net_connect : Z → Z → Z → V → bool * V)
        (net_send : Z → text → V → bool * V)
        (other_threads : World → text → text)
        (cfg : RelayConfig).

(** The handler over a network whose sockets receive these streams. *)
Definition run_over (ctx : RelayContext) (segs : gmap Z (list text)) (v : V) (p : option P) (token : text) :=
  run_handler (λ h, beside (net_resolve h)) (beside net_socket) (λ x a b, beside (net_connect x a b))
    (λ x t, beside (net_send x t)) stream_recv other_threads cfg ctx (segs, v) p token.

Lemma positioned_invariant ip port segs :
  handler_invariant (λ h, beside (net_resolve h)) (beside net_socket) (λ x a b, beside (net_connect x a b))
    (λ x t, beside (net_send x t)) stream_recv ip port (positioned segs).
Proof.
  split; intros.
  - by apply positioned_emits.
  - done.
  - done.
  - by apply positioned_world; [apply beside_fst|].
  - by apply positioned_world; [apply beside_fst|].
  - by apply positioned_world; [apply beside_fst|].
  - intros y. cbn [hs_trace hs_world emit emits set_world]. rewrite received_app, beside_fst. cbn [received]. rewrite app_nil_r. apply H0.
  - by apply stream_recv_positioned.
Qed.

Lemma last_recv_received tr x b : last_recv tr = Some (x, RecvData b) → ∃ before, received x tr = before ++ [b].
Proof.
  induction tr as [|e tr IH] using rev_ind; [done|]. rewrite last_recv_app, received_app.
  assert (Hs : match e with EvRecv _ _ => False | _ => True end → received x [e] = []) by by destruct e.
  destruct e as [| | | |y r| | | | | | | | | | | |]; try (intros H; rewrite Hs, app_nil_r by done; by apply IH).
  intros [= -> ->]. cbn [received]. rewrite decide_True by done. by eexists.
Qed.

(** The answer a tunnel starts from is one piece of the stream; the pieces
    before it are answers to earlier requests, those after it are left. *)
Lemma bridged_position ctx segs v p token :
  let '(o, h) := run_over ctx segs v p token in
  match o with
  | Bridged c x =>
      c = rx_client_sock ctx ∧
      ∃ before answer, segs !!! x = before ++ answer :: fst (hs_world h) !!! x ∧ status_200 answer = true
  | _ => True
  end.
Proof.
  pose proof (handler_keeps _ _ _ _ _ other_threads cfg _ _ _
    (positioned_invariant (rx_orig_dest_ip ctx) (rx_orig_dest_port ctx) segs) ctx
    (start_state (segs, v) p token) eq_refl eq_refl (λ x, eq_refl)) as Hpos.
  pose proof (handler_post (λ h, beside (net_resolve h)) (beside net_socket) (λ x a b, beside (net_connect x a b))
    (λ x t, beside (net_send x t)) stream_recv other_threads cfg (rx_client_sock ctx) ctx
    (start_state (segs, v) p token) eq_refl) as Hpost.
  unfold run_over, run_handler. destruct (ConnectionHandler _ _ _ _ _ _ _ ctx _) as [o h].
  destruct o as [|c x| |]; try done. destruct Hpost as (-> & _ & answer & Hl & H200). split; [done|].
  destruct (last_recv_received _ _ _ Hl) as [before Hb]. exists before, answer. split; [|done].
  rewrite (Hpos x). cbn [snd]. rewrite Hb. by rewrite <- app_assoc.
Qed.
(** A stream that starts with such an answer. *)
Lemma first_answer_tunnels ctx segs v p token x answer rest :
  (∀ h v, is_Some (fst (net_resolve h v))) → (∀ v, fst (net_socket v) = Some x) →
  (∀ a b v, fst (net_connect x a b v) = true) → (∀ t v, fst (net_send x t v) = true) →
  segs !!! x = answer :: rest → status_200 answer = true →
  let '(o, h) := run_over ctx segs v p token in
  o = Bridged (rx_client_sock ctx) x ∧ fst (hs_world h) !!! x = rest.
Proof.
  intros Hres Hsock Hconn Hsend Hs H200.
  apply (granted_at_once _ _ _ _ _ _ _ x (λ w, fst w = segs) (λ w, fst w !!! x = rest)); [|done].
  split; [intros h [? v0] [= ->]; specialize (Hres h v0)|intros [? v0] [= ->]; specialize (Hsock v0)|
          intros a b [? v0] [= ->]; specialize (Hconn a b v0)|intros t [? v0] [= ->]; specialize (Hsend t v0)|];
    [unfold beside; cbn; case_match; done..|].
  intros [? v0] [= ->]. unfold stream_recv. cbn. rewrite Hs.
  exists answer. split; [done|]. split; [done|]. apply lookup_total_insert_eq.
Qed.
End run.

(** * What the bridge copies *)

Section bridge.
Context (client_send : Z → text → V → option Z * V).

Abbreviation to_client := (λ s t, beside (client_send s t)).

Lemma send_all_fst fuel to buf (w : World) :
  let '(_, _, _, w') := send_all to_client fuel to buf w in fst w' = fst w.
Proof.
  revert buf w. induction fuel as [|fuel IH]; intros [|b buf] w; cbn [send_all]; try done.
  pose proof (beside_fst (client_send to (b :: buf)) w) as H.
  destruct (beside (client_send to (b :: buf)) w) as [[n|] w']; [|done]. cbn [snd] in H.
  specialize (IH (drop (Z.to_nat n) (b :: buf)) w'). destruct (send_all _ _ _ _ w') as [[[ok rest] acts] w''].
  by rewrite IH.
Qed.

(** The bridge reads the stream to its end, unless a send fails. *)
Lemma OneWayRelay_reads_all fuel from to total (w : World) :
  (length (fst w !!! from) < fuel)%nat →
  let r := OneWayRelay stream_recv to_client fuel from to total w in
  rl_error r = false → rl_received r = concat (fst w !!! from).
Proof.
  revert total w. induction fuel as [|fuel IH]; intros total w Hf; [lia|]. cbn [OneWayRelay].
  destruct (stream_recv from w) as [r w1] eqn:Er. unfold stream_recv in Er.
  destruct (fst w !!! from) as [|piece rest] eqn:E; injection Er as <- <-; [done|].
  match goal with |- context [send_all to_client ?n to piece ?w1] => pose proof (send_all_fst n to piece w1) as Hw;
    destruct (send_all to_client n to piece w1) as [[[ok sent] acts] w2] end.
  destruct ok; [|done]. cbn [rl_error rl_received concat fst] in *. intros He.
  assert (E2 : fst w2 !!! from = rest) by by rewrite Hw, lookup_total_insert_eq.
  rewrite IH; [by rewrite E2| |done]. rewrite E2. simpl in Hf. lia.
Qed.

Lemma OneWayRelay_delivers_all fuel from to (w : World) :
  (length (fst w !!! from) < fuel)%nat →
  let r := OneWayRelay stream_recv to_client fuel from to 0 w in
  rl_error r = false → rl_delivered r = concat (fst w !!! from).
Proof.
  intros Hf r He. destruct (OneWayRelay_data stream_recv to_client fuel from to 0 w) as [_ Hk]; [unfold in_u; lia|].
  destruct (Hk He) as [E _]. unfold r in *. rewrite E. by apply OneWayRelay_reads_all.
Qed.
End bridge.

(** C4: one call of [recv] is taken for the whole answer.  In every run over
    any streams, the tunnel that the handler hands over starts behind the piece
    that held the start of the answer, and the bridge copies exactly the rest:
    when the stream from that piece on is the header of the answer followed by
    the data of the tunnel, the client gets the data exactly if the piece was
    the whole header and nothing more.  Data that came with the header is
    lost; a header that came in two pieces is delivered to the client. *)
Theorem tunnel_starts_after_one_recv
    (net_resolve : text → V → option Z * V) (net_socket : V → option Z * V)
    (net_connect : Z → Z → Z → V → bool * V) (net_send : Z → text → V → bool * V)
    (other_threads : World → text → text) (cfg : RelayConfig)
    (ctx : RelayContext) (segs : gmap Z (list text)) (v : V) (p : option P) (token : text) :
  let '(o, h) := run_over net_resolve net_socket net_connect net_send other_threads cfg ctx segs v p token in
  match o with
  | Bridged c x =>
      ∃ before answer rest, segs !!! x = before ++ answer :: rest ∧ status_200 answer = true ∧
      ∀ client_send fuel header data,
        (length rest < fuel)%nat → concat (answer :: rest) = header ++ data →
        let r := OneWayRelay stream_recv (λ s t, beside (client_send s t)) fuel x c 0 (hs_world h) in
        rl_error r = false →
        rl_delivered r = drop (length answer) (header ++ data) ∧
        (rl_delivered r = data ↔ length answer = length header)
  | _ => True
  end.
Proof.
  pose proof (bridged_position net_resolve net_socket net_connect net_send other_threads cfg ctx segs v p token) as H.
  destruct (run_over _ _ _ _ _ _ _ _ _ _ _) as [o h]. destruct o as [|c x| |]; try done.
  destruct H as (_ & before & answer & Hs & H200). eexists before, answer, _. split; [exact Hs|]. split; [done|].
  intros client_send fuel header data Hf Hd r He.
  assert (Hc : rl_delivered r = concat (fst (hs_world h) !!! x)) by by apply OneWayRelay_delivers_all.
  cbn [concat] in Hd. rewrite Hc, <- Hd, drop_app_length. split; [done|]. split.
  - intros E. rewrite E in Hd. apply (f_equal length) in Hd. rewrite !length_app in Hd. lia.
  - intros E. by apply app_inj_1 in Hd as [_ ?].
Qed.
End stream.

(** * A greeting that comes with the answer *)

(** The proxy's sockets: 9 is the first one the handler opens. *)
Definition greeting_run (pieces : list text) : Outcome * HState (gmap Z (list text) * unit) BasicAuthenticationProvider :=
  run_over (λ _ v, (Some 16777343, v)) (λ v, (Some 9, v)) (λ _ _ _ v, (true, v)) (λ _ _ v, (true, v))
    (λ _ t, t) sample_cfg sample_ctx {[ 9 := pieces ]} tt (Some (mkBasic (lit "u") (lit "p"))) [].

(** What the client is sent through the tunnel, when there is one. *)
Definition client_sees (pieces : list text) : option text :=
  match greeting_run pieces with
  | (Bridged c x, h) =>
      Some (rl_delivered (OneWayRelay stream_recv
        (λ s t, beside (λ v, (Some (Z.of_nat (length t)), v))) (S (length pieces)) x c 0 (hs_world h)))
  | _ => None
  end.

Definition ok_header : text := lit "HTTP/1.1 200 OK" ++ crlf ++ crlf.

Example greeting_after_ex : client_sees [ok_header; lit "220 mail"] = Some (lit "220 mail").
Proof. vm_compute. reflexivity. Qed.

Example greeting_with_ex : client_sees [ok_header ++ lit "220 mail"] = Some [].
Proof. vm_compute. reflexivity. Qed.

Example header_split_ex :
  client_sees [lit "HTTP/1.1 200"; lit " OK" ++ crlf ++ crlf; lit "220 mail"] =
  Some (lit " OK" ++ crlf ++ crlf ++ lit "220 mail").
Proof. vm_compute. reflexivity. Qed.

Example status_split_ex : client_sees [lit "HTTP/1."; lit "1 200 OK" ++ crlf ++ crlf] = None.
Proof. vm_compute. reflexivity. Qed.

Lemma tunnel_starts_after_one_recv_witness :
  ∃ answer rest, status_200 answer = true ∧ [ok_header ++ lit "220 mail"] = answer :: rest.
Proof.
  pose proof (tunnel_starts_after_one_recv (λ _ v, (Some 16777343, v)) (λ v, (Some 9, v)) (λ _ _ _ v, (true, v))
    (λ _ _ v, (true, v)) (λ _ t, t) sample_cfg sample_ctx {[ 9 := [ok_header ++ lit "220 mail"] ]} tt
    (Some (mkBasic (lit "u") (lit "p"))) []) as H.
  match type of H with let '(o, h) := ?r in _ => assert (Hr : fst r = Bridged 7 9) by (vm_compute; reflexivity) end.
  destruct (run_over _ _ _ _ _ _ _ _ _ _ _) as [o h]. cbn [fst] in Hr. subst o.
  destruct H as (before & answer & rest & Hs & H200 & _). exists answer, rest. split; [exact H200|].
  rewrite lookup_total_singleton_eq in Hs. destruct before as [|b before]; [exact Hs|].
  destruct before; discriminate Hs.
Defined.
