(* ===== verification/MockProxy.v ===== *)
(** The proxy the integration tests run against, [tests/mock_proxy.cpp]: it
    answers every piece it receives with a 200.  What it prints, sends and
    closes is a list of events; the answers of the system are arguments.  A
    loop guarded by [g_running] takes the list of its turns and ends with it:
    the list ends where Ctrl+C has cleared the flag. *)

From S2P Require Import Prelude.
From S2P Require Import Text.
From S2P Require Import Auth.
From S2P Require Import Relay.
From S2P Require Import Bridge.
From S2P Require Import Handshake.

(** * The C runtime *)

Definition is_space (c : Z) : bool := (c =? 32) || ((9 <=? c) && (c <=? 13)).

(** [atoi]: [strtol] with base 10 for a [long] of 32 bits, which stops at the
    bounds of the type. *)
Definition atoi (s : text) : Z :=
  let s := drop_while is_space (cstr s) in
  let '(neg, s) := match s with
                   | 45 :: s' => (true, s')
                   | 43 :: s' => (false, s')
                   | _ => (false, s)
                   end in
  let n := value_of (take_while digit_char s) in
  if neg then Z.max (- 2147483648) (- n) else Z.min 2147483647 n.

(** * Logging *)

(** [g_logFile]: null, an open file, or the address of a closed one. *)
Inductive LogFile := NoLog | LogOpen | LogClosed.

Inductive MockEvent :=
| Stdout (t : text)
| Stderr (t : text)
| FileWrite (t : text)          (* vfprintf and fflush on an open file *)
| StaleFileWrite (t : text)     (* the same on a closed one *)
| FileClosed
| ClientOpened (sock : Z)
| Sent (sock : Z) (t : text)
| ClientClosed (sock : Z)
| ListenClosed
| WsaClosed.

Definition end_line : text := [10].

Definition Log (g : LogFile) (t : text) : list MockEvent :=
  Stdout t :: match g with
              | NoLog => []
              | LogOpen => [FileWrite t]
              | LogClosed => [StaleFileWrite t]
              end.

(** Ctrl+C: what is printed, and the new [g_running]. *)
Definition CtrlHandler (g : LogFile) : list MockEvent * bool :=
  (Log g (end_line ++ lit "[MOCK_PROXY] Ctrl+C received. Shutting down..." ++ end_line), false).

(** * One client *)

(** What [recv] gives: bytes, none when the client has closed, or an error. *)
Inductive ClientRecv := Piece (bytes : text) | RecvFailed (err : Z).

Definition WSAETIMEDOUT : Z := 10060.
Definition WSAECONNRESET : Z := 10054.
Definition WSAEINTR : Z := 10004.

Definition response : text := lit "HTTP/1.1 200 Connection established" ++ crlf ++ crlf.

Definition client_tag (client_id : Z) : text := lit "[MOCK_PROXY] Client #" ++ to_string client_id.

(** The body of the loop for received bytes. *)
Definition serve_piece (g : LogFile) (sock client_id : Z) (buf : text) : list MockEvent :=
  let bytes := Z.of_nat (length buf) in
  let show_len := if bytes <? 200 then bytes else 200 in
  Log g (client_tag client_id ++ lit " -> received " ++ to_string bytes ++ lit " bytes: "
         ++ take (Z.to_nat show_len) (cstr buf) ++ end_line)
  ++ Sent sock response :: Log g (client_tag client_id ++ lit " <- sent CONNECT response" ++ end_line).

(** The loop, and [total_recv] at its end. *)
Fixpoint client_loop (g : LogFile) (sock client_id total_recv : Z) (turns : list ClientRecv)
    : list MockEvent * Z :=
  match turns with
  | [] => ([], total_recv)
  | Piece [] :: _ =>
      (Log g (client_tag client_id ++ lit " disconnected (closed connection)" ++ end_line), total_recv)
  | Piece buf :: turns' =>
      let '(es, total) := client_loop g sock client_id (swrap 32 (total_recv + Z.of_nat (length buf))) turns' in
      (serve_piece g sock client_id buf ++ es, total)
  | RecvFailed err :: _ =>
      (Log g (client_tag client_id ++
         (if err =? WSAETIMEDOUT then lit " recv timeout (5s), total: " ++ to_string total_recv ++ lit " bytes"
          else if err =? WSAECONNRESET then lit " connection reset (RST)"
          else lit " recv error: " ++ to_string err) ++ end_line), total_recv)
  end.

Definition HandleClient (g : LogFile) (sock ip port client_id : Z) (turns : list ClientRecv) : list MockEvent :=
  let '(es, total) := client_loop g sock client_id 0 turns in
  Log g (lit "[MOCK_PROXY] --- Client #" ++ to_string client_id ++ lit " connected: " ++ inet_ntop ip ++ lit ":"
         ++ to_string port ++ lit " ---" ++ end_line)
  ++ es ++ ClientClosed sock
  :: Log g (lit "[MOCK_PROXY] --- Client #" ++ to_string client_id ++ lit " disconnected (total received: "
            ++ to_string total ++ lit " bytes) ---" ++ end_line).

(** * The servers *)

Inductive AcceptResult :=
| SelectFailed (err : Z)
| Idle
| AcceptFailed (err : Z)
| Accepted (sock ip port : Z) (turns : list ClientRecv).

Fixpoint accept_loop (g : LogFile) (client_id : Z) (turns : list AcceptResult) : list MockEvent :=
  match turns with
  | [] => []
  | SelectFailed err :: _ => [Stderr (lit "ERROR: select() (err=" ++ to_string err ++ lit ")" ++ end_line)]
  | Idle :: turns' => accept_loop g client_id turns'
  | AcceptFailed err :: turns' =>
      (if err =? WSAEINTR then []
       else [Stderr (lit "ERROR: accept() (err=" ++ to_string err ++ lit ")" ++ end_line)])
      ++ accept_loop g client_id turns'
  | Accepted sock ip port client :: turns' =>
      let client_id := client_id +i32 1 in
      ClientOpened sock :: HandleClient g sock ip port client_id client ++ accept_loop g client_id turns'
  end.

Inductive DatagramTurn := Datagram (ip port : Z) (bytes : text) | DatagramFailed (err : Z).

Fixpoint datagram_loop (g : LogFile) (turns : list DatagramTurn) : list MockEvent :=
  match turns with
  | [] => []
  | Datagram ip port [] :: turns' => datagram_loop g turns'
  | Datagram ip port buf :: turns' =>
      let bytes := Z.of_nat (length buf) in
      Log g (lit "[MOCK_PROXY] UDP packet from " ++ inet_ntop ip ++ lit ":" ++ to_string port ++ lit " ("
             ++ to_string bytes ++ lit " bytes): "
             ++ take (Z.to_nat (if bytes <? 200 then bytes else 200)) (cstr buf) ++ end_line)
      ++ datagram_loop g turns'
  | DatagramFailed err :: turns' =>
      if err =? WSAETIMEDOUT then datagram_loop g turns'
      else [Stderr (lit "ERROR: recvfrom() (err=" ++ to_string err ++ lit ")" ++ end_line)]
  end.

(** * main *)

Record Args := mkArgs { a_port : Z; a_protocol : text; a_log_path : option text }.

Definition Args_default : Args := mkArgs 3128 (lit "tcp") None.

(** The loop over [argv[1..]]: the arguments, or the one that is not known,
    which an option without a value also is. *)
Fixpoint parse_args (argv : list text) (a : Args) : text + Args :=
  match argv with
  | [] => inr a
  | option :: value :: argv' =>
      if text_eqb option (lit "--port") then
        parse_args argv' (mkArgs (atoi value) (a_protocol a) (a_log_path a))
      else if text_eqb option (lit "--protocol") then
        parse_args argv' (mkArgs (a_port a) value (a_log_path a))
      else if text_eqb option (lit "--log") then
        parse_args argv' (mkArgs (a_port a) (a_protocol a) (Some value))
      else inl option
  | [option] => inl option
  end.

(** What the system answers to the calls of [main]. *)
Record Host := mkHost {
  h_fopen : bool;
  h_WSAStartup : bool;
  h_socket : bool;
  h_bind : bool;
  h_listen : bool;
  h_last_error : Z;
  h_accepts : list AcceptResult;
  h_datagrams : list DatagramTurn
}.

Definition error_text (what : text) (err : Z) : MockEvent :=
  Stderr (lit "ERROR: " ++ what ++ lit " (err=" ++ to_string err ++ lit ")" ++ end_line).

Definition rule_line : text := replicate 60 61 ++ end_line.

Definition banner (g : LogFile) (port : Z) (protocol : text) : list MockEvent :=
  Log g rule_line ++ Log g (lit "  MOCK_PROXY (test stub)" ++ end_line)
  ++ Log g (lit "  Listening: 0.0.0.0:" ++ to_string port ++ lit ", protocol: " ++ protocol ++ end_line)
  ++ Log g (lit "  Press Ctrl+C to exit" ++ end_line) ++ Log g rule_line.

(** From [bind] on: the exit code and what happened. *)
Definition serve_host (g : LogFile) (a : Args) (h : Host) : Z * list MockEvent :=
  if negb (h_bind h) then
    (1, [Stderr (lit "ERROR: bind() port " ++ to_string (a_port a) ++ lit " (err=" ++ to_string (h_last_error h)
                 ++ lit ") - maybe port in use" ++ end_line); ListenClosed; WsaClosed])
  else if text_eqb (a_protocol a) (lit "tcp") then
    if negb (h_listen h) then (1, [error_text (lit "listen()") (h_last_error h); ListenClosed; WsaClosed])
    else (0, Log g (lit "[MOCK_PROXY] TCP server started on port " ++ to_string (a_port a)
                    ++ lit ". Waiting for connections..." ++ end_line)
             ++ accept_loop g 0 (h_accepts h) ++ [ListenClosed; WsaClosed])
  else (0, Log g (lit "[MOCK_PROXY] UDP server started on port " ++ to_string (a_port a)
                  ++ lit ". Waiting for datagrams..." ++ end_line)
           ++ datagram_loop g (h_datagrams h) ++ [ListenClosed; WsaClosed]).

Definition finished : text := lit "[MOCK_PROXY] Finished." ++ end_line.

(** The end of [main]: the file is closed and its address kept. *)
Definition leave (g : LogFile) : list MockEvent :=
  match g with
  | NoLog => Log NoLog finished
  | _ => FileClosed :: Log LogClosed finished
  end.

Definition open_log (a : Args) (h : Host) : LogFile * list MockEvent :=
  match a_log_path a with
  | None => (NoLog, [])
  | Some path =>
      if h_fopen h then (LogOpen, [Stdout (lit "[MOCK_PROXY] Logging to file: " ++ path ++ end_line)])
      else (NoLog, [Stderr (lit "[MOCK_PROXY] Failed to open log file: " ++ path ++ end_line)])
  end.

Definition usage : text :=
  lit "Usage: mock_proxy.exe --port PORT --protocol tcp|udp [--log FILE]" ++ end_line.

Definition main (argv : list text) (h : Host) : Z * list MockEvent :=
  match parse_args argv Args_default with
  | inl unknown => (1, [Stderr (lit "Unknown arg: " ++ unknown ++ end_line); Stderr usage])
  | inr a =>
      if (a_port a <=? 0) || (65535 <? a_port a) then
        (1, [Stderr (lit "ERROR: Invalid port: " ++ to_string (a_port a) ++ end_line)])
      else
        let '(g, es) := open_log a h in
        if negb (h_WSAStartup h) then (1, es ++ [error_text (lit "WSAStartup") (h_last_error h)])
        else
          let es := es ++ banner g (a_port a) (a_protocol a) in
          if negb (h_socket h) then (1, es ++ [error_text (lit "socket()") (h_last_error h); WsaClosed])
          else
            let '(code, es') := serve_host g a h in
            (code, es ++ es' ++ (if code =? 0 then leave g else []))
  end.

(** * The log file *)

Definition stale (e : MockEvent) : bool := match e with StaleFileWrite _ => true | _ => false end.

Definition sound (es : list MockEvent) : Prop := Forall (λ e, stale e = false) es.

Lemma sound_app es es' : sound es → sound es' → sound (es ++ es').
Proof. intros. by apply Forall_app. Qed.

Lemma sound_Log g t : g ≠ LogClosed → sound (Log g t).
Proof. intros Hg. destruct g; [by repeat constructor..|done]. Qed.

Lemma sound_one e : stale e = false → sound [e].
Proof. intros H. by repeat constructor. Qed.

Lemma sound_cons e es : stale e = false → sound es → sound (e :: es).
Proof. intros. by constructor. Qed.

Lemma client_loop_sound g sock id total turns : g ≠ LogClosed → sound (fst (client_loop g sock id total turns)).
Proof.
  intros Hg. revert total. induction turns as [|[[|b buf]|err] turns IH]; intros total; cbn [client_loop].
  - apply Forall_nil_2.
  - by apply sound_Log.
  - specialize (IH (swrap 32 (total + Z.of_nat (length (b :: buf))))).
    destruct (client_loop _ _ _ _ turns) as [es n]. cbn [fst] in *.
    apply sound_app; [|done]. apply sound_app; [by apply sound_Log|]. apply sound_cons; [done|by apply sound_Log].
  - by apply sound_Log.
Qed.

Lemma HandleClient_sound g sock ip port id turns : g ≠ LogClosed → sound (HandleClient g sock ip port id turns).
Proof.
  intros Hg. unfold HandleClient. pose proof (client_loop_sound g sock id 0 turns Hg) as H.
  destruct (client_loop _ _ _ _ _) as [es n]. apply sound_app; [by apply sound_Log|]. apply sound_app; [done|].
  apply sound_cons; [done|by apply sound_Log].
Qed.

Lemma accept_loop_sound g id turns : g ≠ LogClosed → sound (accept_loop g id turns).
Proof.
  intros Hg. revert id. induction turns as [|[err| |err|sock ip port client] turns IH]; intros id; cbn [accept_loop].
  - apply Forall_nil_2.
  - by apply sound_one.
  - apply IH.
  - apply sound_app; [|apply IH]. destruct (err =? WSAEINTR); [apply Forall_nil_2|by apply sound_one].
  - apply sound_cons; [done|]. apply sound_app; [by apply HandleClient_sound|apply IH].
Qed.

Lemma datagram_loop_sound g turns : g ≠ LogClosed → sound (datagram_loop g turns).
Proof.
  intros Hg. induction turns as [|[ip port [|b buf]|err] turns IH]; cbn [datagram_loop].
  - apply Forall_nil_2.
  - done.
  - apply sound_app; [by apply sound_Log|done].
  - destruct (err =? WSAETIMEDOUT); [done|by apply sound_one].
Qed.

Lemma serve_host_sound g a h : g ≠ LogClosed → sound (snd (serve_host g a h)).
Proof.
  intros Hg. unfold serve_host. repeat case_match; cbn [snd]; try by repeat constructor.
  - apply sound_app; [by apply sound_Log|]. apply sound_app; [by apply accept_loop_sound|by repeat constructor].
  - apply sound_app; [by apply sound_Log|]. apply sound_app; [by apply datagram_loop_sound|by repeat constructor].
Qed.

Lemma banner_sound g port protocol : g ≠ LogClosed → sound (banner g port protocol).
Proof. intros Hg. unfold banner. repeat (apply sound_app; [by apply sound_Log|]). by apply sound_Log. Qed.

Lemma serve_host_code g a h : fst (serve_host g a h) = 0 ∨ fst (serve_host g a h) = 1.
Proof. unfold serve_host. repeat case_match; auto. Qed.

Lemma open_log_sound a h : fst (open_log a h) ≠ LogClosed ∧ sound (snd (open_log a h)).
Proof. unfold open_log. repeat case_match; (split; [done|]); by repeat constructor. Qed.

(** A run fails, or ends with [leave]. *)
Lemma main_shape argv h :
  let '(code, es) := main argv h in
  (code = 1 ∧ sound es) ∨
  (code = 0 ∧ ∃ a pre, parse_args argv Args_default = inr a ∧ sound pre ∧ es = pre ++ leave (fst (open_log a h))).
Proof.
  unfold main. destruct (parse_args argv Args_default) as [unknown|a]; [left; split; [done|by repeat constructor]|].
  destruct (_ || _) eqn:Hr; [left; split; [done|by apply sound_one]|].
  pose proof (open_log_sound a h) as [Hg H0]. destruct (open_log a h) as [g es0] eqn:Eo. cbn [fst snd] in Hg, H0.
  destruct (negb (h_WSAStartup h)); [left; split; [done|]; by apply sound_app, sound_one|].
  pose proof (banner_sound g (a_port a) (a_protocol a) Hg) as H1.
  destruct (negb (h_socket h)).
  { left. split; [done|]. apply sound_app; [by apply sound_app|by repeat constructor]. }
  pose proof (serve_host_sound g a h Hg) as H2. pose proof (serve_host_code g a h) as Hc.
  destruct (serve_host g a h) as [code es]. cbn [fst snd] in H2, Hc. destruct Hc as [-> | ->].
  - right. split; [done|]. exists a, ((es0 ++ banner g (a_port a) (a_protocol a)) ++ es). rewrite Eo. split; [done|].
    split; [by apply sound_app; [apply sound_app|]|]. by rewrite <- !app_assoc.
  - left. split; [done|]. apply sound_app; [by apply sound_app|]. apply sound_app; [done|apply Forall_nil_2].
Qed.

(** The proxy's last line goes to a file it has closed: whenever it ends in
    success with a log file open, and at no other time, it writes to a closed
    file. *)
Theorem finished_is_logged_to_a_closed_file (argv : list text) (h : Host) :
  let '(code, es) := main argv h in
  Exists (λ e, stale e = true) es ↔
  code = 0 ∧ ∃ a, parse_args argv Args_default = inr a ∧ fst (open_log a h) = LogOpen.
Proof.
  assert (Hno : ∀ es, sound es → ¬ Exists (λ e, stale e = true) es).
  { intros es Hs He. apply Exists_exists in He as (e & Hin & He). by rewrite (proj1 (Forall_forall _ _) Hs e Hin) in He. }
  pose proof (main_shape argv h) as HM. destruct (main argv h) as [code es].
  destruct HM as [[-> Hs]|(-> & a & pre & Ha & Hs & ->)]; [split; [by intros H; apply Hno in H|by intros [? _]]|].
  rewrite Exists_app. split.
  - intros [H|H]; [by apply Hno in H|]. split; [done|]. exists a. split; [done|].
    pose proof (open_log_sound a h) as [Hg _]. destruct (fst (open_log a h)); [|done|done].
    apply Hno in H; [done|]. by apply sound_Log.
  - intros (_ & a' & Ha' & Hg). rewrite Ha in Ha'. injection Ha' as <-. rewrite Hg. right.
    apply Exists_cons. right. apply Exists_cons. right. by apply Exists_cons; left.
Qed.

(** * The clients *)

(** The sockets of clients that are open: one at most, and only the open one
    is used and closed; the listening socket goes last.  [None] is a fault. *)
Fixpoint one_at_a_time (open : option Z) (es : list MockEvent) : option (option Z) :=
  match es with
  | [] => Some open
  | ClientOpened x :: es' => match open with None => one_at_a_time (Some x) es' | Some _ => None end
  | Sent x _ :: es' => if decide (open = Some x) then one_at_a_time open es' else None
  | ClientClosed x :: es' => if decide (open = Some x) then one_at_a_time None es' else None
  | ListenClosed :: es' => match open with None => one_at_a_time None es' | Some _ => None end
  | _ :: es' => one_at_a_time open es'
  end.

Lemma one_at_a_time_app open es es' :
  one_at_a_time open (es ++ es') = match one_at_a_time open es with Some o => one_at_a_time o es' | None => None end.
Proof.
  revert open. induction es as [|e es IH]; intros open; [done|]. cbn [app one_at_a_time].
  destruct e; try apply IH; try (destruct (decide _); [apply IH|done]); destruct open; try done; apply IH.
Qed.

Lemma one_at_a_time_Log open g t : one_at_a_time open (Log g t) = Some open.
Proof. by destruct g. Qed.

Lemma client_loop_turns g x id total turns :
  one_at_a_time (Some x) (fst (client_loop g x id total turns)) = Some (Some x).
Proof.
  revert total. induction turns as [|[[|b buf]|err] turns IH]; intros total; cbn [client_loop fst].
  - done.
  - apply one_at_a_time_Log.
  - specialize (IH (swrap 32 (total + Z.of_nat (length (b :: buf))))).
    destruct (client_loop _ _ _ _ turns) as [es n]. cbn [fst] in *. unfold serve_piece.
    rewrite !one_at_a_time_app, one_at_a_time_Log. cbn [one_at_a_time]. rewrite decide_True by done. by rewrite one_at_a_time_Log.
  - apply one_at_a_time_Log.
Qed.

Lemma HandleClient_turns g x ip port id turns :
  one_at_a_time (Some x) (HandleClient g x ip port id turns) = Some None.
Proof.
  unfold HandleClient. pose proof (client_loop_turns g x id 0 turns) as H.
  destruct (client_loop _ _ _ _ _) as [es n]. cbn [fst] in H. rewrite one_at_a_time_app, one_at_a_time_Log, one_at_a_time_app, H. cbn [one_at_a_time].
  rewrite decide_True by done. apply one_at_a_time_Log.
Qed.

Lemma accept_loop_turns g id turns : one_at_a_time None (accept_loop g id turns) = Some None.
Proof.
  revert id. induction turns as [|[err| |err|x ip port client] turns IH]; intros id; cbn [accept_loop]; try done.
  - rewrite one_at_a_time_app. destruct (err =? WSAEINTR); apply IH.
  - cbn [one_at_a_time]. by rewrite one_at_a_time_app, HandleClient_turns.
Qed.

(** One client at a time: every accepted socket is closed, once, before the
    next is accepted and before the listening socket. *)
Theorem clients_are_served_one_at_a_time (g : LogFile) (a : Args) (h : Host) :
  one_at_a_time None (snd (serve_host g a h)) = Some None.
Proof.
  assert (HD : one_at_a_time None (datagram_loop g (h_datagrams h)) = Some None).
  { induction (h_datagrams h) as [|[ip port [|b buf]|err] turns IH]; cbn [datagram_loop]; try done.
    - by rewrite one_at_a_time_app, one_at_a_time_Log.
    - by destruct (err =? WSAETIMEDOUT). }
  unfold serve_host. repeat case_match; try done; cbn [snd]; rewrite one_at_a_time_app, one_at_a_time_Log, one_at_a_time_app.
  - by rewrite accept_loop_turns.
  - by rewrite HD.
Qed.

(** * The relay against this proxy *)

Fixpoint sent_to (x : Z) (es : list MockEvent) : list text :=
  match es with
  | [] => []
  | Sent y t :: es' => if decide (y = x) then t :: sent_to x es' else sent_to x es'
  | _ :: es' => sent_to x es'
  end.

Lemma sent_to_app x es es' : sent_to x (es ++ es') = sent_to x es ++ sent_to x es'.
Proof.
  induction es as [|e es IH]; [done|]. cbn [app sent_to]. destruct e; try done. destruct (decide _); [|done].
  by rewrite IH.
Qed.

Lemma sent_to_Log x g t : sent_to x (Log g t) = [].
Proof. by destruct g. Qed.

(** A piece is answered by the response. *)
Lemma sent_to_piece g x id total buf turns :
  buf ≠ [] → ∃ total',
  sent_to x (fst (client_loop g x id total (Piece buf :: turns))) =
  response :: sent_to x (fst (client_loop g x id total' turns)).
Proof.
  intros Hb. exists (swrap 32 (total + Z.of_nat (length buf))). cbn [client_loop]. destruct buf as [|b buf]; [done|].
  destruct (client_loop _ _ _ _ turns) as [es n]. cbn [fst]. unfold serve_piece.
  rewrite !sent_to_app, sent_to_Log. cbn [sent_to app]. rewrite decide_True by done. by rewrite sent_to_Log.
Qed.

(** What the pieces after the request bring. *)
Fixpoint echoes (turns : list ClientRecv) : list text :=
  match turns with
  | Piece (_ :: _) :: turns' => response :: echoes turns'
  | _ => []
  end.

Lemma sent_to_echoes g x id total turns : sent_to x (fst (client_loop g x id total turns)) = echoes turns.
Proof.
  revert total. induction turns as [|[[|b buf]|err] turns IH]; intros total; cbn [client_loop echoes fst].
  1, 2, 4: try apply sent_to_Log; done.
  destruct (sent_to_piece g x id total (b :: buf) turns) as [total' H]; [done|]. cbn [client_loop] in H. by rewrite H, IH.
Qed.

(** Against this proxy the relay always reaches a tunnel, with its first
    request, whatever the configuration and the provider; and the client gets,
    in its own stream, one more 200 for each piece it sends. *)
Theorem relay_tunnels_through_the_mock {V P} `{!IAuthenticationProvider P}
    (net_resolve : text → V → option Z * V) (net_socket : V → option Z * V)
    (net_connect : Z → Z → Z → V → bool * V) (net_send : Z → text → V → bool * V)
    (other_threads : gmap Z (list text) * V → text → text) (cfg : RelayConfig)
    (ctx : RelayContext) (segs : gmap Z (list text)) (v : V) (p : option P) (token : text)
    (x : Z) g (sock id : Z) (request : text) turns :
  (∀ h v, is_Some (fst (net_resolve h v))) → (∀ v, fst (net_socket v) = Some x) →
  (∀ a b v, fst (net_connect x a b v) = true) → (∀ t v, fst (net_send x t v) = true) →
  request ≠ [] → segs !!! x = sent_to sock (fst (client_loop g sock id 0 (Piece request :: turns))) →
  let '(o, h) := run_over net_resolve net_socket net_connect net_send other_threads cfg ctx segs v p token in
  o = Bridged (rx_client_sock ctx) x ∧
  ∀ client_send fuel, (length turns < fuel)%nat →
    let r := OneWayRelay stream_recv (λ s t, beside (client_send s t)) fuel x (rx_client_sock ctx) 0 (hs_world h) in
    rl_error r = false → rl_delivered r = concat (echoes turns).
Proof.
  intros Hres Hsock Hconn Hsend Hr Hsegs. destruct (sent_to_piece g sock id 0 request turns Hr) as [total Hp].
  rewrite Hp, sent_to_echoes in Hsegs.
  pose proof (first_answer_tunnels net_resolve net_socket net_connect net_send other_threads cfg ctx segs v p token
    x response (echoes turns) Hres Hsock Hconn Hsend Hsegs eq_refl) as H.
  destruct (run_over _ _ _ _ _ _ _ _ _ _ _) as [o h]. destruct H as [-> Hw]. split; [done|].
  intros client_send fuel Hf r He. unfold r in *. rewrite OneWayRelay_delivers_all; [by rewrite Hw| |done].
  rewrite Hw. assert (Hl : (length (echoes turns) <= length turns)%nat); [|lia].
  clear. induction turns as [|[[|b buf]|err] turns IH]; simpl; lia.
Qed.

Lemma relay_tunnels_through_the_mock_witness :
  fst (greeting_run [response]) = Bridged 7 9.
Proof.
  pose proof (relay_tunnels_through_the_mock (λ _ v, (Some 16777343, v)) (λ v, (Some 9, v)) (λ _ _ _ v, (true, v))
    (λ _ _ v, (true, v)) (λ _ t, t) sample_cfg sample_ctx {[ 9 := [response] ]} tt
    (Some (mkBasic (lit "u") (lit "p"))) [] 9 NoLog 3 1 (lit "CONNECT") []) as H.
  unfold greeting_run. destruct (run_over _ _ _ _ _ _ _ _ _ _ _) as [o h]. apply H.
  - intros. by eexists.
  - reflexivity.
  - reflexivity.
  - reflexivity.
  - discriminate.
  - vm_compute. reflexivity.
Defined.
