(* ===== verification/TestTools.v ===== *)
(** The packet generator of the integration tests, [tests/packet_generator.cpp],
    and the copies of the command line parsers and of the formatting that
    [tests/test_packet_gen.cpp] and [tests/test_mock_proxy.cpp] test in the
    place of the programs.  The copies are compared with the programs. *)

From S2P Require Import Prelude.
From S2P Require Import Text.
From S2P Require Import Relay.
From S2P Require Import MockProxy.

(** * packet_generator.cpp: the command line *)

Record GenArgs := mkGenArgs { g_dest_ip : text; g_dest_port : Z; g_protocol : text; g_count : Z }.

Definition GenArgs_default : GenArgs := mkGenArgs (lit "127.0.0.1") 3128 (lit "tcp") 1.

(** One turn of the loop: an option with its value, or a positional argument.
    [argv[i][0]] of an empty argument is its terminating NUL. *)
Fixpoint generator_args (argv : list text) (positional_count : Z) (a : GenArgs) : option GenArgs :=
  match argv with
  | [] => Some a
  | arg :: argv' =>
      let positional :=
        if negb (nth 0 arg 0 =? 45) then
          if positional_count + 1 =? 1 then
            generator_args argv' (positional_count + 1) (mkGenArgs arg (g_dest_port a) (g_protocol a) (g_count a))
          else if positional_count + 1 =? 2 then
            generator_args argv' (positional_count + 1) (mkGenArgs (g_dest_ip a) (atoi arg) (g_protocol a) (g_count a))
          else None
        else None in
      match argv' with
      | value :: argv'' =>
          if text_eqb arg (lit "--dest_ip") then
            generator_args argv'' positional_count (mkGenArgs value (g_dest_port a) (g_protocol a) (g_count a))
          else if text_eqb arg (lit "--dest_port") then
            generator_args argv'' positional_count (mkGenArgs (g_dest_ip a) (atoi value) (g_protocol a) (g_count a))
          else if text_eqb arg (lit "--protocol") then
            generator_args argv'' positional_count (mkGenArgs (g_dest_ip a) (g_dest_port a) value (g_count a))
          else if text_eqb arg (lit "--count") then
            generator_args argv'' positional_count (mkGenArgs (g_dest_ip a) (g_dest_port a) (g_protocol a) (atoi value))
          else positional
      | [] => positional
      end
  end.

Definition tcp_or_udp (protocol : text) : bool :=
  text_eqb protocol (lit "tcp") || text_eqb protocol (lit "udp").

Definition port_in_range (port : Z) : bool := (0 <? port) && (port <=? 65535).
Definition count_in_range (count : Z) : bool := (0 <? count) && (count <=? 10000).

(** The checks that follow the loop. *)
Definition accepted_args (a : GenArgs) : bool :=
  tcp_or_udp (g_protocol a) && port_in_range (g_dest_port a) && count_in_range (g_count a).

(** * packet_generator.cpp: the packets *)

(** One packet: whether each call succeeds, and what [send] or [sendto] gives. *)
Record PacketTurn := mkPacketTurn {
  pt_socket : option Z;
  pt_connect : bool;
  pt_send : bool;
  pt_ticks : Z
}.

Inductive GenEvent :=
| GSocket (s : Z)
| GConnect (s : Z)
| GSend (s : Z) (t : text)
| GRecv (s : Z)
| GClose (s : Z)
| GSleep (ms : Z).

Definition packet_data (number ticks : Z) : text :=
  take 255 (lit "PACKET #" ++ to_string number ++ lit " FROM packet_generator TIME=" ++ to_string ticks).

(** One packet: was it sent, and may the loop sleep after it (a [continue]
    skips the pause). *)
Definition one_packet (is_tcp : bool) (i : Z) (turn : PacketTurn) : bool * bool * list GenEvent :=
  match pt_socket turn with
  | None => (false, false, [])
  | Some s =>
      let data := packet_data (i + 1) (pt_ticks turn) in
      if is_tcp then
        if pt_connect turn then (pt_send turn, true, [GSocket s; GConnect s; GSend s data; GRecv s; GClose s])
        else (false, false, [GSocket s; GConnect s; GClose s])
      else (pt_send turn, true, [GSocket s; GSend s data; GClose s])
  end.

(** The loop over [count] packets; [left] counts down. *)
Fixpoint send_packets (left : nat) (is_tcp : bool) (i : Z) (turns : Z → PacketTurn) : Z * list GenEvent :=
  match left with
  | O => (0, [])
  | S left' =>
      let '(sent, pause, es) := one_packet is_tcp i (turns i) in
      let '(n, es') := send_packets left' is_tcp (i + 1) turns in
      (Z.b2z sent + n,
       es ++ (if pause && negb (left' =? 0)%nat then [GSleep 100] else []) ++ es')
  end.

(** [main]: the exit code, the packets sent and what was done.  [WSAStartup]
    and [getaddrinfo] are answered by the system. *)
Definition generator_main (argv : list text) (startup resolved : bool) (turns : Z → PacketTurn)
    : Z * Z * list GenEvent :=
  match generator_args argv 0 GenArgs_default with
  | None => (1, 0, [])
  | Some a =>
      if negb (accepted_args a && startup && resolved) then (1, 0, [])
      else
        let '(n, es) := send_packets (Z.to_nat (g_count a)) (text_eqb (g_protocol a) (lit "tcp")) 0 turns in
        (if 0 <? n then 0 else 1, n, es)
  end.

(** ** Every socket is closed before the next packet *)

Definition gen_step (open : option Z) (e : GenEvent) : option (option Z) :=
  match e, open with
  | GSocket s, None => Some (Some s)
  | (GConnect s | GSend s _ | GRecv s), Some s' => if s =? s' then Some open else None
  | GClose s, Some s' => if s =? s' then Some None else None
  | GSleep _, None => Some None
  | _, _ => None
  end.

Fixpoint gen_replay (open : option Z) (es : list GenEvent) : option (option Z) :=
  match es with
  | [] => Some open
  | e :: es' => match gen_step open e with Some o => gen_replay o es' | None => None end
  end.

Lemma gen_replay_app open es es' :
  gen_replay open (es ++ es') = match gen_replay open es with Some o => gen_replay o es' | None => None end.
Proof. revert open. induction es as [|e es IH]; intros open; [done|]. cbn. by destruct (gen_step open e). Qed.

Lemma one_packet_replay is_tcp i turn : gen_replay None (snd (one_packet is_tcp i turn)) = Some None.
Proof.
  unfold one_packet. destruct (pt_socket turn) as [s|]; [|done].
  destruct is_tcp; [destruct (pt_connect turn)|]; cbn; by rewrite !Z.eqb_refl.
Qed.

Lemma send_packets_spec left is_tcp i turns :
  let '(n, es) := send_packets left is_tcp i turns in
  gen_replay None es = Some None ∧ 0 <= n <= Z.of_nat left.
Proof.
  revert i. induction left as [|left IH]; intros i; cbn [send_packets]; [done|].
  pose proof (one_packet_replay is_tcp i (turns i)) as Ho.
  destruct (one_packet is_tcp i (turns i)) as [[sent pause] es]. cbn [snd] in Ho. specialize (IH (i + 1)).
  destruct (send_packets left is_tcp (i + 1) turns) as [n es']. destruct IH as [Hr Hn]. split.
  - rewrite gen_replay_app, Ho, gen_replay_app. by destruct (pause && _).
  - destruct sent; cbn [Z.b2z]; lia.
Qed.

(** The generator closes every socket before it opens the next, sends at most
    10000 packets, and reports success exactly when it sent one. *)
Theorem generator_balances (argv : list text) (startup resolved : bool) (turns : Z → PacketTurn) :
  let '(code, n, es) := generator_main argv startup resolved turns in
  gen_replay None es = Some None ∧ 0 <= n <= 10000 ∧ (code = 0 ↔ 0 < n).
Proof.
  unfold generator_main. destruct (generator_args argv 0 GenArgs_default) as [a|]; [|split; [done|lia]].
  destruct (accepted_args a && startup && resolved) eqn:Ha; cbn [negb]; [|split; [done|lia]].
  pose proof (send_packets_spec (Z.to_nat (g_count a)) (text_eqb (g_protocol a) (lit "tcp")) 0 turns) as H.
  destruct (send_packets _ _ _ _) as [n es]. destruct H as [H Hn]. split; [done|].
  unfold accepted_args, count_in_range in Ha. bool_to_prop. destruct (0 <? n) eqn:E; bool_to_prop; lia.
Qed.

(** * The copies under test *)

(** [ParsePacketGenArgs] of [test_packet_gen.cpp]. *)
Fixpoint ParsePacketGenArgs (argv : list text) (a : GenArgs) : option GenArgs :=
  match argv with
  | [] => Some a
  | option :: value :: argv' =>
      if text_eqb option (lit "--dest_ip") then
        ParsePacketGenArgs argv' (mkGenArgs value (g_dest_port a) (g_protocol a) (g_count a))
      else if text_eqb option (lit "--dest_port") then
        if port_in_range (atoi value)
        then ParsePacketGenArgs argv' (mkGenArgs (g_dest_ip a) (atoi value) (g_protocol a) (g_count a)) else None
      else if text_eqb option (lit "--protocol") then
        if tcp_or_udp value
        then ParsePacketGenArgs argv' (mkGenArgs (g_dest_ip a) (g_dest_port a) value (g_count a)) else None
      else if text_eqb option (lit "--count") then
        if count_in_range (atoi value)
        then ParsePacketGenArgs argv' (mkGenArgs (g_dest_ip a) (g_dest_port a) (g_protocol a) (atoi value)) else None
      else None
  | [_] => None
  end.

(** [ParseMockProxyArgs] of [test_mock_proxy.cpp]: port and protocol. *)
Fixpoint ParseMockProxyArgs (argv : list text) (port : Z) (protocol : text) : option (Z * text) :=
  match argv with
  | [] => Some (port, protocol)
  | option :: value :: argv' =>
      if text_eqb option (lit "--port") then
        if port_in_range (atoi value) then ParseMockProxyArgs argv' (atoi value) protocol else None
      else if text_eqb option (lit "--protocol") then
        if tcp_or_udp value then ParseMockProxyArgs argv' port value else None
      else None
  | [_] => None
  end.

Lemma list_pair_ind {A} (Q : list A → Prop) :
  Q [] → (∀ x, Q [x]) → (∀ x y l, Q l → Q (x :: y :: l)) → ∀ l, Q l.
Proof. intros H0 H1 H2. fix IH 1. intros [|x [|y l]]; [done|apply H1|apply H2, IH]. Qed.

(** What the tested parser of the proxy accepts, the proxy accepts with the
    same meaning. *)
Lemma mock_parser_agrees argv port protocol port' protocol' :
  ParseMockProxyArgs argv port protocol = Some (port', protocol') →
  parse_args argv (mkArgs port protocol None) = inr (mkArgs port' protocol' None).
Proof.
  revert port protocol. induction argv as [|x|x y argv IH] using list_pair_ind; intros port protocol;
    cbn [ParseMockProxyArgs parse_args a_port a_protocol a_log_path]; [congruence|done|].
  destruct (text_eqb x (lit "--port")); [destruct (port_in_range _); [apply IH|done]|].
  destruct (text_eqb x (lit "--protocol")); [destruct (tcp_or_udp _); [apply IH|done]|done].
Qed.

(** But the proxy accepts more: any protocol, which it then serves as UDP. *)
Example mock_parser_differs :
  ParseMockProxyArgs [lit "--protocol"; lit "sctp"] 3128 (lit "tcp") = None ∧
  parse_args [lit "--protocol"; lit "sctp"] Args_default = inr (mkArgs 3128 (lit "sctp") None).
Proof. split; vm_compute; reflexivity. Qed.

Example unknown_protocol_is_udp h :
  h_fopen h = true → h_WSAStartup h = true → h_socket h = true → h_bind h = true →
  h_datagrams h = [Datagram 0 7 (lit "x")] →
  fst (main [lit "--protocol"; lit "sctp"] h) = 0 ∧
  Stdout (lit "[MOCK_PROXY] UDP server started on port 3128. Waiting for datagrams..." ++ end_line)
    ∈ snd (main [lit "--protocol"; lit "sctp"] h).
Proof.
  intros _ Hw Hs Hb Hd. destruct h as [f w s b l err acc dgs]. cbn in Hw, Hs, Hb, Hd. subst.
  split; [vm_compute; reflexivity|]. apply list_elem_of_In. vm_compute. do 5 right. left. reflexivity.
Qed.

Lemma generator_parser_agrees argv a a' :
  accepted_args a = true → ParsePacketGenArgs argv a = Some a' →
  generator_args argv 0 a = Some a' ∧ accepted_args a' = true.
Proof.
  revert a. induction argv as [|x|x y argv IH] using list_pair_ind; intros a Ha; [by intros [= <-]|done|].
  cbn [ParsePacketGenArgs generator_args]. cbv zeta. unfold accepted_args in *. apply andb_true_iff in Ha as [Ha Hc].
  apply andb_true_iff in Ha as [Hp Hn].
  destruct (text_eqb x (lit "--dest_ip")); [apply IH; cbn; by rewrite Hp, Hn, Hc|].
  destruct (text_eqb x (lit "--dest_port")).
  { destruct (port_in_range (atoi y)) eqn:E; [|done]. apply IH. cbn. by rewrite Hp, E, Hc. }
  destruct (text_eqb x (lit "--protocol")).
  { destruct (tcp_or_udp y) eqn:E; [|done]. apply IH. cbn. by rewrite E, Hn, Hc. }
  destruct (text_eqb x (lit "--count")); [|done].
  destruct (count_in_range (atoi y)) eqn:E; [|done]. apply IH. cbn. by rewrite Hp, Hn, E.
Qed.

(** The positional form of the usage line is refused by the tested copy. *)
Example positional_differs :
  ParsePacketGenArgs [lit "google.com"; lit "80"] GenArgs_default = None ∧
  generator_args [lit "google.com"; lit "80"] 0 GenArgs_default =
    Some (mkGenArgs (lit "google.com") 80 (lit "tcp") 1).
Proof. split; vm_compute; reflexivity. Qed.

(** A bad value is refused by the copy at once; the program looks at the last
    one only. *)
Example last_value_counts :
  ParsePacketGenArgs [lit "--count"; lit "0"; lit "--count"; lit "5"] GenArgs_default = None ∧
  generator_args [lit "--count"; lit "0"; lit "--count"; lit "5"] 0 GenArgs_default =
    Some (mkGenArgs (lit "127.0.0.1") 3128 (lit "tcp") 5).
Proof. split; vm_compute; reflexivity. Qed.
