(* ===== verification/RelayServer.v ===== *)
(** The listening side of [infrastructure/relay/TcpRelayServer.h] (port
    [domain/ports/IRelayServer.h]): configuration, [Start], [Stop], the accept
    loop and [HandleNewConnection], which turns an accepted socket into a
    context for [ConnectionHandler] (file Relay). *)

From stdpp Require Import gmultiset.
From S2P Require Import Prelude.
From S2P Require Import Text.
From S2P Require Import Entities.
From S2P Require Import ConnectionTable.
From S2P Require Import Relay.

(** * Configuration *)

Section utf8.
Context (WideCharToMultiByte : text → option text).
Abbreviation WideToUtf8 := (WideToUtf8 WideCharToMultiByte).

Definition SetProxyConfig (config : ProxyConfig) (config_id : Z) : RelayConfig :=
  mkRelayConfig (WideToUtf8 (pc_host config)) (pc_port config) (pc_auth_required config)
    (pc_kerberos_auth config) config_id (WideToUtf8 (pc_login config))
    (WideToUtf8 (pc_plain_password config)).
End utf8.

(** * Start and Stop *)

Record RelayServer := mkServer {
  m_running : bool;
  m_listenSock : option Z;
  m_listenSock6 : option Z;
  m_acceptThread : bool;         (* joinable *)
  m_relayPort : Z;
  srv_trace : list Event
}.

Definition TcpRelayServer_new (relay_port : Z) : RelayServer :=
  mkServer false None None false relay_port [].

(** What the calls of [Start] answer. *)
Record StartOs := mkStartOs {
  so_wsa : bool;
  so_socket : option Z;
  so_bind : bool;
  so_listen : bool;
  so_socket6 : option Z;
  so_bind6 : bool;
  so_listen6 : bool
}.

Definition record_events (es : list Event) (s : RelayServer) : RelayServer :=
  mkServer (m_running s) (m_listenSock s) (m_listenSock6 s) (m_acceptThread s) (m_relayPort s)
    (srv_trace s ++ es).

Definition Start (os : StartOs) (s : RelayServer) : RelayServer * bool :=
  if m_running s then (s, true)
  else if negb (so_wsa os) then (s, false)
  else
    let s := record_events [EvWsaStartup] s in
    match so_socket os with
    | None => (record_events [EvWsaCleanup] s, false)
    | Some sock =>
        let s := record_events [EvSocket sock] s in
        if negb (so_bind os) || negb (so_listen os) then
          (record_events [EvCloseSocket sock; EvWsaCleanup] s, false)
        else
          let '(sock6, es) :=
            match so_socket6 os with
            | None => (None, [])
            | Some sock6 =>
                if negb (so_bind6 os) || negb (so_listen6 os)
                then (None, [EvSocket sock6; EvCloseSocket sock6])
                else (Some sock6, [EvSocket sock6])
            end in
          (mkServer true (Some sock) sock6 true (m_relayPort s) (srv_trace s ++ es), true)
    end.

Definition close_listen (sock : option Z) : list Event :=
  match sock with Some s => [EvCloseSocket s] | None => [] end.

(** H4: up to fifty waits of 100 ms while bridges are active. *)
Fixpoint drain (budget : nat) (active : nat → Z) (i : nat) : list Event :=
  match budget with
  | O => []
  | S budget' => if 0 <? active i then EvSleep 100 :: drain budget' active (S i) else []
  end.

Definition Stop (active : nat → Z) (s : RelayServer) : RelayServer :=
  if negb (m_running s) then s
  else mkServer false None None false (m_relayPort s)
    (srv_trace s ++ close_listen (m_listenSock s) ++ close_listen (m_listenSock6 s)
     ++ drain 50 active O ++ [EvWsaCleanup]).

Definition IsRunning (s : RelayServer) : bool := m_running s.
Definition GetPort (s : RelayServer) : Z := m_relayPort s.

(** * Accepting *)

Section accept.
Context {T : Type} `{!IConnectionTable T}.

Inductive Dispatch :=
| Closed_no_record            (* the port is not in the table *)
| Handed_over (ctx : RelayContext)
| Closed_no_thread.

(** [HandleNewConnection]: [thread] says whether [CreateThread] succeeded. *)
Definition HandleNewConnection (table : T) (client_sock client_port : Z) (is_ipv6 thread : bool)
    : Dispatch :=
  match it_Get client_port table with
  | None => Closed_no_record
  | Some (orig_dest_ip, orig_dest_port) =>
      if thread then
        Handed_over (mkRelayContext client_sock orig_dest_ip orig_dest_port
                       (it_GetProxyConfigId client_port table) is_ipv6)
      else Closed_no_thread
  end.

(** What [select] reports: a client on either socket, with the peer's port and
    whether its thread can be created. *)
Record AcceptEvent := mkAcceptEvent {
  ae_v4 : option (Z * Z * bool);
  ae_v6 : option (Z * Z * bool)
}.

Definition accept_one (table : T) (is_ipv6 : bool) (c : option (Z * Z * bool)) : list Dispatch :=
  match c with
  | Some (sock, port, thread) => [HandleNewConnection table sock port is_ipv6 thread]
  | None => []
  end.

(** One turn of [AcceptLoop]: [None] is a timeout or a [select] error. *)
Definition AcceptTurn (table : T) (s : RelayServer) (e : option AcceptEvent) : list Dispatch :=
  match e with
  | None => []
  | Some e =>
      accept_one table false (ae_v4 e)
      ++ (match m_listenSock6 s with Some _ => accept_one table true (ae_v6 e) | None => [] end)
  end.
End accept.

(** * Properties *)

Inductive server_op := OpStart (os : StartOs) | OpStop (active : nat → Z).

Definition server_step (o : server_op) (s : RelayServer) : RelayServer :=
  match o with OpStart os => fst (Start os s) | OpStop active => Stop active s end.

(** What a server in this state holds. *)
Definition server_holds (s : RelayServer) : held :=
  if m_running s then
    {[+ RWsa +]} ⊎ (match m_listenSock s with Some x => {[+ RSock x +]} | None => ∅ end)
                 ⊎ (match m_listenSock6 s with Some x => {[+ RSock x +]} | None => ∅ end)
  else ∅.

Lemma drain_owns n active i h : owns (drain n active i) h = Some h.
Proof. revert i. induction n as [|n IH]; intros i; simpl; [done|]. destruct (0 <? active i); [apply IH|done]. Qed.

Lemma server_step_owns o s :
  owns (srv_trace s) ∅ = Some (server_holds s) →
  owns (srv_trace (server_step o s)) ∅ = Some (server_holds (server_step o s)).
Proof.
  intros Ho. destruct o as [os|active]; cbn [server_step].
  - unfold Start. destruct (m_running s) eqn:Er; [done|].
    unfold server_holds in Ho. rewrite Er in Ho.
    destruct (so_wsa os); cbn [negb fst]; [|unfold server_holds; by rewrite Er].
    destruct (so_socket os) as [sock|].
    2:{ unfold server_holds. cbn [fst record_events srv_trace m_running]. rewrite Er, <- app_assoc, (owns_app _ _ _ _ Ho). replay. }
    destruct (negb (so_bind os) || negb (so_listen os)).
    { unfold server_holds. cbn [fst record_events srv_trace m_running]. rewrite Er, <- !app_assoc, (owns_app _ _ _ _ Ho). replay. }
    destruct (so_socket6 os) as [sock6|]; [destruct (negb (so_bind6 os) || negb (so_listen6 os))|];
      unfold server_holds; cbn [fst record_events srv_trace m_running m_listenSock m_listenSock6]; rewrite <- !app_assoc, (owns_app _ _ _ _ Ho); replay.
  - unfold Stop. destruct (m_running s) eqn:Er; cbn [negb]; [|done].
    unfold server_holds in *. cbn [m_running srv_trace]. rewrite Er in Ho.
    rewrite (owns_app _ _ _ _ Ho).
    destruct (m_listenSock s) as [a|], (m_listenSock6 s) as [b|]; cbn [close_listen app];
      repeat (cbn [owns ev_step mbind option_bind]; rewrite release_in by multiset_solver);
      cbn [owns ev_step mbind option_bind];
      erewrite owns_app by (by apply drain_owns); replay.
Qed.

(** whatever sequence of [Start] and [Stop] runs and whatever the socket
    calls answer, every listening socket and every [WSAStartup] is given back
    exactly once: at each moment exactly the resources of a running server are
    held, and a stopped or never started server holds none. *)
Theorem server_lifecycle_is_balanced (ops : list server_op) (relay_port : Z) :
  let s := fold_left (λ s o, server_step o s) ops (TcpRelayServer_new relay_port) in
  owns (srv_trace s) ∅ = Some (server_holds s) ∧
  (IsRunning s = false → server_holds s = ∅) ∧ GetPort s = relay_port.
Proof.
  intros s. split; [|split].
  - assert (H : ∀ s0, owns (srv_trace s0) ∅ = Some (server_holds s0) →
      let s1 := fold_left (λ s o, server_step o s) ops s0 in
      owns (srv_trace s1) ∅ = Some (server_holds s1)).
    { induction ops as [|o ops IH]; intros s0 H0; [done|]. apply IH. by apply server_step_owns. }
    apply H. done.
  - unfold IsRunning, server_holds. by intros ->.
  - unfold s. generalize (TcpRelayServer_new relay_port), (eq_refl : GetPort (TcpRelayServer_new relay_port) = relay_port).
    induction ops as [|o ops IH]; intros s0 H0; [done|]. apply IH.
    rewrite <- H0. destruct o as [os|a]; cbn [server_step].
    + unfold Start. repeat case_match; simplify_eq/=; done.
    + unfold Stop. by case_match.
Qed.
