(* ===== verification/RedirectService.v ===== *)
(** [domain/services/RedirectService.c] of the kernel driver, with
    [domain/entities/RedirectInfo.h] and [domain/services/RedirectService.h]:
    the bounded queue of redirected connections, the rule cache and process
    identification.

    Kernel pool memory is modelled where the code allocates and frees it: a
    block is an address with its tag, and freeing a block that is not live, or
    with another tag than it was allocated with, is a bug check ([None]).
    The doubly linked lists are lists; each operation holds its spin lock from
    the first list access to the last. *)

From S2P Require Import Prelude.
From S2P Require Import Text.

(** * RedirectInfo.h *)

Definition MAX_PROCESS_PATH_LENGTH : nat := 260.
Definition MAX_REDIRECT_QUEUE_SIZE : Z := 4096.

Inductive REDIRECT_STATUS :=
| RedirectPending | RedirectAcknowledged | RedirectCompleted | RedirectFailed | RedirectTimedOut.

Record REDIRECT_INFO := mkRedirectInfo {
  ri_RedirectId : Z;
  ri_ProcessId : Z;
  ri_ProcessPath : list Z;
  ri_OriginalAddressV4 : Z;
  ri_OriginalPort : Z;
  ri_RedirectLocalPort : Z;
  ri_IsIPv6 : bool;
  ri_Status : REDIRECT_STATUS;
  ri_Timestamp : Z;
  ri_FlowHandle : Z
}.

Record PROCESS_IDENTITY := mkProcessIdentity {
  pi_ProcessId : Z;
  pi_ProcessName : list Z;       (* WCHAR[64] *)
  pi_ProcessPath : list Z        (* WCHAR[260] *)
}.

Inductive RULE_ACTION_TYPE :=
| RuleActionPermit | RuleActionRedirect | RuleActionBlock | RuleActionOther (n : Z).

Definition RULE_ACTION_of_int (n : Z) : RULE_ACTION_TYPE :=
  if n =? 0 then RuleActionPermit else if n =? 1 then RuleActionRedirect
  else if n =? 2 then RuleActionBlock else RuleActionOther n.

#[export] Instance RULE_ACTION_TYPE_eq_dec : EqDecision RULE_ACTION_TYPE.
Proof. solve_decision. Defined.

Record RULE_ENTRY := mkRuleEntry {
  re_RuleId : Z;
  re_Action : RULE_ACTION_TYPE;
  re_IsWildcard : bool;
  re_IsPathRule : bool;
  re_Pattern : list Z;           (* WCHAR[260] *)
  re_Priority : Z
}.

(** * The pool *)

(** A pool tag is a four character constant. *)
Inductive Tag := Tag_nDrT | Tag_rDrT | Tag_lRrT.

#[export] Instance Tag_eq_dec : EqDecision Tag.
Proof. solve_decision. Defined.

Abbreviation Pool := (gmap Z Tag).

(** [ExAllocatePool2]: [addr] is the block the system picks, if any. *)
Definition ExAllocatePool2 (addr : option Z) (tag : Tag) (pool : Pool) : option Z * Pool :=
  match addr with
  | Some a => (Some a, <[a := tag]> pool)
  | None => (None, pool)
  end.

Definition ExFreePoolWithTag (a : Z) (tag : Tag) (pool : Pool) : option Pool :=
  match pool !! a with
  | Some t => if decide (t = tag) then Some (delete a pool) else None
  | None => None
  end.

(** The loop that frees the entries removed from a list. *)
Fixpoint free_all (tag : Tag) (addrs : list Z) (pool : Pool) : option Pool :=
  match addrs with
  | [] => Some pool
  | a :: addrs' => match ExFreePoolWithTag a tag pool with
                   | Some pool' => free_all tag addrs' pool'
                   | None => None
                   end
  end.

(** * The service *)

Inductive NTSTATUS :=
| STATUS_SUCCESS | STATUS_INVALID_PARAMETER | STATUS_INSUFFICIENT_RESOURCES | STATUS_NOT_FOUND
| STATUS_BUFFER_TOO_SMALL | STATUS_INVALID_DEVICE_REQUEST | STATUS_OTHER (code : Z).

#[export] Instance NTSTATUS_eq_dec : EqDecision NTSTATUS.
Proof. solve_decision. Defined.

(** [NT_SUCCESS]: the code is not negative. *)
Definition NT_SUCCESS (s : NTSTATUS) : bool :=
  match s with
  | STATUS_SUCCESS => true
  | STATUS_OTHER code => 0 <=? code
  | _ => false
  end.

Record REDIRECT_SERVICE := mkService {
  RedirectQueue : list (Z * REDIRECT_INFO);    (* block and contents, head first *)
  QueueCount : Z;
  QueueMaxCount : Z;
  NextRedirectId : Z;
  RedirectEvent : bool;
  RulesList : list (Z * RULE_ENTRY);
  RulesCount : Z;
  TotalRedirects : Z;
  FailedRedirects : Z
}.

Definition RedirectService_Initialize : REDIRECT_SERVICE * NTSTATUS :=
  (mkService [] 0 MAX_REDIRECT_QUEUE_SIZE 1 false [] 0 0 0, STATUS_SUCCESS).

Definition set_queue (q : list (Z * REDIRECT_INFO)) (n : Z) (s : REDIRECT_SERVICE) :=
  mkService q n (QueueMaxCount s) (NextRedirectId s) (RedirectEvent s) (RulesList s)
    (RulesCount s) (TotalRedirects s) (FailedRedirects s).

Definition set_rules (r : list (Z * RULE_ENTRY)) (n : Z) (s : REDIRECT_SERVICE) :=
  mkService (RedirectQueue s) (QueueCount s) (QueueMaxCount s) (NextRedirectId s)
    (RedirectEvent s) r n (TotalRedirects s) (FailedRedirects s).

Definition RedirectService_Cleanup (s : REDIRECT_SERVICE) (pool : Pool)
    : option (REDIRECT_SERVICE * Pool) :=
  match free_all Tag_rDrT (fst <$> RedirectQueue s) pool with
  | None => None
  | Some pool =>
      match free_all Tag_lRrT (fst <$> RulesList s) pool with
      | None => None
      | Some pool => Some (set_rules [] 0 (set_queue [] 0 s), pool)
      end
  end.

Definition stamp (id tick : Z) (i : REDIRECT_INFO) : REDIRECT_INFO :=
  mkRedirectInfo id (ri_ProcessId i) (ri_ProcessPath i) (ri_OriginalAddressV4 i)
    (ri_OriginalPort i) (ri_RedirectLocalPort i) (ri_IsIPv6 i) RedirectPending tick
    (ri_FlowHandle i).

(** [Info] is the block and its contents; [None] is a null pointer. *)
Definition RedirectService_Enqueue (tick : Z) (Info : option (Z * REDIRECT_INFO))
    (s : REDIRECT_SERVICE) : REDIRECT_SERVICE * NTSTATUS :=
  match Info with
  | None => (s, STATUS_INVALID_PARAMETER)
  | Some (a, info) =>
      if QueueMaxCount s <=? QueueCount s then
        (mkService (RedirectQueue s) (QueueCount s) (QueueMaxCount s) (NextRedirectId s)
           (RedirectEvent s) (RulesList s) (RulesCount s) (TotalRedirects s)
           (FailedRedirects s +i64 1), STATUS_INSUFFICIENT_RESOURCES)
      else
        let next := NextRedirectId s +i32 1 in
        (mkService (RedirectQueue s ++ [(a, stamp (wrap 64 next) tick info)])
           (QueueCount s +i32 1) (QueueMaxCount s) next true (RulesList s) (RulesCount s)
           (TotalRedirects s +i64 1) (FailedRedirects s), STATUS_SUCCESS)
  end.

Definition RedirectService_Dequeue (s : REDIRECT_SERVICE)
    : REDIRECT_SERVICE * option (Z * REDIRECT_INFO) * NTSTATUS :=
  match RedirectQueue s with
  | [] => (s, None, STATUS_NOT_FOUND)
  | e :: q => (set_queue q (QueueCount s -i32 1) s, Some e, STATUS_SUCCESS)
  end.

(** [while (i < batchSize && !IsListEmpty(...))] *)
Fixpoint peek_loop (batch : nat) (s : REDIRECT_SERVICE) : REDIRECT_SERVICE * list (Z * REDIRECT_INFO) :=
  match batch with
  | O => (s, [])
  | S batch' =>
      match RedirectQueue s with
      | [] => (s, [])
      | e :: q => let '(s', l) := peek_loop batch' (set_queue q (QueueCount s -i32 1) s) in
                  (s', e :: l)
      end
  end.

Definition RedirectService_PeekBatch (count : Z) (s : REDIRECT_SERVICE)
    : REDIRECT_SERVICE * list (Z * REDIRECT_INFO) * NTSTATUS :=
  let '(s', l) := peek_loop (Z.to_nat count) s in
  (s', l, match l with [] => STATUS_NOT_FOUND | _ => STATUS_SUCCESS end).

Definition RedirectService_Acknowledge (RedirectId : Z) (s : REDIRECT_SERVICE) : NTSTATUS :=
  STATUS_SUCCESS.

Definition RedirectService_AddRule (addr : option Z) (Rule : option RULE_ENTRY)
    (s : REDIRECT_SERVICE) (pool : Pool) : REDIRECT_SERVICE * Pool * NTSTATUS :=
  match Rule with
  | None => (s, pool, STATUS_INVALID_PARAMETER)
  | Some rule =>
      match ExAllocatePool2 addr Tag_lRrT pool with
      | (None, pool) => (s, pool, STATUS_INSUFFICIENT_RESOURCES)
      | (Some a, pool) =>
          (set_rules (RulesList s ++ [(a, rule)]) (RulesCount s +i32 1) s, pool, STATUS_SUCCESS)
      end
  end.

Definition RedirectService_ClearRules (s : REDIRECT_SERVICE) (pool : Pool)
    : option (REDIRECT_SERVICE * Pool) :=
  match free_all Tag_lRrT (fst <$> RulesList s) pool with
  | None => None
  | Some pool => Some (set_rules [] 0 s, pool)
  end.

(** * Matching *)

(** The inner loop of [wcsstr]: compare [s2] with the text at [s1] up to the
    end of either.  Reading past the array is [None]. *)
Fixpoint wcs_prefix (s1 s2 : list Z) : option bool :=
  match s1, s2 with
  | [], _ | _, [] => None
  | c1 :: s1', c2 :: s2' =>
      if c1 =? 0 then Some (c2 =? 0)
      else if c2 =? 0 then Some true
      else if c1 =? c2 then wcs_prefix s1' s2' else Some false
  end.

Fixpoint wcs_find (hay pattern : list Z) : option bool :=
  match hay with
  | [] => None
  | c :: hay' =>
      if c =? 0 then Some false
      else match wcs_prefix hay pattern with
           | Some true => Some true
           | Some false => wcs_find hay' pattern
           | None => None
           end
  end.

(** [wcsstr(hay, pattern) != NULL] on two fixed arrays. *)
Definition wcsstr (hay pattern : list Z) : option bool :=
  match pattern with
  | [] => None
  | c :: _ => if c =? 0 then Some true else wcs_find hay pattern
  end.

Fixpoint match_loop (rules : list (Z * RULE_ENTRY)) (id : PROCESS_IDENTITY)
    : option RULE_ACTION_TYPE :=
  match rules with
  | [] => Some RuleActionPermit
  | (_, rule) :: rules' =>
      if re_IsWildcard rule then Some (re_Action rule)
      else
        match wcsstr (if re_IsPathRule rule then pi_ProcessPath id else pi_ProcessName id)
                     (re_Pattern rule) with
        | None => None
        | Some true => Some (re_Action rule)
        | Some false => match_loop rules' id
        end
  end.

Definition RedirectService_MatchRule (s : REDIRECT_SERVICE) (ProcessId : option PROCESS_IDENTITY)
    : option RULE_ACTION_TYPE :=
  match ProcessId with
  | None => Some RuleActionPermit
  | Some id => match_loop (RulesList s) id
  end.

(** * Identification *)

(** A UNICODE_STRING: [Length] in bytes and the buffer. *)
Record UNICODE_STRING := mkUnicode { us_Length : Z; us_Buffer : list Z }.

(** [n] bytes of an integer, least significant first. *)
Fixpoint le (n : nat) (z : Z) : list Z :=
  match n with O => [] | S n' => z mod 256 :: le n' (z / 256) end.

Fixpoint unle (bs : list Z) : Z :=
  match bs with [] => 0 | b :: bs' => b + 256 * unle bs' end.

Definition wchars (s : list Z) : list Z := flat_map (le 2) s.

Fixpoint unwchars (n : nat) (bs : list Z) : list Z :=
  match n with O => [] | S n' => unle (take 2 bs) :: unwchars n' (drop 2 bs) end.

(** What the process manager answers for one id.  The source declares
    PsGetProcessImageFileName as returning a pointer to a UNICODE_STRING; the
    function of the kernel returns one to the characters of an ANSI name.  The
    model has the sixteen bytes that the pointer leads to. *)
Record ProcessOs := mkProcessOs {
  po_lookup : NTSTATUS;                          (* PsLookupProcessByProcessId *)
  po_image : option (list Z);                    (* PsGetProcessImageFileName *)
  po_path : option UNICODE_STRING                (* SeLocateProcessImageName *)
}.

(** [RtlCopyMemory] into a zeroed array of [n] units, at most [2*n - 2] bytes. *)
Definition copy_name (n : nat) (name : UNICODE_STRING) : list Z :=
  let bytes := Z.min (us_Length name) (2 * Z.of_nat n - 2) in
  let units := take (Z.to_nat (bytes / 2)) (us_Buffer name) in
  units ++ replicate (n - length units) 0.

(** Length and Buffer of the UNICODE_STRING in these bytes. *)
Definition image_string (bytes : list Z) : Z * Z := (unle (take 2 bytes), unle (take 8 (drop 8 bytes))).

Section identify.
(** The kernel's memory: so many bytes at an address, or a page fault. *)
Context (kernel_memory : Z → nat → option (list Z)).

(** The name copied into [WCHAR ProcessName[64]]; [None] is a bug check. *)
Definition image_name (bytes : list Z) : option (list Z) :=
  let '(len, buffer) := image_string bytes in
  let n := Z.min len 126 in
  match (if n <=? 0 then Some [] else kernel_memory buffer (Z.to_nat n)) with
  | None => None
  | Some copied =>
      let copied := take (Z.to_nat n) copied in
      Some (unwchars 64 (copied ++ replicate (128 - length copied) 0))
  end.

Definition RedirectService_IdentifyProcess (os : ProcessOs) (MetaValues : option Z)
    : option (option PROCESS_IDENTITY * NTSTATUS) :=
  match MetaValues with
  | None => Some (None, STATUS_INVALID_PARAMETER)
  | Some pid =>
      let zero := mkProcessIdentity pid (replicate 64 0) (replicate MAX_PROCESS_PATH_LENGTH 0) in
      if negb (NT_SUCCESS (po_lookup os)) then Some (Some zero, po_lookup os)
      else
        match (match po_image os with
               | Some image => image_name image | None => Some (replicate 64 0) end) with
        | None => None
        | Some name =>
            let path := match po_path os with
                        | Some image => copy_name MAX_PROCESS_PATH_LENGTH image
                        | None => replicate MAX_PROCESS_PATH_LENGTH 0 end in
            Some (Some (mkProcessIdentity pid name path), STATUS_SUCCESS)
        end
  end.
End identify.

Definition RedirectService_GetStats (s : REDIRECT_SERVICE) : Z * Z * Z :=
  (wrap 32 (QueueCount s), TotalRedirects s, FailedRedirects s).

(** * Matching never leaves its arrays *)

Definition terminated (s : list Z) : bool := existsb (Z.eqb 0) s.

Lemma terminated_cons c s : c ≠ 0 → terminated (c :: s) = terminated s.
Proof. intros Hc. unfold terminated. cbn [existsb]. by destruct (Z.eqb_spec 0 c). Qed.

Lemma wcs_prefix_spec s1 s2 :
  terminated s1 = true → (length s1 <= length s2)%nat →
  wcs_prefix s1 s2 = Some (prefixb (cstr s2) (cstr s1)).
Proof.
  revert s2. induction s1 as [|c1 s1 IH]; intros [|c2 s2] Ht Hl; try done; [simpl in Hl; lia|].
  simpl in Hl. cbn [wcs_prefix cstr]. destruct (Z.eqb_spec c1 0) as [->|Hc1].
  - by destruct (Z.eqb_spec c2 0).
  - destruct (Z.eqb_spec c2 0) as [->|Hc2]; simpl; [done|].
    rewrite (Z.eqb_sym c2 c1). destruct (Z.eqb_spec c1 c2); simpl; [|done].
    rewrite IH; [done|by rewrite terminated_cons in Ht|lia].
Qed.

Lemma contains_cons_eq p c s :
  contains p (c :: s) = prefixb p (c :: s) || contains p s.
Proof.
  unfold contains. cbn [find_sub]. destruct (prefixb p (c :: s)); [done|].
  by destruct (find_sub p s).
Qed.

Lemma wcsstr_spec hay p :
  terminated hay = true → (length hay <= length p)%nat →
  wcsstr hay p = Some (contains (cstr p) (cstr hay)).
Proof.
  intros Ht Hl. destruct p as [|c p]; [destruct hay; simpl in *; [done|lia]|].
  cbn [wcsstr]. destruct (Z.eqb_spec c 0) as [->|Hc].
  { unfold contains. cbn [cstr Z.eqb]. by destruct (cstr hay). }
  assert (Hp : ∃ q, cstr (c :: p) = c :: q).
  { exists (cstr p). simpl. by destruct (Z.eqb_spec c 0). }
  destruct Hp as [q Hq]. revert Ht Hl. generalize (c :: p) as pat, Hq. clear.
  intros pat Hq Ht. revert Ht. induction hay as [|h hay IH]; [done|].
  intros Ht Hl. pose proof (wcs_prefix_spec _ _ Ht Hl) as Hpre.
  cbn [wcs_find]. simpl in Hl.
  rewrite Hpre, Hq. cbn [cstr]. destruct (Z.eqb_spec h 0) as [->|Hh]; [done|].
  rewrite contains_cons_eq. destruct (prefixb (c :: q) (h :: cstr hay)); simpl; [done|].
  rewrite IH; [by rewrite Hq|by rewrite terminated_cons in Ht|lia].
Qed.

(** The rule that decides for a process, as its documentation has it. *)
Definition rule_matches (id : PROCESS_IDENTITY) (rule : RULE_ENTRY) : bool :=
  re_IsWildcard rule
  || contains (cstr (re_Pattern rule))
       (cstr (if re_IsPathRule rule then pi_ProcessPath id else pi_ProcessName id)).

Definition identity_wf (id : PROCESS_IDENTITY) : Prop :=
  terminated (pi_ProcessName id) = true ∧ length (pi_ProcessName id) = 64%nat ∧
  terminated (pi_ProcessPath id) = true ∧
  length (pi_ProcessPath id) = MAX_PROCESS_PATH_LENGTH.

Definition rule_wf (rule : RULE_ENTRY) : Prop :=
  length (re_Pattern rule) = MAX_PROCESS_PATH_LENGTH.

Lemma match_loop_spec rules id :
  identity_wf id → Forall (λ e, rule_wf (snd e)) rules →
  match_loop rules id =
  Some (match find_first (rule_matches id) (snd <$> rules) with
        | Some rule => re_Action rule | None => RuleActionPermit end).
Proof.
  intros (Hn & Hnl & Hp & Hpl). induction 1 as [|[a rule] rules Hr _ IH]; [done|].
  cbn [match_loop]. rewrite fmap_cons. cbn [find_first snd].
  unfold rule_matches at 1. destruct (re_IsWildcard rule); [done|]. simpl.
  unfold rule_wf in Hr. simpl in Hr.
  rewrite wcsstr_spec; [destruct (contains _ _); [done|apply IH]| |];
    destruct (re_IsPathRule rule); rewrite ?Hnl, ?Hpl, ?Hr; unfold MAX_PROCESS_PATH_LENGTH;
    done || lia.
Qed.

Lemma terminated_replicate n : terminated (replicate (S n) 0) = true.
Proof. done. Qed.

Lemma copy_name_wf n name :
  (0 < n)%nat → length (copy_name n name) = n ∧ terminated (copy_name n name) = true.
Proof.
  intros Hn. unfold copy_name. set (u := take _ _).
  assert (Hu : (length u < n)%nat).
  { unfold u. rewrite length_take.
    assert (Z.min (us_Length name) (2 * Z.of_nat n - 2) / 2 <= Z.of_nat n - 1)
      by (Z.div_mod_to_equations; lia). lia. }
  rewrite length_app, length_replicate. split; [lia|].
  unfold terminated. rewrite existsb_app.
  destruct (n - length u)%nat eqn:E; [lia|]. simpl. apply orb_true_r.
Qed.

Lemma length_le n z : length (le n z) = n.
Proof. revert z. induction n; intros; simpl; auto. Qed.

Lemma length_wchars s : length (wchars s) = (2 * length s)%nat.
Proof. induction s; simpl in *; lia. Qed.

Lemma length_unwchars n bs : length (unwchars n bs) = n.
Proof. revert bs. induction n; intros; simpl; auto. Qed.

(** Two zero bytes at an even offset are a terminator. *)
Lemma unwchars_terminated n bs : drop (2 * n) bs = [0; 0] → terminated (unwchars (S n) bs) = true.
Proof.
  revert bs. induction n as [|n IH]; intros bs H.
  - change (2 * 0)%nat with 0%nat in H. rewrite drop_0 in H. by subst bs.
  - change (unwchars (S (S n)) bs) with (unle (take 2 bs) :: unwchars (S n) (drop 2 bs)).
    cbn [terminated existsb]. unfold terminated in IH. cbn [existsb]. rewrite IH; [by rewrite orb_true_r|].
    rewrite drop_drop. by replace (2 + 2 * n)%nat with (2 * S n)%nat by lia.
Qed.

Lemma image_name_wf mem bytes name :
  image_name mem bytes = Some name → length name = 64%nat ∧ terminated name = true.
Proof.
  unfold image_name. destruct (image_string bytes) as [len buffer].
  destruct (if _ <=? 0 then _ else _) as [copied|]; [|done]. intros E. apply (inj Some) in E as <-.
  set (c := take _ copied). assert (Hc : (length c <= 126)%nat) by (unfold c; rewrite length_take; lia).
  split; [apply length_unwchars|]. apply (unwchars_terminated 63).
  rewrite drop_app_ge by lia. rewrite drop_replicate.
  by replace (128 - length c - (2 * 63 - length c))%nat with 2%nat by lia.
Qed.

Lemma IdentifyProcess_wf mem os m id st :
  RedirectService_IdentifyProcess mem os m = Some (Some id, st) → identity_wf id.
Proof.
  unfold RedirectService_IdentifyProcess, identity_wf.
  assert (Hr : ∀ n, (0 < n)%nat → length (replicate n 0) = n ∧ terminated (replicate n 0) = true).
  { intros [|n] Hn; [lia|]. by rewrite length_replicate. }
  destruct m as [pid|]; [|done]. destruct (negb _).
  { intros [= <- _]. by split_and!. }
  destruct (match po_image os with Some image => _ | None => _ end) as [name|] eqn:En; [|done].
  intros [= <- _]. cbn [pi_ProcessName pi_ProcessPath].
  assert (Hn : length name = 64%nat ∧ terminated name = true).
  { destruct (po_image os); [by eapply image_name_wf|]. apply (inj Some) in En as <-. apply Hr; lia. }
  assert (Hp : ∀ path, path = (match po_path os with
      | Some image => copy_name MAX_PROCESS_PATH_LENGTH image
      | None => replicate MAX_PROCESS_PATH_LENGTH 0 end) →
      length path = MAX_PROCESS_PATH_LENGTH ∧ terminated path = true).
  { intros path ->. destruct (po_path os); [apply copy_name_wf|apply Hr];
      unfold MAX_PROCESS_PATH_LENGTH; lia. }
  destruct Hn, (Hp _ eq_refl). by split_and!.
Qed.

(** The process exists, and the string its image name is taken for is not empty
    and has its characters where the kernel has no memory. *)
Definition unreadable_name (mem : Z → nat → option (list Z)) (os : ProcessOs) : bool :=
  NT_SUCCESS (po_lookup os) &&
  match po_image os with
  | Some image => let '(len, buffer) := image_string image in
                  let n := Z.min len 126 in
                  (0 <? n) && match mem buffer (Z.to_nat n) with None => true | Some _ => false end
  | None => false
  end.

Lemma IdentifyProcess_faults mem os pid :
  RedirectService_IdentifyProcess mem os (Some pid) = None ↔ unreadable_name mem os = true.
Proof.
  unfold RedirectService_IdentifyProcess, unreadable_name, image_name.
  destruct (NT_SUCCESS (po_lookup os)); cbn [negb andb]; [|done].
  destruct (po_image os) as [image|]; [|done]. destruct (image_string image) as [len buffer].
  cbv zeta. destruct (Z.leb_spec (Z.min len 126) 0) as [H|H].
  - rewrite (proj2 (Z.ltb_ge _ _)) by done. done.
  - rewrite (proj2 (Z.ltb_lt _ _)) by done. cbn [andb]. by destruct (mem buffer _).
Qed.

(** A known process is identified or the call faults. *)
Lemma IdentifyProcess_known mem os pid :
  unreadable_name mem os = false →
  ∃ id st, RedirectService_IdentifyProcess mem os (Some pid) = Some (Some id, st) ∧ identity_wf id.
Proof.
  intros H. destruct (RedirectService_IdentifyProcess mem os (Some pid)) as [[[id|] st]|] eqn:E.
  - eexists _, _. split; [done|]. by eapply IdentifyProcess_wf.
  - exfalso. unfold RedirectService_IdentifyProcess in E. destruct (negb _); [done|].
    by destruct (match po_image os with Some _ => _ | None => _ end).
  - apply IdentifyProcess_faults in E. congruence.
Qed.

(** The name of a process of at most ten characters is taken for a
    UNICODE_STRING whose length is its first two characters, and whose buffer
    is its ninth and tenth: an address that no kernel has memory at.  So, if
    the pages below 65536 cannot be read, identifying it is a bug check. *)
Theorem ansi_names_are_wild_pointers mem name pid path :
  (∀ a n, 0 <= a < 65536 → mem a n = None) →
  length name = 16%nat → Forall (λ c, 0 <= c < 256) name → 0 < nth 0 name 0 → drop 10 name = replicate 6 0 →
  RedirectService_IdentifyProcess mem (mkProcessOs STATUS_SUCCESS (Some name) path) (Some pid) = None.
Proof.
  intros Hm Hl Hb H0 Hd.
  do 16 (destruct name as [|? name]; [discriminate Hl|]). destruct name; [|discriminate Hl].
  cbn in Hd. injection Hd as -> -> -> -> -> ->. cbn in H0.
  repeat match goal with H : Forall _ (_ :: _) |- _ => apply Forall_cons in H as [? H] end.
  unfold RedirectService_IdentifyProcess. cbn [po_lookup po_image NT_SUCCESS negb].
  unfold image_name, image_string. cbn [take drop unle].
  rewrite (proj2 (Z.leb_gt _ 0)) by lia. by rewrite Hm by lia.
Qed.

(** matching an identified process against any rule cache reads inside its
    arrays, even for a rule whose pattern has no terminator, and gives the
    action of the first rule that is a wildcard or whose pattern occurs in the
    name or path it is for, and Permit when there is none. *)
Theorem first_matching_rule_decides mem os pid id st s :
  RedirectService_IdentifyProcess mem os (Some pid) = Some (Some id, st) →
  Forall (λ e, rule_wf (snd e)) (RulesList s) →
  RedirectService_MatchRule s (Some id) =
  Some (match find_first (rule_matches id) (snd <$> RulesList s) with
        | Some rule => re_Action rule
        | None => RuleActionPermit
        end).
Proof. intros H. by apply match_loop_spec, (IdentifyProcess_wf _ _ _ _ _ H). Qed.

Definition sample_rule (path : bool) (a : RULE_ACTION_TYPE) (pattern : text) : RULE_ENTRY :=
  mkRuleEntry 1 a false path (pattern ++ replicate (260 - length pattern) 0) 0.

Definition sample_service : REDIRECT_SERVICE :=
  set_rules [(16, sample_rule true RuleActionBlock (lit "Windows"));
             (32, mkRuleEntry 2 RuleActionRedirect false false (replicate 260 97) 0);
             (48, sample_rule false RuleActionRedirect (lit "chrome"))] 3
    (fst RedirectService_Initialize).

(** A kernel that answers as the source expects: the string has its buffer at
    65536. *)
Definition sample_memory (a : Z) (n : nat) : option (list Z) :=
  if a =? 65536 then Some (take n (wchars (lit "chrome.exe") ++ replicate n 0)) else None.

Definition sample_process : ProcessOs :=
  mkProcessOs STATUS_SUCCESS (Some (le 2 20 ++ le 2 22 ++ le 4 0 ++ le 8 65536))
    (Some (mkUnicode 30 (lit "C:\Apps\chrome."))).

Lemma first_matching_rule_decides_witness :
  ∃ id, RedirectService_IdentifyProcess sample_memory sample_process (Some 4) = Some (Some id, STATUS_SUCCESS) ∧
        RedirectService_MatchRule sample_service (Some id) = Some RuleActionRedirect.
Proof.
  eexists. split; [vm_compute; reflexivity|].
  refine (eq_trans (first_matching_rule_decides sample_memory sample_process 4 _ STATUS_SUCCESS
    sample_service _ _) _).
  - vm_compute. reflexivity.
  - repeat constructor.
  - vm_compute. reflexivity.
Defined.

Lemma ansi_names_are_wild_pointers_witness :
  RedirectService_IdentifyProcess sample_memory
    (mkProcessOs STATUS_SUCCESS (Some (lit "chrome.exe" ++ replicate 6 0)) None) (Some 4) = None.
Proof.
  apply ansi_names_are_wild_pointers; [|reflexivity| |reflexivity|reflexivity].
  - intros a n Ha. unfold sample_memory. rewrite (proj2 (Z.eqb_neq a 65536)); [reflexivity|lia].
  - match goal with |- Forall ?P ?l => let l' := eval vm_compute in l in change (Forall P l') end.
    repeat (apply List.Forall_cons; [lia|]). apply List.Forall_nil.
Defined.

(** * The queue is a bounded first-in first-out queue *)

Inductive QueueOp :=
| OpEnqueue (tick : Z) (Info : option (Z * REDIRECT_INFO))
| OpDequeue
| OpPeekBatch (count : Z)
| OpGetStats.

Inductive QueueRes :=
| ResStatus (st : NTSTATUS)
| ResBatch (batch : list (Z * REDIRECT_INFO)) (st : NTSTATUS)
| ResStats (pending total failed : Z).

Definition queue_call (op : QueueOp) (s : REDIRECT_SERVICE) : REDIRECT_SERVICE * QueueRes :=
  match op with
  | OpEnqueue tick info => let '(s', st) := RedirectService_Enqueue tick info s in (s', ResStatus st)
  | OpDequeue => let '(s', o, st) := RedirectService_Dequeue s in (s', ResBatch (option_list o) st)
  | OpPeekBatch n => let '(s', l, st) := RedirectService_PeekBatch n s in (s', ResBatch l st)
  | OpGetStats => let '(p, t, f) := RedirectService_GetStats s in (s, ResStats p t f)
  end.

(** The specification: pending entries, and how many were accepted and refused. *)
Record FifoQueue := mkFifo { fq_pending : list (Z * REDIRECT_INFO); fq_accepted : Z; fq_refused : Z }.

Definition fifo_take (n : nat) (q : FifoQueue) : FifoQueue * QueueRes :=
  (mkFifo (drop n (fq_pending q)) (fq_accepted q) (fq_refused q),
   ResBatch (take n (fq_pending q))
     (if decide (take n (fq_pending q) = []) then STATUS_NOT_FOUND else STATUS_SUCCESS)).

Definition fifo_call (op : QueueOp) (q : FifoQueue) : FifoQueue * QueueRes :=
  match op with
  | OpEnqueue _ None => (q, ResStatus STATUS_INVALID_PARAMETER)
  | OpEnqueue tick (Some (a, info)) =>
      if Z.of_nat (length (fq_pending q)) <? MAX_REDIRECT_QUEUE_SIZE then
        (mkFifo (fq_pending q ++ [(a, stamp (2 + fq_accepted q) tick info)])
           (fq_accepted q + 1) (fq_refused q), ResStatus STATUS_SUCCESS)
      else (mkFifo (fq_pending q) (fq_accepted q) (fq_refused q + 1),
            ResStatus STATUS_INSUFFICIENT_RESOURCES)
  | OpDequeue => fifo_take 1 q
  | OpPeekBatch n => fifo_take (Z.to_nat n) q
  | OpGetStats => (q, ResStats (Z.of_nat (length (fq_pending q))) (fq_accepted q) (fq_refused q))
  end.

Fixpoint calls {S R} (f : QueueOp → S → S * R) (ops : list QueueOp) (s : S) : S * list R :=
  match ops with
  | [] => (s, [])
  | op :: ops' => let '(s1, r) := f op s in let '(s2, rs) := calls f ops' s1 in (s2, r :: rs)
  end.

Record fifo_rel (s : REDIRECT_SERVICE) (q : FifoQueue) : Prop := mkFifoRel {
  fr_queue : RedirectQueue s = fq_pending q;
  fr_count : QueueCount s = Z.of_nat (length (fq_pending q));
  fr_bound : Z.of_nat (length (fq_pending q)) <= 4096;
  fr_max : QueueMaxCount s = 4096;
  fr_next : NextRedirectId s = 1 + fq_accepted q;
  fr_total : TotalRedirects s = fq_accepted q;
  fr_failed : FailedRedirects s = fq_refused q;
  fr_pos : 0 <= fq_accepted q ∧ 0 <= fq_refused q
}.

Lemma set_queue_rel s q n :
  fifo_rel s q →
  fifo_rel (set_queue (drop n (fq_pending q)) (Z.of_nat (length (drop n (fq_pending q)))) s)
    (fst (fifo_take n q)).
Proof.
  intros []. constructor; simpl; auto. rewrite length_drop. lia.
Qed.

Lemma swrap32_small z : -2147483648 <= z < 2147483648 → swrap 32 z = z.
Proof. intros. apply swrap_small; [lia|]. unfold in_s. simpl. lia. Qed.

Lemma swrap64_small z : -2147483648 <= z < 2147483648 → swrap 64 z = z.
Proof. intros. apply swrap_small; [lia|]. unfold in_s. simpl. lia. Qed.

Lemma peek_loop_spec n s q :
  fifo_rel s q →
  peek_loop n s =
  (set_queue (drop n (fq_pending q)) (Z.of_nat (length (drop n (fq_pending q)))) s,
   take n (fq_pending q)).
Proof.
  revert s q. induction n as [|n IH]; intros s q H.
  - cbn [peek_loop]. rewrite drop_0, take_0. destruct H as [<- <- _ _ _ _ _ _]. by destruct s.
  - cbn [peek_loop]. rewrite (fr_queue _ _ H). destruct (fq_pending q) as [|e l] eqn:E.
    + f_equal. destruct H as [Hq Hc _ _ _ _ _ _]. rewrite E in Hq, Hc. destruct s; simpl in *.
      by subst.
    + pose proof (set_queue_rel s q 1 H) as H1. rewrite E in H1. cbn [drop] in H1.
      rewrite drop_0 in H1.
      assert (Hc : QueueCount s -i32 1 = Z.of_nat (length l)).
      { rewrite (fr_count _ _ H), E. pose proof (fr_bound _ _ H) as Hb. rewrite E in Hb.
        simpl length in *. rewrite swrap32_small; lia. }
      rewrite Hc, (IH _ _ H1). unfold fifo_take. cbn [fst fq_pending]. rewrite E. cbn [drop].
      by rewrite drop_0.
Qed.

Lemma queue_call_refines op s q :
  fifo_rel s q → fq_accepted q + fq_refused q < 2147483646 →
  fifo_rel (fst (queue_call op s)) (fst (fifo_call op q)) ∧
  snd (queue_call op s) = snd (fifo_call op q).
Proof.
  intros H Hb. destruct op as [tick [[a info]|]| |n|]; cbn [queue_call fifo_call].
  - unfold RedirectService_Enqueue. rewrite (fr_max _ _ H), (fr_count _ _ H).
    destruct H. unfold MAX_REDIRECT_QUEUE_SIZE in *.
    rewrite Z.leb_antisym. destruct (Z.ltb_spec (Z.of_nat (length (fq_pending q))) 4096) as [Hl|Hl]; cbn [negb].
    + split; [|done]. cbn [fst]. rewrite fr_next0, fr_queue0, fr_total0.
      rewrite (swrap32_small (1 + fq_accepted q + 1)), (swrap64_small (fq_accepted q + 1)),
        (swrap32_small (Z.of_nat _ + 1)) by lia.
      rewrite wrap_small by (unfold in_u; lia).
      replace (1 + fq_accepted q + 1) with (2 + fq_accepted q) by lia.
      constructor; cbn [fq_pending fq_accepted fq_refused RedirectQueue QueueCount QueueMaxCount
        NextRedirectId TotalRedirects FailedRedirects]; rewrite ?length_app; simpl length; done || lia.
    + split; [|done]. cbn [fst]. rewrite fr_failed0, swrap64_small by lia.
      constructor; cbn; auto; lia.
  - done.
  - pose proof (peek_loop_spec 1 s q H) as Hp. pose proof (set_queue_rel s q 1 H) as H1.
    unfold RedirectService_Dequeue. cbn [peek_loop] in Hp.
    destruct (RedirectQueue s) as [|e l] eqn:E; apply pair_equal_spec in Hp as [Hs Ht];
      rewrite <- Hs in H1; unfold fifo_take in *; cbn [fst snd option_list] in *;
      rewrite <- Ht; (split; [exact H1|by destruct (decide _)]).
  - unfold RedirectService_PeekBatch. rewrite (peek_loop_spec _ s q H). cbn [fst snd fifo_take].
    split; [by apply set_queue_rel|]. f_equal.
    destruct (take (Z.to_nat n) (fq_pending q)); by destruct (decide _).
  - split; [done|]. unfold RedirectService_GetStats. destruct H.
    cbn [snd]. rewrite fr_count0, fr_total0, fr_failed0, wrap_small; [done|unfold in_u; lia].
Qed.

Lemma fifo_call_grows op q :
  fq_accepted q + fq_refused q <= fq_accepted (fst (fifo_call op q)) + fq_refused (fst (fifo_call op q))
  <= fq_accepted q + fq_refused q + 1.
Proof. destruct op as [tick [[a info]|]| |n|]; simpl; try lia. destruct (_ <? _); simpl; lia. Qed.

Lemma calls_refine ops s q :
  fifo_rel s q → fq_accepted q + fq_refused q + Z.of_nat (length ops) <= 2147483646 →
  fifo_rel (fst (calls queue_call ops s)) (fst (calls fifo_call ops q)) ∧
  snd (calls queue_call ops s) = snd (calls fifo_call ops q).
Proof.
  revert s q. induction ops as [|op ops IH]; intros s q H Hb; [done|].
  cbn [length] in Hb. pose proof (fifo_call_grows op q).
  destruct (queue_call_refines op s q H) as [H1 H2]; [lia|].
  cbn [calls]. destruct (queue_call op s) as [s1 r1], (fifo_call op q) as [q1 r1'].
  cbn [fst snd] in *. subst r1'.
  destruct (IH s1 q1 H1) as [H3 H4]; [lia|].
  destruct (calls queue_call ops s1), (calls fifo_call ops q1). cbn [fst snd] in *. by subst.
Qed.

(** C24: any sequence of enqueue, dequeue, batch and statistics calls on a fresh
    service behaves as a first-in first-out queue of at most 4096 entries:
    entries leave in the order they came, each with its own redirect id (from
    2 upwards), an entry that finds the queue full is refused and counted, and
    the statistics count the queued, accepted and refused entries.  The 32-bit
    id counter bounds the number of calls. *)
Theorem queue_is_bounded_fifo ops :
  Z.of_nat (length ops) <= 2147483646 →
  snd (calls queue_call ops (fst RedirectService_Initialize)) =
  snd (calls fifo_call ops (mkFifo [] 0 0)).
Proof. intros H. apply calls_refine; [by constructor; simpl; try lia|simpl; lia]. Qed.

Definition sample_info (port : Z) : REDIRECT_INFO :=
  mkRedirectInfo 0 1234 [] 16909060 port 0 false RedirectCompleted 0 0.

Definition sample_ops : list QueueOp :=
  [OpEnqueue 7 (Some (100, sample_info 80)); OpEnqueue 8 (Some (200, sample_info 443));
   OpDequeue; OpPeekBatch 64; OpDequeue; OpGetStats].

Lemma queue_is_bounded_fifo_witness :
  snd (calls queue_call sample_ops (fst RedirectService_Initialize)) =
  [ResStatus STATUS_SUCCESS; ResStatus STATUS_SUCCESS;
   ResBatch [(100, stamp 2 7 (sample_info 80))] STATUS_SUCCESS;
   ResBatch [(200, stamp 3 8 (sample_info 443))] STATUS_SUCCESS;
   ResBatch [] STATUS_NOT_FOUND; ResStats 0 2 0].
Proof.
  refine (eq_trans (queue_is_bounded_fifo sample_ops _) _); [simpl; lia|].
  vm_compute. reflexivity.
Defined.

(** * Ownership of pool memory *)

Definition tagged (tag : Tag) {A} (l : list (Z * A)) : list (Z * Tag) := (λ e, (fst e, tag)) <$> l.

(** Every live block of the driver is in exactly one of its two lists. *)
Definition blocks (s : REDIRECT_SERVICE) : list (Z * Tag) :=
  tagged Tag_nDrT (RedirectQueue s) ++ tagged Tag_lRrT (RulesList s).

Definition owns_pool (s : REDIRECT_SERVICE) (pool : Pool) : Prop :=
  NoDup (fst <$> blocks s) ∧ pool = list_to_map (blocks s).

Lemma free_all_blocks {A} tag (l : list (Z * A)) rest :
  NoDup (fst <$> tagged tag l ++ rest) →
  free_all tag (fst <$> l) (list_to_map (tagged tag l ++ rest)) = Some (list_to_map rest).
Proof.
  induction l as [|[a x] l IH]; [done|]. cbn. intros [Ha Hnd]%NoDup_cons.
  unfold ExFreePoolWithTag. rewrite lookup_insert_eq. destruct (decide _); [|done].
  rewrite delete_insert_id; [by apply IH|]. by apply not_elem_of_list_to_map_1.
Qed.

(** Freeing with another tag than the block has is a bug check. *)
Lemma free_all_wrong_tag {A} t1 t2 (l : list (Z * A)) rest :
  t1 ≠ t2 → l ≠ [] →
  free_all t2 (fst <$> l) (list_to_map (tagged t1 l ++ rest)) = None.
Proof.
  intros Ht Hl. destruct l as [|[a x] l]; [done|]. cbn.
  unfold ExFreePoolWithTag. rewrite lookup_insert_eq. by destruct (decide _).
Qed.

Lemma owns_pool_rules_first s pool :
  owns_pool s pool →
  NoDup (fst <$> tagged Tag_lRrT (RulesList s) ++ tagged Tag_nDrT (RedirectQueue s)) ∧
  pool = list_to_map (tagged Tag_lRrT (RulesList s) ++ tagged Tag_nDrT (RedirectQueue s)).
Proof.
  intros [Hnd ->]. unfold blocks in *.
  assert (Hp : tagged Tag_nDrT (RedirectQueue s) ++ tagged Tag_lRrT (RulesList s)
    ≡ₚ tagged Tag_lRrT (RulesList s) ++ tagged Tag_nDrT (RedirectQueue s)) by apply Permutation_app_comm.
  split; [by rewrite <- Hp|]. by apply list_to_map_proper.
Qed.

Lemma ClearRules_owns s pool :
  owns_pool s pool →
  ∃ pool', RedirectService_ClearRules s pool = Some (set_rules [] 0 s, pool') ∧
           owns_pool (set_rules [] 0 s) pool'.
Proof.
  intros H. destruct (owns_pool_rules_first _ _ H) as [Hnd ->].
  unfold RedirectService_ClearRules. rewrite free_all_blocks by done.
  eexists. split; [done|]. unfold owns_pool, blocks. cbn [set_rules RedirectQueue RulesList].
  change (tagged Tag_lRrT []) with (@nil (Z * Tag)). rewrite app_nil_r. split; [|done].
  rewrite fmap_app in Hnd. by apply NoDup_app in Hnd as (_ & _ & ?).
Qed.

Lemma owns_pool_insert s s' pool a t :
  owns_pool s pool → pool !! a = None → blocks s' ≡ₚ (a, t) :: blocks s →
  owns_pool s' (<[a := t]> pool).
Proof.
  intros [Hnd ->] Ha Hp.
  assert (Hnd' : NoDup (fst <$> (a, t) :: blocks s)).
  { apply NoDup_cons. split; [|done]. by apply not_elem_of_list_to_map_2 in Ha. }
  split; [by rewrite Hp|].
  rewrite <- list_to_map_cons. apply list_to_map_proper; [done|by symmetry].
Qed.

Lemma AddRule_owns s pool addr rule s' pool' st :
  owns_pool s pool → (∀ a, addr = Some a → pool !! a = None) →
  RedirectService_AddRule addr rule s pool = (s', pool', st) → owns_pool s' pool'.
Proof.
  intros H Hf. unfold RedirectService_AddRule.
  destruct rule as [rule|]; [|by intros; simplify_eq].
  destruct addr as [a|]; cbn [ExAllocatePool2]; intros [= <- <- <-]; [|done].
  eapply owns_pool_insert; [exact H|by apply Hf|].
  unfold blocks. cbn [set_rules RedirectQueue RulesList]. unfold tagged.
  rewrite fmap_app, app_assoc. symmetry. apply Permutation_cons_append.
Qed.

Lemma peek_loop_split n s s' l :
  peek_loop n s = (s', l) →
  RedirectQueue s = l ++ RedirectQueue s' ∧ RulesList s' = RulesList s ∧
  length l = Nat.min n (length (RedirectQueue s)).
Proof.
  revert s s' l. induction n as [|n IH]; intros s s' l; cbn [peek_loop].
  - intros [= <- <-]. simpl. auto.
  - destruct (RedirectQueue s) as [|e q] eqn:E.
    + intros [= <- <-]. simpl. rewrite E. split_and!; auto; lia.
    + destruct (peek_loop n _) as [s1 l1] eqn:E1. intros [= <- <-].
      destruct (IH _ _ _ E1) as (H1 & H2 & H3). cbn in H1, H2, H3. subst q. simpl.
      split_and!; auto; lia.
Qed.

(** Taking a batch off the queue and freeing it. *)
Lemma batch_owns n s s' l pool :
  owns_pool s pool → peek_loop n s = (s', l) →
  ∃ pool', free_all Tag_nDrT (fst <$> l) pool = Some pool' ∧ owns_pool s' pool'.
Proof.
  intros [Hnd ->] Hp. destruct (peek_loop_split _ _ _ _ Hp) as (Hq & Hr & _).
  unfold owns_pool, blocks in *. rewrite Hq, <- Hr in Hnd |- *.
  unfold tagged in *. rewrite fmap_app, <- app_assoc in Hnd |- *.
  rewrite (free_all_blocks Tag_nDrT l) by done. eexists. split; [done|]. split; [|done].
  rewrite fmap_app in Hnd. by apply NoDup_app in Hnd as (_ & _ & ?).
Qed.

Lemma Cleanup_owns s pool :
  owns_pool s pool →
  RedirectService_Cleanup s pool =
  if decide (RedirectQueue s = []) then Some (set_rules [] 0 (set_queue [] 0 s), ∅) else None.
Proof.
  intros H. unfold RedirectService_Cleanup. destruct (decide (RedirectQueue s = [])) as [Hq|Hq].
  - rewrite Hq. cbn [fmap list_fmap free_all]. destruct H as [Hnd ->]. unfold blocks in *.
    rewrite Hq in *. cbn in Hnd |- *.
    rewrite <- (app_nil_r (tagged Tag_lRrT (RulesList s))) in Hnd |- *.
    by rewrite free_all_blocks.
  - destruct H as [_ ->]. unfold blocks. by rewrite free_all_wrong_tag.
Qed.
