(* ===== verification/Driver.v ===== *)
(** The rest of the kernel driver: [infrastructure/ioctl/IoctlHandler.c],
    [infrastructure/wfp/WfpCallout.c] and [adapters/driving/DriverEntry.c].

    A device control request carries its system buffer as bytes; every read
    and write of the handler is checked against the buffer's length, so that
    an access outside it is [None], as is a bug check of the pool.  The
    allocator, the kernel's memory, the process manager and the filter engine are
    parameters. *)

From S2P Require Import Prelude.
From S2P Require Import Text.
From S2P Require Import RedirectService.

(** * Bytes *)

Definition write_at (off : nat) (bs buf : list Z) : option (list Z) :=
  if (off + length bs <=? length buf)%nat
  then Some (take off buf ++ bs ++ drop (off + length bs) buf) else None.

Definition read_at (off n : nat) (buf : list Z) : option (list Z) :=
  if (off + n <=? length buf)%nat then Some (take n (drop off buf)) else None.

Fixpoint write_fields (fields : list (nat * list Z)) (buf : list Z) : option (list Z) :=
  match fields with
  | [] => Some buf
  | (off, bs) :: fields' =>
      match write_at off bs buf with Some buf => write_fields fields' buf | None => None end
  end.

(** * IoctlHandler.h *)

Definition METHOD_IN_DIRECT : Z := 1.
Definition METHOD_OUT_DIRECT : Z := 2.
Definition METHOD_NEITHER : Z := 3.
Definition FILE_ANY_ACCESS : Z := 0.

Definition CTL_CODE (device function method access : Z) : Z :=
  Z.lor (Z.lor (Z.shiftl device 16) (Z.shiftl access 14)) (Z.lor (Z.shiftl function 2) method).

Definition IOCTL_REDIRECTOR_BASE : Z := 0x8000.
Definition IOCTL_REDIRECTOR_GET_PENDING := CTL_CODE IOCTL_REDIRECTOR_BASE 0x800 METHOD_OUT_DIRECT FILE_ANY_ACCESS.
Definition IOCTL_REDIRECTOR_ACK_REDIRECT := CTL_CODE IOCTL_REDIRECTOR_BASE 0x801 METHOD_IN_DIRECT FILE_ANY_ACCESS.
Definition IOCTL_REDIRECTOR_GET_STATS := CTL_CODE IOCTL_REDIRECTOR_BASE 0x802 METHOD_OUT_DIRECT FILE_ANY_ACCESS.
Definition IOCTL_REDIRECTOR_SET_RULES := CTL_CODE IOCTL_REDIRECTOR_BASE 0x803 METHOD_IN_DIRECT FILE_ANY_ACCESS.
Definition IOCTL_REDIRECTOR_CLEAR_RULES := CTL_CODE IOCTL_REDIRECTOR_BASE 0x804 METHOD_NEITHER FILE_ANY_ACCESS.
Definition IOCTL_REDIRECTOR_QUERY_PROCESS := CTL_CODE IOCTL_REDIRECTOR_BASE 0x805 METHOD_IN_DIRECT FILE_ANY_ACCESS.

(** Sizes of the structures on x64. *)
Definition sizeof_REDIRECT_DATA_PACKET : nat := 568.
Definition sizeof_DRIVER_STATS_PACKET : nat := 32.
Definition sizeof_PROCESS_IDENTITY : nat := 656.
Definition sizeof_RULE_ENTRY : nat := 552.

(** The fields of a packet that the handler writes, at their offsets
    ([OriginalAddressV6] and [Padding] are not among them). *)
Definition packet_fields (base : nat) (info : REDIRECT_INFO) : list (nat * list Z) :=
  [(base, le 8 (ri_RedirectId info)); ((base + 8)%nat, le 8 (ri_ProcessId info));
   ((base + 16)%nat, wchars (ri_ProcessPath info));
   ((base + 536)%nat, le 4 (ri_OriginalAddressV4 info));
   ((base + 556)%nat, le 2 (ri_OriginalPort info));
   ((base + 558)%nat, le 2 (ri_RedirectLocalPort info));
   ((base + 560)%nat, [if ri_IsIPv6 info then 1 else 0])].

Definition stats_fields (s : REDIRECT_SERVICE) : list (nat * list Z) :=
  let '(pending, total, failed) := RedirectService_GetStats s in
  [(0%nat, le 4 pending); (8%nat, le 8 total); (16%nat, le 8 failed);
   (24%nat, le 4 (wrap 32 (RulesCount s))); (28%nat, le 4 MAX_REDIRECT_QUEUE_SIZE)].

Definition identity_fields (id : PROCESS_IDENTITY) : list (nat * list Z) :=
  [(0%nat, le 8 (pi_ProcessId id)); (8%nat, wchars (pi_ProcessName id));
   (136%nat, wchars (pi_ProcessPath id))].

(** A [RULE_ENTRY] read from the input buffer. *)
Definition rule_of_bytes (bs : list Z) : RULE_ENTRY :=
  mkRuleEntry (unle (take 4 (drop 16 bs)))
    (RULE_ACTION_of_int (swrap 32 (unle (take 4 (drop 20 bs)))))
    (negb (nth 24 bs 0 =? 0)) (negb (nth 25 bs 0 =? 0))
    (unwchars MAX_PROCESS_PATH_LENGTH (drop 26 bs)) (unle (take 4 (drop 548 bs))).

(** * The device control handler *)

Record IRP := mkIrp {
  irp_IoControlCode : Z;
  irp_InputBufferLength : Z;
  irp_OutputBufferLength : Z;
  irp_SystemBuffer : list Z
}.

Record Completion := mkCompletion {
  c_Status : NTSTATUS;
  c_Information : Z;
  c_Buffer : list Z
}.

Section handler.
(** The allocator: [alloc n pool] is the block of its [n]-th call. *)
Context (alloc : nat → Pool → option Z).
(** The kernel's memory and its process manager. *)
Context (kernel_memory : Z → nat → option (list Z)).
Context (processes : Z → ProcessOs).

Fixpoint write_packets (i : nat) (l : list (Z * REDIRECT_INFO)) (buf : list Z) : option (list Z) :=
  match l with
  | [] => Some buf
  | (_, info) :: l' =>
      match write_fields (packet_fields (i * sizeof_REDIRECT_DATA_PACKET) info) buf with
      | Some buf => write_packets (S i) l' buf
      | None => None
      end
  end.

Definition get_pending (irp : IRP) (s : REDIRECT_SERVICE) (pool : Pool)
    : option (REDIRECT_SERVICE * Pool * Completion) :=
  let buf := irp_SystemBuffer irp in
  let maxCount := Z.min (irp_OutputBufferLength irp / Z.of_nat sizeof_REDIRECT_DATA_PACKET) 64 in
  let '(s, redirects, st) := RedirectService_PeekBatch maxCount s in
  if NT_SUCCESS st then
    match write_packets 0 redirects buf with
    | None => None
    | Some buf =>
        match free_all Tag_nDrT (fst <$> redirects) pool with
        | None => None
        | Some pool =>
            Some (s, pool, mkCompletion STATUS_SUCCESS
                    (Z.of_nat (length redirects * sizeof_REDIRECT_DATA_PACKET)) buf)
        end
    end
  else Some (s, pool, mkCompletion STATUS_NOT_FOUND 0 buf).

(** [for (i = 0; i < ruleCount; i++)], stopping at the first failure. *)
Fixpoint add_rules (seed i count : nat) (buf : list Z) (st : NTSTATUS) (s : REDIRECT_SERVICE)
    (pool : Pool) : option (REDIRECT_SERVICE * Pool * NTSTATUS) :=
  match count with
  | O => Some (s, pool, st)
  | S count' =>
      match read_at (i * sizeof_RULE_ENTRY) sizeof_RULE_ENTRY buf with
      | None => None
      | Some bs =>
          let '(s, pool, st) :=
            RedirectService_AddRule (alloc (seed + i) pool) (Some (rule_of_bytes bs)) s pool in
          if NT_SUCCESS st then add_rules seed (S i) count' buf st s pool
          else Some (s, pool, st)
      end
  end.

Definition set_rules_ioctl (seed : nat) (irp : IRP) (s : REDIRECT_SERVICE) (pool : Pool)
    : option (REDIRECT_SERVICE * Pool * Completion) :=
  let buf := irp_SystemBuffer irp in
  let ruleCount := irp_InputBufferLength irp / Z.of_nat sizeof_RULE_ENTRY in
  if 0 <? ruleCount then
    match RedirectService_ClearRules s pool with
    | None => None
    | Some (s, pool) =>
        match add_rules seed 0 (Z.to_nat ruleCount) buf STATUS_SUCCESS s pool with
        | None => None
        | Some (s, pool, st) => Some (s, pool, mkCompletion st 0 buf)
        end
    end
  else Some (s, pool, mkCompletion STATUS_SUCCESS 0 buf).

Definition query_process (irp : IRP) : option Completion :=
  let buf := irp_SystemBuffer irp in
  if (8 <=? irp_InputBufferLength irp)
     && (Z.of_nat sizeof_PROCESS_IDENTITY <=? irp_OutputBufferLength irp) then
    match read_at 0 8 buf with
    | None => None
    | Some bs =>
        match RedirectService_IdentifyProcess kernel_memory (processes (unle bs)) (Some (unle bs)) with
        | None => None
        | Some (None, st) => Some (mkCompletion st 0 buf)
        | Some (Some id, st) =>
            match write_fields (identity_fields id) buf with
            | None => None
            | Some buf =>
                Some (mkCompletion st
                  (if NT_SUCCESS st then Z.of_nat sizeof_PROCESS_IDENTITY else 0) buf)
            end
        end
    end
  else Some (mkCompletion STATUS_BUFFER_TOO_SMALL 0 buf).

Definition IoctlHandler_DeviceControl (seed : nat) (irp : IRP) (s : REDIRECT_SERVICE) (pool : Pool)
    : option (REDIRECT_SERVICE * Pool * Completion) :=
  let code := irp_IoControlCode irp in
  let buf := irp_SystemBuffer irp in
  if code =? IOCTL_REDIRECTOR_GET_PENDING then get_pending irp s pool
  else if code =? IOCTL_REDIRECTOR_ACK_REDIRECT then
    if 8 <=? irp_InputBufferLength irp then
      match read_at 0 8 buf with
      | None => None
      | Some bs => Some (s, pool, mkCompletion (RedirectService_Acknowledge (unle bs) s) 0 buf)
      end
    else Some (s, pool, mkCompletion STATUS_BUFFER_TOO_SMALL 0 buf)
  else if code =? IOCTL_REDIRECTOR_GET_STATS then
    if Z.of_nat sizeof_DRIVER_STATS_PACKET <=? irp_OutputBufferLength irp then
      match write_fields (stats_fields s) buf with
      | None => None
      | Some buf => Some (s, pool, mkCompletion STATUS_SUCCESS
                                     (Z.of_nat sizeof_DRIVER_STATS_PACKET) buf)
      end
    else Some (s, pool, mkCompletion STATUS_BUFFER_TOO_SMALL 0 buf)
  else if code =? IOCTL_REDIRECTOR_SET_RULES then set_rules_ioctl seed irp s pool
  else if code =? IOCTL_REDIRECTOR_CLEAR_RULES then
    match RedirectService_ClearRules s pool with
    | None => None
    | Some (s, pool) => Some (s, pool, mkCompletion STATUS_SUCCESS 0 buf)
    end
  else if code =? IOCTL_REDIRECTOR_QUERY_PROCESS then
    match query_process irp with
    | None => None
    | Some c => Some (s, pool, c)
    end
  else Some (s, pool, mkCompletion STATUS_INVALID_DEVICE_REQUEST 0 buf).

(** * WfpCallout.c: classification *)

Inductive ActionType := FWP_ACTION_PERMIT | FWP_ACTION_BLOCK.

Inductive ClassifyEvent :=
| EvAcquireClassifyHandle | EvReleaseClassifyHandle
| EvAcquireWritableLayerData | EvApplyModifiedLayerData (redirected : bool).

(** The values and handles of one call, and the answers of the filter engine. *)
Record ClassifyCall := mkClassify {
  cc_remoteAddr : Z;
  cc_remotePort : Z;
  cc_inMetaValues : option Z;          (* the process id *)
  cc_classifyContext : bool;           (* not null *)
  cc_acquireHandle : NTSTATUS;
  cc_acquireWritable : NTSTATUS;
  cc_connectRequest : bool;            (* not null *)
  cc_tick : Z
}.

Record ClassifyResult := mkClassifyResult {
  cr_actionType : ActionType;
  cr_events : list ClassifyEvent
}.

Definition redirect_info (c : ClassifyCall) (id : PROCESS_IDENTITY) : REDIRECT_INFO :=
  mkRedirectInfo 0 (pi_ProcessId id) (pi_ProcessPath id) (cc_remoteAddr c) (cc_remotePort c)
    0 false RedirectPending 0 0.

(** The innermost block: allocate, redirect, queue; whether the connect
    request got the redirect handle. *)
Definition queue_redirect (seed : nat) (c : ClassifyCall) (id : PROCESS_IDENTITY)
    (s : REDIRECT_SERVICE) (pool : Pool) : option (REDIRECT_SERVICE * Pool * bool) :=
  match ExAllocatePool2 (alloc seed pool) Tag_nDrT pool with
  | (None, pool) => Some (s, pool, false)
  | (Some a, pool) =>
      let '(s, st) := RedirectService_Enqueue (cc_tick c) (Some (a, redirect_info c id)) s in
      if NT_SUCCESS st then Some (s, pool, true)
      else match ExFreePoolWithTag a Tag_nDrT pool with
           | Some pool => Some (s, pool, true)
           | None => None
           end
  end.

Definition TcpRedirectClassify (g_redirectHandle : bool) (seed : nat) (c : ClassifyCall)
    (s : REDIRECT_SERVICE) (pool : Pool) : option (REDIRECT_SERVICE * Pool * ClassifyResult) :=
  let permit evs := mkClassifyResult FWP_ACTION_PERMIT evs in
  let os := match cc_inMetaValues c with
            | Some pid => processes pid | None => mkProcessOs STATUS_SUCCESS None None end in
  match RedirectService_IdentifyProcess kernel_memory os (cc_inMetaValues c) with
  | None => None
  | Some (None, _) => Some (s, pool, permit [])
  | Some (Some id, st) =>
      if negb (NT_SUCCESS st) then Some (s, pool, permit [])
      else
        match RedirectService_MatchRule s (Some id) with
        | None => None
        | Some action =>
            if negb (bool_decide (action = RuleActionRedirect)) then Some (s, pool, permit [])
            else if g_redirectHandle && cc_classifyContext c then
              if NT_SUCCESS (cc_acquireHandle c) then
                if NT_SUCCESS (cc_acquireWritable c) && cc_connectRequest c then
                  match queue_redirect seed c id s pool with
                  | None => None
                  | Some (s, pool, redirected) =>
                      Some (s, pool, permit
                        [EvAcquireClassifyHandle; EvAcquireWritableLayerData;
                         EvApplyModifiedLayerData redirected; EvReleaseClassifyHandle])
                  end
                else Some (s, pool, permit [EvAcquireClassifyHandle; EvReleaseClassifyHandle])
              else Some (s, pool, permit [])
            else Some (s, pool, permit [])
        end
  end.
End handler.

Definition TcpRedirectNotify (notifyType : Z) : NTSTATUS := STATUS_SUCCESS.
Definition TcpRedirectFlowDelete (layerId calloutId flowContext : Z) : NTSTATUS := STATUS_SUCCESS.

(** * Loading and unloading *)

(** What the driver holds of the I/O manager and the filter engine.  The
    objects added through an engine session opened with
    [FWPM_SESSION_FLAG_DYNAMIC] are deleted with the session. *)
Record Held := mkHeld {
  h_device : bool;
  h_symlink : bool;
  h_engine : bool;
  h_redirect : bool;
  h_callout : bool;
  h_session : nat              (* objects of the session *)
}.

Definition nothing_held : Held := mkHeld false false false false false 0.

Record Globals := mkGlobals {
  g_RedirectService : REDIRECT_SERVICE;
  g_DeviceObject : bool;       (* not NULL *)
  g_EngineHandle : bool;
  g_redirectHandle : bool;
  g_redirectCalloutId : Z;
  g_held : Held
}.

Definition set_held (h : Held) (g : Globals) : Globals :=
  mkGlobals (g_RedirectService g) (g_DeviceObject g) (g_EngineHandle g) (g_redirectHandle g)
    (g_redirectCalloutId g) h.

(** Answers of the system while the driver loads. *)
Record LoadOs := mkLoadOs {
  lo_createDevice : NTSTATUS;
  lo_createSymlink : NTSTATUS;
  lo_engineOpen : NTSTATUS;
  lo_redirectCreate : NTSTATUS;
  lo_calloutRegister : NTSTATUS;
  lo_calloutId : Z;
  lo_calloutAdd : NTSTATUS;
  lo_providerAdd : NTSTATUS;
  lo_subLayerAdd : NTSTATUS;
  lo_filterAdd : NTSTATUS
}.

Definition IoctlHandler_CreateDevice (os : LoadOs) (g : Globals) : Globals * NTSTATUS :=
  let h := g_held g in
  if negb (NT_SUCCESS (lo_createDevice os)) then (g, lo_createDevice os)
  else if negb (NT_SUCCESS (lo_createSymlink os)) then
    (* IoDeleteDevice, *DeviceObject = NULL *)
    (mkGlobals (g_RedirectService g) false (g_EngineHandle g) (g_redirectHandle g)
       (g_redirectCalloutId g) h, lo_createSymlink os)
  else
    (mkGlobals (g_RedirectService g) true (g_EngineHandle g) (g_redirectHandle g)
       (g_redirectCalloutId g)
       (mkHeld true true (h_engine h) (h_redirect h) (h_callout h) (h_session h)), STATUS_SUCCESS).

Definition IoctlHandler_DeleteDevice (g : Globals) : Globals :=
  if g_DeviceObject g then
    let h := g_held g in
    set_held (mkHeld false false (h_engine h) (h_redirect h) (h_callout h) (h_session h)) g
  else g.

Definition FwpmEngineClose (h : Held) : Held :=
  mkHeld (h_device h) (h_symlink h) false (h_redirect h) (h_callout h) 0.

(** The session objects added, of callout, provider, sublayer and filter. *)
Definition added (os : LoadOs) : nat :=
  length (filter (λ st, NT_SUCCESS st = true)
    [lo_calloutAdd os; lo_providerAdd os; lo_subLayerAdd os; lo_filterAdd os]).

Definition WfpCallout_Register (os : LoadOs) (g : Globals) : Globals * NTSTATUS :=
  let h := g_held g in
  if negb (NT_SUCCESS (lo_redirectCreate os)) then (g, lo_redirectCreate os)
  else if negb (NT_SUCCESS (lo_calloutRegister os)) then
    (mkGlobals (g_RedirectService g) (g_DeviceObject g) (g_EngineHandle g) false
       (g_redirectCalloutId g) h, lo_calloutRegister os)
  else
    (mkGlobals (g_RedirectService g) (g_DeviceObject g) (g_EngineHandle g) true
       (lo_calloutId os)
       (mkHeld (h_device h) (h_symlink h) (h_engine h) true true (h_session h + added os)),
     STATUS_SUCCESS).

(** [deleted] counts the session objects the two deletions by key find. *)
Definition WfpCallout_Unregister (deleted : nat) (g : Globals) : Globals :=
  let h := g_held g in
  let callout := if negb (g_redirectCalloutId g =? 0) then false else h_callout h in
  let session := if g_EngineHandle g then (h_session h - deleted)%nat else h_session h in
  let redirect := if g_redirectHandle g then false else h_redirect h in
  mkGlobals (g_RedirectService g) (g_DeviceObject g) (g_EngineHandle g) false 0
    (mkHeld (h_device h) (h_symlink h) (h_engine h) redirect callout session).

Definition globals_init : Globals :=
  mkGlobals (fst RedirectService_Initialize) false false false 0 nothing_held.

Definition cleanup_service (g : Globals) (pool : Pool) : option (Globals * Pool) :=
  match RedirectService_Cleanup (g_RedirectService g) pool with
  | None => None
  | Some (s, pool) =>
      Some (mkGlobals s (g_DeviceObject g) (g_EngineHandle g) (g_redirectHandle g)
              (g_redirectCalloutId g) (g_held g), pool)
  end.

Definition delete_device (g : Globals) : Globals :=
  let g := IoctlHandler_DeleteDevice g in
  mkGlobals (g_RedirectService g) false (g_EngineHandle g) (g_redirectHandle g)
    (g_redirectCalloutId g) (g_held g).

Definition close_engine (g : Globals) : Globals :=
  mkGlobals (g_RedirectService g) (g_DeviceObject g) false (g_redirectHandle g)
    (g_redirectCalloutId g) (FwpmEngineClose (g_held g)).

(** A cleanup after a failure, with the status that is returned. *)
Definition fail_load (g : Globals) (pool : Pool) (st : NTSTATUS) : option (Globals * Pool * NTSTATUS) :=
  match cleanup_service g pool with
  | Some (g, pool) => Some (g, pool, st)
  | None => None
  end.

Definition DriverEntry (os : LoadOs) (pool : Pool) : option (Globals * Pool * NTSTATUS) :=
  let (service, status) := RedirectService_Initialize in
  if negb (NT_SUCCESS status) then Some (globals_init, pool, status)
  else
    let g := mkGlobals service false false false 0 nothing_held in
    let (g, status) := IoctlHandler_CreateDevice os g in
    if negb (NT_SUCCESS status) then fail_load g pool status
    else if negb (NT_SUCCESS (lo_engineOpen os)) then
      fail_load (delete_device g) pool (lo_engineOpen os)
    else
      let h := g_held g in
      let g := mkGlobals (g_RedirectService g) (g_DeviceObject g) true (g_redirectHandle g)
                 (g_redirectCalloutId g)
                 (mkHeld (h_device h) (h_symlink h) true (h_redirect h) (h_callout h) (h_session h)) in
      let (g, status) := WfpCallout_Register os g in
      if negb (NT_SUCCESS status) then fail_load (delete_device (close_engine g)) pool status
      else Some (g, pool, STATUS_SUCCESS).

Definition DriverUnload (deleted : nat) (g : Globals) (pool : Pool) : option (Globals * Pool) :=
  let g := if g_EngineHandle g then close_engine (WfpCallout_Unregister deleted g) else g in
  let g := if g_DeviceObject g then delete_device g else g in
  cleanup_service g pool.

Definition DriverCreateClose (irp : IRP) : Completion :=
  mkCompletion STATUS_SUCCESS 0 (irp_SystemBuffer irp).

(** * Writes stay inside the buffer *)

Definition fits (n : nat) (f : nat * list Z) : Prop := (fst f + length (snd f) <= n)%nat.

Lemma write_fields_fit fields buf :
  Forall (fits (length buf)) fields →
  ∃ buf', write_fields fields buf = Some buf' ∧ length buf' = length buf.
Proof.
  revert buf. induction fields as [|[off bs] fields IH]; intros buf H; [by eexists|].
  apply Forall_cons in H as [Hf H]. unfold fits in Hf. simpl in Hf.
  cbn [write_fields]. unfold write_at. rewrite (proj2 (Nat.leb_le _ _)) by done.
  set (buf1 := _ ++ _).
  assert (Hl : length buf1 = length buf).
  { unfold buf1. rewrite !length_app, length_take, length_drop. lia. }
  rewrite <- Hl in H |- *. by apply IH.
Qed.

(** One field outside the buffer is enough for the writes to leave it. *)
Lemma write_fields_over fields buf :
  Exists (λ f, ¬ fits (length buf) f) fields → write_fields fields buf = None.
Proof.
  revert buf. induction fields as [|[off bs] fields IH]; intros buf; [by intros ?%Exists_nil|].
  cbn [write_fields]. unfold write_at, fits. cbn [fst snd].
  destruct (Nat.leb_spec (off + length bs) (length buf)) as [Hl|]; [|done].
  intros [H|H]%Exists_cons; [done|]. apply IH.
  rewrite !length_app, length_take, length_drop.
  by replace (_ + _)%nat with (length buf) by lia.
Qed.

Definition info_wf (e : Z * REDIRECT_INFO) : Prop :=
  length (ri_ProcessPath (snd e)) = MAX_PROCESS_PATH_LENGTH.

(** Each field of a list against the bound. *)
Ltac fits_tac :=
  rewrite !Forall_cons; unfold fits; cbn [fst snd];
  rewrite ?length_le, ?length_wchars;
  unfold MAX_PROCESS_PATH_LENGTH, sizeof_DRIVER_STATS_PACKET, sizeof_PROCESS_IDENTITY,
    sizeof_REDIRECT_DATA_PACKET in *;
  split_and!; simpl length; try lia; constructor.

(** The last field written of a packet ends 7 bytes before the packet. *)
Lemma packet_fields_fit base e n :
  info_wf e → (base + sizeof_REDIRECT_DATA_PACKET - 7 <= n)%nat →
  Forall (fits n) (packet_fields base (snd e)).
Proof.
  unfold info_wf. intros Hw Hn. unfold packet_fields. fits_tac.
Qed.

Lemma packet_fields_over base info buf :
  (length buf < base + sizeof_REDIRECT_DATA_PACKET - 7)%nat →
  write_fields (packet_fields base info) buf = None.
Proof.
  intros Hn. apply write_fields_over, Exists_exists.
  exists ((base + 560)%nat, [if ri_IsIPv6 info then 1 else 0]).
  split; [unfold packet_fields; set_solver|]. unfold fits, sizeof_REDIRECT_DATA_PACKET in *.
  cbn [fst snd length]. lia.
Qed.

Lemma write_packets_fault i l buf :
  Forall info_wf l →
  write_packets i l buf = None ↔
  l ≠ [] ∧ (length buf < (i + length l) * sizeof_REDIRECT_DATA_PACKET - 7)%nat.
Proof.
  unfold sizeof_REDIRECT_DATA_PACKET.
  revert i buf. induction l as [|[a info] l IH]; intros i buf Hw; [by split; [|intros [? _]]|].
  apply Forall_cons in Hw as [H1 H2]. cbn [length write_packets].
  destruct (Nat.ltb_spec (length buf) (i * 568 + 568 - 7)) as [Hl|Hl].
  - rewrite packet_fields_over by done. split; [intros _; split; [done|lia]|done].
  - destruct (write_fields_fit (packet_fields (i * sizeof_REDIRECT_DATA_PACKET) info) buf)
      as (buf1 & -> & Hl1); [by apply (packet_fields_fit _ (a, info))|].
    rewrite (IH _ _ H2), Hl1. destruct l as [|e l]; cbn [length].
    + split; [by intros [? _]|]. intros [_ H]. lia.
    + replace (S i + S (length l))%nat with (i + S (S (length l)))%nat by lia.
      split; intros [_ H]; by split.
Qed.

Lemma stats_fields_fit s n : (sizeof_DRIVER_STATS_PACKET <= n)%nat → Forall (fits n) (stats_fields s).
Proof. intros. unfold stats_fields. destruct (RedirectService_GetStats s) as [[p t] f]. fits_tac. Qed.

Lemma stats_fields_over s buf :
  (length buf < sizeof_DRIVER_STATS_PACKET)%nat → write_fields (stats_fields s) buf = None.
Proof.
  intros H. apply write_fields_over. unfold stats_fields.
  destruct (RedirectService_GetStats s) as [[p t] f]. apply Exists_exists.
  exists (28%nat, le 4 MAX_REDIRECT_QUEUE_SIZE). split; [set_solver|].
  unfold fits, sizeof_DRIVER_STATS_PACKET in *. cbn [fst snd]. rewrite length_le. lia.
Qed.

Lemma identity_fields_fit id n :
  identity_wf id → (sizeof_PROCESS_IDENTITY <= n)%nat → Forall (fits n) (identity_fields id).
Proof.
  intros (_ & Hn & _ & Hp) H. unfold identity_fields. fits_tac.
Qed.

Lemma identity_fields_over id buf :
  identity_wf id → (length buf < sizeof_PROCESS_IDENTITY)%nat →
  write_fields (identity_fields id) buf = None.
Proof.
  intros (_ & _ & _ & Hp) H. apply write_fields_over, Exists_exists.
  exists (136%nat, wchars (pi_ProcessPath id)). split; [unfold identity_fields; set_solver|].
  unfold fits, sizeof_PROCESS_IDENTITY, MAX_PROCESS_PATH_LENGTH in *. cbn [fst snd].
  rewrite length_wchars. lia.
Qed.

Lemma rule_of_bytes_wf bs : rule_wf (rule_of_bytes bs).
Proof. unfold rule_wf, rule_of_bytes. cbn [re_Pattern]. apply length_unwchars. Qed.

(** * The running driver *)

Inductive DriverEvent :=
| EvClassify (redirectHandle : bool) (c : ClassifyCall)
| EvIoctl (irp : IRP).

(** What the I/O manager ensures of a request: the lengths are not negative and
    the system buffer holds the input.  Nothing is assumed of the room for the
    output: for the transfer methods the codes declare, the output buffer is
    not the system buffer. *)
Definition event_ok (ev : DriverEvent) : Prop :=
  match ev with
  | EvClassify _ _ => True
  | EvIoctl irp => 0 <= irp_InputBufferLength irp <= Z.of_nat (length (irp_SystemBuffer irp)) ∧
                   0 <= irp_OutputBufferLength irp
  end.

(** The packets GET_PENDING returns: as many as the output length has room
    for, at most 64 and at most the queue. *)
Definition pending_packets (irp : IRP) (s : REDIRECT_SERVICE) : nat :=
  Nat.min (Z.to_nat (Z.min (irp_OutputBufferLength irp / Z.of_nat sizeof_REDIRECT_DATA_PACKET) 64))
    (length (RedirectQueue s)).

Section running.
Context (alloc : nat → Pool → option Z) (mem : Z → nat → option (list Z)) (processes : Z → ProcessOs).

Definition driver_step (seed : nat) (ev : DriverEvent) (st : REDIRECT_SERVICE * Pool)
    : option (REDIRECT_SERVICE * Pool) :=
  match ev with
  | EvClassify h c =>
      match TcpRedirectClassify alloc mem processes h seed c (fst st) (snd st) with
      | Some (s, pool, _) => Some (s, pool) | None => None
      end
  | EvIoctl irp =>
      match IoctlHandler_DeviceControl alloc mem processes seed irp (fst st) (snd st) with
      | Some (s, pool, _) => Some (s, pool) | None => None
      end
  end.

Inductive reachable : REDIRECT_SERVICE * Pool → Prop :=
| reachable_init : reachable (fst RedirectService_Initialize, ∅)
| reachable_step seed ev st st' :
    reachable st → event_ok ev → driver_step seed ev st = Some st' → reachable st'.

(** A query of a process writes its identity outside the system buffer, or
    reads the process's name where there is none. *)
Definition query_faults (irp : IRP) : bool :=
  (8 <=? irp_InputBufferLength irp) && (656 <=? irp_OutputBufferLength irp) &&
  ((length (irp_SystemBuffer irp) <? 656)%nat ||
   unreadable_name mem (processes (unle (take 8 (irp_SystemBuffer irp))))).

(** The calls that leave their buffers, by what they are asked for, the length
    of the system buffer and the queue. *)
Definition faults (ev : DriverEvent) (s : REDIRECT_SERVICE) : bool :=
  match ev with
  | EvClassify _ c =>
      match cc_inMetaValues c with Some pid => unreadable_name mem (processes pid) | None => false end
  | EvIoctl irp =>
      let code := irp_IoControlCode irp in
      let len := length (irp_SystemBuffer irp) in
      if code =? IOCTL_REDIRECTOR_GET_PENDING then
        let k := pending_packets irp s in
        (0 <? k)%nat && (len <? k * sizeof_REDIRECT_DATA_PACKET - 7)%nat
      else if code =? IOCTL_REDIRECTOR_GET_STATS then
        (32 <=? irp_OutputBufferLength irp) && (len <? 32)%nat
      else if code =? IOCTL_REDIRECTOR_QUERY_PROCESS then query_faults irp
      else false
  end.

Definition Inv (st : REDIRECT_SERVICE * Pool) : Prop :=
  owns_pool (fst st) (snd st) ∧ Forall info_wf (RedirectQueue (fst st)) ∧
  Forall (λ e, rule_wf (snd e)) (RulesList (fst st)).

(** A call leaves its buffers, or it returns and keeps the invariant. *)
Definition sound {A} (fault : bool) (r : option (REDIRECT_SERVICE * Pool * A)) : Prop :=
  if fault then r = None else ∃ s pool x, r = Some (s, pool, x) ∧ Inv (s, pool).

(** A block the allocator returns was not live. *)
Context (alloc_fresh : ∀ n pool a, alloc n pool = Some a → pool !! a = None).

Lemma sound_same {A} s pool (x : A) : Inv (s, pool) → sound false (Some (s, pool, x)).
Proof. intros H. exists s, pool, x. auto. Qed.

Lemma get_pending_sound irp s pool :
  Inv (s, pool) →
  sound (let k := pending_packets irp s in
         (0 <? k)%nat && (length (irp_SystemBuffer irp) <? k * sizeof_REDIRECT_DATA_PACKET - 7)%nat)
    (get_pending irp s pool).
Proof.
  intros (Ho & Hi & Hr). cbn [fst snd] in *. cbv zeta. unfold get_pending, RedirectService_PeekBatch.
  unfold pending_packets. set (n := Z.to_nat _).
  destruct (peek_loop n s) as [s' l] eqn:E.
  destruct (batch_owns _ _ _ _ _ Ho E) as (pool' & Hf & Ho').
  destruct (peek_loop_split _ _ _ _ E) as (Hq & HR & <-).
  rewrite Hq in Hi. apply Forall_app in Hi as [Hi1 Hi2].
  assert (HI : Inv (s', pool')) by (by repeat split; try apply Ho'; cbn [fst]; rewrite ?HR).
  pose proof (write_packets_fault 0 l (irp_SystemBuffer irp) Hi1) as Hw.
  destruct l as [|e l].
  { cbn in Hf. injection Hf as <-. by apply sound_same. }
  cbn [NT_SUCCESS]. change (0 <? length (e :: l))%nat with true. cbn [andb].
  destruct (Nat.ltb_spec (length (irp_SystemBuffer irp))
              (length (e :: l) * sizeof_REDIRECT_DATA_PACKET - 7)) as [Hl|Hl].
  - rewrite (proj2 Hw) by (split; [done|exact Hl]). done.
  - destruct (write_packets 0 (e :: l) _) as [buf|] eqn:Eb.
    + rewrite Hf. by apply sound_same.
    + destruct (proj1 Hw eq_refl) as [_ Hl']. cbn [Nat.add] in Hl'. lia.
Qed.

Lemma AddRule_Inv addr bs s pool s' pool' st :
  Inv (s, pool) → (∀ a, addr = Some a → pool !! a = None) →
  RedirectService_AddRule addr (Some (rule_of_bytes bs)) s pool = (s', pool', st) →
  Inv (s', pool').
Proof.
  intros (Ho & Hi & Hr) Hf E. pose proof (AddRule_owns _ _ _ _ _ _ _ Ho Hf E) as Ho'.
  split; [done|]. cbn [fst snd] in *. unfold RedirectService_AddRule in E.
  destruct addr; cbn [ExAllocatePool2] in E; injection E as <- <- <-; [|done].
  cbn [set_rules RedirectQueue RulesList]. split; [done|]. apply Forall_app. split; [done|].
  constructor; [apply rule_of_bytes_wf|done].
Qed.

Lemma add_rules_Inv seed i count buf st s pool :
  Inv (s, pool) → ((i + count) * sizeof_RULE_ENTRY <= length buf)%nat →
  ∃ s' pool' st', add_rules alloc seed i count buf st s pool = Some (s', pool', st') ∧
                  Inv (s', pool').
Proof.
  revert i st s pool. induction count as [|count IH]; intros i st s pool HI Hb; [eauto 6|].
  cbn [add_rules]. unfold read_at. unfold sizeof_RULE_ENTRY in *.
  rewrite (proj2 (Nat.leb_le _ _)) by lia.
  destruct (RedirectService_AddRule _ _ _ _) as [[s1 pool1] st1] eqn:E.
  assert (HI1 : Inv (s1, pool1)) by (eapply AddRule_Inv; [exact HI| |exact E]; apply alloc_fresh).
  destruct (NT_SUCCESS st1); [|eauto 6]. apply IH; [done|lia].
Qed.

Lemma ClearRules_Inv s pool :
  Inv (s, pool) →
  ∃ pool', RedirectService_ClearRules s pool = Some (set_rules [] 0 s, pool') ∧
           Inv (set_rules [] 0 s, pool').
Proof.
  intros (Ho & Hi & _). cbn [fst snd] in *. destruct (ClearRules_owns _ _ Ho) as (pool' & -> & Ho').
  exists pool'. by repeat split; try apply Ho'.
Qed.

Lemma set_rules_sound seed irp s pool :
  Inv (s, pool) → event_ok (EvIoctl irp) → sound false (set_rules_ioctl alloc seed irp s pool).
Proof.
  intros HI [Hirp _]. unfold set_rules_ioctl. destruct (0 <? _) eqn:E; [|by apply sound_same].
  destruct (ClearRules_Inv _ _ HI) as (pool' & -> & HI').
  destruct (add_rules_Inv seed 0 (Z.to_nat (irp_InputBufferLength irp / Z.of_nat sizeof_RULE_ENTRY))
              (irp_SystemBuffer irp) STATUS_SUCCESS _ _ HI') as (s' & pool'' & st & -> & ?);
    [|by apply sound_same].
  unfold sizeof_RULE_ENTRY. Z.div_mod_to_equations. lia.
Qed.

Lemma query_process_sound irp :
  event_ok (EvIoctl irp) →
  if query_faults irp then query_process mem processes irp = None
  else ∃ c, query_process mem processes irp = Some c.
Proof.
  intros [Hin Hout]. unfold query_faults, query_process. change (Z.of_nat sizeof_PROCESS_IDENTITY) with 656.
  destruct (8 <=? _) eqn:E1; [|cbn [andb]; eauto].
  destruct (656 <=? irp_OutputBufferLength irp) eqn:E2; [|cbn [andb]; eauto].
  bool_to_prop. cbn [andb]. unfold read_at. rewrite (proj2 (Nat.leb_le _ _)) by lia.
  change (drop 0 (irp_SystemBuffer irp)) with (irp_SystemBuffer irp).
  set (pid := unle _). destruct (unreadable_name mem (processes pid)) eqn:Eu.
  - rewrite orb_true_r, (proj2 (IdentifyProcess_faults _ _ pid) Eu). done.
  - rewrite orb_false_r. destruct (IdentifyProcess_known _ _ pid Eu) as (id & st & -> & Hw).
    destruct (Nat.ltb_spec (length (irp_SystemBuffer irp)) 656) as [Hl|Hl].
    + by rewrite identity_fields_over.
    + destruct (write_fields_fit (identity_fields id) (irp_SystemBuffer irp)) as (? & -> & _); [|eauto].
      by apply identity_fields_fit.
Qed.

Lemma DeviceControl_sound seed irp s pool :
  Inv (s, pool) → event_ok (EvIoctl irp) →
  sound (faults (EvIoctl irp) s) (IoctlHandler_DeviceControl alloc mem processes seed irp s pool).
Proof.
  intros HI Hirp. unfold IoctlHandler_DeviceControl. cbn [faults]. cbv zeta.
  destruct (Z.eqb_spec (irp_IoControlCode irp) IOCTL_REDIRECTOR_GET_PENDING); [by apply get_pending_sound|].
  destruct (Z.eqb_spec (irp_IoControlCode irp) IOCTL_REDIRECTOR_ACK_REDIRECT) as [->|].
  { change (sound false (if 8 <=? irp_InputBufferLength irp then match read_at 0 8 (irp_SystemBuffer irp) with
      | None => None
      | Some bs => Some (s, pool, mkCompletion (RedirectService_Acknowledge (unle bs) s) 0 (irp_SystemBuffer irp))
      end else Some (s, pool, mkCompletion STATUS_BUFFER_TOO_SMALL 0 (irp_SystemBuffer irp)))).
    destruct (8 <=? _) eqn:E; [|by apply sound_same]. bool_to_prop. unfold read_at.
    rewrite (proj2 (Nat.leb_le _ _)) by (destruct Hirp; lia). by apply sound_same. }
  destruct (Z.eqb_spec (irp_IoControlCode irp) IOCTL_REDIRECTOR_GET_STATS).
  { change (Z.of_nat sizeof_DRIVER_STATS_PACKET) with 32.
    destruct (32 <=? _) eqn:E; [|by apply sound_same]. cbn [andb].
    destruct (Nat.ltb_spec (length (irp_SystemBuffer irp)) 32) as [Hl|Hl].
    - by rewrite stats_fields_over.
    - destruct (write_fields_fit (stats_fields s) (irp_SystemBuffer irp)) as (? & -> & _);
        [by apply stats_fields_fit|]. by apply sound_same. }
  destruct (Z.eqb_spec (irp_IoControlCode irp) IOCTL_REDIRECTOR_SET_RULES) as [->|];
    [by apply set_rules_sound|].
  destruct (Z.eqb_spec (irp_IoControlCode irp) IOCTL_REDIRECTOR_CLEAR_RULES) as [->|].
  { destruct (ClearRules_Inv _ _ HI) as (pool' & -> & ?). by apply sound_same. }
  destruct (Z.eqb_spec (irp_IoControlCode irp) IOCTL_REDIRECTOR_QUERY_PROCESS); [|by apply sound_same].
  pose proof (query_process_sound irp Hirp) as Hq. destruct (query_faults irp); [by rewrite Hq|].
  destruct Hq as [c ->]. by apply sound_same.
Qed.

Lemma queue_redirect_Inv seed c id s pool :
  Inv (s, pool) → identity_wf id → sound false (queue_redirect alloc seed c id s pool).
Proof.
  intros (Ho & Hi & Hr) (_ & _ & _ & Hp). unfold sound, queue_redirect. cbn [fst snd] in *.
  destruct (alloc seed pool) as [a|] eqn:Ea; cbn [ExAllocatePool2];
    [|by eexists _, _, _; split; [done|]; repeat split; try apply Ho].
  pose proof (alloc_fresh _ _ _ Ea) as Hfresh. unfold RedirectService_Enqueue.
  destruct (QueueMaxCount s <=? QueueCount s); cbn [NT_SUCCESS].
  - unfold ExFreePoolWithTag. rewrite lookup_insert_eq. destruct (decide _); [|done].
    rewrite delete_insert_id by done.
    eexists _, _, _. split; [done|]. by repeat split; try apply Ho.
  - eexists _, _, _. split; [done|]. split; [|split; cbn [fst RedirectQueue RulesList]; [|done]].
    + cbn [fst snd]. eapply owns_pool_insert; [exact Ho|done|].
      unfold blocks. cbn [RedirectQueue RulesList]. unfold tagged. rewrite fmap_app. cbn.
      rewrite <- app_assoc. symmetry. apply Permutation_middle.
    + apply Forall_app. split; [done|]. constructor; [|done]. done.
Qed.

Lemma Classify_sound h seed c s pool :
  Inv (s, pool) →
  sound (faults (EvClassify h c) s) (TcpRedirectClassify alloc mem processes h seed c s pool).
Proof.
  intros HI. unfold TcpRedirectClassify. cbn [faults].
  destruct (cc_inMetaValues c) as [pid|]; [|by apply sound_same].
  destruct (unreadable_name mem (processes pid)) eqn:Eu.
  { by rewrite (proj2 (IdentifyProcess_faults _ _ pid) Eu). }
  destruct (IdentifyProcess_known _ _ pid Eu) as (id & st & -> & E).
  destruct (negb (NT_SUCCESS st)); [by apply sound_same|].
  cbn [RedirectService_MatchRule]. rewrite match_loop_spec by (done || apply HI).
  set (action := match find_first _ _ with Some _ => _ | None => _ end).
  destruct (negb _); [by apply sound_same|]. destruct (h && _); [|by apply sound_same].
  destruct (NT_SUCCESS (cc_acquireHandle c)); [|by apply sound_same].
  destruct (NT_SUCCESS (cc_acquireWritable c) && _); [|by apply sound_same].
  destruct (queue_redirect_Inv seed c id s pool HI E) as (s' & pool' & r & -> & ?).
  by apply sound_same.
Qed.

Lemma driver_step_sound seed ev st :
  Inv st → event_ok ev →
  if faults ev (fst st) then driver_step seed ev st = None
  else ∃ st', driver_step seed ev st = Some st' ∧ Inv st'.
Proof.
  destruct st as [s pool]. intros HI Hev. cbn [fst]. unfold driver_step. cbn [fst snd].
  destruct ev as [h c|irp];
    [pose proof (Classify_sound h seed c s pool HI) as Hs
    |pose proof (DeviceControl_sound seed irp s pool HI Hev) as Hs];
    unfold sound in Hs; destruct (faults _ s); [by rewrite Hs| |by rewrite Hs|];
    destruct Hs as (s' & pool' & x & -> & ?); eauto.
Qed.

Lemma reachable_Inv st : reachable st → Inv st.
Proof.
  induction 1 as [|seed ev st st' _ IH Hev Hs].
  - split; [|split; constructor]. split; [constructor|done].
  - pose proof (driver_step_sound seed ev st IH Hev) as H. destruct (faults ev (fst st)).
    + by rewrite H in Hs.
    + destruct H as (st'' & Hs' & ?). by simplify_eq.
Qed.

Lemma driver_memory_aux st :
  reachable st →
  owns_pool (fst st) (snd st) ∧
  (∀ seed ev, event_ok ev → driver_step seed ev st = None ↔ faults ev (fst st) = true) ∧
  RedirectService_Cleanup (fst st) (snd st) =
    (if decide (RedirectQueue (fst st) = [])
     then Some (set_rules [] 0 (set_queue [] 0 (fst st)), ∅) else None).
Proof.
  intros H. pose proof (reachable_Inv _ H) as HI. split; [apply HI|]. split.
  - intros seed ev Hev. pose proof (driver_step_sound seed ev st HI Hev) as Hs.
    destruct (faults ev (fst st)); [by split|]. destruct Hs as (st' & -> & _). by split.
  - apply Cleanup_owns, HI.
Qed.
End running.

(** C23: in every state the driver can reach, under any allocator, kernel
    memory, process manager and mixture of classifications and requests whose
    system buffer holds their input, its live pool blocks are exactly those of
    its two lists, each once and under its own tag.  A call then faults, by a
    write or a read outside what it may access or by a wrong free, exactly when
    [faults] says so: GET_PENDING with packets to return and a system buffer
    too short for them, GET_STATS with one shorter than its record, a query
    with one shorter than an identity, and a query or a classification of a
    process whose image name is not where the source takes it to be.  And
    unloading the driver is safe exactly when no redirect is pending, since the
    queue's blocks are allocated under one tag and freed by the cleanup under
    another. *)
Theorem driver_memory_is_sound alloc mem processes
    (alloc_fresh : ∀ n pool a, alloc n pool = Some a → pool !! a = None) st :
  reachable alloc mem processes st →
  owns_pool (fst st) (snd st) ∧
  (∀ seed ev, event_ok ev →
     driver_step alloc mem processes seed ev st = None ↔ faults mem processes ev (fst st) = true) ∧
  RedirectService_Cleanup (fst st) (snd st) =
    (if decide (RedirectQueue (fst st) = [])
     then Some (set_rules [] 0 (set_queue [] 0 (fst st)), ∅) else None).
Proof. by apply driver_memory_aux. Qed.

Definition sample_alloc (n : nat) (pool : Pool) : option Z :=
  let a := 16 * (Z.of_nat n + 1) in if decide (pool !! a = None) then Some a else None.

Definition sample_processes (pid : Z) : ProcessOs := sample_process.

(** One wildcard rule that redirects, as the bytes of a [RULE_ENTRY]. *)
Definition sample_rule_bytes : list Z :=
  replicate 16 0 ++ le 4 1 ++ le 4 1 ++ [1; 0] ++ replicate 522 0 ++ le 4 5.

Definition sample_set_rules : IRP := mkIrp IOCTL_REDIRECTOR_SET_RULES 552 0 sample_rule_bytes.

Definition sample_call : ClassifyCall :=
  mkClassify 16909060 443 (Some 4) true STATUS_SUCCESS STATUS_SUCCESS true 7.

Definition sample_state1 : option (REDIRECT_SERVICE * Pool) :=
  driver_step sample_alloc sample_memory sample_processes 0 (EvIoctl sample_set_rules)
    (fst RedirectService_Initialize, ∅).

Definition sample_state2 : option (REDIRECT_SERVICE * Pool) :=
  match sample_state1 with
  | Some st => driver_step sample_alloc sample_memory sample_processes 5 (EvClassify true sample_call) st
  | None => None
  end.

Lemma sample_alloc_fresh n pool a : sample_alloc n pool = Some a → pool !! a = None.
Proof. unfold sample_alloc. destruct (decide _); [|done]. by intros [= <-]. Qed.

Lemma sample_reachable1 :
  ∃ st, sample_state1 = Some st ∧ reachable sample_alloc sample_memory sample_processes st ∧
        length (RulesList (fst st)) = 1%nat.
Proof.
  destruct sample_state1 as [st|] eqn:E; [|vm_compute in E; discriminate].
  exists st. split; [done|]. split.
  - eapply reachable_step; [apply reachable_init| |exact E]. vm_compute. split; [split|]; discriminate.
  - vm_compute in E. injection E as <-. reflexivity.
Qed.

Lemma sample_reachable2 :
  ∃ st, sample_state2 = Some st ∧ reachable sample_alloc sample_memory sample_processes st ∧
        length (RedirectQueue (fst st)) = 1%nat.
Proof.
  destruct sample_reachable1 as (st1 & E1 & H1 & _).
  destruct sample_state2 as [st|] eqn:E; [|vm_compute in E; discriminate].
  exists st. split; [done|]. split.
  - unfold sample_state2 in E. rewrite E1 in E. eapply reachable_step; [exact H1| |exact E]. done.
  - vm_compute in E. injection E as <-. reflexivity.
Qed.

(** After one redirect was queued, the cleanup that unloading runs bug-checks. *)
Lemma driver_memory_is_sound_witness :
  ∃ st, sample_state2 = Some st ∧ RedirectService_Cleanup (fst st) (snd st) = None.
Proof.
  destruct sample_reachable2 as (st & E & H & Hl). exists st. split; [done|].
  destruct (driver_memory_is_sound sample_alloc sample_memory sample_processes sample_alloc_fresh st H)
    as (_ & _ & ->).
  destruct (decide _) as [He|]; [|reflexivity]. rewrite He in Hl. discriminate.
Defined.

(** * Classification *)

Definition deciding_action (s : REDIRECT_SERVICE) (id : PROCESS_IDENTITY) : RULE_ACTION_TYPE :=
  match find_first (rule_matches id) (snd <$> RulesList s) with
  | Some rule => re_Action rule
  | None => RuleActionPermit
  end.

(** The connection is one the rules redirect and the filter engine lets the
    callout modify. *)
Definition redirectable (mem : Z → nat → option (list Z)) (processes : Z → ProcessOs) (h : bool) (c : ClassifyCall)
    (s : REDIRECT_SERVICE) (id : PROCESS_IDENTITY) : Prop :=
  ∃ pid st, cc_inMetaValues c = Some pid ∧
    RedirectService_IdentifyProcess mem (processes pid) (Some pid) = Some (Some id, st) ∧
    NT_SUCCESS st = true ∧ deciding_action s id = RuleActionRedirect ∧
    h = true ∧ cc_classifyContext c = true ∧ NT_SUCCESS (cc_acquireHandle c) = true ∧
    NT_SUCCESS (cc_acquireWritable c) = true ∧ cc_connectRequest c = true.

Definition count_ev (p : ClassifyEvent → bool) (evs : list ClassifyEvent) : nat :=
  length (filterb p evs).

Definition is_acquire e := match e with EvAcquireClassifyHandle => true | _ => false end.
Definition is_release e := match e with EvReleaseClassifyHandle => true | _ => false end.

Section classify.
Context (alloc : nat → Pool → option Z) (mem : Z → nat → option (list Z)) (processes : Z → ProcessOs).
Context (alloc_fresh : ∀ n pool a, alloc n pool = Some a → pool !! a = None).

Lemma queue_redirect_spec seed c id s pool :
  ∃ s' pool' r, queue_redirect alloc seed c id s pool = Some (s', pool', r) ∧
    match alloc seed pool with
    | None => r = false ∧ s' = s
    | Some a => r = true ∧
        if QueueMaxCount s <=? QueueCount s
        then RedirectQueue s' = RedirectQueue s ∧ FailedRedirects s' = FailedRedirects s +i64 1
        else ∃ n, RedirectQueue s' = RedirectQueue s ++ [(a, stamp n (cc_tick c) (redirect_info c id))]
    end.
Proof.
  unfold queue_redirect. destruct (alloc seed pool) as [a|]; cbn [ExAllocatePool2]; [|eauto 7].
  unfold RedirectService_Enqueue. destruct (_ <=? _); cbn [NT_SUCCESS]; [|eauto 9].
  unfold ExFreePoolWithTag. rewrite lookup_insert_eq. destruct (decide _); [|done]. eauto 9.
Qed.

Lemma classify_redirectable h seed c s pool id :
  redirectable mem processes h c s id → identity_wf id → Forall (λ e, rule_wf (snd e)) (RulesList s) →
  ∃ s' pool' r, queue_redirect alloc seed c id s pool = Some (s', pool', r) ∧
    TcpRedirectClassify alloc mem processes h seed c s pool =
    Some (s', pool', mkClassifyResult FWP_ACTION_PERMIT
      [EvAcquireClassifyHandle; EvAcquireWritableLayerData;
       EvApplyModifiedLayerData r; EvReleaseClassifyHandle]).
Proof.
  intros (pid & st & Hm & Hid & Hst & Ha & Hh & Hc & H1 & H2 & H3) Hw Hr.
  destruct (queue_redirect_spec seed c id s pool) as (s' & pool' & r & E & _).
  exists s', pool', r. split; [done|].
  unfold TcpRedirectClassify. rewrite Hm, Hid, Hst, Hh, Hc, H1, H2, H3. cbn [negb andb].
  unfold RedirectService_MatchRule. rewrite match_loop_spec by done.
  fold (deciding_action s id). rewrite Ha, E. by rewrite bool_decide_eq_true_2.
Qed.

Lemma classify_other h seed c s pool :
  Forall (λ e, rule_wf (snd e)) (RulesList s) → faults mem processes (EvClassify h c) s = false →
  (∀ id, ¬ redirectable mem processes h c s id) →
  ∃ evs, TcpRedirectClassify alloc mem processes h seed c s pool =
         Some (s, pool, mkClassifyResult FWP_ACTION_PERMIT evs) ∧
         (evs = [] ∨ evs = [EvAcquireClassifyHandle; EvReleaseClassifyHandle]).
Proof.
  intros Hr Hf Hn. unfold TcpRedirectClassify. cbn [faults] in Hf.
  destruct (cc_inMetaValues c) as [pid|] eqn:Em; [|cbn; eauto].
  destruct (IdentifyProcess_known _ _ pid Hf) as (id & st & E & Hw). rewrite E.
  destruct (NT_SUCCESS st) eqn:Est; cbn [negb]; [|eauto].
  unfold RedirectService_MatchRule. rewrite match_loop_spec by done.
  fold (deciding_action s id). destruct (bool_decide _) eqn:Ea; cbn [negb]; [|eauto].
  apply bool_decide_eq_true in Ea.
  destruct (h && cc_classifyContext c) eqn:Eh; [|eauto].
  destruct (NT_SUCCESS (cc_acquireHandle c)) eqn:E1; [|eauto].
  destruct (NT_SUCCESS (cc_acquireWritable c) && cc_connectRequest c) eqn:E2; [|eauto].
  destruct (Hn id). apply andb_prop in Eh as [-> ?], E2 as [? ?]. by exists pid, st.
Qed.

End classify.



(** * Installing rules *)

(** The rules a request carries, from its [i]-th entry on. *)
Definition rules_of (buf : list Z) (i count : nat) : list RULE_ENTRY :=
  (λ k, rule_of_bytes (take sizeof_RULE_ENTRY (drop (k * sizeof_RULE_ENTRY) buf))) <$> seq i count.

Lemma add_rules_spec alloc seed i count buf s pool :
  ((i + count) * sizeof_RULE_ENTRY <= length buf)%nat →
  ∃ s' pool' k st,
    add_rules alloc seed i count buf STATUS_SUCCESS s pool = Some (s', pool', st) ∧
    (k <= count)%nat ∧
    snd <$> RulesList s' = (snd <$> RulesList s) ++ rules_of buf i k ∧
    RedirectQueue s' = RedirectQueue s ∧
    (k = count ∧ st = STATUS_SUCCESS ∨
     (k < count)%nat ∧ st = STATUS_INSUFFICIENT_RESOURCES ∧ ∃ p, alloc (seed + (i + k))%nat p = None).
Proof.
  revert i s pool. induction count as [|count IH]; intros i s pool Hb.
  - exists s, pool, O, STATUS_SUCCESS. cbn. rewrite app_nil_r. split_and!; auto.
  - cbn [add_rules]. unfold read_at. unfold sizeof_RULE_ENTRY in Hb.
    rewrite (proj2 (Nat.leb_le _ _)) by (unfold sizeof_RULE_ENTRY; lia).
    unfold RedirectService_AddRule. destruct (alloc (seed + i)%nat pool) as [a|] eqn:Ea;
      cbn [ExAllocatePool2 NT_SUCCESS].
    + edestruct (IH (S i)) as (s' & pool' & k & st & -> & Hk & Hl & Hq & Hst);
        [unfold sizeof_RULE_ENTRY; lia|].
      exists s', pool', (S k), st. split; [done|]. split; [lia|]. split; [|split].
      * rewrite Hl. cbn [set_rules RulesList]. rewrite fmap_app, <- app_assoc. done.
      * done.
      * destruct Hst as [[-> ->]|(? & -> & p & Hp)]; [auto|]. right. split; [lia|].
        split; [done|]. exists p. rewrite <- Hp. f_equal. lia.
    + exists s, pool, O, STATUS_INSUFFICIENT_RESOURCES.
      split; [done|]. split; [lia|]. split; [by rewrite app_nil_r|]. split; [done|].
      right. split; [lia|]. split; [done|]. exists pool. rewrite <- Ea. f_equal. lia.
Qed.

(** SET_RULES with at least one whole entry drops the cached rules and
    installs the entries of the request in order, all of them on success; when
    an allocation fails the entries before it stay installed and the old rules
    are gone.  A request shorter than an entry changes nothing and succeeds.
    The queue is never touched. *)
Theorem set_rules_replaces_the_cache alloc mem processes
    (alloc_fresh : ∀ n pool a, alloc n pool = Some a → pool !! a = None) seed irp st :
  reachable alloc mem processes st → event_ok (EvIoctl irp) →
  irp_IoControlCode irp = IOCTL_REDIRECTOR_SET_RULES →
  ∃ s' pool' c,
    IoctlHandler_DeviceControl alloc mem processes seed irp (fst st) (snd st) = Some (s', pool', c) ∧
    RedirectQueue s' = RedirectQueue (fst st) ∧ c_Information c = 0 ∧
    let n := Z.to_nat (irp_InputBufferLength irp / Z.of_nat sizeof_RULE_ENTRY) in
    if decide (n = O) then s' = fst st ∧ c_Status c = STATUS_SUCCESS
    else ∃ k, (k <= n)%nat ∧ snd <$> RulesList s' = rules_of (irp_SystemBuffer irp) 0 k ∧
         (k = n ∧ c_Status c = STATUS_SUCCESS ∨
          (k < n)%nat ∧ c_Status c = STATUS_INSUFFICIENT_RESOURCES ∧
          ∃ p, alloc (seed + k)%nat p = None).
Proof.
  intros Hreach [Hirp _] Hcode. pose proof (reachable_Inv alloc mem processes alloc_fresh _ Hreach) as HI.
  destruct st as [s pool]. cbn [fst snd] in *.
  unfold IoctlHandler_DeviceControl. rewrite Hcode. cbn [Z.eqb]. unfold set_rules_ioctl.
  change (IOCTL_REDIRECTOR_SET_RULES =? IOCTL_REDIRECTOR_SET_RULES) with true.
  set (z := irp_InputBufferLength irp / Z.of_nat sizeof_RULE_ENTRY).
  destruct (Z.ltb_spec 0 z) as [Hz|Hz].
  - destruct (ClearRules_Inv _ _ HI) as (pool1 & -> & _).
    destruct (add_rules_spec alloc seed 0 (Z.to_nat z) (irp_SystemBuffer irp) (set_rules [] 0 s) pool1)
      as (s' & pool' & k & st & -> & Hk & Hl & Hq & Hst).
    { unfold z, sizeof_RULE_ENTRY. Z.div_mod_to_equations. lia. }
    eexists _, _, _. split; [reflexivity|]. cbn [c_Information c_Status]. split; [done|].
    split; [done|]. destruct (decide _); [lia|]. exists k. auto.
  - eexists _, _, _. split; [reflexivity|]. split; [done|]. split; [done|].
    cbv zeta. destruct (decide _); [done|]. exfalso. lia.
Qed.

Lemma set_rules_replaces_the_cache_witness :
  ∃ s' pool' c,
    IoctlHandler_DeviceControl sample_alloc sample_memory sample_processes 0 sample_set_rules
      (fst RedirectService_Initialize) ∅ = Some (s', pool', c) ∧
    RedirectQueue s' = [] ∧ event_ok (EvIoctl sample_set_rules).
Proof.
  assert (Hok : event_ok (EvIoctl sample_set_rules)) by (vm_compute; split; [split|]; discriminate).
  destruct (set_rules_replaces_the_cache sample_alloc sample_memory sample_processes sample_alloc_fresh 0
    sample_set_rules (fst RedirectService_Initialize, ∅)
    (reachable_init _ _ _) Hok eq_refl) as (s' & pool' & c & E & Hq & _).
  exists s', pool', c. auto.
Defined.

(** * Requests the I/O manager does not protect *)

(** The I/O manager copies the input of a METHOD_IN_DIRECT or METHOD_OUT_DIRECT
    request into the system buffer, which has the length of the input; the
    output buffer is described by an MDL that the handler does not use. *)
Definition direct_io (irp : IRP) : Prop :=
  Z.of_nat (length (irp_SystemBuffer irp)) = irp_InputBufferLength irp.

(** C27: with the buffer the I/O manager documents for these codes, a GET_STATS
    request without a 32 byte input, and a GET_PENDING request without a whole
    packet of input while a redirect is pending, write outside the system
    buffer, however large their output buffer is. *)
Theorem direct_requests_overflow alloc mem processes seed irp s pool :
  direct_io irp →
  (irp_IoControlCode irp = IOCTL_REDIRECTOR_GET_STATS ∧
     irp_InputBufferLength irp < 32 <= irp_OutputBufferLength irp) ∨
  (irp_IoControlCode irp = IOCTL_REDIRECTOR_GET_PENDING ∧
     irp_InputBufferLength irp < 561 ∧ 568 <= irp_OutputBufferLength irp ∧ RedirectQueue s ≠ []) →
  IoctlHandler_DeviceControl alloc mem processes seed irp s pool = None.
Proof.
  unfold direct_io. intros Hd [(Hc & Hi & Ho)|(Hc & Hi & Ho & Hq)];
    unfold IoctlHandler_DeviceControl; rewrite Hc; cbv zeta.
  - change (IOCTL_REDIRECTOR_GET_STATS =? IOCTL_REDIRECTOR_GET_PENDING) with false.
    change (IOCTL_REDIRECTOR_GET_STATS =? IOCTL_REDIRECTOR_ACK_REDIRECT) with false.
    rewrite Z.eqb_refl. change (Z.of_nat sizeof_DRIVER_STATS_PACKET) with 32.
    rewrite (proj2 (Z.leb_le _ _)) by done.
    rewrite stats_fields_over; [done|]. unfold sizeof_DRIVER_STATS_PACKET. lia.
  - rewrite Z.eqb_refl. unfold get_pending, RedirectService_PeekBatch.
    destruct (Z.to_nat (Z.min (irp_OutputBufferLength irp / Z.of_nat sizeof_REDIRECT_DATA_PACKET) 64))
      as [|n] eqn:En.
    { exfalso. unfold sizeof_REDIRECT_DATA_PACKET in En. Z.div_mod_to_equations. lia. }
    cbn [peek_loop]. destruct (RedirectQueue s) as [|[a info] q]; [done|].
    destruct (peek_loop n _) as [s' l]. cbn [NT_SUCCESS write_packets].
    rewrite packet_fields_over; [done|]. unfold sizeof_REDIRECT_DATA_PACKET. lia.
Qed.

Lemma direct_requests_overflow_witness :
  IoctlHandler_DeviceControl sample_alloc sample_memory sample_processes 0
    (mkIrp IOCTL_REDIRECTOR_GET_STATS 0 32 []) (fst RedirectService_Initialize) ∅ = None.
Proof.
  apply direct_requests_overflow; [reflexivity|]. left. simpl. split; [reflexivity|lia].
Defined.

(** * Loading and unloading *)

Definition all_held (n : nat) : Held := mkHeld true true true true true n.

(** What unloading leaves: a callout whose id is zero is taken for none. *)
Definition left_held (calloutId : Z) : Held := mkHeld false false false false (calloutId =? 0) 0.

Lemma released_all deleted g n :
  g_DeviceObject g = true → g_EngineHandle g = true → g_redirectHandle g = true →
  g_held g = all_held n →
  let g' := delete_device (close_engine (WfpCallout_Unregister deleted g)) in
  g_held g' = left_held (g_redirectCalloutId g) ∧ g_RedirectService g' = g_RedirectService g.
Proof.
  destruct g as [? dev eng red id h].
  cbn [g_DeviceObject g_EngineHandle g_redirectHandle g_redirectCalloutId g_held g_RedirectService].
  intros -> -> -> ->. unfold WfpCallout_Unregister, left_held. cbn [g_redirectCalloutId].
  by destruct (id =? 0).
Qed.

Lemma unload_loaded deleted g n pool :
  g_DeviceObject g = true → g_EngineHandle g = true → g_redirectHandle g = true →
  g_held g = all_held n → owns_pool (g_RedirectService g) pool →
  match DriverUnload deleted g pool with
  | Some (g', pool') => RedirectQueue (g_RedirectService g) = [] ∧
                        g_held g' = left_held (g_redirectCalloutId g) ∧ pool' = ∅
  | None => RedirectQueue (g_RedirectService g) ≠ []
  end.
Proof.
  intros Hd He Hr Hh Ho. unfold DriverUnload. rewrite He.
  replace (g_DeviceObject (close_engine (WfpCallout_Unregister deleted g)))
    with (g_DeviceObject g) by done. rewrite Hd.
  destruct (released_all deleted g n Hd He Hr Hh) as [Hh' Hs'].
  unfold cleanup_service. rewrite Hs', (Cleanup_owns _ _ Ho). by destruct (decide _).
Qed.

(** C26: loading the driver fails holding nothing, or succeeds holding its
    device, its link, the engine session, the redirect handle and the registered
    callout, and of the four objects of the session (callout, provider, sublayer,
    filter) those whose addition succeeded: a failed addition is ignored, and a
    driver without its filter loads with success.  Unloading a loaded driver, its
    service being in whatever state, bug-checks exactly when a redirect is still
    pending, and otherwise gives back every pool block and all that is held,
    except a registered callout whose id is zero. *)
Theorem load_and_unload_balance os pool :
  ∃ g st, DriverEntry os pool = Some (g, pool, st) ∧
  ((NT_SUCCESS st = false ∧ g_held g = nothing_held ∧
      g_DeviceObject g = false ∧ g_EngineHandle g = false ∧ g_redirectHandle g = false) ∨
   (st = STATUS_SUCCESS ∧ g_held g = all_held (added os) ∧
      ∀ s pool' deleted, owns_pool s pool' →
        let g' := mkGlobals s (g_DeviceObject g) (g_EngineHandle g) (g_redirectHandle g)
                    (g_redirectCalloutId g) (g_held g) in
        match DriverUnload deleted g' pool' with
        | Some (g'', pool'') => RedirectQueue s = [] ∧ g_held g'' = left_held (lo_calloutId os) ∧ pool'' = ∅
        | None => RedirectQueue s ≠ []
        end)).
Proof.
  unfold DriverEntry. cbn [RedirectService_Initialize NT_SUCCESS negb].
  unfold IoctlHandler_CreateDevice. cbn [g_held].
  destruct (NT_SUCCESS (lo_createDevice os)) eqn:E1; cbn [negb];
    [|rewrite E1; cbn [negb]; eexists _, _; split; [reflexivity|]; left; auto].
  destruct (NT_SUCCESS (lo_createSymlink os)) eqn:E2; cbn [negb NT_SUCCESS];
    [|rewrite E2; cbn [negb]; eexists _, _; split; [reflexivity|]; left; auto].
  destruct (NT_SUCCESS (lo_engineOpen os)) eqn:E3; cbn [negb];
    [|eexists _, _; split; [reflexivity|]; left; auto].
  unfold WfpCallout_Register. cbn [g_held].
  destruct (NT_SUCCESS (lo_redirectCreate os)) eqn:E4; cbn [negb];
    [|rewrite E4; cbn [negb]; eexists _, _; split; [reflexivity|]; left; auto].
  destruct (NT_SUCCESS (lo_calloutRegister os)) eqn:E5; cbn [negb NT_SUCCESS];
    [|rewrite E5; cbn [negb]; eexists _, _; split; [reflexivity|]; left; auto].
  eexists _, _. split; [reflexivity|]. right. split; [done|]. split; [done|].
  intros s pool' deleted Ho.
  by apply (unload_loaded deleted
              (mkGlobals s true true true (lo_calloutId os) (all_held (added os))) (added os)).
Qed.

Definition sample_os : LoadOs :=
  mkLoadOs STATUS_SUCCESS STATUS_SUCCESS STATUS_SUCCESS STATUS_SUCCESS STATUS_SUCCESS 300
    (STATUS_OTHER (-1)) STATUS_SUCCESS STATUS_SUCCESS STATUS_SUCCESS.

Lemma load_and_unload_balance_witness :
  ∃ g, DriverEntry sample_os ∅ = Some (g, ∅, STATUS_SUCCESS) ∧ g_held g = all_held 3.
Proof.
  destruct (load_and_unload_balance sample_os ∅) as (g & st & E & [(Hf & _)|(-> & Hh & _)]).
  - vm_compute in E. injection E as <- <-. discriminate.
  - exists g. split; [done|]. rewrite Hh. reflexivity.
Defined.
