(* ===== verification/Rationals.v ===== *)
(** Powers in the rational numbers, for the values of floating numbers and of
    decimal texts. *)

From S2P Require Import Prelude.
From Stdlib Require Import QArith Qpower Lqa.
Open Scope Z_scope.

(** [b^e], for negative exponents too. *)
Definition qpow (b e : Z) : Q := (inject_Z b ^ e)%Q.

Lemma qpow_pos b e : 0 < b → (0 < qpow b e)%Q.
Proof. intros Hb. apply Qpower_0_lt. by rewrite <- (Zlt_Qlt 0). Qed.

Lemma inject_nonzero b : 0 < b → ~ (inject_Z b == 0)%Q.
Proof. intros Hb. unfold Qeq. cbn. lia. Qed.

Lemma qpow_plus b e f : 0 < b → (qpow b (e + f) == qpow b e * qpow b f)%Q.
Proof. intros Hb. apply Qpower_plus. by apply inject_nonzero. Qed.

Lemma qpow_0 b : qpow b 0 = 1%Q.
Proof. done. Qed.

Lemma qpow_inv b e : 0 < b → (qpow b e * qpow b (- e) == 1)%Q.
Proof. intros Hb. rewrite <- qpow_plus by done. by rewrite Z.add_opp_diag_r. Qed.

Lemma qpow_Z b e : 0 <= e → (qpow b e == inject_Z (b ^ e))%Q.
Proof. intros He. unfold qpow. by rewrite Zpower_Qpower. Qed.

(** The two exponents of which one is 0. *)
Lemma qpow_split b e : 0 < b → (qpow b e * inject_Z (b ^ Z.max (- e) 0) == inject_Z (b ^ Z.max e 0))%Q.
Proof.
  intros Hb. rewrite <- !qpow_Z by lia. rewrite <- qpow_plus by done.
  assert (e + Z.max (- e) 0 = Z.max e 0) as -> by lia. done.
Qed.

Lemma inject_le a b : a <= b → (inject_Z a <= inject_Z b)%Q.
Proof. by rewrite <- Zle_Qle. Qed.

Lemma inject_lt a b : a < b → (inject_Z a < inject_Z b)%Q.
Proof. by rewrite <- Zlt_Qlt. Qed.

Lemma qpow_lt e f : e < f → (qpow 2 e < qpow 2 f)%Q.
Proof. intros H. by apply Qpower_lt_compat_l. Qed.

Lemma qpow_lt_inv e f : (qpow 2 e < qpow 2 f)%Q → e < f.
Proof. intros H. by eapply Qpower_lt_compat_l_inv. Qed.

(** Comparisons in units of [2^x]. *)
Lemma unit_le a e x r : (a * qpow 2 (e + x) <= r)%Q ↔ (a * qpow 2 e <= r * qpow 2 (- x))%Q.
Proof.
  pose proof (qpow_pos 2 x ltac:(lia)) as Hx. pose proof (qpow_inv 2 x ltac:(lia)) as Hi.
  rewrite qpow_plus by lia. rewrite <- (Qmult_le_r (a * qpow 2 e) (r * qpow 2 (- x)) (qpow 2 x)) by done.
  rewrite <- (Qmult_assoc r), (Qmult_comm (qpow 2 (- x))), Hi, Qmult_1_r, Qmult_assoc. done.
Qed.

Lemma unit_lt a e x r : (r < a * qpow 2 (e + x))%Q ↔ (r * qpow 2 (- x) < a * qpow 2 e)%Q.
Proof.
  pose proof (unit_le a e x r) as H.
  split; intros Hlt; apply Qnot_le_lt; intros Hle; apply (Qlt_not_le _ _ Hlt), H, Hle.
Qed.

Lemma inject_sub a b : (inject_Z (a - b) == inject_Z a - inject_Z b)%Q.
Proof. unfold Z.sub. by rewrite inject_Z_plus, inject_Z_opp. Qed.
