(* ===== verification/Strtod.v ===== *)
(** [strtod] of the C library: the binary64 number nearest to a decimal text,
    ties to even.  It is written for the texts the JSON scanner passes, decimal
    numbers with an optional sign, fraction and exponent. *)

From S2P Require Import Prelude.
From S2P Require Import Text.
From S2P Require Import Entities.
From S2P Require Import Rationals.
From Stdlib Require Import SpecFloat QArith Qround Lqa.
Open Scope Z_scope.

(** * The nearest number *)

(** The exponent of the highest bit of a positive rational. *)
Definition qlog2 (r : Q) : Z :=
  let k := Z.log2 (Qnum r) - Z.log2 (Z.pos (Qden r)) in
  if Qle_bool (qpow 2 k) r then k else k - 1.

Definition round_half_even (y : Q) : Z :=
  let f := Qfloor y in
  let rest := (y - inject_Z f)%Q in
  match (rest ?= 1 # 2)%Q with
  | Lt => f
  | Gt => f + 1
  | Eq => if Z.even f then f else f + 1
  end.

(** The exponent of the unit in which a rational is rounded. *)
Definition unit_exponent (r : Q) : Z := Z.max (-1074) (qlog2 r - 52).

Definition nearest (r : Q) : double :=
  if Qle_bool r 0 then double_0
  else
    let e := unit_exponent r in
    let m := round_half_even (r * qpow 2 (- e)) in
    let '(m, e) := if m =? 2 ^ 53 then (2 ^ 52, e + 1) else (m, e) in
    match m with
    | Z.pos p => if e <=? 971 then S754_finite false p e else S754_infinity false
    | _ => double_0
    end.

(** The conversion of an integer. *)
Definition double_of_Z (z : Z) : double :=
  if z <? 0 then SFopp (nearest (inject_Z (- z))) else nearest (inject_Z z).

(** * Texts *)

(** The value of digits [D] with [d] places after them. *)
Definition decimal (D d : Z) : Q := (inject_Z D * qpow 10 d)%Q.

Definition signed_digits (s : text) : Z :=
  match s with
  | 45 :: s' => - value_of (take_while digit_char s')
  | 43 :: s' => value_of (take_while digit_char s')
  | _ => value_of (take_while digit_char s)
  end.

(** The digits before the point, those after it, and the exponent. *)
Definition number_parts (s : text) : text * text * Z :=
  let int_part := take_while digit_char s in
  let s := drop_while digit_char s in
  let '(frac_part, s) := match s with
                         | 46 :: s' => (take_while digit_char s', drop_while digit_char s')
                         | _ => ([], s)
                         end in
  let exponent := match s with 101 :: s' | 69 :: s' => signed_digits s' | _ => 0 end in
  (int_part, frac_part, exponent).

Definition magnitude (s : text) : Q :=
  let '(int_part, frac_part, exponent) := number_parts s in
  decimal (value_of (int_part ++ frac_part)) (exponent - Z.of_nat (length frac_part)).

Definition strtod (s : text) : double :=
  match s with
  | 45 :: s' => SFopp (nearest (magnitude s'))
  | _ => nearest (magnitude s)
  end.

Example strtod_ex :
  map strtod [lit "0.1"; lit "-1.5"; lit "1e3"; lit "-0.0"; lit "5e-324"; lit "2.4e-324"; lit "1E+400"; lit "9007199254740993"] =
  [S754_finite false 7205759403792794 (-56); S754_finite true 6755399441055744 (-52);
   S754_finite false 8796093022208000 (-43); S754_zero true; S754_finite false 1 (-1074);
   S754_zero false; S754_infinity false; S754_finite false 4503599627370496 1].
Proof. vm_compute. reflexivity. Qed.

(** * Positive numbers and their boundaries *)

(** The numbers [m * 2^x] of binary64 that are positive. *)
Definition binary64 (m x : Z) : Prop :=
  0 < m < 2 ^ 53 ∧ -1074 <= x <= 971 ∧ (2 ^ 52 <= m ∨ x = -1074).

Lemma digits2_log2 p : Z.pos (digits2_pos p) = Z.log2 (Z.pos p) + 1.
Proof.
  induction p as [p IH|p IH|]; cbn [digits2_pos]; [| |done]; rewrite Pos2Z.inj_succ, IH.
  - rewrite Pos2Z.inj_xI, Z.log2_succ_double by lia. lia.
  - rewrite Pos2Z.inj_xO, Z.log2_double by lia. lia.
Qed.

Lemma bounded_binary64 m x : bounded 53 1024 m x = true ↔ binary64 (Z.pos m) x.
Proof.
  unfold bounded, canonical_mantissa, fexp, emin, binary64. rewrite andb_true_iff, Z.eqb_eq, Z.leb_le.
  change (Z.add (Z.pos (digits2_pos m)) x) with (Z.pos (digits2_pos m) + x). rewrite digits2_log2.
  assert (Hl : ∀ k, 0 <= k → Z.pos m < 2 ^ k ↔ Z.log2 (Z.pos m) < k) by (intros k Hk; apply Z.log2_lt_pow2; lia).
  pose proof (Hl 53 ltac:(lia)) as H53. pose proof (Hl 52 ltac:(lia)) as H52. lia.
Qed.

(** Is the lower neighbour closer? *)
Definition closer_below (m x : Z) : bool := (m =? 2 ^ 52) && (-1074 <? x).

(** The points halfway to the neighbours of [m * 2^x]. *)
Definition upper_boundary (m x : Z) : Q := (inject_Z (2 * m + 1) * qpow 2 (x - 1))%Q.
Definition lower_boundary (m x : Z) : Q :=
  if closer_below m x then (inject_Z (4 * m - 1) * qpow 2 (x - 2))%Q else (inject_Z (2 * m - 1) * qpow 2 (x - 1))%Q.


(** * The nearest number is right *)

Lemma qlog2_spec r : (0 < r)%Q → (qpow 2 (qlog2 r) <= r)%Q ∧ (r < qpow 2 (qlog2 r + 1))%Q.
Proof.
  intros Hr. unfold qlog2. destruct r as [n d]. cbn [Qnum Qden]. assert (Hn : 0 < n) by (unfold Qlt in Hr; cbn in Hr; lia).
  pose proof (Z.log2_spec n Hn) as [Hn1 Hn2]. pose proof (Z.log2_spec (Z.pos d) ltac:(lia)) as [Hd1 Hd2].
  pose proof (Z.log2_nonneg n). pose proof (Z.log2_nonneg (Z.pos d)).
  set (a := Z.log2 n) in *. set (b := Z.log2 (Z.pos d)) in *.
  assert (E : ((n # d) * inject_Z (Z.pos d) == inject_Z n)%Q) by (unfold Qeq; cbn; lia).
  apply inject_le in Hn1, Hd1. apply inject_lt in Hn2, Hd2. rewrite <- !qpow_Z in Hn1, Hn2, Hd1, Hd2 by lia.
  assert (Hd0 : (0 < inject_Z (Z.pos d))%Q) by (by apply (inject_lt 0)).
  assert (Hlow : (qpow 2 (a - b - 1) < n # d)%Q).
  { apply (Qmult_lt_r _ _ (inject_Z (Z.pos d))); [done|]. rewrite E. eapply Qlt_le_trans; [|exact Hn1].
    eapply Qlt_le_trans; [apply Qmult_lt_l; [by apply qpow_pos|exact Hd2]|]. rewrite <- qpow_plus by lia.
    assert (a - b - 1 + Z.succ b = a) as -> by lia. apply Qle_refl. }
  assert (Hhigh : (n # d < qpow 2 (a - b + 1))%Q).
  { apply (Qmult_lt_r _ _ (inject_Z (Z.pos d))); [done|]. rewrite E. eapply Qlt_le_trans; [exact Hn2|].
    eapply Qle_trans; [|apply Qmult_le_l; [by apply qpow_pos|exact Hd1]]. rewrite <- qpow_plus by lia.
    assert (a - b + 1 + b = Z.succ a) as -> by lia. apply Qle_refl. }
  destruct (Qle_bool (qpow 2 (a - b)) (n # d)) eqn:E1.
  - apply Qle_bool_iff in E1. done.
  - rewrite Z.sub_add. split; [by apply Qlt_le_weak|]. apply Qnot_le_lt. rewrite <- Qle_bool_iff. congruence.
Qed.

Lemma qlog2_unique r k : (qpow 2 k <= r)%Q → (r < qpow 2 (k + 1))%Q → qlog2 r = k.
Proof.
  intros H1 H2. pose proof (qpow_pos 2 k ltac:(lia)) as Hk.
  destruct (qlog2_spec r) as [H3 H4]; [by eapply Qlt_le_trans|].
  assert (k < qlog2 r + 1) by (apply qpow_lt_inv; by eapply Qle_lt_trans).
  assert (qlog2 r < k + 1) by (apply qpow_lt_inv; by eapply Qle_lt_trans). lia.
Qed.

Lemma qlog2_lt r k : (0 < r)%Q → (r < qpow 2 k)%Q → qlog2 r < k.
Proof. intros H0 H. destruct (qlog2_spec r H0) as [H3 _]. apply qpow_lt_inv. by eapply Qle_lt_trans. Qed.

Lemma Qfloor_unique y z : (inject_Z z <= y)%Q → (y < inject_Z (z + 1))%Q → Qfloor y = z.
Proof.
  intros H1 H2. pose proof (Qfloor_le y) as H3. pose proof (Qlt_floor y) as H4.
  assert (z < Qfloor y + 1) by (rewrite Zlt_Qlt; by eapply Qle_lt_trans).
  assert (Qfloor y < z + 1) by (rewrite Zlt_Qlt; by eapply Qle_lt_trans). lia.
Qed.

(** Rounding of what is less than half a unit away. *)
Lemma round_near y m : (inject_Z m - (1 # 2) < y)%Q → (y < inject_Z m + (1 # 2))%Q → round_half_even y = m.
Proof.
  intros H1 H2. unfold round_half_even. destruct (Qlt_le_dec y (inject_Z m)) as [Hlt|Hge].
  - assert (Qfloor y = m - 1) as ->.
    { apply Qfloor_unique; [|by rewrite Z.sub_add]. rewrite inject_sub. change (inject_Z 1) with 1%Q. lra. }
    assert ((y - inject_Z (m - 1) ?= 1 # 2)%Q = Gt) as ->; [|lia].
    apply (proj1 (Qgt_alt _ _)). rewrite inject_sub. change (inject_Z 1) with 1%Q. lra.
  - assert (Qfloor y = m) as -> by (apply Qfloor_unique; [done|]; rewrite inject_Z_plus; change (inject_Z 1) with 1%Q; lra).
    assert ((y - inject_Z m ?= 1 # 2)%Q = Lt) as ->; [|done]. apply (proj1 (Qlt_alt _ _)). lra.
Qed.

Lemma round_range y a b : (inject_Z a <= y)%Q → (y <= inject_Z b)%Q → a <= round_half_even y <= b.
Proof.
  intros H1 H2. unfold round_half_even. pose proof (Qfloor_le y) as H3. pose proof (Qlt_floor y) as H4.
  assert (a <= Qfloor y) by (rewrite <- (Qfloor_Z a); by apply Qfloor_resp_le).
  assert (Qfloor y <= b) by (rewrite <- (Qfloor_Z b); by apply Qfloor_resp_le).
  assert (Hb : Qfloor y = b → (y - inject_Z (Qfloor y) ?= 1 # 2)%Q = Lt).
  { intros E. apply (proj1 (Qlt_alt _ _)). rewrite E. lra. }
  destruct (y - inject_Z (Qfloor y) ?= 1 # 2)%Q eqn:E; [|lia|].
  - assert (Qfloor y ≠ b) by (by intros Hb'%Hb). destruct (Z.even _); lia.
  - assert (Qfloor y ≠ b) by (by intros Hb'%Hb). lia.
Qed.

(** The conditions of the boundaries in units of [2^x]. *)
Lemma boundary_units m x r :
  (lower_boundary m x < r)%Q → (r < upper_boundary m x)%Q →
  ((inject_Z m - (if closer_below m x then 1 # 4 else 1 # 2)) < r * qpow 2 (- x))%Q ∧
  (r * qpow 2 (- x) < inject_Z m + (1 # 2))%Q.
Proof.
  intros Hl Hu. pose proof (qpow_pos 2 (- x) ltac:(lia)) as Hx.
  assert (H1 : (qpow 2 (x - 1) * qpow 2 (- x) == 1 # 2)%Q).
  { rewrite <- qpow_plus by lia. by replace (x - 1 + - x) with (-1) by lia. }
  assert (H2 : (qpow 2 (x - 2) * qpow 2 (- x) == 1 # 4)%Q).
  { rewrite <- qpow_plus by lia. by replace (x - 2 + - x) with (-2) by lia. }
  apply (Qmult_lt_r _ _ (qpow 2 (- x))) in Hl, Hu; [|done..]. unfold upper_boundary in Hu. unfold lower_boundary in Hl.
  rewrite <- Qmult_assoc, H1, inject_Z_plus, inject_Z_mult in Hu. change (inject_Z 2) with 2%Q in Hu. change (inject_Z 1) with 1%Q in Hu.
  split; [|lra]. destruct (closer_below m x); rewrite <- Qmult_assoc, ?H1, ?H2, inject_sub, inject_Z_mult in Hl;
    change (inject_Z 2) with 2%Q in Hl; change (inject_Z 4) with 4%Q in Hl; change (inject_Z 1) with 1%Q in Hl; lra.
Qed.

Lemma log_at_least k x r : (inject_Z (2 ^ k) <= r * qpow 2 (- x))%Q → 0 <= k → (qpow 2 (k + x) <= r)%Q.
Proof.
  intros H Hk. rewrite <- (qpow_Z 2 k), <- (Qmult_1_l (qpow 2 k)) in H by done. apply unit_le in H. by rewrite Qmult_1_l in H.
Qed.

Lemma log_below k x r : (r * qpow 2 (- x) < inject_Z (2 ^ k))%Q → 0 <= k → (r < qpow 2 (k + x))%Q.
Proof.
  intros H Hk. rewrite <- (qpow_Z 2 k), <- (Qmult_1_l (qpow 2 k)) in H by done. apply unit_lt in H. by rewrite Qmult_1_l in H.
Qed.

(** A rational strictly between the boundaries of a number is rounded to it. *)
Lemma nearest_between m x r :
  binary64 (Z.pos m) x → (lower_boundary (Z.pos m) x < r)%Q → (r < upper_boundary (Z.pos m) x)%Q →
  nearest r = S754_finite false m x.
Proof.
  intros (Hm & Hx & Hn) Hl Hu. destruct (boundary_units _ _ _ Hl Hu) as [H1 H2]. set (mz := Z.pos m) in *.
  set (y := (r * qpow 2 (- x))%Q) in *.
  assert (Hm1 : (1 <= inject_Z mz)%Q) by (apply (inject_le 1); lia).
  assert (Hm2 : (inject_Z mz <= inject_Z (2 ^ 53) - 1)%Q) by (rewrite <- (inject_sub (2 ^ 53) 1); apply inject_le; lia).
  assert (Hhalf : (inject_Z mz - (1 # 2) < y)%Q) by (destruct (closer_below mz x); lra).
  assert (Hy0 : (0 < y)%Q) by lra.
  assert (Hr0 : (0 < r)%Q).
  { apply (Qmult_lt_r _ _ (qpow 2 (- x))); [by apply qpow_pos|]. fold y. lra. }
  assert (Hhi : (r < qpow 2 (53 + x))%Q) by (apply log_below; [fold y; lra|lia]).
  unfold nearest. destruct (Qle_bool r 0) eqn:E0; [apply Qle_bool_iff in E0; exfalso; by apply (Qlt_not_le _ _ Hr0)|].
  unfold unit_exponent.
  destruct (Qlt_le_dec y (inject_Z (2 ^ 52))) as [Hlt|Hge]; [destruct (Z.eq_dec x (-1074)) as [->|Hx1]|].
  - (* below the normal numbers *)
    assert (Hlog : qlog2 r < 52 + -1074) by (apply qlog2_lt; [done|]; apply log_below; [done|lia]).
    rewrite Z.max_l by lia. fold y. rewrite (round_near y mz) by done.
    rewrite (proj2 (Z.eqb_neq mz (2 ^ 53))) by lia. done.
  - (* just below a power of two *)
    assert (Hm52 : mz = 2 ^ 52).
    { destruct Hn as [Hn|]; [|done]. apply Z.le_antisymm; [|done]. apply Z.lt_succ_r. rewrite Zlt_Qlt.
      change (inject_Z (Z.succ (2 ^ 52))) with (inject_Z (2 ^ 52) + 1)%Q. lra. }
    rewrite Hm52 in *. assert (closer_below (2 ^ 52) x = true) as Hc by (unfold closer_below; lia).
    rewrite Hc in H1. set (z := (r * qpow 2 (- (x - 1)))%Q).
    assert (Hz : (z == 2 * y)%Q).
    { unfold z, y. replace (- (x - 1)) with (1 + - x) by lia. rewrite qpow_plus by lia. change (qpow 2 1) with 2%Q. ring. }
    assert (Hlog : qlog2 r = 52 + (x - 1)).
    { apply qlog2_unique; [apply log_at_least|replace (52 + (x - 1) + 1) with (53 + (x - 1)) by lia; apply log_below]; try lia; fold z; rewrite Hz.
      - change (inject_Z (2 ^ 52)) with (4503599627370496 # 1)%Q in *. lra.
      - change (inject_Z (2 ^ 53)) with (2 * inject_Z (2 ^ 52))%Q. lra. }
    rewrite Hlog, Z.max_r by lia. replace (52 + (x - 1) - 52) with (x - 1) by lia. fold z.
    rewrite (round_near z (2 ^ 53)).
    2,3: rewrite Hz; change (inject_Z (2 ^ 53)) with (2 * inject_Z (2 ^ 52))%Q; lra.
    rewrite Z.eqb_refl, Z.sub_add. injection Hm52 as ->. change (2 ^ 52) with 4503599627370496.
    by rewrite (proj2 (Z.leb_le x 971)) by lia.
  - assert (Hlog : qlog2 r = 52 + x).
    { apply qlog2_unique; [by apply log_at_least|]. by replace (52 + x + 1) with (53 + x) by lia. }
    rewrite Hlog, Z.max_r by lia. replace (52 + x - 52) with x by lia. fold y. rewrite (round_near y mz) by done.
    rewrite (proj2 (Z.eqb_neq mz (2 ^ 53))) by lia. by rewrite (proj2 (Z.leb_le x 971)) by lia.
Qed.

(** * The result is a number of binary64 *)

Abbreviation valid_double := (valid_binary 53 1024).

(** The double of a significand and exponent in range. *)
Lemma finite_valid s p e : binary64 (Z.pos p) e → valid_double (S754_finite s p e) = true.
Proof. intros H. by apply bounded_binary64. Qed.

Lemma nearest_valid r : valid_double (nearest r) = true.
Proof.
  unfold nearest. destruct (Qle_bool r 0) eqn:E0; [done|].
  assert (Hr : (0 < r)%Q) by (apply Qnot_le_lt; rewrite <- Qle_bool_iff; congruence).
  destruct (qlog2_spec r Hr) as [Hlo Hhi]. unfold unit_exponent.
  set (e := Z.max (-1074) (qlog2 r - 52)). set (m := round_half_even (r * qpow 2 (- e))).
  assert (Hm : 0 <= m <= 2 ^ 53 ∧ (2 ^ 52 <= m ∨ e = -1074)).
  { assert (Hup : (r * qpow 2 (- e) <= inject_Z (2 ^ 53))%Q).
    { apply Qlt_le_weak. rewrite <- (qpow_Z 2 53), <- (Qmult_1_l (qpow 2 53)) by done. apply (proj1 (unit_lt 1 53 e r)). rewrite Qmult_1_l.
      eapply Qlt_le_trans; [exact Hhi|]. destruct (Z.eq_dec (qlog2 r + 1) (53 + e)) as [->|]; [apply Qle_refl|].
      apply Qlt_le_weak, qpow_lt. lia. }
    assert (Hpos : (0 <= r * qpow 2 (- e))%Q).
    { apply Qlt_le_weak, Qmult_lt_0_compat; [done|by apply qpow_pos]. }
    destruct (Z.eq_dec e (-1074)) as [He|He].
    - split; [by apply round_range|by right].
    - assert (H52 : (inject_Z (2 ^ 52) <= r * qpow 2 (- e))%Q).
      { rewrite <- (qpow_Z 2 52), <- (Qmult_1_l (qpow 2 52)) by done. apply (proj1 (unit_le 1 52 e r)). rewrite Qmult_1_l.
        by replace (52 + e) with (qlog2 r) by lia. }
      pose proof (round_range _ _ _ H52 Hup). fold m in H. lia. }
  destruct (Z.eqb_spec m (2 ^ 53)) as [E|E].
  - change (2 ^ 52) with (Z.pos 4503599627370496). cbv iota. destruct (Z.leb_spec (e + 1) 971); [|done].
    apply finite_valid. unfold binary64. lia.
  - destruct m as [|p|p]; [done| |done]. destruct (Z.leb_spec e 971); [|done]. apply finite_valid. unfold binary64. lia.
Qed.

Lemma opp_valid d : valid_double (SFopp d) = valid_double d.
Proof. by destruct d. Qed.

Lemma strtod_valid s : valid_double (strtod s) = true.
Proof.
  unfold strtod. repeat case_match_goal; rewrite ?opp_valid; apply nearest_valid.
Qed.
