(* ===== verification/Dtoa.v ===== *)
(** Printing floating numbers: the namespace [dtoa_impl] and [to_chars] of the
    vendored nlohmann::json (src/external/nlohmann/json.hpp), Grisu2 for [double].

    A [diyfp] is a significand of 64 bits and an exponent; the arithmetic on
    significands wraps at 64 bits and at 32 where the code does, that on
    exponents, which stay below 2500, does not.  The preconditions that the code
    asserts are proved in file Grisu.  The character buffer is the list of what
    has been written to it. *)

From S2P Require Import Prelude.
From S2P Require Import Text.
From S2P Require Import Entities.
From Stdlib Require Import SpecFloat.

(** * diyfp *)

Record diyfp := mkDiyfp { dy_f : Z; dy_e : Z }.

Definition diyfp_sub (x y : diyfp) : diyfp := mkDiyfp (dy_f x -u64 dy_f y) (dy_e x).

Definition diyfp_mul (x y : diyfp) : diyfp :=
  let u_lo := Z.land (dy_f x) 0xFFFFFFFF in
  let u_hi := Z.shiftr (dy_f x) 32 in
  let v_lo := Z.land (dy_f y) 0xFFFFFFFF in
  let v_hi := Z.shiftr (dy_f y) 32 in
  let p0 := wrap 64 (u_lo * v_lo) in
  let p1 := wrap 64 (u_lo * v_hi) in
  let p2 := wrap 64 (u_hi * v_lo) in
  let p3 := wrap 64 (u_hi * v_hi) in
  let p0_hi := Z.shiftr p0 32 in
  let p1_lo := Z.land p1 0xFFFFFFFF in
  let p1_hi := Z.shiftr p1 32 in
  let p2_lo := Z.land p2 0xFFFFFFFF in
  let p2_hi := Z.shiftr p2 32 in
  let Q := p0_hi +u64 p1_lo +u64 p2_lo in
  let Q := Q +u64 wrap 64 (Z.shiftl 1 (64 - 32 - 1)) in
  let h := p3 +u64 p2_hi +u64 p1_hi +u64 Z.shiftr Q 32 in
  mkDiyfp h (dy_e x + dy_e y + 64).

(** The loop of [normalize] shifts 63 times at most. *)
Fixpoint normalize_loop (fuel : nat) (x : diyfp) : diyfp :=
  match fuel with
  | O => x
  | S fuel' =>
      if Z.shiftr (dy_f x) 63 =? 0
      then normalize_loop fuel' (mkDiyfp (wrap 64 (Z.shiftl (dy_f x) 1)) (dy_e x - 1))
      else x
  end.

Definition normalize (x : diyfp) : diyfp := normalize_loop 64 x.

Definition normalize_to (x : diyfp) (target_exponent : Z) : diyfp :=
  let delta := dy_e x - target_exponent in
  mkDiyfp (wrap 64 (Z.shiftl (dy_f x) delta)) target_exponent.

(** * Boundaries *)

Record boundaries := mkBoundaries { b_w : diyfp; b_minus : diyfp; b_plus : diyfp }.

(** [reinterpret_bits<std::uint64_t>]: the representation of binary64. *)
Definition reinterpret_bits (value : double) : Z :=
  let signed (s : bool) (z : Z) := if s then 2 ^ 63 + z else z in
  match value with
  | S754_zero s => signed s 0
  | S754_infinity s => signed s (2047 * 2 ^ 52)
  | S754_nan => 2047 * 2 ^ 52 + 2 ^ 51
  | S754_finite s m x =>
      signed s (if Z.pos m <? 2 ^ 52 then Z.pos m else (x + 1075) * 2 ^ 52 + (Z.pos m - 2 ^ 52))
  end.

Definition kPrecision : Z := 53.
Definition kBias : Z := 1024 - 1 + (kPrecision - 1).
Definition kMinExp : Z := 1 - kBias.
Definition kHiddenBit : Z := Z.shiftl 1 (kPrecision - 1).

Definition compute_boundaries (value : double) : boundaries :=
  let bits := reinterpret_bits value in
  let E := Z.shiftr bits (kPrecision - 1) in
  let F := Z.land bits (kHiddenBit - 1) in
  let is_denormal := E =? 0 in
  let v := if is_denormal then mkDiyfp F kMinExp else mkDiyfp (F +u64 kHiddenBit) (E - kBias) in
  let lower_boundary_is_closer := (F =? 0) && (1 <? E) in
  let m_plus := mkDiyfp (wrap 64 (2 * dy_f v) +u64 1) (dy_e v - 1) in
  let m_minus := if lower_boundary_is_closer
                 then mkDiyfp (wrap 64 (4 * dy_f v) -u64 1) (dy_e v - 2)
                 else mkDiyfp (wrap 64 (2 * dy_f v) -u64 1) (dy_e v - 1) in
  let w_plus := normalize m_plus in
  let w_minus := normalize_to m_minus (dy_e w_plus) in
  mkBoundaries (normalize v) w_minus w_plus.

(** * Cached powers of ten *)

Definition kAlpha : Z := -60.
Definition kGamma : Z := -32.

Record cached_power := mkCached { c_f : Z; c_e : Z; c_k : Z }.

Definition kCachedPowersMinDecExp : Z := -300.
Definition kCachedPowersDecStep : Z := 8.

Definition kCachedPowers : list cached_power :=
  [mkCached 0xAB70FE17C79AC6CA (-1060) (-300);
   mkCached 0xFF77B1FCBEBCDC4F (-1034) (-292);
   mkCached 0xBE5691EF416BD60C (-1007) (-284);
   mkCached 0x8DD01FAD907FFC3C (-980) (-276);
   mkCached 0xD3515C2831559A83 (-954) (-268);
   mkCached 0x9D71AC8FADA6C9B5 (-927) (-260);
   mkCached 0xEA9C227723EE8BCB (-901) (-252);
   mkCached 0xAECC49914078536D (-874) (-244);
   mkCached 0x823C12795DB6CE57 (-847) (-236);
   mkCached 0xC21094364DFB5637 (-821) (-228);
   mkCached 0x9096EA6F3848984F (-794) (-220);
   mkCached 0xD77485CB25823AC7 (-768) (-212);
   mkCached 0xA086CFCD97BF97F4 (-741) (-204);
   mkCached 0xEF340A98172AACE5 (-715) (-196);
   mkCached 0xB23867FB2A35B28E (-688) (-188);
   mkCached 0x84C8D4DFD2C63F3B (-661) (-180);
   mkCached 0xC5DD44271AD3CDBA (-635) (-172);
   mkCached 0x936B9FCEBB25C996 (-608) (-164);
   mkCached 0xDBAC6C247D62A584 (-582) (-156);
   mkCached 0xA3AB66580D5FDAF6 (-555) (-148);
   mkCached 0xF3E2F893DEC3F126 (-529) (-140);
   mkCached 0xB5B5ADA8AAFF80B8 (-502) (-132);
   mkCached 0x87625F056C7C4A8B (-475) (-124);
   mkCached 0xC9BCFF6034C13053 (-449) (-116);
   mkCached 0x964E858C91BA2655 (-422) (-108);
   mkCached 0xDFF9772470297EBD (-396) (-100);
   mkCached 0xA6DFBD9FB8E5B88F (-369) (-92);
   mkCached 0xF8A95FCF88747D94 (-343) (-84);
   mkCached 0xB94470938FA89BCF (-316) (-76);
   mkCached 0x8A08F0F8BF0F156B (-289) (-68);
   mkCached 0xCDB02555653131B6 (-263) (-60);
   mkCached 0x993FE2C6D07B7FAC (-236) (-52);
   mkCached 0xE45C10C42A2B3B06 (-210) (-44);
   mkCached 0xAA242499697392D3 (-183) (-36);
   mkCached 0xFD87B5F28300CA0E (-157) (-28);
   mkCached 0xBCE5086492111AEB (-130) (-20);
   mkCached 0x8CBCCC096F5088CC (-103) (-12);
   mkCached 0xD1B71758E219652C (-77) (-4);
   mkCached 0x9C40000000000000 (-50) (4);
   mkCached 0xE8D4A51000000000 (-24) (12);
   mkCached 0xAD78EBC5AC620000 (3) (20);
   mkCached 0x813F3978F8940984 (30) (28);
   mkCached 0xC097CE7BC90715B3 (56) (36);
   mkCached 0x8F7E32CE7BEA5C70 (83) (44);
   mkCached 0xD5D238A4ABE98068 (109) (52);
   mkCached 0x9F4F2726179A2245 (136) (60);
   mkCached 0xED63A231D4C4FB27 (162) (68);
   mkCached 0xB0DE65388CC8ADA8 (189) (76);
   mkCached 0x83C7088E1AAB65DB (216) (84);
   mkCached 0xC45D1DF942711D9A (242) (92);
   mkCached 0x924D692CA61BE758 (269) (100);
   mkCached 0xDA01EE641A708DEA (295) (108);
   mkCached 0xA26DA3999AEF774A (322) (116);
   mkCached 0xF209787BB47D6B85 (348) (124);
   mkCached 0xB454E4A179DD1877 (375) (132);
   mkCached 0x865B86925B9BC5C2 (402) (140);
   mkCached 0xC83553C5C8965D3D (428) (148);
   mkCached 0x952AB45CFA97A0B3 (455) (156);
   mkCached 0xDE469FBD99A05FE3 (481) (164);
   mkCached 0xA59BC234DB398C25 (508) (172);
   mkCached 0xF6C69A72A3989F5C (534) (180);
   mkCached 0xB7DCBF5354E9BECE (561) (188);
   mkCached 0x88FCF317F22241E2 (588) (196);
   mkCached 0xCC20CE9BD35C78A5 (614) (204);
   mkCached 0x98165AF37B2153DF (641) (212);
   mkCached 0xE2A0B5DC971F303A (667) (220);
   mkCached 0xA8D9D1535CE3B396 (694) (228);
   mkCached 0xFB9B7CD9A4A7443C (720) (236);
   mkCached 0xBB764C4CA7A44410 (747) (244);
   mkCached 0x8BAB8EEFB6409C1A (774) (252);
   mkCached 0xD01FEF10A657842C (800) (260);
   mkCached 0x9B10A4E5E9913129 (827) (268);
   mkCached 0xE7109BFBA19C0C9D (853) (276);
   mkCached 0xAC2820D9623BF429 (880) (284);
   mkCached 0x80444B5E7AA7CF85 (907) (292);
   mkCached 0xBF21E44003ACDD2D (933) (300);
   mkCached 0x8E679C2F5E44FF8F (960) (308);
   mkCached 0xD433179D9C8CB841 (986) (316);
   mkCached 0x9E19DB92B4E31BA9 (1013) (324)].

(** The index is in the table for every exponent of [compute_boundaries]. *)
Definition get_cached_power_for_binary_exponent (e : Z) : cached_power :=
  let f := kAlpha - e - 1 in
  let k := Z.quot (f * 78913) (Z.shiftl 1 18) + Z.b2z (0 <? f) in
  let index := Z.quot (- kCachedPowersMinDecExp + k + (kCachedPowersDecStep - 1)) kCachedPowersDecStep in
  nth (Z.to_nat index) kCachedPowers (mkCached 0 0 0).

(** * Digits *)

(** The number of digits, and [pow10]. *)
Definition find_largest_pow10 (n : Z) : Z * Z :=
  if 1000000000 <=? n then (10, 1000000000)
  else if 100000000 <=? n then (9, 100000000)
  else if 10000000 <=? n then (8, 10000000)
  else if 1000000 <=? n then (7, 1000000)
  else if 100000 <=? n then (6, 100000)
  else if 10000 <=? n then (5, 10000)
  else if 1000 <=? n then (4, 1000)
  else if 100 <=? n then (3, 100)
  else if 10 <=? n then (2, 10)
  else (1, 1).

(** [buf\[len - 1\]--] *)
Definition decrement_last (buf : text) : text := alter (λ c, c - 1) (pred (length buf)) buf.

(** The condition of the loop of [grisu2_round]. *)
Definition closer (dist delta rest ten_k : Z) : bool :=
  (rest <? dist) && (ten_k <=? delta -u64 rest)
  && ((rest +u64 ten_k <? dist) || (rest +u64 ten_k -u64 dist <? dist -u64 rest)).

(** A digit is decremented 9 times at most. *)
Fixpoint grisu2_round (fuel : nat) (buf : text) (dist delta rest ten_k : Z) : text :=
  match fuel with
  | O => buf
  | S fuel' =>
      if closer dist delta rest ten_k
      then grisu2_round fuel' (decrement_last buf) dist delta (rest +u64 ten_k) ten_k
      else buf
  end.

Definition round_fuel : nat := 10.

Definition digit_of (d : Z) : Z := wrap 8 (48 + d).

(** The loop over the integral part, [n] digits of which are left: the result,
    or the buffer when all of them are generated. *)
Fixpoint integral_digits (n : nat) (buffer : text) (dist delta p1 p2 pow10 : Z) (one : diyfp) : (text * Z) + text :=
  match n with
  | O => inr buffer
  | S n' =>
      let d := p1 / pow10 in
      let r := p1 mod pow10 in
      let buffer := buffer ++ [digit_of d] in
      let p1 := r in
      let rest := wrap 64 (Z.shiftl p1 (- dy_e one)) +u64 p2 in
      if rest <=? delta then
        let ten_n := wrap 64 (Z.shiftl pow10 (- dy_e one)) in
        inl (grisu2_round round_fuel buffer dist delta rest ten_n, Z.of_nat n')
      else integral_digits n' buffer dist delta p1 p2 (pow10 / 10) one
  end.

(** The loop over the fractional part; [m] digits of it are generated. *)
Fixpoint fractional_digits (fuel : nat) (buffer : text) (m dist delta p2 : Z) (one : diyfp) : text * Z :=
  match fuel with
  | O => (buffer, m)
  | S fuel' =>
      let p2 := wrap 64 (p2 * 10) in
      let d := Z.shiftr p2 (- dy_e one) in
      let r := Z.land p2 (dy_f one - 1) in
      let buffer := buffer ++ [digit_of d] in
      let p2 := r in
      let m := m + 1 in
      let delta := wrap 64 (delta * 10) in
      let dist := wrap 64 (dist * 10) in
      if p2 <=? delta then (grisu2_round round_fuel buffer dist delta p2 (dy_f one), - m)
      else fractional_digits fuel' buffer m dist delta p2 one
  end.

(** 20 turns multiply [delta] beyond 64 bits. *)
Definition fraction_fuel : nat := 20.

(** The digits and the change of the decimal exponent. *)
Definition grisu2_digit_gen (M_minus w M_plus : diyfp) : text * Z :=
  let delta := dy_f (diyfp_sub M_plus M_minus) in
  let dist := dy_f (diyfp_sub M_plus w) in
  let one := mkDiyfp (wrap 64 (Z.shiftl 1 (- dy_e M_plus))) (dy_e M_plus) in
  let p1 := wrap 32 (Z.shiftr (dy_f M_plus) (- dy_e one)) in
  let p2 := Z.land (dy_f M_plus) (dy_f one - 1) in
  let '(k, pow10) := find_largest_pow10 p1 in
  match integral_digits (Z.to_nat k) [] dist delta p1 p2 pow10 one with
  | inl result => result
  | inr buffer => fractional_digits fraction_fuel buffer 0 dist delta p2 one
  end.

Definition grisu2_scaled (m_minus v m_plus : diyfp) : text * Z :=
  let cached := get_cached_power_for_binary_exponent (dy_e m_plus) in
  let c_minus_k := mkDiyfp (c_f cached) (c_e cached) in
  let w := diyfp_mul v c_minus_k in
  let w_minus := diyfp_mul m_minus c_minus_k in
  let w_plus := diyfp_mul m_plus c_minus_k in
  let M_minus := mkDiyfp (dy_f w_minus +u64 1) (dy_e w_minus) in
  let M_plus := mkDiyfp (dy_f w_plus -u64 1) (dy_e w_plus) in
  let '(buf, n) := grisu2_digit_gen M_minus w M_plus in
  (buf, - c_k cached + n).

Definition grisu2 (value : double) : text * Z :=
  let w := compute_boundaries value in grisu2_scaled (b_minus w) (b_w w) (b_plus w).

(** * Formatting *)

Definition append_exponent (e : Z) : text :=
  let '(sign, k) := if e <? 0 then (45, - e) else (43, e) in
  if k <? 10 then [sign; 48; digit_of k]
  else if k <? 100 then [sign; digit_of (k / 10); digit_of (k mod 10)]
  else let k' := k mod 100 in [sign; digit_of (k / 100); digit_of (k' / 10); digit_of (k' mod 10)].

Definition format_buffer (buf : text) (decimal_exponent min_exp max_exp : Z) : text :=
  let k := Z.of_nat (length buf) in
  let n := k + decimal_exponent in
  if (k <=? n) && (n <=? max_exp) then buf ++ replicate (Z.to_nat (n - k)) 48 ++ [46; 48]
  else if (0 <? n) && (n <=? max_exp) then take (Z.to_nat n) buf ++ [46] ++ drop (Z.to_nat n) buf
  else if (min_exp <? n) && (n <=? 0) then [48; 46] ++ replicate (Z.to_nat (- n)) 48 ++ buf
  else if k =? 1 then buf ++ [101] ++ append_exponent (n - 1)
  else take 1 buf ++ [46] ++ drop 1 buf ++ [101] ++ append_exponent (n - 1).

Definition kMinExp10 : Z := -4.
Definition kMaxExp10 : Z := 15.

Definition signbit (value : double) : bool :=
  match value with
  | S754_zero s | S754_infinity s | S754_finite s _ _ => s
  | S754_nan => false
  end.

(** [to_chars] of a finite number. *)
Definition to_chars (value : double) : text :=
  let '(sign, value) := if signbit value then ([45], SFopp value) else ([], value) in
  if double_eqb value double_0 then sign ++ [48; 46; 48]
  else
    let '(buf, decimal_exponent) := grisu2 value in
    sign ++ format_buffer buf decimal_exponent kMinExp10 kMaxExp10.

(** [dump_float] *)
Definition dump_float (x : double) : text := if is_finite x then to_chars x else lit "null".
