(* ===== verification/Grisu.v ===== *)
(** Grisu2 is right: what file Dtoa prints lies strictly between the boundaries
    of the number it is given. *)

From S2P Require Import Prelude.
From S2P Require Import Text.
From S2P Require Import Entities.
From S2P Require Import Rationals.
From S2P Require Import Strtod.
From S2P Require Import Dtoa.
From Stdlib Require Import SpecFloat QArith Lqa.
Open Scope Z_scope.

(** * diyfp *)

Definition sig (x : diyfp) : Prop := in_u 64 (dy_f x).

(** The parts of a 64-bit product. *)
Lemma split32 u : in_u 64 u → u = Z.shiftr u 32 * 2 ^ 32 + Z.land u 0xFFFFFFFF ∧
  0 <= Z.shiftr u 32 < 2 ^ 32 ∧ 0 <= Z.land u 0xFFFFFFFF < 2 ^ 32.
Proof.
  unfold in_u. intros Hu. rewrite (land_ones_mod u 32), Z.shiftr_div_pow2 by done.
  change (2 ^ 32) with 4294967296. change (2 ^ 64) with 18446744073709551616 in Hu. zdivmod_lia.
Qed.

Lemma mul32_range u v : 0 <= u < 2 ^ 32 → 0 <= v < 2 ^ 32 → 0 <= u * v <= (2 ^ 32 - 1) * (2 ^ 32 - 1).
Proof. intros Hu Hv. split; [nia|]. apply Z.mul_le_mono_nonneg; lia. Qed.

(** [mul] rounds the upper half of the product, ties up. *)
Lemma diyfp_mul_spec x y :
  sig x → sig y →
  dy_f (diyfp_mul x y) = (dy_f x * dy_f y + 2 ^ 63) / 2 ^ 64 ∧ dy_e (diyfp_mul x y) = dy_e x + dy_e y + 64.
Proof.
  unfold sig. intros Hx Hy. split; [|done]. unfold diyfp_mul. cbn [dy_f].
  destruct (split32 _ Hx) as (Ex & Hxh & Hxl), (split32 _ Hy) as (Ey & Hyh & Hyl).
  set (uh := Z.shiftr (dy_f x) 32) in *. set (ul := Z.land (dy_f x) 0xFFFFFFFF) in *.
  set (vh := Z.shiftr (dy_f y) 32) in *. set (vl := Z.land (dy_f y) 0xFFFFFFFF) in *.
  pose proof (mul32_range ul vl Hxl Hyl) as H0. pose proof (mul32_range ul vh Hxl Hyh) as H1.
  pose proof (mul32_range uh vl Hxh Hyl) as H2. pose proof (mul32_range uh vh Hxh Hyh) as H3.
  assert (HP : dy_f x * dy_f y = ul * vl + 2 ^ 32 * (ul * vh + uh * vl) + 2 ^ 64 * (uh * vh)).
  { rewrite Ex, Ey. ring. }
  rewrite !(wrap_small 64 (_ * _)) by (unfold in_u; lia).
  destruct (split32 (ul * vl)) as (E0 & H0h & H0l); [unfold in_u; lia|].
  destruct (split32 (ul * vh)) as (E1 & H1h & H1l); [unfold in_u; lia|].
  destruct (split32 (uh * vl)) as (E2 & H2h & H2l); [unfold in_u; lia|].
  set (p0h := Z.shiftr (ul * vl) 32) in *. set (p0l := Z.land (ul * vl) _) in *.
  set (p1h := Z.shiftr (ul * vh) 32) in *. set (p1l := Z.land (ul * vh) _) in *.
  set (p2h := Z.shiftr (uh * vl) 32) in *. set (p2l := Z.land (uh * vl) _) in *.
  change (wrap 64 (Z.shiftl 1 (64 - 32 - 1))) with (2 ^ 31).
  rewrite (wrap_small 64 (p0h + p1l)), (wrap_small 64 (p0h + p1l + p2l)), (wrap_small 64 (p0h + p1l + p2l + 2 ^ 31))
    by (unfold in_u; lia).
  set (Q := p0h + p1l + p2l + 2 ^ 31). assert (HQ : in_u 64 Q) by (unfold in_u; lia).
  destruct (split32 Q HQ) as (EQ & HQh & HQl). set (Qh := Z.shiftr Q 32) in *. set (Ql := Z.land Q _) in *.
  assert (Hr : dy_f x * dy_f y + 2 ^ 63 = 2 ^ 64 * (uh * vh + p2h + p1h + Qh) + (p0l + 2 ^ 32 * Ql)) by lia.
  assert (Hxy : dy_f x * dy_f y <= (2 ^ 64 - 1) * (2 ^ 64 - 1)) by (unfold in_u in *; apply Z.mul_le_mono_nonneg; lia).
  assert (Hmax : uh * vh + p2h + p1h + Qh < 2 ^ 64).
  { apply (Z.mul_lt_mono_pos_l (2 ^ 64)); [done|]. clear - Hr Hxy H0l HQl. clearbody uh vh p0l p1h p2h Qh Ql. lia. }
  rewrite (wrap_small 64 (uh * vh + p2h)), (wrap_small 64 (uh * vh + p2h + p1h)), wrap_small by (unfold in_u; lia).
  apply (Z.div_unique _ _ _ (p0l + 2 ^ 32 * Ql)); [left; lia|exact Hr].
Qed.

(** [normalize] shifts the highest bit to its place. *)
Lemma normalize_loop_spec fuel x :
  0 < dy_f x < 2 ^ 64 → 63 - Z.log2 (dy_f x) < Z.of_nat fuel →
  normalize_loop fuel x = mkDiyfp (dy_f x * 2 ^ (63 - Z.log2 (dy_f x))) (dy_e x - (63 - Z.log2 (dy_f x))).
Proof.
  revert x. induction fuel as [|fuel IH]; intros [f e] Hx Hf; cbn [dy_f dy_e] in *.
  { assert (Z.log2 f < 64) by (apply Z.log2_lt_pow2; lia). lia. }
  cbn [normalize_loop dy_f dy_e]. rewrite Z.shiftr_div_pow2 by lia.
  assert (Hl : Z.log2 f <= 63) by (assert (Z.log2 f < 64) by (apply Z.log2_lt_pow2; lia); lia).
  destruct (Z.eqb_spec (f / 2 ^ 63) 0) as [E|E].
  - apply Z.div_small_iff in E; [|lia]. assert (Hf63 : f < 2 ^ 63) by lia.
    assert (Z.log2 f < 63) by (apply Z.log2_lt_pow2; lia).
    rewrite Z.shiftl_mul_pow2, wrap_small by (unfold in_u; lia).
    assert (Hl2 : Z.log2 (f * 2 ^ 1) = Z.log2 f + 1) by (rewrite Z.mul_comm; change (2 ^ 1) with 2; rewrite Z.log2_double; lia).
    rewrite IH; cbn [dy_f dy_e]; rewrite ?Hl2; [|lia|lia].
    replace (63 - Z.log2 f) with (Z.succ (63 - (Z.log2 f + 1))) by lia. rewrite Z.pow_succ_r by lia. f_equal; lia.
  - assert (Hf63 : 2 ^ 63 <= f).
    { destruct (Z.lt_ge_cases f (2 ^ 63)); [|done]. rewrite Z.div_small in E by lia. done. }
    assert (Z.log2 f = 63) as -> by (apply Z.log2_unique; lia). f_equal; lia.
Qed.

Lemma normalize_spec x :
  0 < dy_f x < 2 ^ 64 →
  normalize x = mkDiyfp (dy_f x * 2 ^ (63 - Z.log2 (dy_f x))) (dy_e x - (63 - Z.log2 (dy_f x))).
Proof. intros Hx. apply normalize_loop_spec; [done|]. pose proof (Z.log2_nonneg (dy_f x)). lia. Qed.

(** * Boundaries *)

(** The shift that normalizes the boundaries. *)
Definition shift_of (m : Z) : Z := 62 - Z.log2 m.

Lemma shift_range m x : binary64 m x → 10 <= shift_of m <= 62 ∧ (2 ^ 52 <= m → shift_of m = 10).
Proof.
  intros (Hm & _ & _). unfold shift_of. pose proof (Z.log2_nonneg m).
  assert (Z.log2 m < 53) by (apply Z.log2_lt_pow2; lia). split; [lia|]. intros H52.
  assert (Z.log2 m = 52) by (apply Z.log2_unique; lia). lia.
Qed.

Lemma bits_of_binary64 m x :
  binary64 (Z.pos m) x →
  Z.shiftr (reinterpret_bits (S754_finite false m x)) (kPrecision - 1) = (if Z.pos m <? 2 ^ 52 then 0 else x + 1075) ∧
  Z.land (reinterpret_bits (S754_finite false m x)) (kHiddenBit - 1) = (if Z.pos m <? 2 ^ 52 then Z.pos m else Z.pos m - 2 ^ 52).
Proof.
  intros (Hm & Hx & Hn). cbn [reinterpret_bits]. unfold kPrecision, kHiddenBit.
  rewrite (land_ones_mod _ 52), Z.shiftr_div_pow2 by done. change (53 - 1) with 52.
  destruct (Z.ltb_spec (Z.pos m) (2 ^ 52)).
  - rewrite Z.div_small, Z.mod_small by lia. done.
  - rewrite Z.add_comm, Z.div_add, Z.mod_add, Z.div_small, Z.mod_small by lia. lia.
Qed.

(** The significands of the three boundaries at their common exponent. *)
Definition w_of (m : Z) : Z := 2 * m * 2 ^ shift_of m.
Definition plus_of (m : Z) : Z := (2 * m + 1) * 2 ^ shift_of m.
Definition minus_of (m x : Z) : Z :=
  if closer_below m x then (4 * m - 1) * 2 ^ (shift_of m - 1) else (2 * m - 1) * 2 ^ shift_of m.
Definition exponent_of (m x : Z) : Z := x - 1 - shift_of m.

Lemma compute_boundaries_spec m x :
  binary64 (Z.pos m) x →
  compute_boundaries (S754_finite false m x) =
  mkBoundaries (mkDiyfp (w_of (Z.pos m)) (exponent_of (Z.pos m) x))
    (mkDiyfp (minus_of (Z.pos m) x) (exponent_of (Z.pos m) x))
    (mkDiyfp (plus_of (Z.pos m)) (exponent_of (Z.pos m) x)).
Proof.
  intros Hb. destruct (bits_of_binary64 m x Hb) as [HE HF]. pose proof (shift_range _ _ Hb) as [Hs Hs52].
  destruct Hb as (Hm & Hx & Hn). unfold compute_boundaries. rewrite HE, HF. cbv zeta.
  set (mz := Z.pos m) in *. set (s := shift_of mz) in *.
  assert (Hl : Z.log2 mz = 62 - s) by (unfold s, shift_of; lia).
  assert (Hl1 : Z.log2 (2 * mz + 1) = 63 - s) by (rewrite Z.log2_succ_double by lia; lia).
  match goal with |- context [if ?b then mkDiyfp _ kMinExp else ?y] => assert (Hv : (if b then mkDiyfp (if mz <? 2 ^ 52 then mz else mz - 2 ^ 52) kMinExp else y) = mkDiyfp mz x) end.
  { destruct (Z.ltb_spec mz (2 ^ 52)); [f_equal; unfold kMinExp, kBias, kPrecision; lia|].
    rewrite (proj2 (Z.eqb_neq (x + 1075) 0)) by lia. change kHiddenBit with (2 ^ 52).
    rewrite wrap_small by (unfold in_u; lia). f_equal; unfold kBias, kPrecision; lia. }
  rewrite Hv. cbn [dy_f dy_e]. clear Hv.
  assert (Hc : ((if mz <? 2 ^ 52 then mz else mz - 2 ^ 52) =? 0) && (1 <? (if mz <? 2 ^ 52 then 0 else x + 1075)) = closer_below mz x).
  { unfold closer_below. destruct (Z.ltb_spec mz (2 ^ 52)); lia. }
  rewrite Hc. rewrite !(wrap_small 64 (2 * mz)), (wrap_small 64 (2 * mz + 1)), (wrap_small 64 (2 * mz - 1)), (wrap_small 64 (4 * mz)),
    (wrap_small 64 (4 * mz - 1)) by (unfold in_u; lia).
  assert (Hp : normalize (mkDiyfp (2 * mz + 1) (x - 1)) = mkDiyfp (plus_of mz) (exponent_of mz x)).
  { rewrite normalize_spec by (cbn [dy_f]; lia). cbn [dy_f dy_e]. rewrite Hl1. unfold plus_of, exponent_of. fold s.
    replace (63 - (63 - s)) with s by lia. done. }
  assert (Hw : normalize (mkDiyfp mz x) = mkDiyfp (w_of mz) (exponent_of mz x)).
  { rewrite normalize_spec by (cbn [dy_f]; lia). cbn [dy_f dy_e]. rewrite Hl. unfold w_of, exponent_of. fold s.
    replace (63 - (62 - s)) with (Z.succ s) by lia. rewrite Z.pow_succ_r by lia. f_equal; lia. }
  rewrite Hp, Hw. f_equal. cbn [dy_e]. unfold normalize_to, minus_of, exponent_of. fold s.
  assert (H2s : 0 < 2 ^ s) by (by apply Z.pow_pos_nonneg; lia).
  assert (Hmax : mz * 2 ^ (s + 1) < 2 ^ 64).
  { pose proof (Z.log2_spec mz ltac:(lia)) as [_ Hu]. rewrite Hl in Hu.
    replace (2 ^ 64) with (2 ^ Z.succ (62 - s) * 2 ^ (s + 1)) by (rewrite <- Z.pow_add_r by lia; f_equal; lia).
    by apply Z.mul_lt_mono_pos_r; [apply Z.pow_pos_nonneg; lia|]. }
  replace (2 ^ (s + 1)) with (2 * 2 ^ s) in Hmax by (rewrite Z.pow_add_r; lia).
  destruct (closer_below mz x); cbn [dy_f dy_e]; f_equal.
  - replace (x - 2 - (x - 1 - s)) with (s - 1) by lia. rewrite Z.shiftl_mul_pow2 by lia. apply wrap_small.
    replace (2 ^ s) with (2 * 2 ^ (s - 1)) in * by (rewrite <- Z.pow_succ_r by lia; f_equal; lia). unfold in_u. nia.
  - replace (x - 1 - (x - 1 - s)) with s by lia. rewrite Z.shiftl_mul_pow2 by lia. apply wrap_small. unfold in_u. nia.
Qed.

(** The distances between the boundaries, in shifted units. *)
Record boundary_facts (m x : Z) : Prop := {
  bf_unit : 2 ^ 10 <= 2 ^ shift_of m;
  bf_plus : 2 ^ 63 <= plus_of m < 2 ^ 64;
  bf_upper : plus_of m - w_of m = 2 ^ shift_of m;
  bf_lower : 2 ^ shift_of m <= 2 * (w_of m - minus_of m x);
  bf_minus : 0 < minus_of m x;
  bf_gap : (plus_of m <= (2 ^ 54 - 1) * 2 ^ shift_of m ∧ plus_of m - minus_of m x = 2 * 2 ^ shift_of m) ∨
           (plus_of m = (2 ^ 53 + 1) * 2 ^ shift_of m ∧ 2 * (plus_of m - minus_of m x) = 3 * 2 ^ shift_of m);
  bf_exponent : -1137 <= exponent_of m x <= 960
}.

Lemma boundaries_hold m x : binary64 m x → boundary_facts m x.
Proof.
  intros Hb. pose proof (shift_range _ _ Hb) as [Hs Hs52]. destruct Hb as (Hm & Hx & Hn).
  assert (Ht : 2 ^ 10 <= 2 ^ shift_of m) by (apply Z.pow_le_mono_r; lia).
  assert (Hp : 2 ^ 63 <= plus_of m < 2 ^ 64).
  { unfold plus_of, shift_of. pose proof (Z.log2_spec m ltac:(lia)) as [Hl Hu].
    assert (Z.log2 m < 53) by (apply Z.log2_lt_pow2; lia). pose proof (Z.log2_nonneg m).
    replace (2 ^ 63) with (2 ^ (Z.log2 m + 1) * 2 ^ (62 - Z.log2 m)) by (rewrite <- Z.pow_add_r by lia; f_equal; lia).
    replace (2 ^ 64) with (2 ^ (Z.log2 m + 2) * 2 ^ (62 - Z.log2 m)) by (rewrite <- Z.pow_add_r by lia; f_equal; lia).
    rewrite Z.pow_succ_r in Hu by lia. rewrite !Z.pow_add_r by lia. change (2 ^ 1) with 2. change (2 ^ 2) with 4.
    assert (0 < 2 ^ (62 - Z.log2 m)) by (apply Z.pow_pos_nonneg; lia). nia. }
  assert (Hh : 2 ^ shift_of m = 2 * 2 ^ (shift_of m - 1)) by (rewrite <- Z.pow_succ_r by lia; f_equal; lia).
  split; [done|done| | | | |].
  - unfold plus_of, w_of. lia.
  - unfold w_of, minus_of. destruct (closer_below m x); nia.
  - unfold minus_of. destruct (closer_below m x); nia.
  - unfold plus_of, minus_of, closer_below. destruct (Z.eqb_spec m (2 ^ 52)) as [->|]; cbn [andb].
    + destruct (-1074 <? x); [right|left]; split; nia.
    + left. split; nia.
  - unfold exponent_of. destruct Hn as [Hn | ->]; [rewrite (Hs52 Hn); lia|lia].
Qed.

(** * Cached powers *)

(** [c_f * 2^c_e] is within half a unit of [10^c_k]. *)
Definition accurate (c : cached_power) : bool :=
  let p2 := 2 ^ Z.max (c_e c) 0 in let n2 := 2 ^ Z.max (- c_e c) 0 in
  let p10 := 10 ^ Z.max (c_k c) 0 in let n10 := 10 ^ Z.max (- c_k c) 0 in
  (2 ^ 63 <=? c_f c) && (c_f c <? 2 ^ 64)
  && (Z.abs (2 * (c_f c * p2 * n10) - 2 * (p10 * n2)) <=? p2 * n10).

Lemma cached_powers_accurate : forallb accurate kCachedPowers = true.
Proof. vm_compute. reflexivity. Qed.

Definition cached_in_range (e : Z) : bool :=
  let f := kAlpha - e - 1 in
  let k := Z.quot (f * 78913) (Z.shiftl 1 18) + Z.b2z (0 <? f) in
  let index := Z.quot (- kCachedPowersMinDecExp + k + (kCachedPowersDecStep - 1)) kCachedPowersDecStep in
  (Z.to_nat index <? length kCachedPowers)%nat && (0 <=? index)
  && (kAlpha <=? c_e (get_cached_power_for_binary_exponent e) + e + 64)
  && (c_e (get_cached_power_for_binary_exponent e) + e + 64 <=? kGamma).

Definition cached_exponent_small (c : cached_power) : bool := (-300 <=? c_k c) && (c_k c <=? 324).

Lemma cached_exponents_small : forallb cached_exponent_small kCachedPowers = true.
Proof. vm_compute. reflexivity. Qed.

Lemma cached_range_all : all_from 2098 (-1137) cached_in_range = true.
Proof. vm_compute. reflexivity. Qed.

(** The power for a boundary is in the table and brings the exponent in range. *)
Lemma cached_power_spec e :
  -1137 <= e <= 960 →
  let c := get_cached_power_for_binary_exponent e in
  accurate c = true ∧ -60 <= c_e c + e + 64 <= -32 ∧ -300 <= c_k c <= 324.
Proof.
  intros He. pose proof (all_from_spec _ _ _ e cached_range_all ltac:(lia)) as H. unfold cached_in_range in H.
  apply andb_prop in H as [[[Hi _]%andb_prop H1]%andb_prop H2]. apply Nat.ltb_lt in Hi. bool_to_prop.
  pose proof cached_powers_accurate as Ha. pose proof cached_exponents_small as Hk. rewrite forallb_forall in Ha, Hk.
  assert (Hin : In (get_cached_power_for_binary_exponent e) kCachedPowers) by (by apply nth_In).
  specialize (Ha _ Hin). specialize (Hk _ Hin). apply andb_prop in Hk as [Hk1 Hk2]. bool_to_prop.
  exact (conj Ha (conj (conj H1 H2) (conj Hk1 Hk2))).
Qed.

(** * Digit generation *)

Lemma decrement_last_snoc pre c : decrement_last (pre ++ [c]) = pre ++ [c - 1].
Proof.
  unfold decrement_last. rewrite length_app. cbn [length]. rewrite Nat.add_1_r. cbn [pred].
  induction pre as [|d pre IH]; cbn; [done|]. by f_equal.
Qed.

(** Rounding decrements the last digit while this stays above the lower bound,
    never to 0; its loop has ended by itself. *)
Lemma grisu2_round_spec fuel pre c dist delta rest ten :
  49 <= c <= 57 → 0 <= rest <= delta → 0 <= dist <= delta → delta < 2 ^ 64 → 0 < ten →
  delta < (c - 48) * ten + rest → c - 48 < Z.of_nat fuel →
  ∃ c', grisu2_round fuel (pre ++ [c]) dist delta rest ten = pre ++ [c'] ∧ 49 <= c' <= c ∧
        rest + (c - c') * ten <= delta ∧ closer dist delta (rest + (c - c') * ten) ten = false.
Proof.
  revert c rest. induction fuel as [|fuel IH]; intros c rest Hc Hr Hd Hdelta Ht Hn Hf; [lia|].
  cbn [grisu2_round]. destruct (closer dist delta rest ten) eqn:E.
  - assert (Hten : ten <= delta - rest).
    { unfold closer in E. apply andb_prop in E as [[_ E]%andb_prop _]. rewrite wrap_small in E by (unfold in_u; lia). by bool_to_prop. }
    assert (Hc1 : 49 <= c - 1) by nia. rewrite decrement_last_snoc, wrap_small by (unfold in_u; lia).
    destruct (IH (c - 1) (rest + ten)) as (c' & -> & Hc' & Hr' & Ho); [lia..|].
    exists c'. replace (rest + (c - c') * ten) with (rest + ten + (c - 1 - c') * ten) by lia. split_and!; [done|lia|lia|done|done].
  - exists c. rewrite Z.sub_diag, Z.mul_0_l, Z.add_0_r. split_and!; [done|lia|lia|lia|done].
Qed.

Abbreviation digit := (λ c : Z, 48 <= c <= 57).

(** The digits generated, [x] places before the decimal point: between the
    bounds [L] and [M], which are in units of [2^-q]. *)
Record generated (L M q : Z) (buf : text) (x : Z) : Prop := {
  gen_digits : Forall digit buf;
  gen_length : (1 <= length buf <= 17)%nat;
  gen_first : 49 <= hd 0 buf;
  gen_last : 49 <= List.last buf 0;
  gen_low : L * 10 ^ Z.max (- x) 0 <= value_of buf * 10 ^ Z.max x 0 * 2 ^ q;
  gen_high : value_of buf * 10 ^ Z.max x 0 * 2 ^ q <= M * 10 ^ Z.max (- x) 0;
  gen_place : -20 <= x <= 10
}.

Lemma digit_of_small d : 0 <= d <= 9 → digit_of d = 48 + d.
Proof. intros Hd. unfold digit_of. apply wrap_small. unfold in_u. lia. Qed.

Lemma hd_snoc (buf : text) c : hd 0 (buf ++ [c]) = match buf with [] => c | _ => hd 0 buf end.
Proof. by destruct buf. Qed.

Section digits.
Context (M delta dist q : Z).
Context (Hq : 32 <= q <= 60) (HM : 2 ^ q <= M < 2 ^ 64) (Hdelta : 0 < delta < M) (Hdist : 0 <= dist <= delta).
Context (Hprecise : M < 10 ^ 16 * delta).

Abbreviation one := (mkDiyfp (2 ^ q) (- q)).
Definition p2_of : Z := M mod 2 ^ q.

Lemma pow2q : 0 < 2 ^ q <= 2 ^ 60.
Proof. split; [apply Z.pow_pos_nonneg; lia|apply Z.pow_le_mono_r; lia]. Qed.

Lemma p2_range : 0 <= p2_of < 2 ^ q.
Proof. apply Z.mod_pos_bound, pow2q. Qed.

(** What is left of [M] behind the digits in [buf]. *)
Record behind (k : Z) (buf : text) (n p1 : Z) : Prop := {
  bh_digits : Forall digit buf;
  bh_count : Z.of_nat (length buf) + n = k;
  bh_first : match buf with [] => 10 ^ (n - 1) <= p1 | _ => 49 <= hd 0 buf end;
  bh_left : M = value_of buf * 10 ^ n * 2 ^ q + p1 * 2 ^ q + p2_of;
  bh_p1 : 0 <= p1 < 10 ^ n;
  bh_open : delta < p1 * 2 ^ q + p2_of
}.

(** A state from which the loop goes on has at most 16 digits. *)
Lemma behind_length k buf n p1 :
  10 ^ (k - 1) * 2 ^ q <= M → 0 <= n → behind k buf n p1 → (length buf <= 16)%nat.
Proof.
  intros Hk Hn [_ Hc _ _ Hp Ho]. destruct (le_lt_dec (length buf) 16) as [|Hl]; [done|exfalso].
  pose proof p2_range. pose proof pow2q.
  assert (Hd : delta < 10 ^ n * 2 ^ q) by nia.
  assert (H16 : 10 ^ 16 * 10 ^ n <= 10 ^ (k - 1)) by (rewrite <- Z.pow_add_r by lia; apply Z.pow_le_mono_r; lia).
  assert (10 ^ 16 * delta <= 10 ^ 16 * 10 ^ n * 2 ^ q) by nia. nia.
Qed.

(** One digit, and the rounding of a number that ends with it. *)
Lemma rounded buf d ten rest delta' dist' fuel :
  Forall digit buf → 0 <= d <= 9 → 0 <= rest <= delta' → 0 <= dist' <= delta' → delta' < 2 ^ 64 → 0 < ten →
  delta' < d * ten + rest → match buf with [] => 0 < d | _ => 49 <= hd 0 buf end → d < Z.of_nat fuel →
  ∃ buf', grisu2_round fuel (buf ++ [digit_of d]) dist' delta' rest ten = buf' ∧
    Forall digit buf' ∧ length buf' = S (length buf) ∧ 49 <= hd 0 buf' ∧ 49 <= List.last buf' 0 ∧
    ∃ j, 0 <= j ∧ value_of buf' = value_of buf * 10 + d - j ∧ rest + j * ten <= delta'.
Proof.
  intros Hb Hd Hr Hdi Hde Ht Hn Hf Hfuel. rewrite digit_of_small by lia.
  assert (Hd1 : 1 <= d) by nia.
  destruct (grisu2_round_spec fuel buf (48 + d) dist' delta' rest ten) as (c & E & Hc & Hrc & _);
    [lia..|replace (48 + d - 48) with d by lia; lia|lia|].
  exists (buf ++ [c]). split; [done|]. split; [apply Forall_app; split; [done|]; repeat constructor; lia|].
  split; [rewrite length_app; cbn; lia|]. split; [rewrite hd_snoc; destruct buf; [lia|done]|].
  split; [rewrite List.last_last; lia|]. exists (48 + d - c). split; [lia|]. rewrite value_of_app. split; lia.
Qed.

Lemma integral_step k buf n p1 :
  0 <= n → behind k buf (n + 1) p1 →
  0 <= p1 / 10 ^ n <= 9 ∧ 0 <= p1 mod 10 ^ n < 10 ^ n ∧ p1 = p1 / 10 ^ n * 10 ^ n + p1 mod 10 ^ n ∧
  match buf with [] => 0 < p1 / 10 ^ n | _ => 49 <= hd 0 buf end ∧
  M = (value_of buf * 10 + p1 / 10 ^ n) * 10 ^ n * 2 ^ q + p1 mod 10 ^ n * 2 ^ q + p2_of ∧
  delta < p1 / 10 ^ n * (10 ^ n * 2 ^ q) + (p1 mod 10 ^ n * 2 ^ q + p2_of).
Proof.
  intros Hn [Hd Hc Hf Hl Hp Ho]. rewrite Z.pow_add_r in Hl, Hp by lia. change (10 ^ 1) with 10 in Hl, Hp.
  assert (H10 : 0 < 10 ^ n) by (apply Z.pow_pos_nonneg; lia).
  pose proof (Z.div_mod p1 (10 ^ n) ltac:(lia)) as Hdm. pose proof (Z.mod_pos_bound p1 (10 ^ n) H10) as Hmod.
  set (d := p1 / 10 ^ n) in *. set (r := p1 mod 10 ^ n) in *.
  assert (Hd9 : 0 <= d <= 9) by (clear - Hdm Hmod Hp H10; nia).
  split_and!; try done; try lia.
  - destruct buf; [|done]. replace (n + 1 - 1) with n in Hf by lia. clear - Hf Hdm Hmod H10. nia.
Qed.

Lemma integral_spec k n buf p1 :
  1 <= k <= 10 → 10 ^ (k - 1) * 2 ^ q <= M → behind k buf (Z.of_nat n) p1 →
  match integral_digits n buf dist delta p1 p2_of (10 ^ (Z.of_nat n - 1)) one with
  | inl (buf', x) => generated (M - delta) M q buf' x
  | inr buf' => behind k buf' 0 0
  end.
Proof.
  intros Hk Hk10. revert buf p1. induction n as [|n IH]; intros buf p1 HB; cbn [integral_digits].
  { destruct HB as [H1 H2 H3 H4 H5 H6]. rewrite Z.pow_0_r in H5. by replace p1 with 0 in * by lia. }
  pose proof (behind_length k buf (Z.of_nat (S n)) p1 Hk10 ltac:(lia) HB) as Hlen. rewrite Nat2Z.inj_succ, <- Z.add_1_r in HB |- *.
  replace (Z.of_nat n + 1 - 1) with (Z.of_nat n) by lia. cbn [dy_e]. rewrite Z.opp_involutive.
  destruct (integral_step k buf (Z.of_nat n) p1 ltac:(lia) HB) as (Hd & Hr & Hp1 & Hf & HMd & Ho).
  destruct HB as [Hb Hc _ _ _ _]. pose proof p2_range as Hp2. pose proof pow2q as H2q.
  set (d := p1 / 10 ^ Z.of_nat n) in *. set (r := p1 mod 10 ^ Z.of_nat n) in *.
  assert (H10 : 0 < 10 ^ Z.of_nat n) by (apply Z.pow_pos_nonneg; lia).
  assert (Hv : 0 <= value_of buf).
  { clear - Hb. induction buf as [|c buf IH] using rev_ind; [done|]. apply Forall_app in Hb as [Hb Hc].
    apply Forall_cons in Hc as [Hc _]. rewrite value_of_app. specialize (IH Hb). lia. }
  assert (Hlow : 0 <= (value_of buf * 10 + d) * 10 ^ Z.of_nat n * 2 ^ q) by (clear - Hv Hd H10 H2q; apply Z.mul_nonneg_nonneg; [apply Z.mul_nonneg_nonneg; lia|lia]).
  rewrite Z.shiftl_mul_pow2 by lia.
  assert (Hr64 : 0 <= r * 2 ^ q) by (apply Z.mul_nonneg_nonneg; lia).
  rewrite (wrap_small 64 (r * 2 ^ q)), (wrap_small 64 (r * 2 ^ q + p2_of)) by (unfold in_u; lia).
  destruct (Z.leb_spec (r * 2 ^ q + p2_of) delta) as [Hle|Hgt].
  - assert (Hd1 : 1 <= d) by (destruct (Z.eq_dec d 0) as [E|]; [rewrite E in Ho; lia|lia]).
    assert (Hten : 10 ^ Z.of_nat n * 2 ^ q <= M).
    { rewrite HMd. assert (10 ^ Z.of_nat n * 2 ^ q <= (value_of buf * 10 + d) * 10 ^ Z.of_nat n * 2 ^ q); [|lia].
      apply Z.mul_le_mono_nonneg_r; [lia|]. clear - Hv Hd1 H10. nia. }
    rewrite Z.shiftl_mul_pow2, (wrap_small 64 (10 ^ Z.of_nat n * 2 ^ q)) by (unfold in_u; nia || lia).
    destruct (rounded buf d (10 ^ Z.of_nat n * 2 ^ q) (r * 2 ^ q + p2_of) delta dist round_fuel)
      as (buf' & -> & Hb' & Hl' & Hf' & Hla & j & Hj & Hval & Hrest); [done|lia|lia|lia|lia|nia|done|done|unfold round_fuel; lia|].
    split; [done|lia|done|done| | |].
    + rewrite (Z.max_r (- Z.of_nat n) 0), (Z.max_l (Z.of_nat n) 0), Z.pow_0_r, Hval, Z.mul_1_r by lia. clear - HMd Hrest. nia.
    + rewrite (Z.max_r (- Z.of_nat n) 0), (Z.max_l (Z.of_nat n) 0), Z.pow_0_r, Hval, Z.mul_1_r by lia. clear - HMd Hj H10 H2q Hp2 Hr64. nia.
    + lia.
  - replace (10 ^ Z.of_nat n / 10) with (10 ^ (Z.of_nat n - 1)); cycle 1.
    { destruct n as [|n]; [done|]. rewrite Nat2Z.inj_succ. replace (Z.succ (Z.of_nat n) - 1) with (Z.of_nat n) by lia.
      rewrite Z.pow_succ_r, Z.mul_comm, Z.div_mul by lia. done. }
    apply IH. split.
    + apply Forall_app. split; [done|]. rewrite digit_of_small by lia. repeat constructor; lia.
    + rewrite length_app. cbn [length]. lia.
    + rewrite digit_of_small by lia. destruct buf as [|b buf]; cbn [app hd] in *; lia.
    + rewrite digit_of_small, value_of_app by lia. replace (48 + d - 48) with d by lia. exact HMd.
    + lia.
    + lia.
Qed.

Lemma fractional_spec k fuel buf m p2 :
  1 <= k <= 10 → 10 ^ (k - 1) * 2 ^ q <= M → 0 <= m → m + Z.of_nat fuel = 20 →
  Forall digit buf → 49 <= hd 0 buf → Z.of_nat (length buf) = k + m →
  M * 10 ^ m = value_of buf * 2 ^ q + p2 → 0 <= p2 < 2 ^ q → delta * 10 ^ m < p2 →
  let '(buf', x) := fractional_digits fuel buf m (dist * 10 ^ m) (delta * 10 ^ m) p2 one in
  generated (M - delta) M q buf' x.
Proof.
  intros Hk Hk10. revert buf m p2. induction fuel as [|fuel IH]; intros buf m p2 Hm Hfuel Hb Hf Hlen HMm Hp2 Ho;
    pose proof pow2q as H2q; assert (H10 : 0 < 10 ^ m) by (apply Z.pow_pos_nonneg; lia).
  { exfalso. assert (Hm20 : m = 20) by lia. subst m. change (10 ^ 20) with 100000000000000000000 in Ho. lia. }
  cbn [fractional_digits dy_e dy_f]. rewrite Z.opp_involutive.
  assert (Hlen16 : k + m <= 16).
  { destruct (Z.le_gt_cases (k + m) 16) as [|Hl]; [done|exfalso].
    assert (H16 : 10 ^ 16 <= 10 ^ (k - 1) * 10 ^ m) by (rewrite <- Z.pow_add_r by lia; apply Z.pow_le_mono_r; lia).
    assert (M * 10 ^ m < 10 ^ 16 * 2 ^ q) by nia. nia. }
  assert (Hd60 : delta * 10 ^ m < 2 ^ 60) by lia.
  rewrite (wrap_small 64 (p2 * 10)), Z.shiftr_div_pow2, (land_ones_mod _ q) by (unfold in_u; lia || (rewrite Z.ones_equiv; lia)).
  rewrite !(wrap_small 64 (_ * 10 ^ m * 10)) by (unfold in_u; nia).
  pose proof (Z.div_mod (p2 * 10) (2 ^ q) ltac:(lia)) as Hdm. pose proof (Z.mod_pos_bound (p2 * 10) (2 ^ q) ltac:(lia)) as Hmod.
  set (d := p2 * 10 / 2 ^ q) in *. set (r := (p2 * 10) mod 2 ^ q) in *.
  assert (Hd : 0 <= d <= 9) by (clear - Hdm Hmod Hp2 H2q; nia).
  assert (HM1 : M * 10 ^ (m + 1) = (value_of buf * 10 + d) * 2 ^ q + r) by (rewrite Z.pow_add_r by lia; change (10 ^ 1) with 10; lia).
  replace (delta * 10 ^ m * 10) with (delta * 10 ^ (m + 1)) by (rewrite Z.pow_add_r; lia).
  replace (dist * 10 ^ m * 10) with (dist * 10 ^ (m + 1)) by (rewrite Z.pow_add_r; lia).
  assert (Ho1 : delta * 10 ^ (m + 1) < d * 2 ^ q + r) by (rewrite Z.pow_add_r by lia; change (10 ^ 1) with 10; lia).
  assert (H11 : 0 < 10 ^ (m + 1)) by (apply Z.pow_pos_nonneg; lia).
  destruct (Z.leb_spec r (delta * 10 ^ (m + 1))) as [Hle|Hgt].
  - destruct (rounded buf d (2 ^ q) r (delta * 10 ^ (m + 1)) (dist * 10 ^ (m + 1)) round_fuel)
      as (buf' & -> & Hb' & Hl' & Hf' & Hla & j & Hj & Hval & Hrest);
      [done|lia|lia|nia|rewrite Z.pow_add_r; lia|lia|lia|destruct buf; [cbn in Hf; lia|done]|unfold round_fuel; lia|].
    split; [done|lia|done|done| | |lia].
    + rewrite (Z.max_l (- - (m + 1)) 0), (Z.max_r (- (m + 1)) 0), Z.pow_0_r, Hval, Z.mul_1_r, Z.opp_involutive by lia. clear - HM1 Hrest. nia.
    + rewrite (Z.max_l (- - (m + 1)) 0), (Z.max_r (- (m + 1)) 0), Z.pow_0_r, Hval, Z.mul_1_r, Z.opp_involutive by lia. clear - HM1 Hj H2q Hmod. nia.
  - apply IH; try lia.
    + apply Forall_app. split; [done|]. rewrite digit_of_small by lia. repeat constructor; lia.
    + rewrite hd_snoc. destruct buf; [cbn in Hf; lia|done].
    + rewrite length_app. cbn [length]. lia.
    + rewrite digit_of_small, value_of_app by lia. lia.
Qed.
End digits.

Lemma find_largest_pow10_spec n :
  0 < n < 2 ^ 32 →
  ∃ k, find_largest_pow10 n = (k, 10 ^ (k - 1)) ∧ 1 <= k <= 10 ∧ 10 ^ (k - 1) <= n < 10 ^ k.
Proof.
  intros Hn. unfold find_largest_pow10.
  repeat (match goal with |- context [if ?a <=? ?b then _ else _] => destruct (Z.leb_spec a b) end;
    [match goal with |- context [(?k, _) = _] => exists k; split; [done|split; [lia|]] end;
     match goal with |- 10 ^ ?a <= _ < 10 ^ ?b => let x := eval vm_compute in (10 ^ a) in let y := eval vm_compute in (10 ^ b) in
       change (10 ^ a) with x; change (10 ^ b) with y; lia end|]).
  exists 1. split; [done|]. change (10 ^ (1 - 1)) with 1. change (10 ^ 1) with 10. lia.
Qed.

(** The digits that [grisu2_digit_gen] finds. *)
Lemma grisu2_digit_gen_spec L W M q :
  32 <= q <= 60 → 2 ^ q <= M < 2 ^ 64 → 0 < L < M → L <= W <= M → M < 10 ^ 16 * (M - L) →
  let '(buf, x) := grisu2_digit_gen (mkDiyfp L (- q)) (mkDiyfp W (- q)) (mkDiyfp M (- q)) in generated L M q buf x.
Proof.
  intros Hq HM HL HW Hp. pose proof (pow2q q Hq) as H2q. unfold grisu2_digit_gen, diyfp_sub. cbn [dy_f dy_e].
  rewrite Z.opp_involutive, (wrap_small 64 (M - L)), (wrap_small 64 (M - W)) by (unfold in_u; lia).
  rewrite Z.shiftl_1_l, (wrap_small 64 (2 ^ q)) by (unfold in_u; lia). cbn [dy_f dy_e].
  rewrite Z.shiftr_div_pow2, (land_ones_mod _ q) by (lia || (rewrite Z.ones_equiv; lia)).
  pose proof (Z.div_mod M (2 ^ q) ltac:(lia)) as Hdm. pose proof (Z.mod_pos_bound M (2 ^ q) ltac:(lia)) as Hmod.
  assert (Hp1 : 0 < M / 2 ^ q < 2 ^ 32).
  { split; [apply Z.div_str_pos; lia|]. apply Z.div_lt_upper_bound; [lia|].
    assert (2 ^ 32 <= 2 ^ q) by (apply Z.pow_le_mono_r; lia). nia. }
  rewrite (wrap_small 32) by (unfold in_u; lia).
  destruct (find_largest_pow10_spec _ Hp1) as (k & -> & Hk & Hk10).
  assert (Hk10M : 10 ^ (k - 1) * 2 ^ q <= M) by nia.
  pose proof (integral_spec M (M - L) (M - W) q Hq HM ltac:(lia) ltac:(lia) Hp k (Z.to_nat k) [] (M / 2 ^ q) Hk Hk10M) as HI.
  rewrite Z2Nat.id in HI by lia. fold (p2_of M q).
  assert (HB : behind M (M - L) q k [] k (M / 2 ^ q)).
  { unfold p2_of. split; [constructor|cbn; lia|cbn; lia|change (value_of []) with 0; unfold p2_of; lia|lia|unfold p2_of; lia]. }
  specialize (HI HB). destruct (integral_digits _ _ _ _ _ _ _ _) as [[buf x]|buf].
  - by replace (M - (M - L)) with L in HI by lia.
  - destruct HI as [H1 H2 H3 H4 H5 H6].
    pose proof (fractional_spec M (M - L) (M - W) q Hq HM ltac:(lia) ltac:(lia) Hp k fraction_fuel buf 0 (p2_of M q)) as HF.
    change (10 ^ 0) with 1 in HF, H4. rewrite !Z.mul_1_r in HF.
    replace (M - (M - L)) with L in HF by lia. apply HF; try done; try lia.
    destruct buf; [cbn in H2; lia|done].
Qed.

(** * Scaling *)

Definition scaled (f C : Z) : Z := (f * C + 2 ^ 63) / 2 ^ 64.

Lemma scaled_bounds f C : 2 ^ 64 * scaled f C <= f * C + 2 ^ 63 < 2 ^ 64 * (scaled f C + 1).
Proof.
  unfold scaled. pose proof (Z.div_mod (f * C + 2 ^ 63) (2 ^ 64) ltac:(lia)).
  pose proof (Z.mod_pos_bound (f * C + 2 ^ 63) (2 ^ 64) ltac:(lia)). lia.
Qed.

(** The scaled boundaries, moved inwards by one unit, still enclose the number
    and are so far apart that 17 digits are enough. *)
Lemma scaled_apart m x C (P := scaled (plus_of m) C) (W := scaled (w_of m) C) (N := scaled (minus_of m x) C) :
  boundary_facts m x → 2 ^ 63 <= C < 2 ^ 64 →
  2 ^ 61 <= P - 1 < 2 ^ 64 ∧ 0 <= N ∧ N + 1 <= W <= P - 1 ∧ N + 1 < P - 1 ∧ P - 1 < 10 ^ 16 * (P - 1 - (N + 1)).
Proof.
  intros [Hu Hp Hup Hlo Hm Hgap _] HC.
  pose proof (scaled_bounds (plus_of m) C) as HP. pose proof (scaled_bounds (w_of m) C) as HW.
  pose proof (scaled_bounds (minus_of m x) C) as HN. fold P W N in HP, HW, HN.
  set (u := 2 ^ shift_of m) in *.
  assert (HT : 2 ^ 73 <= u * C) by (change (2 ^ 73) with (2 ^ 10 * 2 ^ 63); apply Z.mul_le_mono_nonneg; lia).
  assert (HPC : 2 ^ 126 <= plus_of m * C) by (change (2 ^ 126) with (2 ^ 63 * 2 ^ 63); apply Z.mul_le_mono_nonneg; lia).
  assert (HPC' : plus_of m * C <= (2 ^ 64 - 1) * (2 ^ 64 - 1)) by (apply Z.mul_le_mono_nonneg; lia).
  assert (HNC : 0 < minus_of m x * C) by (apply Z.mul_pos_pos; lia).
  assert (Hup' : plus_of m * C - w_of m * C = u * C) by (rewrite <- Hup; ring).
  assert (Hlo' : u * C <= 2 * (w_of m * C - minus_of m x * C)).
  { replace (2 * (w_of m * C - minus_of m x * C)) with ((2 * (w_of m - minus_of m x)) * C) by ring.
    apply Z.mul_le_mono_nonneg_r; lia. }
  assert (Hgap' : (plus_of m * C <= (2 ^ 54 - 1) * (u * C) ∧ plus_of m * C - minus_of m x * C = 2 * (u * C)) ∨
                  (plus_of m * C = (2 ^ 53 + 1) * (u * C) ∧ 2 * (plus_of m * C - minus_of m x * C) = 3 * (u * C))).
  { destruct Hgap as [[H1 H2]|[H1 H2]]; [left|right]; split.
    - replace ((2 ^ 54 - 1) * (u * C)) with ((2 ^ 54 - 1) * u * C) by ring. apply Z.mul_le_mono_nonneg_r; lia.
    - rewrite <- Z.mul_sub_distr_r, H2. ring.
    - rewrite H1. ring.
    - rewrite <- Z.mul_sub_distr_r, Z.mul_assoc, H2. ring. }
  clear - HP HW HN HT HPC HPC' HNC Hup' Hlo' Hgap'. clearbody P W N u.
  set (pc := plus_of m * C) in *. set (wc := w_of m * C) in *. set (nc := minus_of m x * C) in *. set (T := u * C) in *.
  clearbody pc wc nc T. lia.
Qed.

(** What [grisu2] computes with the cached power. *)
Lemma grisu2_eq m x :
  binary64 (Z.pos m) x →
  let c := get_cached_power_for_binary_exponent (exponent_of (Z.pos m) x) in
  let L := scaled (minus_of (Z.pos m) x) (c_f c) + 1 in
  let M := scaled (plus_of (Z.pos m)) (c_f c) - 1 in
  let q := - (c_e c + exponent_of (Z.pos m) x + 64) in
  ∃ buf n, grisu2 (S754_finite false m x) = (buf, n - c_k c) ∧ generated L M q buf n.
Proof.
  intros Hb. pose proof (boundaries_hold _ _ Hb) as HF. cbv zeta.
  set (c := get_cached_power_for_binary_exponent (exponent_of (Z.pos m) x)).
  destruct (cached_power_spec (exponent_of (Z.pos m) x) (bf_exponent _ _ HF)) as (Ha & He & _). fold c in Ha, He.
  assert (HC : 2 ^ 63 <= c_f c < 2 ^ 64) by (unfold accurate in Ha; apply andb_prop in Ha as [[H1 H2]%andb_prop _]; lia).
  destruct (scaled_apart _ _ (c_f c) HF HC) as (HM & HN & HW & HL & Hp).
  destruct HF as [Hu Hp64 Hup Hlo Hm _ _].
  unfold grisu2. rewrite compute_boundaries_spec by done. cbn [b_minus b_w b_plus]. unfold grisu2_scaled. cbn [dy_e].
  fold c. set (e := exponent_of (Z.pos m) x) in *. set (q := - (c_e c + e + 64)).
  assert (Hmul : ∀ f, 0 <= f < 2 ^ 64 → diyfp_mul (mkDiyfp f e) (mkDiyfp (c_f c) (c_e c)) = mkDiyfp (scaled f (c_f c)) (- q)).
  { intros f Hf. destruct (diyfp_mul_spec (mkDiyfp f e) (mkDiyfp (c_f c) (c_e c))) as [E1 E2]; [unfold sig, in_u; cbn [dy_f]; lia..|].
    destruct (diyfp_mul _ _) as [f' e']. cbn [dy_f dy_e] in E1, E2. subst f' e'. unfold scaled, q. f_equal; lia. }
  rewrite !Hmul by lia. cbn [dy_f dy_e]. rewrite !wrap_small by (unfold in_u; lia).
  assert (Hq : 32 <= q <= 60) by (unfold q; lia).
  assert (H2q : 2 ^ q <= 2 ^ 60) by (apply Z.pow_le_mono_r; lia).
  pose proof (grisu2_digit_gen_spec (scaled (minus_of (Z.pos m) x) (c_f c) + 1) (scaled (w_of (Z.pos m)) (c_f c))
    (scaled (plus_of (Z.pos m)) (c_f c) - 1) q Hq ltac:(lia) ltac:(lia) ltac:(lia) ltac:(lia)) as HG.
  destruct (grisu2_digit_gen _ _ _) as [buf n]. exists buf, n. split; [f_equal; lia|done].
Qed.

(** * The numbers printed *)

Lemma plus_of_boundary m x : binary64 m x → (inject_Z (plus_of m) * qpow 2 (exponent_of m x) == upper_boundary m x)%Q.
Proof.
  intros Hb. pose proof (shift_range _ _ Hb) as [Hs _]. unfold plus_of, exponent_of, upper_boundary.
  rewrite inject_Z_mult, <- (qpow_Z 2 (shift_of m)), <- Qmult_assoc, <- qpow_plus by lia.
  assert (shift_of m + (x - 1 - shift_of m) = x - 1) as -> by lia. done.
Qed.

Lemma minus_of_boundary m x : binary64 m x → (inject_Z (minus_of m x) * qpow 2 (exponent_of m x) == lower_boundary m x)%Q.
Proof.
  intros Hb. pose proof (shift_range _ _ Hb) as [Hs _]. unfold minus_of, exponent_of, lower_boundary. destruct (closer_below m x).
  - rewrite inject_Z_mult, <- (qpow_Z 2 (shift_of m - 1)), <- Qmult_assoc, <- qpow_plus by lia.
    assert (shift_of m - 1 + (x - 1 - shift_of m) = x - 2) as -> by lia. done.
  - rewrite inject_Z_mult, <- (qpow_Z 2 (shift_of m)), <- Qmult_assoc, <- qpow_plus by lia.
    assert (shift_of m + (x - 1 - shift_of m) = x - 1) as -> by lia. done.
Qed.

(** An accurate power is within half a unit. *)
Lemma accurate_bounds c :
  accurate c = true →
  ((inject_Z (c_f c) - (1 # 2)) * qpow 2 (c_e c) <= qpow 10 (c_k c))%Q ∧
  (qpow 10 (c_k c) <= (inject_Z (c_f c) + (1 # 2)) * qpow 2 (c_e c))%Q.
Proof.
  unfold accurate. intros [_ H%Z.leb_le]%andb_prop. apply Z.abs_le in H as [H1 H2].
  pose proof (qpow_split 2 (c_e c) ltac:(lia)) as E2. pose proof (qpow_split 10 (c_k c) ltac:(lia)) as E10.
  assert (Hn2 : 0 < 2 ^ Z.max (- c_e c) 0) by (apply Z.pow_pos_nonneg; lia).
  assert (Hn10 : 0 < 10 ^ Z.max (- c_k c) 0) by (apply Z.pow_pos_nonneg; lia).
  set (p2 := 2 ^ Z.max (c_e c) 0) in *. set (n2 := 2 ^ Z.max (- c_e c) 0) in *.
  set (p10 := 10 ^ Z.max (c_k c) 0) in *. set (n10 := 10 ^ Z.max (- c_k c) 0) in *.
  apply inject_le in H1, H2. rewrite inject_Z_opp in H1. unfold Z.sub in H1, H2. rewrite inject_Z_plus, inject_Z_opp, !inject_Z_mult in H1, H2.
  rewrite <- E2, <- E10 in H1, H2. apply inject_lt in Hn2, Hn10. change (inject_Z 0) with 0%Q in Hn2, Hn10. change (inject_Z 2) with 2%Q in H1, H2.
  set (C := inject_Z (c_f c)) in *. set (u := qpow 2 (c_e c)) in *. set (t := qpow 10 (c_k c)) in *.
  set (a := inject_Z n2) in *. set (b := inject_Z n10) in *. clearbody C u t a b. clear - H1 H2 Hn2 Hn10.
  assert (Hab : (0 < a * b)%Q) by (by apply Qmult_lt_0_compat).
  split; apply (Qmult_le_l _ _ (a * b)); [done| |done|]; lra.
Qed.

(** The scaled upper boundary, less one, is below the exact one; the scaled
    lower boundary, plus one, is above. *)
Lemma scaled_exact c f e :
  accurate c = true → 0 < f < 2 ^ 64 →
  (inject_Z (scaled f (c_f c) - 1) * qpow 2 (c_e c + e + 64) < inject_Z f * qpow 2 e * qpow 10 (c_k c))%Q ∧
  (inject_Z f * qpow 2 e * qpow 10 (c_k c) < inject_Z (scaled f (c_f c) + 1) * qpow 2 (c_e c + e + 64))%Q.
Proof.
  intros Ha Hf. destruct (accurate_bounds c Ha) as [Hlo Hhi]. destruct (scaled_bounds f (c_f c)) as [Hs1 Hs2].
  assert (Hl : 2 ^ 64 * (scaled f (c_f c) - 1) <= f * c_f c - 2 ^ 63) by lia.
  assert (Hh : f * c_f c + 2 ^ 63 <= 2 ^ 64 * (scaled f (c_f c) + 1)) by lia.
  pose proof (qpow_pos 2 (c_e c) ltac:(lia)) as Hu. pose proof (qpow_pos 2 e ltac:(lia)) as Hv.
  rewrite !qpow_plus, (qpow_Z 2 64) by lia.
  set (s1 := scaled f (c_f c) - 1) in *. set (s2 := scaled f (c_f c) + 1) in *. clearbody s1 s2. clear Hs1 Hs2.
  replace (f * c_f c - 2 ^ 63) with (f * c_f c + - 2 ^ 63) in Hl by lia.
  apply inject_le in Hl, Hh. rewrite inject_Z_plus, inject_Z_opp in Hl. rewrite inject_Z_plus in Hh. rewrite !inject_Z_mult in Hl, Hh.
  destruct Hf as [Hf1 Hf2]. apply inject_lt in Hf1, Hf2. change (inject_Z 0) with 0%Q in Hf1.
  set (S1 := inject_Z s1) in *. set (S2 := inject_Z s2) in *. set (F := inject_Z f) in *. set (C := inject_Z (c_f c)) in *.
  set (u := qpow 2 (c_e c)) in *. set (v := qpow 2 e) in *. set (t := qpow 10 (c_k c)) in *.
  change (inject_Z (2 ^ 63)) with (9223372036854775808 # 1)%Q in *. change (inject_Z (2 ^ 64)) with (18446744073709551616 # 1)%Q in *.
  clearbody S1 S2 F C u v t. clear Ha.
  assert (Huv : (0 < v * u)%Q) by (by apply Qmult_lt_0_compat).
  assert (HFv : (0 < v * F)%Q) by (by apply Qmult_lt_0_compat).
  apply (Qmult_le_l _ _ (v * F)) in Hlo, Hhi; [|done..].
  apply (Qmult_le_l _ _ (v * u)) in Hl, Hh; [|done..]. apply (Qmult_lt_l _ _ (v * u)) in Hf2; [|done].
  split; lra.
Qed.

Lemma decimal_shift D d k : (decimal D (d - k) * qpow 10 k == decimal D d)%Q.
Proof. unfold decimal. rewrite <- Qmult_assoc, <- qpow_plus by lia. by rewrite Z.sub_add. Qed.

Lemma generated_bounds L M q buf n :
  0 <= q → generated L M q buf n →
  (inject_Z L * qpow 2 (- q) <= decimal (value_of buf) n)%Q ∧ (decimal (value_of buf) n <= inject_Z M * qpow 2 (- q))%Q.
Proof.
  intros Hq [_ _ _ _ Hl Hh _]. unfold decimal.
  assert (Hn10 : 0 < 10 ^ Z.max (- n) 0) by (apply Z.pow_pos_nonneg; lia).
  apply inject_le in Hl, Hh. rewrite !inject_Z_mult in Hl, Hh. rewrite <- (qpow_split 10 n) in Hl, Hh by lia.
  rewrite <- (qpow_Z 2 q) in Hl, Hh by lia. pose proof (qpow_inv 2 q ltac:(lia)) as Hi.
  pose proof (qpow_pos 2 (- q) ltac:(lia)) as Hr. apply inject_lt in Hn10. change (inject_Z 0) with 0%Q in Hn10.
  set (a := inject_Z (10 ^ Z.max (- n) 0)) in *. set (t := qpow 10 n) in *. set (D := inject_Z (value_of buf)) in *.
  set (r := qpow 2 (- q)) in *. set (s := qpow 2 q) in *. set (l := inject_Z L) in *. set (h := inject_Z M) in *.
  clearbody a t D r s l h. assert (Hra : (0 < r * a)%Q) by (by apply Qmult_lt_0_compat).
  assert (HD : (D * t * a * (s * r) == D * t * a)%Q) by (rewrite Hi; ring).
  apply (Qmult_le_l _ _ r) in Hl, Hh; [|done..].
  split; apply (Qmult_le_l _ _ a); [done| |done|]; lra.
Qed.

(** Grisu2 prints a decimal number strictly between the boundaries, with 1 to 17
    digits, none of them a zero at the start or at the end. *)
Lemma grisu2_between m x :
  binary64 (Z.pos m) x →
  ∃ buf d, grisu2 (S754_finite false m x) = (buf, d) ∧
    Forall digit buf ∧ (1 <= length buf <= 17)%nat ∧ 49 <= hd 0 buf ∧ 49 <= List.last buf 0 ∧ -400 <= d <= 400 ∧
    (lower_boundary (Z.pos m) x < decimal (value_of buf) d)%Q ∧ (decimal (value_of buf) d < upper_boundary (Z.pos m) x)%Q.
Proof.
  intros Hb. destruct (grisu2_eq m x Hb) as (buf & n & -> & HG). pose proof (boundaries_hold _ _ Hb) as HF.
  set (e := exponent_of (Z.pos m) x) in *. set (c := get_cached_power_for_binary_exponent e) in *.
  destruct (cached_power_spec e (bf_exponent _ _ HF)) as (Ha & He & Hk). fold c in Ha, He, Hk.
  exists buf, (n - c_k c). split; [done|]. destruct (generated_bounds _ _ (- (c_e c + e + 64)) buf n ltac:(lia) HG) as [Hl Hh].
  destruct HG as [H1 H2 H3 H4 _ _ H7]. split_and!; [exact H1|lia|lia|exact H3|exact H4|lia|lia| |].
  all: rewrite Z.opp_involutive in Hl, Hh.
  all: apply (Qmult_lt_r _ _ (qpow 10 (c_k c))); [by apply qpow_pos|]; rewrite decimal_shift.
  - rewrite <- minus_of_boundary by done. fold e.
    destruct (scaled_exact c (minus_of (Z.pos m) x) e Ha) as [_ Hs].
    { destruct HF as [Hu Hp _ _ Hm Hg _]. clear - Hu Hp Hm Hg. set (u := 2 ^ shift_of (Z.pos m)) in *. clearbody u. lia. }
    by eapply Qlt_le_trans.
  - rewrite <- plus_of_boundary by done. fold e.
    destruct (scaled_exact c (plus_of (Z.pos m)) e Ha) as [Hs _]; [pose proof (bf_plus _ _ HF); lia|].
    by eapply Qle_lt_trans.
Qed.

(** C13: the digits of a floating number are right.  For every positive double,
    subnormal or not, the arithmetic of [grisu2] on wrapping 64-bit and 32-bit
    integers, the rounded products with a cached power of ten and the loops over
    the integral and the fractional digits give between 1 and 17 digits, the
    first and the last of them not zero, of a decimal number that lies strictly
    between the points halfway to the two neighbours of the double, that below a
    power of two included. *)
Theorem grisu2_digits_identify_the_number m x :
  bounded 53 1024 m x = true →
  ∃ buf d, grisu2 (S754_finite false m x) = (buf, d) ∧
    Forall digit buf ∧ (1 <= length buf <= 17)%nat ∧ 49 <= hd 0 buf ∧ 49 <= List.last buf 0 ∧
    (lower_boundary (Z.pos m) x < decimal (value_of buf) d)%Q ∧ (decimal (value_of buf) d < upper_boundary (Z.pos m) x)%Q.
Proof.
  intros Hb. destruct (grisu2_between m x) as (buf & d & E & H1 & H2 & H3 & H4 & _ & H5 & H6); [by apply bounded_binary64|].
  by exists buf, d.
Qed.

Lemma grisu2_digits_identify_the_number_witness :
  grisu2 (S754_finite false 4503599627370496 (-1022)) = (lit "10020841800044864", -308) ∧
  (lower_boundary 4503599627370496 (-1022) < decimal 10020841800044864 (-308))%Q.
Proof.
  destruct (grisu2_digits_identify_the_number 4503599627370496 (-1022)) as (buf & d & E & _ & _ & _ & _ & Hl & _).
  - vm_compute. reflexivity.
  - vm_compute in E. injection E as <- <-. split; [vm_compute; reflexivity|exact Hl].
Defined.
