(* ===== verification/FloatText.v ===== *)
(** The texts that [to_chars] prints are read back by [strtod] as the number
    printed: the four shapes of [format_buffer] have the value of the digits
    that Grisu2 found, which file Grisu shows to be closest to that number. *)

From S2P Require Import Prelude.
From S2P Require Import Text.
From S2P Require Import Entities.
From S2P Require Import Rationals.
From S2P Require Import Strtod.
From S2P Require Import Dtoa.
From S2P Require Import Grisu.
From Stdlib Require Import SpecFloat QArith Lqa.
Open Scope Z_scope.

(** * Digits *)

Lemma digit_char_true c : digit_char c = true ↔ 48 <= c <= 57.
Proof. unfold digit_char. rewrite andb_true_iff, !Z.leb_le. done. Qed.

(** What ends a run of digits. *)
Definition no_digit (r : text) : Prop := match r with [] => True | c :: _ => digit_char c = false end.

Lemma take_digits s r : Forall digit s → no_digit r → take_while digit_char (s ++ r) = s.
Proof.
  intros Hs Hr. induction Hs as [|c s Hc _ IH]; cbn [app take_while].
  - destruct r as [|c r]; [done|]. cbn [take_while]. by rewrite Hr.
  - by rewrite (proj2 (digit_char_true c)), IH.
Qed.

Lemma drop_digits s r : Forall digit s → no_digit r → drop_while digit_char (s ++ r) = r.
Proof.
  intros Hs Hr. induction Hs as [|c s Hc _ IH]; cbn [app drop_while].
  - destruct r as [|c r]; [done|]. cbn [drop_while]. by rewrite Hr.
  - by rewrite (proj2 (digit_char_true c)).
Qed.

Lemma value_of_zeros s n : value_of (s ++ replicate n 48) = value_of s * 10 ^ Z.of_nat n.
Proof.
  induction n as [|n IH]; [rewrite app_nil_r; cbn; lia|].
  rewrite replicate_S_end, app_assoc, value_of_app, IH, Nat2Z.inj_succ, Z.pow_succ_r; lia.
Qed.

Lemma value_of_leading n s : value_of (replicate n 48 ++ s) = value_of s.
Proof. unfold value_of. induction n as [|n IH]; [done|]. exact IH. Qed.

(** [append_exponent] writes a sign and at least two digits, which are read
    back. *)
Definition exponent_reads (e : Z) : bool :=
  match append_exponent e with
  | s :: d :: ds =>
      ((s =? 43) || (s =? 45)) && forallb digit_char (d :: ds) && (length ds <=? 2)%nat
      && (signed_digits (append_exponent e) =? e)
  | _ => false
  end.

Lemma exponents_read : all_from 1999 (-999) exponent_reads = true.
Proof. vm_compute. reflexivity. Qed.

Lemma append_exponent_spec e :
  -999 <= e <= 999 →
  signed_digits (append_exponent e) = e ∧
  ∃ s d ds, append_exponent e = s :: d :: ds ∧ (s = 43 ∨ s = 45) ∧ Forall digit (d :: ds) ∧ (length ds <= 2)%nat.
Proof.
  intros He. pose proof (all_from_spec _ _ _ e exponents_read ltac:(lia)) as H. unfold exponent_reads in H.
  destruct (append_exponent e) as [|s [|d ds]]; [done..|].
  apply andb_prop in H as [[[Hs Hd]%andb_prop Hl]%andb_prop Hr]. apply Z.eqb_eq in Hr. apply Nat.leb_le in Hl.
  split; [done|]. exists s, d, ds. split_and!; [done| | |done].
  - apply orb_prop in Hs as [H|H]; apply Z.eqb_eq in H; auto.
  - rewrite forallb_forall in Hd. apply Forall_forall. intros c Hc%list_elem_of_In. by apply digit_char_true, Hd.
Qed.

(** * The shape of a printed number *)

Definition fraction_part (fp : text) : text := match fp with [] => [] | _ => 46 :: fp end.
Definition exponent_part (ex : option Z) : text := match ex with Some e => 101 :: append_exponent e | None => [] end.

(** Digits without leading zeros, then a fraction or an exponent or both. *)
Record float_form (t : text) (v : Q) (ip fp : text) (ex : option Z) : Prop := {
  ff_text : t = ip ++ fraction_part fp ++ exponent_part ex;
  ff_int : Forall digit ip;
  ff_frac : Forall digit fp;
  ff_first : ip = [48] ∨ 49 <= hd 0 ip;
  ff_float : fp ≠ [] ∨ is_Some ex;
  ff_exp : -999 <= default 0 ex <= 999;
  ff_value : (decimal (value_of (ip ++ fp)) (default 0%Z ex - Z.of_nat (length fp)) == v)%Q;
  ff_length : (length t <= 23)%nat
}.

Lemma form_parts t v ip fp ex : float_form t v ip fp ex → number_parts t = (ip, fp, default 0 ex).
Proof.
  intros [-> Hi Hf _ _ He _ _]. unfold number_parts.
  assert (Hx : ∀ e, no_digit (exponent_part e)) by (by intros [e|]).
  assert (Hn : no_digit (fraction_part fp ++ exponent_part ex)) by (by destruct fp; [apply Hx|]).
  rewrite take_digits, drop_digits by done. destruct fp as [|c fp]; cbn [fraction_part app].
  - destruct ex as [e|]; cbn [exponent_part default] in *; [|done]. by rewrite (proj1 (append_exponent_spec e He)).
  - change (c :: fp ++ exponent_part ex) with ((c :: fp) ++ exponent_part ex).
    rewrite take_digits, drop_digits by done.
    destruct ex as [e|]; cbn [exponent_part default] in *; [|done]. by rewrite (proj1 (append_exponent_spec e He)).
Qed.

Lemma form_magnitude t v ip fp ex : float_form t v ip fp ex → (magnitude t == v)%Q.
Proof. intros H. unfold magnitude. rewrite (form_parts _ _ _ _ _ H). apply H. Qed.

Lemma form_first t v ip fp ex : float_form t v ip fp ex → ∃ c t', t = c :: t' ∧ 48 <= c <= 57.
Proof.
  intros [-> Hi _ [->|Hh] _ _ _ _]; [by eexists 48, _|].
  destruct Hi as [|c ip Hc Hi]; [cbn in Hh; lia|]. by eexists c, _.
Qed.

Lemma Forall_zeros n : Forall digit (replicate n 48).
Proof. apply Forall_replicate. lia. Qed.

Lemma exponent_length e : -999 <= e <= 999 → (length (append_exponent e) <= 4)%nat.
Proof. intros He. destruct (append_exponent_spec e He) as (_ & s & d & ds & -> & _ & _ & Hl). cbn [length]. lia. Qed.

Lemma hd_app (s t : text) : s ≠ [] → hd 0 (s ++ t) = hd 0 s.
Proof. by destruct s. Qed.

Lemma fraction_nonempty fp : fp ≠ [] → fraction_part fp = 46 :: fp.
Proof. by destruct fp. Qed.

(** The four shapes that [format_buffer] chooses from have the value of the
    digits. *)
Section shapes.
Context (buf : text) (d : Z).
Context (Hb : Forall digit buf) (Hl : (1 <= length buf <= 17)%nat) (Hh : 49 <= hd 0 buf).
Abbreviation n := (Z.of_nat (length buf) + d).
Abbreviation forms t := (float_form t (decimal (value_of buf) d)).

Lemma take_shape i : (0 < i < length buf)%nat →
  Forall digit (take i buf) ∧ Forall digit (drop i buf) ∧ 49 <= hd 0 (take i buf) ∧ fraction_part (drop i buf) = 46 :: drop i buf ∧
  drop i buf ≠ [].
Proof using Hb Hl Hh.
  intros Hi. assert (Hd : drop i buf ≠ []) by (intros E; apply (f_equal length) in E; rewrite length_drop in E; cbn in E; lia).
  split_and!; [by apply Forall_take|by apply Forall_drop| |by apply fraction_nonempty|done].
  destruct i as [|i]; [lia|]. by destruct buf.
Qed.

Lemma integer_form : 0 <= d → n <= 15 →
  forms (buf ++ replicate (Z.to_nat (n - Z.of_nat (length buf))) 48 ++ [46; 48])
    (buf ++ replicate (Z.to_nat d) 48) [48] None.
Proof using Hb Hl Hh.
  intros Hd Hn. replace (n - Z.of_nat (length buf)) with d by lia. split; cbn [default].
  - by rewrite <- app_assoc.
  - apply Forall_app. split; [done|apply Forall_zeros].
  - repeat constructor; lia.
  - right. rewrite hd_app; [done|]. by destruct buf; [cbn in Hl; lia|].
  - by left.
  - lia.
  - rewrite value_of_app, value_of_zeros, Z2Nat.id, Z.sub_diag, Z.add_0_r by lia.
    unfold decimal. cbn [length]. change (0 - Z.of_nat 1) with (-1). rewrite !inject_Z_mult, <- (qpow_Z 10 d) by lia.
    change (qpow 10 (-1)) with (1 # 10)%Q. change (inject_Z 10) with 10%Q. lra.
  - rewrite !length_app, length_replicate. cbn [length]. lia.
Qed.

Lemma point_form : d < 0 → 0 < n →
  forms (take (Z.to_nat n) buf ++ [46] ++ drop (Z.to_nat n) buf) (take (Z.to_nat n) buf) (drop (Z.to_nat n) buf) None.
Proof using Hb Hl Hh.
  intros Hd Hn. destruct (take_shape (Z.to_nat n)) as (H1 & H2 & H3 & H4 & H5); [lia|].
  split; cbn [default]; [by rewrite H4, app_nil_r|done|done|by right|by left|lia| |].
  - rewrite take_drop, length_drop. by replace (0 - _) with d by lia.
  - rewrite !length_app, length_take, length_drop. cbn [length]. lia.
Qed.

Lemma leading_form : -4 < n → n <= 0 →
  forms ([48; 46] ++ replicate (Z.to_nat (- n)) 48 ++ buf) [48] (replicate (Z.to_nat (- n)) 48 ++ buf) None.
Proof using Hb Hl Hh.
  intros H1 H2. assert (Hne : replicate (Z.to_nat (- n)) 48 ++ buf ≠ []).
  { intros E. apply app_nil in E as [_ E]. rewrite E in Hl. cbn in Hl. lia. }
  split; cbn [default]; [by rewrite fraction_nonempty, app_nil_r|repeat constructor; lia| |by left|by left|lia| |].
  - apply Forall_app. split; [apply Forall_zeros|done].
  - rewrite (value_of_leading 1), value_of_leading, length_app, length_replicate. by replace (0 - _) with d by lia.
  - rewrite !length_app, length_replicate. cbn [length]. lia.
Qed.

Lemma digit_form : length buf = 1%nat → -900 <= d <= 900 →
  forms (buf ++ [101] ++ append_exponent (n - 1)) buf [] (Some (n - 1)).
Proof using Hb Hl Hh.
  intros Hk Hd. pose proof (exponent_length (n - 1) ltac:(lia)).
  split; cbn [default id fraction_part exponent_part]; [done|done|constructor|by right|by right|lia| |].
  - rewrite app_nil_r. cbn [length]. by replace (n - 1 - _) with d by lia.
  - rewrite !length_app. cbn [length]. lia.
Qed.

Lemma scientific_form : length buf ≠ 1%nat → -900 <= d <= 900 →
  forms (take 1 buf ++ [46] ++ drop 1 buf ++ [101] ++ append_exponent (n - 1)) (take 1 buf) (drop 1 buf) (Some (n - 1)).
Proof using Hb Hl Hh.
  intros Hk Hd. pose proof (exponent_length (n - 1) ltac:(lia)). destruct (take_shape 1) as (H1 & H2 & H3 & H4 & H5); [lia|].
  split; cbn [default id exponent_part]; [by rewrite H4|done|done|by right|by left|lia| |].
  - rewrite take_drop, length_drop. by replace (n - 1 - _) with d by lia.
  - rewrite !length_app, length_take, length_drop. cbn [length]. lia.
Qed.

Lemma format_buffer_form : -900 <= d <= 900 →
  ∃ ip fp ex, forms (format_buffer buf d kMinExp10 kMaxExp10) ip fp ex.
Proof using Hb Hl Hh.
  intros Hd. unfold format_buffer, kMinExp10, kMaxExp10.
  destruct ((Z.of_nat (length buf) <=? n) && (n <=? 15)) eqn:E1; bool_to_prop; [eexists _, _, _; apply integer_form; lia|].
  destruct ((0 <? n) && (n <=? 15)) eqn:E2; bool_to_prop; [eexists _, _, _; apply point_form; lia|].
  destruct ((-4 <? n) && (n <=? 0)) eqn:E3; bool_to_prop; [eexists _, _, _; apply leading_form; lia|].
  destruct (Z.eqb_spec (Z.of_nat (length buf)) 1); eexists _, _, _; [apply digit_form; lia|apply scientific_form; lia].
Qed.
End shapes.

(** * Reading back *)

Lemma strtod_positive c t : 48 <= c <= 57 → strtod (c :: t) = nearest (magnitude (c :: t)).
Proof. intros Hc. unfold strtod. repeat (case_match_goal; try done; try lia). Qed.

(** The text of a positive number, and what it is read as. *)
Lemma positive_text m x :
  binary64 (Z.pos m) x →
  ∃ t v ip fp ex, to_chars (S754_finite false m x) = t ∧ to_chars (S754_finite true m x) = 45 :: t ∧
    float_form t v ip fp ex ∧ nearest (magnitude t) = S754_finite false m x.
Proof.
  intros Hb. destruct (grisu2_between m x Hb) as (buf & d & E & Hd & Hlen & Hf & _ & Hr & Hl & Hu).
  destruct (format_buffer_form buf d Hd Hlen Hf ltac:(lia)) as (ip & fp & ex & H).
  exists (format_buffer buf d kMinExp10 kMaxExp10), (decimal (value_of buf) d), ip, fp, ex. split_and!.
  - unfold to_chars. cbn [signbit double_eqb SFeqb SFcompare double_0]. by rewrite E.
  - unfold to_chars. cbn [signbit SFopp negb double_eqb SFeqb SFcompare double_0]. by rewrite E.
  - exact H.
  - apply nearest_between; [done|rewrite (form_magnitude _ _ _ _ _ H); done..].
Qed.

(** The text of any finite number but the zeros. *)
Lemma finite_text s m x :
  binary64 (Z.pos m) x →
  ∃ t v ip fp ex, to_chars (S754_finite s m x) = (if s then [45] else []) ++ t ∧ float_form t v ip fp ex ∧
    strtod (to_chars (S754_finite s m x)) = S754_finite s m x.
Proof.
  intros Hb. destruct (positive_text m x Hb) as (t & v & ip & fp & ex & Hp & Hn & Hf & Hr).
  exists t, v, ip, fp, ex. destruct s; rewrite ?Hp, ?Hn.
  - split_and!; [done|done|]. cbn [strtod]. by rewrite Hr.
  - split_and!; [done|done|]. destruct (form_first _ _ _ _ _ Hf) as (c & t' & -> & Hc). by rewrite strtod_positive.
Qed.

(** The same of the zeros. *)
Lemma finite_form d :
  valid_double d = true → is_finite d = true →
  ∃ sign t v ip fp ex, to_chars d = sign ++ t ∧ (sign = [] ∨ sign = [45]) ∧ float_form t v ip fp ex.
Proof.
  destruct d as [s|s| |s m x]; intros Hv Hf; [|discriminate Hf..|].
  - exists (if s then [45] else []), (lit "0.0"), 0%Q, [48], [48], None. split; [by destruct s|]. split; [destruct s; auto|].
    split; try done; try (by left); try (cbn; lia); repeat constructor; lia.
  - apply bounded_binary64 in Hv. destruct (finite_text s m x Hv) as (t & v & ip & fp & ex & E & H & _).
    exists (if s then [45] else []), t, v, ip, fp, ex. split; [done|]. split; [destruct s; auto|done].
Qed.

(** Every finite number is read back from its text, the zeros with their sign. *)
Lemma strtod_to_chars d : valid_double d = true → is_finite d = true → strtod (to_chars d) = d.
Proof.
  destruct d as [s|s| |s m x]; intros Hv Hf; [by destruct s|discriminate Hf..|].
  apply bounded_binary64 in Hv. by destruct (finite_text s m x Hv) as (t & v & ip & fp & ex & _ & _ & H).
Qed.

(** What is printed is at most 24 characters, in a buffer of 64. *)
Lemma dump_float_length d : valid_double d = true → (length (dump_float d) <= 24)%nat.
Proof.
  intros Hv. unfold dump_float. destruct (is_finite d) eqn:Hf; [|cbn; lia].
  destruct (finite_form d Hv Hf) as (sign & t & v & ip & fp & ex & -> & Hs & [_ _ _ _ _ _ _ Hl]).
  rewrite length_app. destruct Hs as [->| ->]; cbn [length]; lia.
Qed.

(** It is visible ASCII. *)
Lemma float_form_plain t v ip fp ex : float_form t v ip fp ex → Forall (λ b, 0x20 <= b < 0x80) t.
Proof.
  intros [-> Hi Hf _ _ He _ _]. assert (Hd : ∀ s, Forall digit s → Forall (λ b, 0x20 <= b < 0x80) s).
  { intros s Hs. eapply Forall_impl; [exact Hs|]. cbn. lia. }
  apply Forall_app. split; [by apply Hd|]. apply Forall_app. split.
  - destruct fp as [|c fp]; [done|]. constructor; [lia|by apply Hd].
  - destruct ex as [e|]; [|done]. constructor; [lia|]. cbn [default] in He.
    destruct (append_exponent_spec e He) as (_ & s & d & ds & -> & Hs & Hds & _). constructor; [lia|by apply Hd].
Qed.

Lemma dump_float_plain d : valid_double d = true → Forall (λ b, 0x20 <= b < 0x80) (dump_float d).
Proof.
  assert (Hc : ∀ s, forallb (λ b, (0x20 <=? b) && (b <? 0x80)) s = true → Forall (λ b, 0x20 <= b < 0x80) s).
  { intros s H. apply Forall_forall. intros b Hb%list_elem_of_In. rewrite forallb_forall in H. apply H in Hb. bool_to_prop. lia. }
  intros Hv. unfold dump_float. destruct (is_finite d) eqn:Hf; [|by apply Hc].
  destruct (finite_form d Hv Hf) as (sign & t & v & ip & fp & ex & -> & Hs & H).
  apply Forall_app. split; [|by eapply float_form_plain]. destruct Hs as [->| ->]; repeat constructor; lia.
Qed.

(** C12: printing a floating number loses nothing.  Every finite double, the
    zeros with their signs and the subnormal numbers included, is printed by
    [dump_float] as at most 24 characters of visible ASCII, which fit the buffer
    of 64 in each of the four layouts, and the correctly rounding [strtod] of
    the lexer reads the same double back. *)
Theorem printed_floats_read_back d :
  valid_double d = true → is_finite d = true →
  strtod (dump_float d) = d ∧ (length (dump_float d) <= 24)%nat ∧ Forall (λ b, 0x20 <= b < 0x80) (dump_float d).
Proof.
  intros Hv Hf. split; [|split; [by apply dump_float_length|by apply dump_float_plain]].
  unfold dump_float. rewrite Hf. by apply strtod_to_chars.
Qed.

Lemma printed_floats_read_back_witness :
  dump_float (S754_finite true 9007199254740991 971) = lit "-1.7976931348623157e+308" ∧
  strtod (lit "-1.7976931348623157e+308") = S754_finite true 9007199254740991 971.
Proof.
  destruct (printed_floats_read_back (S754_finite true 9007199254740991 971)) as (H & _ & _); [vm_compute; reflexivity..|].
  assert (E : dump_float (S754_finite true 9007199254740991 971) = lit "-1.7976931348623157e+308") by (vm_compute; reflexivity).
  split; [exact E|]. rewrite E in H. exact H.
Defined.

(** * Concrete numbers *)

Example dump_ex :
  map dump_float
    [double_0; S754_zero true; S754_finite false 7205759403792794 (-56);       (* 0.1 *)
     S754_finite true 4503599627370497 (-52);                                  (* -1.0000000000000002 *)
     S754_finite false 1 (-1074); S754_finite false 9007199254740991 971;
     S754_finite false 7036874417766400 (-46); S754_finite false 4768371582031250 21;
     S754_finite false 4503599627370496 (-62); S754_nan; S754_infinity true] =
  [lit "0.0"; lit "-0.0"; lit "0.1"; lit "-1.0000000000000002"; lit "5e-324"; lit "1.7976931348623157e+308";
   lit "100.0"; lit "1e+22"; lit "0.0009765625"; lit "null"; lit "null"].
Proof. vm_compute. reflexivity. Qed.

(** The digits are not always the fewest: of this number two are superfluous. *)
Lemma digits_are_not_the_fewest :
  let d := S754_finite false 5581069318540685 (-53) in
  dump_float d = lit "0.6196231659472901" ∧ strtod (lit "0.61962316594729") = d.
Proof. vm_compute. done. Qed.
