(* ===== verification/Json.v ===== *)
(** JSON values and the accessors of nlohmann::json (3.12, under
    src/external) that the program applies to them.  Printing and parsing are in
    files JsonDump and JsonParse; the components that use them take them as
    parameters, which files Library and Wire instantiate.

    An accessor may throw a [std::exception] ([Raised]) or be undefined
    behaviour ([Undefined]: the const [operator\[\]] on a missing key, which
    the library guards by an assertion only, and the conversion of a floating
    number that does not fit the integer type). *)

From S2P Require Import Prelude.
From S2P Require Import Text.
From S2P Require Import Entities.
From Stdlib Require Import SpecFloat.

(** Objects are lists of distinct keys. *)
#[warnings="-register-all"]
Inductive json :=
| JNull
| JBool (b : bool)
| JInt (z : Z)
| JFloat (d : double)
| JStr (s : text)
| JArr (l : list json)
| JObj (l : list (text * json)).

Inductive exec (A : Type) :=
| Done (a : A)
| Raised (what : text)
| Undefined.
Arguments Done {A} a.
Arguments Raised {A} what.
Arguments Undefined {A}.

Definition ebind {A B} (x : exec A) (k : A → exec B) : exec B :=
  match x with Done a => k a | Raised e => Raised e | Undefined => Undefined end.

Delimit Scope string_scope with string.
Declare Scope exec_scope.
Delimit Scope exec_scope with exec.
Notation "x <-? c ;; k" := (ebind c (λ x, k))
  (at level 20, c at level 99, k at level 200, right associativity) : exec_scope.
#[global] Open Scope exec_scope.

(** [exception::name]. *)
Definition exception_name (ename : String.string) (id : Z) : text :=
  lit "[json.exception." ++ lit ename ++ lit "." ++ to_string id ++ lit "] ".
Arguments exception_name ename%_string_scope id.

Definition type_name (j : json) : text :=
  match j with
  | JNull => lit "null"
  | JBool _ => lit "boolean"
  | JInt _ | JFloat _ => lit "number"
  | JStr _ => lit "string"
  | JArr _ => lit "array"
  | JObj _ => lit "object"
  end.

(** [type_error::create]; the program is built without diagnostics. *)
Definition type_error {A} (id : Z) (what : String.string) (j : json) : exec A :=
  Raised (exception_name "type_error" id ++ lit what ++ type_name j).
Arguments type_error {A} id what%_string_scope j.

Fixpoint assoc (key : text) (l : list (text * json)) : option json :=
  match l with
  | [] => None
  | (k, v) :: l' => if text_eqb k key then Some v else assoc key l'
  end.

(** [std::string]'s order, in which objects keep their keys. *)
Fixpoint text_ltb (s t : text) : bool :=
  match s, t with
  | _, [] => false
  | [], _ :: _ => true
  | a :: s', b :: t' => (a <? b) || ((a =? b) && text_ltb s' t')
  end.

(** [resp\["key"\] = v] on an object. *)
Fixpoint assoc_set (key : text) (v : json) (l : list (text * json)) : list (text * json) :=
  match l with
  | [] => [(key, v)]
  | (k, w) :: l' =>
      if text_eqb k key then (k, v) :: l'
      else if text_ltb key k then (key, v) :: l
      else (k, w) :: assoc_set key v l'
  end.

Definition contains_key (key : String.string) (j : json) : bool :=
  match j with
  | JObj l => match assoc (lit key) l with Some _ => true | None => false end
  | _ => false
  end.

(** The const [operator\[\]]. *)
Definition at_const (key : String.string) (j : json) : exec json :=
  match j with
  | JObj l => match assoc (lit key) l with Some v => Done v | None => Undefined end
  | _ => type_error 305 "cannot use operator[] with a string argument with " j
  end.

(** The other [operator\[\]], read: a missing key or a null value becomes null. *)
Definition at_mut (key : String.string) (j : json) : exec json :=
  match j with
  | JObj l => Done (default JNull (assoc (lit key) l))
  | JNull => Done JNull
  | _ => type_error 305 "cannot use operator[] with a string argument with " j
  end.

Definition get_string (j : json) : exec text :=
  match j with JStr s => Done s | _ => type_error 302 "type must be string, but is " j end.

Definition get_bool (j : json) : exec bool :=
  match j with JBool b => Done b | _ => type_error 302 "type must be boolean, but is " j end.

Definition get_null (j : json) : exec json :=
  match j with JNull => Done JNull | _ => type_error 302 "type must be null, but is " j end.

(** The integer part of a finite number. *)
Definition double_trunc (d : double) : option Z :=
  match d with
  | S754_zero _ => Some 0
  | S754_finite sign m e =>
      let t := if 0 <=? e then Z.pos m * 2 ^ e else Z.pos m / 2 ^ (- e) in
      Some (if sign then - t else t)
  | _ => None
  end.

(** [static_cast] of a double to an integer type. *)
Definition cast_double (fits : Z → bool) (d : double) : exec Z :=
  match double_trunc d with
  | Some z => if fits z then Done z else Undefined
  | None => Undefined
  end.

Definition fits_u (w : Z) (z : Z) : bool := (0 <=? z) && (z <? 2 ^ w).
Definition fits_s (w : Z) (z : Z) : bool := (- 2 ^ (w - 1) <=? z) && (z <? 2 ^ (w - 1)).

Definition get_uint64 (j : json) : exec Z :=
  match j with
  | JInt z => Done (wrap 64 z)
  | JFloat d => cast_double (fits_u 64) d
  | _ => type_error 302 "type must be number, but is " j
  end.

Definition get_uint16 (j : json) : exec Z :=
  match j with
  | JInt z => Done (wrap 16 z)
  | JFloat d => cast_double (fits_u 16) d
  | JBool b => Done (if b then 1 else 0)
  | _ => type_error 302 "type must be number, but is " j
  end.

Definition get_int (j : json) : exec Z :=
  match j with
  | JInt z => Done (swrap 32 z)
  | JFloat d => cast_double (fits_s 32) d
  | JBool b => Done (if b then 1 else 0)
  | _ => type_error 302 "type must be number, but is " j
  end.

(** [j.value(key, dflt)]. *)
Definition value_or {A} (get : json → exec A) (key : String.string) (dflt : A) (j : json) : exec A :=
  match j with
  | JObj l => match assoc (lit key) l with Some v => get v | None => Done dflt end
  | _ => type_error 306 "cannot use value() with " j
  end.

(** An initialiser list of distinct keys. *)
Definition obj (l : list (String.string * json)) : json :=
  JObj (foldl (λ acc p, assoc_set (lit (fst p)) (snd p) acc) [] l).

Fixpoint keys_ascend (l : list (text * json)) : bool :=
  match l with
  | (k, _) :: ((k', _) :: _) as l' => text_ltb k k' && keys_ascend l'
  | _ => true
  end.

(** The values whose text is unambiguous: floating numbers are finite, and every
    object is in key order, as the library keeps it, at every depth. *)
Fixpoint canonical (j : json) : bool :=
  match j with
  | JFloat d => is_finite d
  | JArr l => forallb canonical l
  | JObj l => forallb (λ p, canonical (snd p)) l && keys_ascend l
  | _ => true
  end.

Arguments contains_key key%_string_scope j.
Arguments at_const key%_string_scope j.
Arguments at_mut key%_string_scope j.
Arguments value_or {A} get key%_string_scope dflt j.

Lemma assoc_set_same key v l : assoc key (assoc_set key v l) = Some v.
Proof.
  induction l as [|[k w] l IH]; cbn [assoc_set assoc].
  - by rewrite (proj2 (text_eqb_spec key key)).
  - destruct (text_eqb k key) eqn:E; cbn [assoc]; [by rewrite E|].
    destruct (text_ltb key k); cbn [assoc]; [|by rewrite E].
    by rewrite (proj2 (text_eqb_spec key key)).
Qed.

Lemma assoc_set_other key key' v l : key ≠ key' → assoc key (assoc_set key' v l) = assoc key l.
Proof.
  intros Hne. assert (Hf : text_eqb key' key = false).
  { destruct (text_eqb key' key) eqn:E; [|done]. apply text_eqb_spec in E. by subst. }
  induction l as [|[k w] l IH]; cbn [assoc_set assoc]; [by rewrite Hf|].
  destruct (text_eqb k key') eqn:E; cbn [assoc].
  - apply text_eqb_spec in E as ->. by rewrite Hf.
  - destruct (text_ltb key' k); cbn [assoc]; [by rewrite Hf|]. by rewrite IH.
Qed.

(** What is read as an [int] fits it. *)
Lemma get_int_range j z : get_int j = Done z → in_s 32 z.
Proof.
  unfold get_int. destruct j as [|b|x|d|s|l|l]; try done.
  - intros [= <-]. destruct b; unfold in_s; lia.
  - intros [= <-]. apply swrap_range. lia.
  - unfold cast_double. destruct (double_trunc d) as [x|]; [|done]. destruct (fits_s 32 x) eqn:E; [|done].
    intros [= <-]. unfold fits_s in E. bool_to_prop. unfold in_s. lia.
Qed.

Lemma value_or_int_range key dflt j z : in_s 32 dflt → value_or get_int key dflt j = Done z → in_s 32 z.
Proof.
  intros Hd. unfold value_or. destruct j; try done. destruct (assoc _ _); [apply get_int_range|by intros [= <-]].
Qed.
