(* ===== verification/JsonDump.v ===== *)
(** The serializer of the vendored nlohmann::json (src/external/nlohmann/json.hpp,
    class serializer): strings through a buffer of 512 bytes ([dump_escaped]),
    integers through a buffer of 64 ([dump_integer]), and values, compact or
    indented ([dump]).  An access outside a buffer is [Undefined]; text that is
    not UTF-8 makes the serializer throw.

    The error handler is the strict one, which the program uses everywhere.
    Floating numbers are printed by file Dtoa; binary values, which the program
    does not use, are not values here. *)

From S2P Require Import Prelude.
From S2P Require Import Text.
From S2P Require Import Utf8.
From S2P Require Import Dtoa.
From S2P Require Import Json.
From Stdlib Require Import SpecFloat.

(** * Strings *)

Definition hex_lower (d : Z) : Z := if d <? 10 then 48 + d else 87 + d.

(** [snprintf "%04x"] of a 16-bit value. *)
Definition hex4 (x : Z) : text :=
  [hex_lower (x / 4096 mod 16); hex_lower (x / 256 mod 16); hex_lower (x / 16 mod 16); hex_lower (x mod 16)].

Definition u16_escape (x : Z) : text := [92; 117] ++ hex4 x.

(** What is written for a code point whose last byte is [byte], and whether
    [snprintf] writes it, with a NUL after it. *)
Definition escaped (ensure_ascii : bool) (codepoint byte : Z) : text * bool :=
  if codepoint =? 0x08 then ([92; 98], false)
  else if codepoint =? 0x09 then ([92; 116], false)
  else if codepoint =? 0x0A then ([92; 110], false)
  else if codepoint =? 0x0C then ([92; 102], false)
  else if codepoint =? 0x0D then ([92; 114], false)
  else if codepoint =? 0x22 then ([92; 34], false)
  else if codepoint =? 0x5C then ([92; 92], false)
  else if (codepoint <=? 0x1F) || (ensure_ascii && (0x7F <=? codepoint)) then
    if codepoint <=? 0xFFFF then (u16_escape (wrap 16 codepoint), true)
    else (u16_escape (wrap 16 (0xD7C0 + Z.shiftr codepoint 10)) ++
          u16_escape (wrap 16 (0xDC00 + Z.land codepoint 0x3FF)), true)
  else ([byte], false).

(** The locals of [dump_escaped] and the output. *)
Record Escaper := mkEscaper {
  es_codepoint : Z;
  es_state : Z;
  es_buffer : text;                      (* string_buffer up to [bytes] *)
  es_out : text
}.

Definition STRING_BUFFER : nat := 512.

(** Write into [string_buffer]; [extra] bytes more are written and not kept. *)
Definition put (extra : nat) (w : text) (e : Escaper) : exec Escaper :=
  if (length (es_buffer e) + length w + extra <=? STRING_BUFFER)%nat
  then Done (mkEscaper (es_codepoint e) (es_state e) (es_buffer e ++ w) (es_out e))
  else Undefined.

Definition flush (e : Escaper) : Escaper :=
  if (STRING_BUFFER - length (es_buffer e) <? 13)%nat
  then mkEscaper (es_codepoint e) (es_state e) [] (es_out e ++ es_buffer e)
  else e.

Definition hex_upper_digit (d : Z) : Z := if d <? 10 then 48 + d else 55 + d.
Definition hex_bytes (byte : Z) : text := [hex_upper_digit (byte / 16); hex_upper_digit (byte mod 16)].

Definition type_error_316 (what : text) : text := lit "[json.exception.type_error.316] " ++ what.

(** One turn of the loop. *)
Definition dump_byte (ensure_ascii : bool) (i : Z) (b : Z) (e : Escaper) : exec Escaper :=
  let '(state, codepoint) := decode (es_state e) (es_codepoint e) b in
  let e := mkEscaper codepoint state (es_buffer e) (es_out e) in
  if state =? UTF8_ACCEPT then
    let '(w, formatted) := escaped ensure_ascii codepoint b in
    e <-? put (if formatted then 1 else 0) w e;; Done (flush e)
  else if state =? UTF8_REJECT then
    Raised (type_error_316 (lit "invalid UTF-8 byte at index " ++ to_string i ++ lit ": 0x" ++ hex_bytes b))
  else if ensure_ascii then Done e
  else put 0 [b] e.

Fixpoint dump_bytes (ensure_ascii : bool) (i : Z) (s : text) (e : Escaper) : exec Escaper :=
  match s with
  | [] => Done e
  | b :: s' => e <-? dump_byte ensure_ascii i b e;; dump_bytes ensure_ascii (i + 1) s' e
  end.

Definition dump_escaped (ensure_ascii : bool) (s : text) : exec text :=
  e <-? dump_bytes ensure_ascii 0 s (mkEscaper 0 UTF8_ACCEPT [] []);;
  if es_state e =? UTF8_ACCEPT then Done (es_out e ++ es_buffer e)
  else Raised (type_error_316 (lit "incomplete UTF-8 string; last byte: 0x" ++ hex_bytes (List.last s 0))).

(** * Integers *)

Definition NUMBER_BUFFER : nat := 64.

(** [std::array::operator\[\]] through a pointer. *)
Definition store (i : Z) (c : Z) (buffer : text) : exec text :=
  if (0 <=? i) && (i <? Z.of_nat (length buffer)) then Done (<[Z.to_nat i := c]> buffer) else Undefined.

Fixpoint count_digits (fuel : nat) (x : Z) : Z :=
  match fuel with
  | O => 1
  | S f =>
      if x <? 10 then 1
      else if x <? 100 then 2
      else if x <? 1000 then 3
      else if x <? 10000 then 4
      else 4 + count_digits f (x / 10000)
  end.

(** [-(x + 1)] as unsigned, plus one. *)
Definition remove_sign (x : Z) : Z := wrap 64 (- (x + 1)) +u64 1.

(** The two digits of [digits_to_99]. *)
Definition tens (i : Z) : Z := 48 + i / 10.
Definition units (i : Z) : Z := 48 + i mod 10.

(** The loop that writes pairs of digits backwards, and what follows it. *)
Fixpoint write_digits (fuel : nat) (abs_value ptr : Z) (buffer : text) : exec text :=
  if abs_value <? 100 then
    if 10 <=? abs_value then
      b <-? store (ptr - 1) (units abs_value) buffer;; store (ptr - 2) (tens abs_value) b
    else store (ptr - 1) (48 + abs_value) buffer
  else
    match fuel with
    | O => Undefined
    | S f =>
        let i := abs_value mod 100 in
        b <-? store (ptr - 1) (units i) buffer;;
        b <-? store (ptr - 2) (tens i) b;;
        write_digits f (abs_value / 100) (ptr - 2) b
    end.

(** 64-bit values have at most 20 digits: 5 turns count them, 10 write them. *)
Definition dump_integer (number_buffer : text) (x : Z) : exec text :=
  if x =? 0 then Done [48]
  else if x <? 0 then
    b <-? store 0 45 number_buffer;;
    let abs_value := remove_sign x in
    let n_chars := 1 + count_digits 5 abs_value in
    b <-? write_digits 10 abs_value n_chars b;; Done (take (Z.to_nat n_chars) b)
  else
    let n_chars := count_digits 5 x in
    b <-? write_digits 10 x n_chars number_buffer;; Done (take (Z.to_nat n_chars) b).

(** * Values *)

Definition number_in_range (z : Z) : bool := (- 2 ^ 63 <=? z) && (z <? 2 ^ 64).

(** The values of the model that the library's types hold: strings of bytes and
    integers of 64 bits, signed or unsigned, and floating numbers of binary64. *)
Fixpoint representable (j : json) : bool :=
  match j with
  | JNull | JBool _ => true
  | JInt z => number_in_range z
  | JFloat d => valid_binary 53 1024 d
  | JStr s => forallb (λ b, (0 <=? b) && (b <? 256)) s
  | JArr l => forallb representable l
  | JObj l => forallb (λ p, forallb (λ b, (0 <=? b) && (b <? 256)) (fst p) && representable (snd p)) l
  end.

Section dump.
Context (ensure_ascii : bool) (indent_step : nat).

(** [write_characters(indent_string.c_str(), n)], with an indent string of
    [size] spaces. *)
Definition write_indent (size n : nat) : exec text :=
  if (n <=? size)%nat then Done (replicate n 32) else Undefined.

Definition grow (size new_indent : nat) : nat := if (size <? new_indent)%nat then (size * 2)%nat else size.

Definition quoted (s : text) : exec text := t <-? dump_escaped ensure_ascii s;; Done ([34] ++ t ++ [34]).

(** [dump], compact: the indent string is not used. *)
Fixpoint dump_compact (j : json) : exec text :=
  match j with
  | JNull => Done (lit "null")
  | JBool b => Done (if b then lit "true" else lit "false")
  | JInt z => dump_integer (replicate NUMBER_BUFFER 0) z
  | JFloat d => Done (dump_float d)
  | JStr s => quoted s
  | JArr [] => Done (lit "[]")
  | JArr l =>
      t <-? (fix elements (l : list json) : exec text :=
               match l with
               | [] => Done []
               | [v] => dump_compact v
               | v :: l' => t <-? dump_compact v;; t' <-? elements l';; Done (t ++ [44] ++ t')
               end) l;;
      Done ([91] ++ t ++ [93])
  | JObj [] => Done (lit "{}")
  | JObj l =>
      t <-? (fix members (l : list (text * json)) : exec text :=
               match l with
               | [] => Done []
               | [(k, v)] => t <-? quoted k;; t' <-? dump_compact v;; Done (t ++ [58] ++ t')
               | (k, v) :: l' =>
                   t <-? quoted k;; t' <-? dump_compact v;; t'' <-? members l';;
                   Done (t ++ [58] ++ t' ++ [44] ++ t'')
               end) l;;
      Done ([123] ++ t ++ [125])
  end.

(** [dump], indented: the text and the size of the indent string after it. *)
Fixpoint dump_pretty (current_indent : nat) (j : json) (size : nat) : exec (text * nat) :=
  match j with
  | JNull => Done (lit "null", size)
  | JBool b => Done (if b then lit "true" else lit "false", size)
  | JInt z => t <-? dump_integer (replicate NUMBER_BUFFER 0) z;; Done (t, size)
  | JFloat d => Done (dump_float d, size)
  | JStr s => t <-? quoted s;; Done (t, size)
  | JArr [] => Done (lit "[]", size)
  | JArr l =>
      let new_indent := (current_indent + indent_step)%nat in
      r <-? (fix elements (l : list json) (size : nat) : exec (text * nat) :=
               match l with
               | [] => Done ([], size)
               | v :: l' =>
                   i <-? write_indent size new_indent;;
                   r <-? dump_pretty new_indent v size;;
                   match l' with
                   | [] => Done (i ++ fst r, snd r)
                   | _ => r' <-? elements l' (snd r);; Done (i ++ fst r ++ [44; 10] ++ fst r', snd r')
                   end
               end) l (grow size new_indent);;
      i <-? write_indent (snd r) current_indent;;
      Done ([91; 10] ++ fst r ++ [10] ++ i ++ [93], snd r)
  | JObj [] => Done (lit "{}", size)
  | JObj l =>
      let new_indent := (current_indent + indent_step)%nat in
      r <-? (fix members (l : list (text * json)) (size : nat) : exec (text * nat) :=
               match l with
               | [] => Done ([], size)
               | (k, v) :: l' =>
                   i <-? write_indent size new_indent;;
                   t <-? quoted k;;
                   r <-? dump_pretty new_indent v size;;
                   match l' with
                   | [] => Done (i ++ t ++ [58; 32] ++ fst r, snd r)
                   | _ => r' <-? members l' (snd r);;
                          Done (i ++ t ++ [58; 32] ++ fst r ++ [44; 10] ++ fst r', snd r')
                   end
               end) l (grow size new_indent);;
      i <-? write_indent (snd r) current_indent;;
      Done ([123; 10] ++ fst r ++ [10] ++ i ++ [125], snd r)
  end.
End dump.

Definition INDENT_STRING : nat := 512.

(** [basic_json::dump]; a negative [indent] asks for the compact form.  Values
    the library cannot hold have no text. *)
Definition dump (indent : Z) (ensure_ascii : bool) (j : json) : exec text :=
  if negb (representable j) then Undefined
  else if 0 <=? indent then
    r <-? dump_pretty ensure_ascii (Z.to_nat indent) 0 j INDENT_STRING;; Done (fst r)
  else dump_compact ensure_ascii j.

(** * Escaping *)

(** The text of a code point in a string. *)
Definition escape (ensure_ascii : bool) (c : Z) : text :=
  if (c <? 0x80) || ensure_ascii then fst (escaped ensure_ascii c c) else codepoint_bytes c.

Definition escape_all (ensure_ascii : bool) (cps : list Z) : text := cps ≫= escape ensure_ascii.

(** The serializer without its buffer. *)
Fixpoint unbuffered (ensure_ascii : bool) (state codep : Z) (s : text) : option text :=
  match s with
  | [] => if state =? UTF8_ACCEPT then Some [] else None
  | b :: s' =>
      let '(state, codep) := decode state codep b in
      if state =? UTF8_REJECT then None
      else if state =? UTF8_ACCEPT then app (fst (escaped ensure_ascii codep b)) <$> unbuffered ensure_ascii state codep s'
      else app (if ensure_ascii then [] else [b]) <$> unbuffered ensure_ascii state codep s'
  end.

Lemma escaped_fits a c b :
  (length (fst (escaped a c b)) + (if snd (escaped a c b) then 1 else 0) <= if a then 13 else 7)%nat.
Proof.
  unfold escaped. repeat match goal with |- context [if ?x then _ else _] => destruct x eqn:? end;
    cbn; try lia; rewrite ?orb_false_r in *; bool_to_prop; lia.
Qed.

Record esc_ok (a : bool) (e : Escaper) : Prop := {
  eo_state : es_state e = 0 ∨ 2 <= es_state e <= 8;
  eo_fits : if a then (length (es_buffer e) <= 499)%nat
            else (length (es_buffer e) + remaining (es_state e) <= 503)%nat
}.

Lemma flush_keeps e : es_out (flush e) ++ es_buffer (flush e) = es_out e ++ es_buffer e.
Proof. unfold flush. destruct (_ <? _)%nat; cbn; by rewrite ?app_nil_r. Qed.

Lemma flush_state e : es_state (flush e) = es_state e ∧ es_codepoint (flush e) = es_codepoint e.
Proof. unfold flush. by destruct (_ <? _)%nat. Qed.

Lemma flush_small e : (length (es_buffer (flush e)) <= 499)%nat.
Proof.
  unfold flush. destruct (Nat.ltb_spec (STRING_BUFFER - length (es_buffer e)) 13); cbn; unfold STRING_BUFFER in *; lia.
Qed.

Lemma put_done extra w e :
  (length (es_buffer e) + length w + extra <= STRING_BUFFER)%nat →
  put extra w e = Done (mkEscaper (es_codepoint e) (es_state e) (es_buffer e ++ w) (es_out e)).
Proof. intros H. unfold put. by rewrite (proj2 (Nat.leb_le _ _)). Qed.

(** The texts of the exceptions are visible ASCII. *)
Lemma hex_bytes_plain b : is_byte b → plain (hex_bytes b).
Proof.
  intros Hb. apply plain_forallb. unfold in_u in Hb.
  apply (all_from_spec 256 0 (λ b, forallb (λ b, (0x20 <=? b) && (b <? 0x80)) (hex_bytes b))); [by vm_compute|lia].
Qed.

Lemma type_error_316_plain what : plain what → plain (type_error_316 what).
Proof. intros H. apply Forall_app. split; [by apply plain_forallb|done]. Qed.

Lemma invalid_byte_plain i b :
  is_byte b → plain (type_error_316 (lit "invalid UTF-8 byte at index " ++ to_string i ++ lit ": 0x" ++ hex_bytes b)).
Proof.
  intros Hb. apply type_error_316_plain. apply Forall_app. split; [by apply plain_forallb|].
  apply Forall_app. split; [apply to_string_plain|]. apply Forall_app. split; [by apply plain_forallb|by apply hex_bytes_plain].
Qed.

Lemma incomplete_plain s :
  Forall is_byte s → plain (type_error_316 (lit "incomplete UTF-8 string; last byte: 0x" ++ hex_bytes (List.last s 0))).
Proof.
  intros Hs. apply type_error_316_plain. apply Forall_app. split; [by apply plain_forallb|]. apply hex_bytes_plain.
  induction Hs as [|b s Hb _ IH]; [done|]. by destruct s.
Qed.

(** One byte: the buffer does not overflow, and the output grows as without it. *)
Lemma dump_byte_spec a i b e :
  esc_ok a e → is_byte b →
  let '(st, cp) := decode (es_state e) (es_codepoint e) b in
  if st =? UTF8_REJECT then ∃ err, dump_byte a i b e = Raised err ∧ plain err
  else ∃ e', dump_byte a i b e = Done e' ∧ esc_ok a e' ∧ es_state e' = st ∧ es_codepoint e' = cp ∧
       es_out e' ++ es_buffer e' =
         es_out e ++ es_buffer e ++
         (if st =? UTF8_ACCEPT then fst (escaped a cp b) else if a then [] else [b]).
Proof.
  intros [Hs Hf] Hb. unfold dump_byte. destruct (decode _ _ b) as [st cp] eqn:E.
  change UTF8_REJECT with 1. change UTF8_ACCEPT with 0.
  destruct (Z.eqb_spec st 1) as [->|H1]; [eexists; split; [done|by apply invalid_byte_plain]|]. destruct (Z.eqb_spec st 0) as [->|H0].
  - pose proof (escaped_fits a cp b) as Hl. destruct (escaped a cp b) as [w f]. cbn [fst snd] in *.
    rewrite put_done; cbn [es_buffer es_state es_codepoint es_out ebind].
    2:{ unfold STRING_BUFFER. destruct a; [destruct f; lia|]. assert (remaining (es_state e) ≥ 1)%nat.
        { unfold remaining. repeat case_match_goal; lia. } destruct f; lia. }
    eexists. split; [done|]. destruct (flush_state (mkEscaper cp 0 (es_buffer e ++ w) (es_out e))) as [E1 E2].
    split_and!; [|by rewrite E1|by rewrite E2|].
    + split; [left; by rewrite E1|]. pose proof (flush_small (mkEscaper cp 0 (es_buffer e ++ w) (es_out e))).
      rewrite E1. destruct a; [done|]. cbn [es_state remaining Z.eqb]. lia.
    + rewrite flush_keeps. cbn. done.
  - destruct (decode_remaining _ _ _ _ _ Hs Hb E H0 H1) as [Hst Hr].
    destruct a.
    + eexists. split; [done|]. split_and!; try done; cbn; [|by rewrite app_nil_r]. split; [by right|done].
    + rewrite put_done by (cbn; unfold STRING_BUFFER; lia). eexists. split; [done|]. split_and!; try done.
      split; [by right|]. cbn. rewrite length_app. cbn. lia.
Qed.

Lemma dump_bytes_spec a i s e :
  esc_ok a e → Forall is_byte s →
  match unbuffered a (es_state e) (es_codepoint e) s with
  | Some t => ∃ e', dump_bytes a i s e = Done e' ∧ es_state e' = 0 ∧
                    es_out e' ++ es_buffer e' = es_out e ++ es_buffer e ++ t
  | None => (∃ err, dump_bytes a i s e = Raised err ∧ plain err) ∨ (∃ e', dump_bytes a i s e = Done e' ∧ es_state e' ≠ 0)
  end.
Proof.
  intros He Hs. revert i e He. induction Hs as [|b s Hb Hs IH]; intros i e He; cbn [unbuffered dump_bytes].
  - change UTF8_ACCEPT with 0. destruct (Z.eqb_spec (es_state e) 0); [|by right; eexists].
    exists e. by rewrite app_nil_r.
  - pose proof (dump_byte_spec a i b e He Hb) as H. destruct (decode _ _ b) as [st cp] eqn:E.
    destruct (st =? UTF8_REJECT) eqn:E1; [left; destruct H as (err & -> & Hp); by exists err|].
    destruct H as (e1 & -> & He1 & <- & <- & Ho). cbn [ebind]. specialize (IH (i + 1) e1 He1).
    destruct (es_state e1 =? UTF8_ACCEPT), (unbuffered a _ _ s) as [t|]; cbn [fmap option_fmap option_map]; try done;
      destruct IH as (e' & -> & Hst & Ho'); exists e'; (split; [done|]); (split; [done|]);
      rewrite Ho', app_assoc, Ho, <- !app_assoc; done.
Qed.

Lemma unbuffered_part a st cp bs st' cp' s :
  decode_part st cp bs = Some (st', cp') →
  unbuffered a st cp (bs ++ s) = app (if a then [] else bs) <$> unbuffered a st' cp' s.
Proof.
  revert st cp. induction bs as [|b bs IH]; intros st cp; cbn [decode_part app unbuffered].
  - intros [= -> ->]. assert (Hid : ∀ o : option text, o = app (if a then [] else []) <$> o) by (intros [?|]; by destruct a).
    apply Hid.
  - destruct (decode st cp b) as [st1 cp1]. destruct (st1 =? UTF8_ACCEPT), (st1 =? UTF8_REJECT); try done. cbn [orb].
    intros H. rewrite (IH _ _ H). destruct (unbuffered a st' cp' s); [|done]. by destruct a.
Qed.

Lemma unbuffered_char a c cp s :
  scalar c → unbuffered a 0 cp (codepoint_bytes c ++ s) = app (escape a c) <$> unbuffered a 0 c s.
Proof.
  intros Hc. destruct (codepoint_trace c cp Hc) as (bs & b & Eb & st & cp' & Hp & Hd).
  assert (E : unbuffered a 0 cp (codepoint_bytes c ++ s) =
              app ((if a then [] else bs) ++ fst (escaped a c b)) <$> unbuffered a 0 c s).
  { rewrite Eb, <- app_assoc, (unbuffered_part _ _ _ _ _ _ _ Hp). cbn [app unbuffered]. rewrite Hd. cbn [Z.eqb].
    change (0 =? UTF8_REJECT) with false. change (0 =? UTF8_ACCEPT) with true. cbn [andb].
    destruct (unbuffered a 0 c s); cbn; [|done]. by rewrite app_assoc. }
  rewrite E. unfold escape. destruct (Z.ltb_spec c 0x80) as [Hlt|Hge]; cbn [orb].
  - assert (Hs : codepoint_bytes c = [c]) by (unfold codepoint_bytes; by rewrite (proj2 (Z.ltb_lt c 0x80))).
    rewrite Hs in Eb. destruct bs as [|b1 bs]; [|by destruct bs]. injection Eb as <-. by destruct a.
  - destruct a.
    + assert (Hw : fst (escaped true c b) = fst (escaped true c c)).
      { unfold escaped. repeat match goal with |- context [if ?x then _ else _] => destruct x eqn:? end; try done.
        rewrite (proj2 (Z.leb_le 0x7F c)) in * by lia. rewrite orb_true_r in *. done. }
      by rewrite Hw.
    + assert (Hw : fst (escaped false c b) = [b]).
      { unfold escaped. rewrite !(proj2 (Z.eqb_neq c _)) by lia. by rewrite (proj2 (Z.leb_gt c 0x1F)) by lia. }
      by rewrite Hw, <- Eb.
Qed.

Lemma unbuffered_none a st cp s : decode_text st cp s = None ↔ unbuffered a st cp s = None.
Proof.
  revert st cp. induction s as [|b s IH]; intros st cp; cbn [decode_text unbuffered].
  - by destruct (st =? UTF8_ACCEPT).
  - destruct (decode st cp b) as [st1 cp1]. destruct (st1 =? UTF8_REJECT); [done|].
    destruct (st1 =? UTF8_ACCEPT); rewrite ?fmap_None; apply IH.
Qed.

Lemma unbuffered_utf8 a cp cps :
  Forall scalar cps → unbuffered a 0 cp (utf8_of cps) = Some (escape_all a cps).
Proof.
  intros H. revert cp. unfold utf8_of, escape_all.
  induction H as [|c cps Hc _ IH]; intros cp; cbn [mbind list_bind]; [done|].
  by rewrite unbuffered_char, IH.
Qed.

Lemma dump_escaped_utf8 a cps :
  Forall scalar cps → dump_escaped a (utf8_of cps) = Done (escape_all a cps).
Proof.
  intros H. unfold dump_escaped.
  pose proof (dump_bytes_spec a 0 (utf8_of cps) (mkEscaper 0 UTF8_ACCEPT [] [])) as Hd.
  cbn [es_state es_codepoint es_out es_buffer] in Hd. change UTF8_ACCEPT with 0 in *.
  rewrite unbuffered_utf8 in Hd by done. destruct Hd as (e & -> & Hs & Ho).
  - split; [by left|]. destruct a; cbn; lia.
  - apply utf8_bytes. by exists cps.
  - cbn [ebind]. rewrite Hs. cbn [Z.eqb]. by rewrite Ho.
Qed.

(** What a printer gives: the text if all its text is UTF-8, else an exception. *)
Definition prints {A} (ok : bool) (P : A → Prop) (r : exec A) : Prop :=
  if ok then ∃ x, r = Done x ∧ P x else ∃ e, r = Raised e ∧ plain e.

Lemma prints_bind {A B} ok ok' (P : A → Prop) (Q : B → Prop) r (k : A → exec B) :
  prints ok P r → (∀ x, P x → prints ok' Q (k x)) → prints (ok && ok') Q (ebind r k).
Proof.
  intros Hr Hk. destruct ok; cbn in *.
  - destruct Hr as (x & -> & Hx). by apply Hk.
  - destruct Hr as (e & -> & He). by exists e.
Qed.

(** The last step of a printer. *)
Lemma prints_map {A B} ok (P : A → Prop) (Q : B → Prop) r (k : A → exec B) :
  prints ok P r → (∀ x, P x → ∃ y, k x = Done y ∧ Q y) → prints ok Q (ebind r k).
Proof.
  intros Hr Hk. destruct ok; cbn in *.
  - destruct Hr as (x & -> & Hx). cbn. by apply Hk.
  - destruct Hr as (e & -> & He). by exists e.
Qed.

Definition is_utf8 (s : text) : bool := match decode_text 0 0 s with Some _ => true | None => false end.

(** The text of a string, without its quotes. *)
Definition escape_text (a : bool) (s : text) : text := escape_all a (default [] (decode_text 0 0 s)).

Lemma dump_escaped_prints a s :
  Forall is_byte s → prints (is_utf8 s) (λ t, t = escape_text a s) (dump_escaped a s).
Proof.
  intros Hs. unfold prints, is_utf8, escape_text. destruct (decode_text 0 0 s) as [cps|] eqn:E.
  - apply decode_text_spec in E as [Hc ->]; [|done]. eexists. by rewrite dump_escaped_utf8.
  - apply unbuffered_none with (a := a) in E. unfold dump_escaped.
    pose proof (dump_bytes_spec a 0 s (mkEscaper 0 UTF8_ACCEPT [] [])) as Hd. cbn in Hd.
    change UTF8_ACCEPT with 0 in *. rewrite E in Hd. destruct Hd as [(err & -> & He)|(e & -> & Hn)].
    + split; [by left|]. destruct a; cbn; lia.
    + done.
    + by exists err.
    + cbn [ebind]. rewrite (proj2 (Z.eqb_neq _ _)) by done. eexists. split; [done|by apply incomplete_plain].
Qed.

(** a string is printed exactly when it is UTF-8.  For every string of
    bytes the serializer stays within its buffer of 512 bytes, with what
    [snprintf] writes behind the text; if the string is the encoding of some
    code points it prints their escapes in order, and otherwise it throws. *)
Theorem strings_stay_in_their_buffer a s :
  Forall is_byte s →
  dump_escaped a s ≠ Undefined ∧
  ∀ t, dump_escaped a s = Done t ↔ ∃ cps, Forall scalar cps ∧ s = utf8_of cps ∧ t = escape_all a cps.
Proof.
  intros Hs. pose proof (dump_escaped_prints a s Hs) as Hd. unfold prints, is_utf8, escape_text in Hd.
  pose proof (decode_text_spec 0 s) as Hspec. destruct (decode_text 0 0 s) as [cps|] eqn:E.
  - destruct Hd as (t & -> & ->). split; [done|]. intros t. split.
    + intros [= <-]. exists cps. by destruct (proj1 (Hspec cps Hs) eq_refl).
    + intros (cps' & Hc & Es & ->). assert (H : Some cps = Some cps') by by apply Hspec. by injection H as <-.
  - destruct Hd as (err & -> & _). split; [done|]. intros t. split; [done|]. intros (cps & Hc & Es & _).
    by assert (H : None = Some cps) by by apply Hspec.
Qed.

Lemma strings_stay_in_their_buffer_witness :
  dump_escaped false [34; 206; 187; 10] = Done [92; 34; 206; 187; 92; 110].
Proof.
  apply (strings_stay_in_their_buffer false [34; 206; 187; 10]).
  - repeat apply List.Forall_cons; try apply Forall_nil; split; vm_compute; congruence.
  - exists [34; 955; 10]. split; [|split; vm_compute; reflexivity].
    repeat apply List.Forall_cons; try apply Forall_nil; apply (bool_decide_unpack _); vm_compute; exact I.
Defined.

(** * Digits *)

Lemma store_app a y c v i :
  i = Z.of_nat (length a) → store i v (a ++ y :: c) = Done (a ++ v :: c).
Proof.
  intros ->. unfold store. rewrite length_app. cbn [length].
  rewrite (proj2 (Z.leb_le _ _)), (proj2 (Z.ltb_lt _ _)) by lia. cbn [andb]. rewrite Nat2Z.id.
  rewrite insert_app_r_alt, Nat.sub_diag by lia. done.
Qed.

Lemma digits_small f x : 0 <= x < 10 → digits_of (S f) x = [48 + x].
Proof. intros H. cbn. by rewrite (proj2 (Z.ltb_lt x 10)) by lia. Qed.

Lemma digits_step f x : 10 <= x → digits_of (S f) x = digits_of f (x / 10) ++ [48 + x mod 10].
Proof. intros H. cbn. by rewrite (proj2 (Z.ltb_ge x 10)) by lia. Qed.

Lemma digits_of_fuel f g x :
  0 <= x < 10 ^ Z.of_nat f → (f <= g)%nat → (0 < f)%nat → digits_of g x = digits_of f x.
Proof.
  revert g x. induction f as [|f IH]; intros g x Hx Hg Hf; [lia|]. destruct g as [|g]; [lia|].
  destruct (Z.ltb_spec x 10); [by rewrite !digits_small by lia|]. rewrite !digits_step by lia.
  rewrite Nat2Z.inj_succ, Z.pow_succ_r in Hx by lia. destruct f as [|f]; [cbn in Hx; lia|].
  f_equal. apply IH; [zdivmod_lia|lia|lia].
Qed.

Lemma count_digits_spec f x :
  (0 < f)%nat → 0 <= x < 10000 ^ Z.of_nat f →
  count_digits f x = Z.of_nat (length (digits_of (4 * f) x)).
Proof.
  revert x. induction f as [|f IH]; intros x Hf Hx; [lia|]. cbn [count_digits].
  replace (4 * S f)%nat with (S (S (S (S (4 * f))))) by lia.
  destruct (Z.ltb_spec x 10); [by rewrite digits_small by lia|]. rewrite digits_step, length_app by lia.
  destruct (Z.ltb_spec x 100); [by rewrite digits_small by zdivmod_lia|].
  rewrite digits_step, length_app by zdivmod_lia.
  destruct (Z.ltb_spec x 1000); [by rewrite digits_small by zdivmod_lia|].
  rewrite digits_step, length_app by zdivmod_lia.
  destruct (Z.ltb_spec x 10000); [by rewrite digits_small by zdivmod_lia|].
  rewrite digits_step, length_app by zdivmod_lia. rewrite !Z.div_div by lia. cbn [length].
  rewrite Nat2Z.inj_succ, Z.pow_succ_r in Hx by lia. destruct f as [|f]; [cbn in Hx; lia|].
  rewrite IH by (lia || zdivmod_lia). change (10 * (10 * (10 * 10))) with 10000. lia.
Qed.

Lemma write_last_spec g x a m c ptr :
  0 <= x < 100 → (2 <= g)%nat → length m = length (digits_of g x) → ptr = Z.of_nat (length a + length m) →
  (if 10 <=? x then
     b <-? store (ptr - 1) (units x) (a ++ m ++ c);; store (ptr - 2) (tens x) b
   else store (ptr - 1) (48 + x) (a ++ m ++ c)) = Done (a ++ digits_of g x ++ c).
Proof.
  intros Hx Hg Hm ->. destruct g as [|[|g]]; [lia..|]. destruct (Z.leb_spec 10 x).
  - rewrite digits_step, digits_small in Hm |- * by zdivmod_lia. destruct m as [|y [|z [|]]]; try done.
    replace (a ++ [y; z] ++ c) with ((a ++ [y]) ++ z :: c) by (by rewrite <- app_assoc).
    rewrite store_app by (rewrite length_app; cbn; lia). cbn [ebind]. rewrite <- app_assoc. cbn [app].
    rewrite store_app by (cbn; lia). done.
  - rewrite digits_small in Hm |- * by lia. destruct m as [|y [|]]; try done. cbn [app].
    by rewrite store_app by (cbn; lia).
Qed.

Lemma write_digits_spec f g x a m c ptr :
  0 <= x < 100 ^ (Z.of_nat f + 1) → (2 * f + 2 <= g)%nat → length m = length (digits_of g x) →
  ptr = Z.of_nat (length a + length m) →
  write_digits f x ptr (a ++ m ++ c) = Done (a ++ digits_of g x ++ c).
Proof.
  revert g x a m c ptr. induction f as [|f IH]; intros g x a m c ptr Hx Hg Hm Hp; cbn [write_digits].
  - rewrite (proj2 (Z.ltb_lt x 100)) by (cbn in Hx; lia). apply write_last_spec; [cbn in Hx; lia|lia|done..].
  - destruct (Z.ltb_spec x 100); [apply write_last_spec; [lia|lia|done..]|].
    destruct g as [|[|g]]; [lia..|]. rewrite !digits_step in Hm |- * by zdivmod_lia.
    rewrite !length_app in Hm. cbn [length] in Hm. cbv zeta.
    destruct (nil_or_length_pos m) as [->|_]; [cbn in Hm; lia|].
    assert (Hsplit : ∃ m' y z, m = m' ++ [y; z]).
    { exists (take (length m - 2) m). assert (Hd : length (drop (length m - 2) m) = 2%nat) by (rewrite length_drop; lia).
      destruct (drop (length m - 2) m) as [|y [|z [|]]] eqn:E; try done. exists y, z. by rewrite <- E, take_drop. }
    destruct Hsplit as (m' & y & z & ->). rewrite length_app in Hm, Hp. cbn [length] in Hm, Hp.
    replace (a ++ (m' ++ [y; z]) ++ c) with ((a ++ m' ++ [y]) ++ z :: c) by (by rewrite <- !app_assoc).
    rewrite store_app by (rewrite ?length_app; cbn [length]; lia). cbn [ebind].
    replace ((a ++ m' ++ [y]) ++ units (x mod 100) :: c) with ((a ++ m') ++ y :: units (x mod 100) :: c)
      by (by rewrite <- !app_assoc).
    rewrite store_app by (rewrite ?length_app; cbn [length]; lia). cbn [ebind]. rewrite <- app_assoc.
    rewrite (IH g (x / 100) a m' (tens (x mod 100) :: units (x mod 100) :: c)).
    + rewrite Z.div_div by lia. change (10 * 10) with 100. rewrite <- !app_assoc. cbn [app]. do 3 f_equal.
      unfold tens, units. f_equal; [|f_equal]; zdivmod_lia.
    + rewrite Nat2Z.inj_succ, Z.add_succ_l, Z.pow_succ_r in Hx by lia. zdivmod_lia.
    + lia.
    + rewrite Z.div_div in Hm by lia. change (10 * 10) with 100 in Hm. lia.
    + lia.
Qed.

Lemma remove_sign_spec x : - 2 ^ 63 <= x < 0 → remove_sign x = - x.
Proof. intros H. unfold remove_sign. rewrite !wrap_small by (unfold in_u; rewrite ?wrap_small by (unfold in_u; lia); lia). lia. Qed.

Lemma digits_pos_length x : (1 <= length (digits_of 20 x))%nat.
Proof. cbn [digits_of]. destruct (x <? 10); [done|]. rewrite length_app. cbn. lia. Qed.

Lemma digits_length f x : (length (digits_of f x) <= f)%nat.
Proof.
  revert x. induction f as [|f IH]; intros x; cbn [digits_of]; [done|]. destruct (x <? 10); [cbn; lia|].
  rewrite length_app. specialize (IH (x / 10)). cbn. lia.
Qed.

Lemma digits_of_22 x : 0 <= x < 2 ^ 64 → digits_of 22 x = digits_of 20 x.
Proof.
  intros Hx. apply (digits_of_fuel 20 22 x).
  - change (10 ^ Z.of_nat 20) with 100000000000000000000. lia.
  - apply Nat.leb_le. reflexivity.
  - apply Nat.ltb_lt. reflexivity.
Qed.

(** Write the digits of a 64-bit value behind [a], in a buffer that holds them. *)
Lemma dump_digits x a b :
  0 <= x < 2 ^ 64 → (20 <= length b)%nat →
  ∃ c, write_digits 10 x (Z.of_nat (length a) + count_digits 5 x) (a ++ b) = Done (a ++ digits_of 20 x ++ c) ∧
       count_digits 5 x = Z.of_nat (length (digits_of 20 x)).
Proof.
  intros Hx Hb. rewrite count_digits_spec by (try change (10000 ^ Z.of_nat 5) with 100000000000000000000; lia). change (4 * 5)%nat with 20%nat.
  pose proof (digits_length 20 x) as Hl. exists (drop (length (digits_of 20 x)) b). split; [|done].
  rewrite <- (take_drop (length (digits_of 20 x)) b) at 1.
  pose proof (digits_of_22 x Hx) as Hd.
  set (n := length (digits_of 20 x)) in *. assert (Hn : length (take n b) = n) by (rewrite length_take; lia).
  rewrite (write_digits_spec 10 22 x a (take n b) (drop n b)).
  - by rewrite Hd.
  - change (100 ^ (Z.of_nat 10 + 1)) with 10000000000000000000000. lia.
  - apply Nat.leb_le. reflexivity.
  - by rewrite Hd.
  - rewrite Hn. lia.
Qed.

(** The fast conversion prints decimal digits, whatever its buffer held. *)
Lemma dump_integer_spec buffer z :
  length buffer = NUMBER_BUFFER → number_in_range z = true → dump_integer buffer z = Done (to_string z).
Proof.
  intros Hb Hz. unfold number_in_range in Hz. bool_to_prop. unfold NUMBER_BUFFER in Hb.
  unfold dump_integer, to_string. destruct (Z.eqb_spec z 0) as [->|Hn]; [done|]. destruct (Z.ltb_spec z 0) as [Hneg|Hpos].
  - rewrite remove_sign_spec by lia. destruct buffer as [|y buffer]; [done|]. cbn [length] in Hb.
    rewrite (store_app [] y buffer) by done. cbn [ebind app]. cbv zeta.
    destruct (dump_digits (- z) [45] buffer) as (c & E & Hc); [lia..|]. cbn [length app] in E.
    change (Z.of_nat 1) with 1 in E. rewrite E. cbn [ebind]. rewrite Hc.
    replace (Z.to_nat (1 + Z.of_nat (length (digits_of 20 (- z))))) with (S (length (digits_of 20 (- z)))) by lia.
    cbn [firstn]. f_equal. f_equal. by rewrite take_app_length.
  - destruct (dump_digits z [] buffer) as (c & E & Hc); [lia..|]. cbn [length app] in E.
    change (Z.of_nat 0) with 0 in E. rewrite Z.add_0_l in E. cbv zeta. rewrite E. cbn [ebind]. rewrite Hc, Nat2Z.id.
    by rewrite take_app_length.
Qed.

(** * The text of a value *)

(** Induction over nested values. *)
Section json_induction.
Context (P : json → Prop).
Context (HNull : P JNull) (HBool : ∀ b, P (JBool b)) (HInt : ∀ z, P (JInt z)) (HFloat : ∀ d, P (JFloat d)).
Context (HStr : ∀ s, P (JStr s)).
Context (HArr : ∀ l, Forall P l → P (JArr l)).
Context (HObj : ∀ l, Forall (λ p, P (snd p)) l → P (JObj l)).

Fixpoint json_ind_nested (j : json) : P j :=
  match j with
  | JNull => HNull
  | JBool b => HBool b
  | JInt z => HInt z
  | JFloat d => HFloat d
  | JStr s => HStr s
  | JArr l =>
      HArr l ((fix go (l : list json) : Forall P l :=
                 match l with
                 | [] => List.Forall_nil _
                 | v :: l' => @List.Forall_cons _ P v l' (json_ind_nested v) (go l')
                 end) l)
  | JObj l =>
      HObj l ((fix go (l : list (text * json)) : Forall (λ p, P (snd p)) l :=
                 match l with
                 | [] => List.Forall_nil _
                 | p :: l' => @List.Forall_cons _ (λ p, P (snd p)) p l' (json_ind_nested (snd p)) (go l')
                 end) l)
  end.
End json_induction.

(** Every string is UTF-8. *)
Fixpoint printable (j : json) : bool :=
  match j with
  | JStr s => is_utf8 s
  | JArr l => forallb printable l
  | JObj l => forallb (λ p, is_utf8 (fst p) && printable (snd p)) l
  | _ => true
  end.

Section json_text.
Context (ensure_ascii : bool).
(** The line break and indentation of the pretty form, and the separator. *)
Context (newline : nat → text) (indent_step : nat) (colon : text).

Definition string_text (s : text) : text :=
  [34] ++ escape_text ensure_ascii s ++ [34].

Fixpoint json_text (cur : nat) (j : json) : text :=
  match j with
  | JNull => lit "null"
  | JBool b => if b then lit "true" else lit "false"
  | JInt z => to_string z
  | JFloat d => dump_float d
  | JStr s => string_text s
  | JArr [] => lit "[]"
  | JArr (v :: l) =>
      let new := (cur + indent_step)%nat in
      [91] ++ newline new ++ json_text new v ++
      concat (map (λ v, [44] ++ newline new ++ json_text new v) l) ++ newline cur ++ [93]
  | JObj [] => lit "{}"
  | JObj ((k, v) :: l) =>
      let new := (cur + indent_step)%nat in
      [123] ++ newline new ++ string_text k ++ colon ++ json_text new v ++
      concat (map (λ p, [44] ++ newline new ++ string_text (fst p) ++ colon ++ json_text new (snd p)) l) ++
      newline cur ++ [125]
  end.
End json_text.

Definition compact_text (a : bool) : nat → json → text :=
  json_text a (λ _, []) 0 [58].
Definition pretty_text (a : bool) (step : nat) : nat → json → text :=
  json_text a (λ n, 10 :: replicate n 32) step [58; 32].

Lemma forallb_bytes s : forallb (λ b, (0 <=? b) && (b <? 256)) s = true → Forall is_byte s.
Proof.
  intros H. apply Forall_forall. intros b Hb%list_elem_of_In. rewrite forallb_forall in H. apply H in Hb.
  unfold in_u. bool_to_prop. lia.
Qed.

Lemma quoted_prints a s :
  Forall is_byte s → prints (is_utf8 s) (λ t, t = string_text a s) (quoted a s).
Proof.
  intros Hs. unfold quoted. eapply prints_map; [by apply dump_escaped_prints|]. intros x ->. by eexists.
Qed.

(** The two list printers of the compact form, by name. *)
Definition compact_elements (a : bool) : list json → exec text :=
  fix elements l :=
    match l with
    | [] => Done []
    | [v] => dump_compact a v
    | v :: l' => t <-? dump_compact a v;; t' <-? elements l';; Done (t ++ [44] ++ t')
    end.

Definition compact_members (a : bool) : list (text * json) → exec text :=
  fix members l :=
    match l with
    | [] => Done []
    | [(k, v)] => t <-? quoted a k;; t' <-? dump_compact a v;; Done (t ++ [58] ++ t')
    | (k, v) :: l' =>
        t <-? quoted a k;; t' <-? dump_compact a v;; t'' <-? members l';;
        Done (t ++ [58] ++ t' ++ [44] ++ t'')
    end.

Definition is_bytes (s : text) : bool := forallb (λ b, (0 <=? b) && (b <? 256)) s.

Section compact.
Context (a : bool).
Abbreviation text_of := (compact_text a 0).
Abbreviation compact_ok := (λ j, representable j = true → prints (printable j) (λ t, t = text_of j) (dump_compact a j)).

Lemma compact_elements_prints v l :
  Forall compact_ok (v :: l) → forallb representable (v :: l) = true →
  prints (forallb printable (v :: l)) (λ t, t = text_of v ++ concat (map (λ v, [44] ++ text_of v) l))
    (compact_elements a (v :: l)).
Proof.
  revert v. induction l as [|v' l IH]; intros v [Hv Hl]%Forall_cons [Hrv Hrl]%andb_prop.
  - cbn [forallb map concat compact_elements]. rewrite andb_true_r, app_nil_r. by apply Hv.
  - change (compact_elements a (v :: v' :: l)) with
      (t <-? dump_compact a v;; t' <-? compact_elements a (v' :: l);; Done (t ++ [44] ++ t')).
    change (forallb printable (v :: v' :: l)) with (printable v && forallb printable (v' :: l)).
    eapply prints_bind; [by apply Hv|]. intros x ->. cbn beta.
    eapply prints_map; [by apply IH|]. intros y ->. eexists. split; [done|]. cbn [map concat]. by rewrite <- !app_assoc.
Qed.

Lemma compact_members_prints k v l :
  Forall (λ p, compact_ok (snd p)) ((k, v) :: l) →
  forallb (λ p, is_bytes (fst p) && representable (snd p)) ((k, v) :: l) = true →
  prints (forallb (λ p, is_utf8 (fst p) && printable (snd p)) ((k, v) :: l))
    (λ t, t = string_text a k ++ [58] ++ text_of v ++
              concat (map (λ p, [44] ++ string_text a (fst p) ++ [58] ++ text_of (snd p)) l))
    (compact_members a ((k, v) :: l)).
Proof.
  revert k v. induction l as [|[k' v'] l IH]; intros k v [Hv Hl]%Forall_cons [[Hk Hrv]%andb_prop Hrl]%andb_prop;
    cbn [fst snd] in *.
  - cbn [forallb map concat compact_members fst snd]. rewrite andb_true_r.
    eapply prints_bind; [by apply quoted_prints, forallb_bytes|]. intros x ->.
    eapply prints_map; [by apply Hv|]. intros y ->. eexists. split; [done|]. by rewrite app_nil_r.
  - change (compact_members a ((k, v) :: (k', v') :: l)) with
      (t <-? quoted a k;; t' <-? dump_compact a v;; t'' <-? compact_members a ((k', v') :: l);;
       Done (t ++ [58] ++ t' ++ [44] ++ t'')).
    set (rest := (k', v') :: l) in *. cbn [forallb fst snd]. rewrite <- andb_assoc.
    eapply prints_bind; [by apply quoted_prints, forallb_bytes|]. intros x ->. cbn beta.
    eapply prints_bind; [by apply Hv|]. intros y ->. cbn beta. subst rest.
    eapply prints_map; [by apply IH|]. intros z ->. eexists. split; [done|].
    cbn [map concat fst snd]. by rewrite <- !app_assoc.
Qed.

Lemma dump_compact_prints j :
  representable j = true → prints (printable j) (λ t, t = text_of j) (dump_compact a j).
Proof.
  induction j as [|b|z|z|s|l IH|l IH] using json_ind_nested; intros Hr; cbn [representable] in Hr.
  - by eexists.
  - by eexists.
  - eexists. split; [by apply dump_integer_spec|done].
  - by eexists.
  - cbn [printable dump_compact]. by apply quoted_prints, forallb_bytes.
  - destruct l as [|v l]; [by eexists|].
    change (dump_compact a (JArr (v :: l))) with
      (t <-? compact_elements a (v :: l);; Done ([91] ++ t ++ [93])).
    eapply prints_map; [by apply compact_elements_prints|]. intros x ->. eexists. split; [done|].
    unfold compact_text. cbn [json_text]. rewrite <- !app_assoc. done.
  - destruct l as [|[k v] l]; [by eexists|].
    change (dump_compact a (JObj ((k, v) :: l))) with
      (t <-? compact_members a ((k, v) :: l);; Done ([123] ++ t ++ [125])).
    eapply prints_map; [by apply compact_members_prints|]. intros x ->. eexists. split; [done|].
    unfold compact_text. cbn [json_text]. rewrite <- !app_assoc. done.
Qed.
End compact.

(** The same of the indented form. *)
Definition pretty_elements (a : bool) (step new_indent : nat)
    : list json → nat → exec (text * nat) :=
  fix elements l size :=
    match l with
    | [] => Done ([], size)
    | v :: l' =>
        i <-? write_indent size new_indent;;
        r <-? dump_pretty a step new_indent v size;;
        match l' with
        | [] => Done (i ++ fst r, snd r)
        | _ => r' <-? elements l' (snd r);; Done (i ++ fst r ++ [44; 10] ++ fst r', snd r')
        end
    end.

Definition pretty_members (a : bool) (step new_indent : nat)
    : list (text * json) → nat → exec (text * nat) :=
  fix members l size :=
    match l with
    | [] => Done ([], size)
    | (k, v) :: l' =>
        i <-? write_indent size new_indent;;
        t <-? quoted a k;;
        r <-? dump_pretty a step new_indent v size;;
        match l' with
        | [] => Done (i ++ t ++ [58; 32] ++ fst r, snd r)
        | _ => r' <-? members l' (snd r);;
               Done (i ++ t ++ [58; 32] ++ fst r ++ [44; 10] ++ fst r', snd r')
        end
    end.

Section pretty.
Context (a : bool) (step : nat).
Abbreviation text_of := (pretty_text a step).

(** The text, and an indent string that has not shrunk. *)
Definition printed (size : nat) (t : text) (r : text * nat) : Prop := fst r = t ∧ (size <= snd r)%nat.

Abbreviation pretty_ok := (λ j, ∀ cur size, representable j = true → (cur <= size)%nat → (step <= size)%nat →
  prints (printable j) (printed size (text_of cur j)) (dump_pretty a step cur j size)).

Lemma write_indent_done size n : (n <= size)%nat → write_indent size n = Done (replicate n 32).
Proof. intros H. unfold write_indent. by rewrite (proj2 (Nat.leb_le _ _)). Qed.

Abbreviation indented n t := (replicate n 32 ++ t).

Lemma pretty_elements_prints new v l size :
  Forall pretty_ok (v :: l) → forallb representable (v :: l) = true → (new <= size)%nat → (step <= size)%nat →
  prints (forallb printable (v :: l))
    (printed size (indented new (text_of new v) ++
       concat (map (λ v, [44; 10] ++ indented new (text_of new v)) l)))
    (pretty_elements a step new (v :: l) size).
Proof.
  revert v size. induction l as [|v' l IH]; intros v size [Hv Hl]%Forall_cons [Hrv Hrl]%andb_prop Hn Hst;
    cbn [pretty_elements]; rewrite write_indent_done by done; cbn [ebind].
  - cbn [forallb map concat]. rewrite andb_true_r, app_nil_r.
    eapply prints_map; [by apply Hv|]. intros [x sz] [Hx Hsz]. cbn in Hx, Hsz. subst x. eexists. by split.
  - change (pretty_elements a step new) with (pretty_elements a step new).
    change (forallb printable (v :: v' :: l)) with (printable v && forallb printable (v' :: l)).
    eapply prints_bind; [by apply Hv|]. intros [x sz] [Hx Hsz]. cbn [fst snd] in *. subst x.
    eapply prints_map; [apply (IH v' sz); (done || lia)|]. intros [y sz'] [Hy Hsz']. cbn [fst snd] in *. subst y.
    eexists. split; [done|]. split; [|cbn; lia]. cbn [fst map concat]. by rewrite <- !app_assoc.
Qed.

Lemma pretty_members_prints new k v l size :
  Forall (λ p, pretty_ok (snd p)) ((k, v) :: l) →
  forallb (λ p, is_bytes (fst p) && representable (snd p)) ((k, v) :: l) = true →
  (new <= size)%nat → (step <= size)%nat →
  prints (forallb (λ p, is_utf8 (fst p) && printable (snd p)) ((k, v) :: l))
    (printed size (indented new (string_text a k ++ [58; 32] ++ text_of new v) ++
       concat (map (λ p, [44; 10] ++ indented new (string_text a (fst p) ++ [58; 32] ++ text_of new (snd p))) l)))
    (pretty_members a step new ((k, v) :: l) size).
Proof.
  revert k v size. induction l as [|[k' v'] l IH];
    intros k v size [Hv Hl]%Forall_cons [[Hk Hrv]%andb_prop Hrl]%andb_prop Hn Hst; cbn [fst snd] in *;
    cbn [pretty_members]; rewrite write_indent_done by done; cbn [ebind].
  - cbn [forallb map concat fst snd]. rewrite andb_true_r, app_nil_r.
    eapply prints_bind; [by apply quoted_prints, forallb_bytes|]. intros x ->.
    eapply prints_map; [by apply Hv|]. intros [y sz] [Hy Hsz]. cbn in Hy, Hsz. subst y. eexists. by split.
  - set (rest := (k', v') :: l) in *. cbn [forallb fst snd]. rewrite <- andb_assoc.
    eapply prints_bind; [by apply quoted_prints, forallb_bytes|]. intros x ->. cbn beta.
    eapply prints_bind; [by apply Hv|]. intros [y sz] [Hy Hsz]. cbn [fst snd] in *. subst y rest.
    eapply prints_map; [apply (IH k' v' sz); (done || lia)|]. intros [z sz'] [Hz Hsz']. cbn [fst snd] in *. subst z.
    eexists. split; [done|]. split; [|cbn; lia]. cbn [fst snd map concat]. by rewrite <- !app_assoc.
Qed.

Lemma grow_spec size cur :
  (cur <= size)%nat → (step <= size)%nat →
  (cur + step <= grow size (cur + step))%nat ∧ (size <= grow size (cur + step))%nat.
Proof. intros H1 H2. unfold grow. destruct (Nat.ltb_spec size (cur + step)); lia. Qed.

Lemma dump_pretty_prints j cur size :
  representable j = true → (cur <= size)%nat → (step <= size)%nat →
  prints (printable j) (printed size (text_of cur j)) (dump_pretty a step cur j size).
Proof.
  revert cur size.
  induction j as [|b|z|z|s|l IH|l IH] using json_ind_nested; intros cur size Hr Hc Hst; cbn [representable] in Hr.
  - by eexists.
  - by eexists.
  - cbn [dump_pretty]. rewrite dump_integer_spec by done. by eexists.
  - by eexists.
  - cbn [printable dump_pretty]. eapply prints_map; [by apply quoted_prints, forallb_bytes|]. intros x ->. by eexists.
  - destruct l as [|v l]; [by eexists|]. destruct (grow_spec size cur Hc Hst) as [Hg1 Hg2].
    set (new := (cur + step)%nat) in *.
    change (dump_pretty a step cur (JArr (v :: l)) size) with
      (r <-? pretty_elements a step new (v :: l) (grow size new);; i <-? write_indent (snd r) cur;;
       Done ([91; 10] ++ fst r ++ [10] ++ i ++ [93], snd r)).
    eapply prints_map; [by apply pretty_elements_prints; [..|done|lia]|].
    intros [x sz] [Hx Hsz]. cbn [fst snd] in *. subst x. rewrite write_indent_done by lia.
    eexists. split; [done|]. split; [|cbn; lia].
    unfold pretty_text. cbn [fst json_text]. rewrite <- !app_assoc. done.
  - destruct l as [|[k v] l]; [by eexists|]. destruct (grow_spec size cur Hc Hst) as [Hg1 Hg2].
    set (new := (cur + step)%nat) in *.
    change (dump_pretty a step cur (JObj ((k, v) :: l)) size) with
      (r <-? pretty_members a step new ((k, v) :: l) (grow size new);; i <-? write_indent (snd r) cur;;
       Done ([123; 10] ++ fst r ++ [10] ++ i ++ [125], snd r)).
    eapply prints_map; [by apply pretty_members_prints; [..|done|lia]|].
    intros [x sz] [Hx Hsz]. cbn [fst snd] in *. subst x. rewrite write_indent_done by lia.
    eexists. split; [done|]. split; [|cbn; lia].
    unfold pretty_text. cbn [fst json_text]. rewrite <- !app_assoc. done.
Qed.
End pretty.

(** The text of a value as [dump] lays it out. *)
Definition dumped_text (indent : Z) (a : bool) (j : json) : text :=
  if 0 <=? indent then pretty_text a (Z.to_nat indent) 0 j else compact_text a 0 j.

Lemma dump_prints indent a j :
  representable j = true → indent <= Z.of_nat INDENT_STRING →
  prints (printable j) (λ t, t = dumped_text indent a j) (dump indent a j).
Proof.
  intros Hr Hi. unfold dump, dumped_text. rewrite Hr. cbn [negb]. destruct (Z.leb_spec 0 indent).
  - eapply prints_map; [by apply dump_pretty_prints; [|lia|lia]|].
    intros [x sz] [Hx _]. cbn [fst] in *. subst x. by eexists.
  - by apply dump_compact_prints.
Qed.
