(* ===== verification/JsonParse.v ===== *)
(** The lexer and the parser of the vendored nlohmann::json
    (src/external/nlohmann/json.hpp, classes lexer, parser and
    json_sax_dom_parser), as the program uses them: no callback, no comments, no
    trailing commas, exceptions on errors.

    The lexer reads a list of bytes; what it has read is the part that is gone,
    and an unread character is one put back.  A failed parse is [None]: the
    positions and the texts of the exceptions are those of file Lexer, which
    has the same code with its state.  [strtod] is that of file Strtod. *)

From stdpp Require Import relations.
From S2P Require Import Prelude.
From S2P Require Import Text.
From S2P Require Import Utf8.
From S2P Require Import Entities.
From S2P Require Import Strtod.
From S2P Require Import Json.
From S2P Require Import JsonDump.

(** * Tokens *)

Inductive token :=
| begin_array | end_array | begin_object | end_object | name_separator | value_separator
| literal_true | literal_false | literal_null
| value_string (s : text)
| value_number (z : Z)                   (* value_unsigned or value_integer *)
| value_float (d : double)
| end_of_input
| parse_error.

(** * Strings *)

Definition hex_value (c : Z) : option Z :=
  if (48 <=? c) && (c <=? 57) then Some (c - 0x30)
  else if (65 <=? c) && (c <=? 70) then Some (c - 0x37)
  else if (97 <=? c) && (c <=? 102) then Some (c - 0x57)
  else None.

(** [get_codepoint]: the value of four digits, and the rest. *)
Definition get_codepoint (input : text) : option (Z * text) :=
  match input with
  | c1 :: c2 :: c3 :: c4 :: rest =>
      match hex_value c1, hex_value c2, hex_value c3, hex_value c4 with
      | Some h1, Some h2, Some h3, Some h4 =>
          Some (Z.shiftl h1 12 + Z.shiftl h2 8 + Z.shiftl h3 4 + Z.shiftl h4 0, rest)
      | _, _, _, _ => None
      end
  | _ => None
  end.

(** [next_byte_in_range]: the bytes read, each in its range. *)
Fixpoint next_byte_in_range (ranges : list (Z * Z)) (input : text) : option (text * text) :=
  match ranges with
  | [] => Some ([], input)
  | (lo, hi) :: ranges' =>
      match input with
      | b :: rest =>
          if (lo <=? b) && (b <=? hi) then
            match next_byte_in_range ranges' rest with
            | Some (bs, rest) => Some (b :: bs, rest)
            | None => None
            end
          else None
      | [] => None
      end
  end.

(** The bytes that follow a first byte of a sequence; [None] for a byte that is
    none. *)
Definition byte_ranges (c : Z) : option (list (Z * Z)) :=
  if (0x20 <=? c) && (c <=? 0x7F) then Some []
  else if (0xC2 <=? c) && (c <=? 0xDF) then Some [(0x80, 0xBF)]
  else if c =? 0xE0 then Some [(0xA0, 0xBF); (0x80, 0xBF)]
  else if ((0xE1 <=? c) && (c <=? 0xEC)) || (c =? 0xEE) || (c =? 0xEF) then Some [(0x80, 0xBF); (0x80, 0xBF)]
  else if c =? 0xED then Some [(0x80, 0x9F); (0x80, 0xBF)]
  else if c =? 0xF0 then Some [(0x90, 0xBF); (0x80, 0xBF); (0x80, 0xBF)]
  else if (0xF1 <=? c) && (c <=? 0xF3) then Some [(0x80, 0xBF); (0x80, 0xBF); (0x80, 0xBF)]
  else if c =? 0xF4 then Some [(0x80, 0x8F); (0x80, 0xBF); (0x80, 0xBF)]
  else None.

(** The escape after a backslash: the bytes added, and the rest. *)
Definition scan_escape (input : text) : option (text * text) :=
  match input with
  | [] => None
  | c :: rest =>
      if c =? 34 then Some ([34], rest)
      else if c =? 92 then Some ([92], rest)
      else if c =? 47 then Some ([47], rest)
      else if c =? 98 then Some ([8], rest)
      else if c =? 102 then Some ([12], rest)
      else if c =? 110 then Some ([10], rest)
      else if c =? 114 then Some ([13], rest)
      else if c =? 116 then Some ([9], rest)
      else if c =? 117 then
        match get_codepoint rest with
        | None => None
        | Some (codepoint1, rest) =>
            if (0xD800 <=? codepoint1) && (codepoint1 <=? 0xDBFF) then
              match rest with
              | b :: u :: rest =>
                  if (b =? 92) && (u =? 117) then
                    match get_codepoint rest with
                    | None => None
                    | Some (codepoint2, rest) =>
                        if (0xDC00 <=? codepoint2) && (codepoint2 <=? 0xDFFF) then
                          Some (codepoint_bytes (wrap 32 (Z.shiftl codepoint1 10 + codepoint2 - 0x35FDC00)), rest)
                        else None
                    end
                  else None
              | _ => None
              end
            else if (0xDC00 <=? codepoint1) && (codepoint1 <=? 0xDFFF) then None
            else Some (codepoint_bytes codepoint1, rest)
        end
      else None
  end.

(** One turn of the loop of [scan_string], not at the closing quote. *)
Definition scan_char (input : text) : option (text * text) :=
  match input with
  | [] => None
  | c :: rest =>
      if c =? 92 then scan_escape rest
      else
        match byte_ranges c with
        | Some ranges =>
            match next_byte_in_range ranges rest with
            | Some (bs, rest) => Some (c :: bs, rest)
            | None => None
            end
        | None => None
        end
  end.

(** [scan_string] after the opening quote; each turn reads a byte. *)
Fixpoint scan_string (fuel : nat) (input : text) : token * text :=
  match fuel with
  | O => (parse_error, input)
  | S f =>
      match input with
      | c :: rest =>
          if c =? 34 then (value_string [], rest)
          else
            match scan_char input with
            | Some (bs, rest) =>
                match scan_string f rest with
                | (value_string s, rest) => (value_string (bs ++ s), rest)
                | other => other
                end
            | None => (parse_error, rest)
            end
      | [] => (parse_error, [])
      end
  end.

(** * Numbers *)

Inductive NumberState :=
| number_minus | number_zero | number_any1 | number_decimal1 | number_decimal2
| number_exponent | number_sign | number_any2.

Inductive NumberType := is_unsigned | is_integer | is_float.

Definition is_digit (c : Z) : bool := (48 <=? c) && (c <=? 57).
Definition is_exp (c : Z) : bool := (c =? 101) || (c =? 69).

(** One character in a state: the next state, [None] if the number is done, or
    an error. *)
Definition number_next (st : NumberState) (c : Z) : option (option NumberState) :=
  match st with
  | number_minus =>
      if c =? 48 then Some (Some number_zero) else if is_digit c then Some (Some number_any1) else None
  | number_zero =>
      if c =? 46 then Some (Some number_decimal1)
      else if is_exp c then Some (Some number_exponent) else Some None
  | number_any1 =>
      if is_digit c then Some (Some number_any1)
      else if c =? 46 then Some (Some number_decimal1)
      else if is_exp c then Some (Some number_exponent) else Some None
  | number_decimal1 => if is_digit c then Some (Some number_decimal2) else None
  | number_decimal2 =>
      if is_digit c then Some (Some number_decimal2)
      else if is_exp c then Some (Some number_exponent) else Some None
  | number_exponent =>
      if (c =? 43) || (c =? 45) then Some (Some number_sign)
      else if is_digit c then Some (Some number_any2) else None
  | number_sign => if is_digit c then Some (Some number_any2) else None
  | number_any2 => if is_digit c then Some (Some number_any2) else Some None
  end.

(** The type of the number on entering a state. *)
Definition number_type (st : NumberState) (ty : NumberType) : NumberType :=
  match st with
  | number_minus => is_integer
  | number_decimal1 | number_exponent => is_float
  | _ => ty
  end.

Definition eof : Z := -1.

(** The characters of the number, its type and the rest, the character after it
    put back. *)
Fixpoint scan_number_from (st : NumberState) (ty : NumberType) (input : text) : option (text * NumberType * text) :=
  let ty := number_type st ty in
  match input with
  | c :: rest =>
      match number_next st c with
      | None => None
      | Some None => Some ([], ty, input)
      | Some (Some st') =>
          match scan_number_from st' ty rest with
          | Some (buffer, ty', rest) => Some (c :: buffer, ty', rest)
          | None => None
          end
      end
  | [] => match number_next st eof with Some None => Some ([], ty, []) | _ => None end
  end.

(** [strtoull] and [strtoll] of a checked number, [None] for ERANGE. *)
Definition strtoull (s : text) : option Z := let x := value_of s in if x <? 2 ^ 64 then Some x else None.
Definition strtoll (s : text) : option Z :=
  let x := - value_of (drop 1 s) in if - 2 ^ 63 <=? x then Some x else None.

(** [scan_number] from its first character, which is a digit or a minus sign. *)
Definition scan_number (c : Z) (input : text) : token * text :=
  let st := if c =? 45 then number_minus else if c =? 48 then number_zero else number_any1 in
  match scan_number_from st is_unsigned input with
  | None => (parse_error, input)
  | Some (buffer, ty, rest) =>
      let token_buffer := c :: buffer in
      let converted :=
        match ty with
        | is_unsigned => strtoull token_buffer
        | is_integer => strtoll token_buffer
        | is_float => None
        end in
      (match converted with Some z => value_number z | None => value_float (strtod token_buffer) end, rest)
  end.

(** * The scanner *)

Definition is_blank (c : Z) : bool := (c =? 32) || (c =? 9) || (c =? 10) || (c =? 13).

Definition skip_whitespace (input : text) : text := drop_while is_blank input.

(** [scan_literal] after the first character. *)
Definition scan_literal (rest_of_literal : text) (t : token) (input : text) : token * text :=
  if prefixb rest_of_literal input then (t, drop (length rest_of_literal) input) else (parse_error, input).

(** [scan], after the byte order mark.  A NUL ends the input like its end. *)
Definition scan (input : text) : token * text :=
  match skip_whitespace input with
  | [] => (end_of_input, [])
  | c :: rest =>
      if c =? 91 then (begin_array, rest)
      else if c =? 93 then (end_array, rest)
      else if c =? 123 then (begin_object, rest)
      else if c =? 125 then (end_object, rest)
      else if c =? 58 then (name_separator, rest)
      else if c =? 44 then (value_separator, rest)
      else if c =? 116 then scan_literal (lit "rue") literal_true rest
      else if c =? 102 then scan_literal (lit "alse") literal_false rest
      else if c =? 110 then scan_literal (lit "ull") literal_null rest
      else if c =? 34 then scan_string (length rest) rest
      else if (c =? 45) || is_digit c then scan_number c rest
      else if c =? 0 then (end_of_input, rest)
      else (parse_error, rest)
  end.

(** [skip_bom], before the first token. *)
Definition skip_bom (input : text) : option text :=
  match input with
  | 0xEF :: rest => match rest with 0xBB :: 0xBF :: rest => Some rest | _ => None end
  | _ => Some input
  end.

(** * The parser *)

(** An open container of [ref_stack]: its elements so far, and for an object
    the key whose element [object_element] points to. *)
Inductive Frame :=
| InArray (l : list json)
| InObject (l : list (text * json)) (key : text).

Inductive Parser :=
| AtValue (last_token : token) (input : text) (ref_stack : list Frame)
| AtState (value : json) (input : text) (ref_stack : list Frame)  (* a value is complete *)
| Parsed (value : json) (input : text)
| Failed.

(** [handle_value] on the innermost container. *)
Definition handle_value (v : json) (f : Frame) : Frame :=
  match f with
  | InArray l => InArray (l ++ [v])
  | InObject l key => InObject (assoc_set key v l) key
  end.

(** The key of an object, its separator and the first token of its value. *)
Definition parse_key (t : token) (input : text) (members : list (text * json)) (stack : list Frame) : Parser :=
  match t with
  | value_string key =>
      match scan input with
      | (name_separator, input) =>
          let '(t, input) := scan input in AtValue t input (InObject members key :: stack)
      | _ => Failed
      end
  | _ => Failed
  end.

(** One turn of the loop of [sax_parse_internal]: the switch over the last
    token, or the evaluation of the state after a value. *)
Definition parse_step (p : Parser) : Parser :=
  match p with
  | AtValue t input stack =>
      match t with
      | begin_object =>
          match scan input with
          | (end_object, input) => AtState (JObj []) input stack
          | (t, input) => parse_key t input [] stack
          end
      | begin_array =>
          match scan input with
          | (end_array, input) => AtState (JArr []) input stack
          | (t, input) => AtValue t input (InArray [] :: stack)
          end
      | value_float d => if is_finite d then AtState (JFloat d) input stack else Failed
      | literal_false => AtState (JBool false) input stack
      | literal_true => AtState (JBool true) input stack
      | literal_null => AtState JNull input stack
      | value_number z => AtState (JInt z) input stack
      | value_string s => AtState (JStr s) input stack
      | _ => Failed
      end
  | AtState v input [] => Parsed v input
  | AtState v input (f :: stack) =>
      match handle_value v f, scan input with
      | InArray l, (value_separator, input) => let '(t, input) := scan input in AtValue t input (InArray l :: stack)
      | InArray l, (end_array, input) => AtState (JArr l) input stack
      | InObject l _, (value_separator, input) => let '(t, input) := scan input in parse_key t input l stack
      | InObject l _, (end_object, input) => AtState (JObj l) input stack
      | _, _ => Failed
      end
  | Parsed _ _ | Failed => p
  end.

Fixpoint parse_loop (fuel : nat) (p : Parser) : option Parser :=
  match p with
  | Parsed _ _ | Failed => Some p
  | _ => match fuel with O => None | S f => parse_loop f (parse_step p) end
  end.

(** Each turn reads a byte or completes a value. *)
Definition parse_fuel (input : text) : nat := 2 * length input + 2.

(** [parser::parse]; in the strict mode nothing may follow the value. *)
Definition parse (strict : bool) (input : text) : option json :=
  match skip_bom input with
  | None => None
  | Some input =>
      let '(t, rest) := scan input in
      match parse_loop (parse_fuel input) (AtValue t rest []) with
      | Some (Parsed v rest) =>
          if strict then match scan rest with (end_of_input, _) => Some v | _ => None end
          else Some v
      | _ => None
      end
  end.

(** * Progress *)

Lemma get_codepoint_length i z r : get_codepoint i = Some (z, r) → (length r < length i)%nat.
Proof.
  unfold get_codepoint. destruct i as [|c1 [|c2 [|c3 [|c4 i]]]]; try done.
  destruct (hex_value c1), (hex_value c2), (hex_value c3), (hex_value c4); try done. intros [= _ <-]. cbn. lia.
Qed.

Lemma next_byte_in_range_length rs i bs r : next_byte_in_range rs i = Some (bs, r) → i = bs ++ r.
Proof.
  revert i bs. induction rs as [|[lo hi] rs IH]; intros i bs; cbn; [by intros [= <- <-]|].
  destruct i as [|b i]; [done|]. destruct (_ && _); [|done].
  destruct (next_byte_in_range rs i) as [[bs' r']|] eqn:E; [|done]. intros [= <- <-]. by rewrite (IH _ _ E).
Qed.

Lemma scan_escape_length i bs r : scan_escape i = Some (bs, r) → (length r < length i)%nat.
Proof.
  unfold scan_escape. destruct i as [|c i]; [done|].
  repeat match goal with |- context [if c =? ?k then _ else _] => destruct (c =? k); [intros [= _ <-]; cbn; lia|] end.
  destruct (c =? 117); [|done]. destruct (get_codepoint i) as [[z r1]|] eqn:E; [|done].
  apply get_codepoint_length in E. destruct (_ && _).
  - destruct r1 as [|b [|u r1]]; try done. destruct (_ && _); [|done].
    destruct (get_codepoint r1) as [[z2 r2]|] eqn:E2; [|done]. apply get_codepoint_length in E2.
    destruct (_ && _); [|done]. intros [= _ <-]. cbn in *. lia.
  - destruct (_ && _); [done|]. intros [= _ <-]. cbn. lia.
Qed.

Lemma scan_char_length i bs r : scan_char i = Some (bs, r) → (length r < length i)%nat.
Proof.
  unfold scan_char. destruct i as [|c i]; [done|]. destruct (c =? 92).
  - intros H%scan_escape_length. cbn. lia.
  - destruct (byte_ranges c) as [rs|]; [|done]. destruct (next_byte_in_range rs i) as [[bs' r']|] eqn:E; [|done].
    intros [= _ <-]. apply next_byte_in_range_length in E as ->. cbn. rewrite length_app. lia.
Qed.

Lemma scan_string_token f i t r :
  scan_string f i = (t, r) → t = parse_error ∨ ∃ s, t = value_string s ∧ (length r < length i)%nat.
Proof.
  revert i t r. induction f as [|f IH]; intros i t r; cbn [scan_string]; [intros [= <- _]; by left|].
  destruct i as [|c i]; [intros [= <- _]; by left|]. destruct (c =? 34).
  { intros [= <- <-]. right. eexists. split; [done|]. cbn. lia. }
  destruct (scan_char (c :: i)) as [[bs r1]|] eqn:E; [|intros [= <- _]; by left].
  apply scan_char_length in E. destruct (scan_string f r1) as [t1 r2] eqn:E1.
  destruct (IH _ _ _ E1) as [->|(s & -> & Hl)]; [intros [= <- _]; by left|].
  intros [= <- <-]. right. eexists. split; [done|]. lia.
Qed.

Lemma scan_number_from_split st ty i buffer ty' r :
  scan_number_from st ty i = Some (buffer, ty', r) → i = buffer ++ r.
Proof.
  revert st ty buffer. induction i as [|c i IH]; intros st ty buffer; cbn [scan_number_from].
  - destruct (number_next st eof) as [[?|]|]; try done. by intros [= <- _ <-].
  - destruct (number_next st c) as [[st'|]|]; [|by intros [= <- _ <-]|done].
    destruct (scan_number_from st' _ i) as [[[b t] r']|] eqn:E; [|done]. intros [= <- <- <-].
    by rewrite (IH _ _ _ E).
Qed.

Definition stops_parser (t : token) : Prop := t = end_of_input ∨ t = parse_error.

Lemma skip_whitespace_length i : (length (skip_whitespace i) <= length i)%nat.
Proof. unfold skip_whitespace. induction i as [|c i IH]; cbn; [done|]. destruct (is_blank c); cbn; lia. Qed.

(** Every token but the last one and an error takes a byte from the input. *)
Lemma scan_progress i t r : scan i = (t, r) → stops_parser t ∨ (length r < length i)%nat.
Proof.
  intros H. unfold scan in H. pose proof (skip_whitespace_length i) as Hw.
  destruct (skip_whitespace i) as [|c rest]; [injection H as <- <-; left; by left|]. cbn [length] in Hw.
  repeat match goal with
  | H : (if c =? ?k then (?t, rest) else _) = _ |- _ =>
      destruct (c =? k); [injection H as <- <-; first [by (right; lia)|left; by left]|]
  | H : (if c =? ?k then scan_literal _ _ _ else _) = _ |- _ =>
      destruct (c =? k);
        [unfold scan_literal in H; destruct (prefixb _ rest); injection H as <- <-;
         [right; rewrite length_drop; lia|left; by right]|]
  end.
  destruct (c =? 34).
  { destruct (scan_string_token _ _ _ _ H) as [->|(s & -> & Hl)]; [left; by right|right; lia]. }
  destruct (_ || _).
  { unfold scan_number in H. destruct (scan_number_from _ _ rest) as [[[b ty] r']|] eqn:E;
      injection H as <- <-; [|left; by right].
    apply scan_number_from_split in E as ->. right. rewrite length_app in Hw. lia. }
  destruct (c =? 0); injection H as <- <-; left; [by left|by right].
Qed.

Definition turns (p : Parser) : nat :=
  match p with
  | AtValue end_of_input _ _ | AtValue parse_error _ _ => 1
  | AtValue _ i _ => 2 * length i + 2
  | AtState _ i _ => 2 * length i + 1
  | Parsed _ _ | Failed => 0
  end.

Lemma turns_value t i st : (turns (AtValue t i st) <= 2 * length i + 2)%nat.
Proof. destruct t; cbn; lia. Qed.

Lemma turns_scanned i t r st : scan i = (t, r) → (turns (AtValue t r st) <= 2 * length i)%nat ∨ stops_parser t.
Proof.
  intros H. destruct (scan_progress i t r H) as [|Hl]; [by right|]. left.
  pose proof (turns_value t r st). lia.
Qed.

Lemma turns_key t i l st : (turns (parse_key t i l st) <= 2 * length i)%nat.
Proof.
  unfold parse_key. destruct t; cbn [turns]; try lia. destruct (scan i) as [t1 i1] eqn:E1.
  destruct (scan_progress _ _ _ E1) as [Hs|Hl]; [destruct Hs as [->| ->]; cbn; lia|].
  destruct t1; cbn [turns]; try lia. destruct (scan i1) as [t2 i2] eqn:E2.
  destruct (turns_scanned _ _ _ (InObject l s :: st) E2) as [H|[->| ->]]; [lia|cbn [turns]; lia..].
Qed.

Lemma parse_step_turns p : turns p ≠ 0%nat → (turns (parse_step p) < turns p)%nat.
Proof.
  destruct p as [t i st|v i st| |]; try done; intros _.
  - destruct t as [| | | | | | | | |s|z|d| |]; cbn [parse_step turns]; try lia.
    3: { destruct (is_finite d); cbn; lia. }
    + destruct (scan i) as [t1 i1] eqn:E. destruct (scan_progress _ _ _ E) as [Hs|Hl].
      * destruct Hs as [->| ->]; cbn; lia.
      * pose proof (turns_value t1 i1 (InArray [] :: st)). destruct t1; cbn [turns] in *; lia.
    + destruct (scan i) as [t1 i1] eqn:E. destruct (scan_progress _ _ _ E) as [Hs|Hl].
      * destruct Hs as [->| ->]; cbn; lia.
      * pose proof (turns_key t1 i1 [] st). destruct t1; cbn [turns] in *; lia.
  - destruct st as [|f st]; cbn [parse_step turns]; [lia|].
    destruct (scan i) as [t1 i1] eqn:E. destruct (scan_progress _ _ _ E) as [Hs|Hl].
    { destruct Hs as [->| ->]; destruct (handle_value v f); cbn; lia. }
    destruct (handle_value v f) as [l|l key], t1; cbn [turns]; try lia.
    + destruct (scan i1) as [t2 i2] eqn:E2. pose proof (turns_scanned _ _ _ (InArray l :: st) E2) as [H|[->| ->]];
        [lia|cbn [turns]; lia..].
    + destruct (scan i1) as [t2 i2] eqn:E2. pose proof (turns_key t2 i2 l st).
      destruct (scan_progress _ _ _ E2) as [[->| ->]|Hl2]; cbn; lia.
Qed.

Lemma parse_loop_ends f p : (turns p <= f)%nat → is_Some (parse_loop f p).
Proof.
  revert p. induction f as [|f IH]; intros p Hf.
  - destruct p as [t i st|v i st| |]; try (by eexists); exfalso; [destruct t; cbn in Hf; lia|cbn in Hf; lia].
  - destruct p as [t i st|v i st| |]; try (by eexists); cbn [parse_loop].
    + apply IH. assert (turns (AtValue t i st) ≠ 0%nat) by (destruct t; cbn; lia).
      pose proof (parse_step_turns (AtValue t i st)). lia.
    + apply IH. pose proof (parse_step_turns (AtState v i st)). cbn [turns] in *. lia.
Qed.

(** The turns of the loop, as a relation. *)
Definition parse_steps : Parser → Parser → Prop := rtc (λ p p', p' = parse_step p).

Lemma parse_loop_steps f p q : parse_loop f p = Some q → parse_steps p q.
Proof.
  revert p. induction f as [|f IH]; intros p; cbn [parse_loop].
  - destruct p; try done; intros [= <-]; apply rtc_refl.
  - destruct p as [t i st|v i st| |]; try (intros [= <-]; apply rtc_refl);
      intros H%IH; by eapply rtc_l.
Qed.

Definition ended (p : Parser) : Prop := match p with Parsed _ _ | Failed => True | _ => False end.

Lemma parse_loop_ended f p q : parse_loop f p = Some q → ended q.
Proof.
  revert p. induction f as [|f IH]; intros p; cbn [parse_loop]; destruct p; try done; try (by intros [= <-]); apply IH.
Qed.

Lemma ended_steps p q : ended p → parse_steps p q → q = p.
Proof.
  intros Hp H. revert Hp. induction H as [p|p p' q -> _ IH]; [done|].
  intros Hp. destruct p; try done; by apply IH.
Qed.

Lemma steps_det p q q' : parse_steps p q → parse_steps p q' → ended q → ended q' → q = q'.
Proof.
  intros H1 H2 E1 E2. revert q' H2 E2. induction H1 as [p|p p' q -> H1 IH]; intros q' H2 E2.
  - symmetry. by apply ended_steps.
  - destruct H2 as [p|p p'' q' -> H2]; [|by apply IH].
    apply ended_steps in H1; [|by destruct p]. subst q. by destruct p.
Qed.

(** Enough fuel gives what the turns lead to. *)
Lemma parse_loop_result f p q : (turns p <= f)%nat → parse_steps p q → ended q → parse_loop f p = Some q.
Proof.
  intros Hf Hs He. destruct (parse_loop_ends f p Hf) as [q' Hq]. rewrite Hq. f_equal.
  eapply steps_det; [by eapply parse_loop_steps|done|by eapply parse_loop_ended|done].
Qed.

(** C15: parsing ends.  On every input the loop of the parser comes to a result
    or an error within two turns for each byte and two more: no text keeps the
    service in the parser. *)
Theorem parser_terminates input t rest :
  scan input = (t, rest) →
  ∃ p, parse_loop (parse_fuel input) (AtValue t rest []) = Some p ∧ ended p.
Proof.
  intros H. destruct (parse_loop_ends (parse_fuel input) (AtValue t rest [])) as [p Hp].
  - unfold parse_fuel. destruct (turns_scanned _ _ _ [] H) as [?|[->| ->]]; [lia|cbn; lia..].
  - exists p. split; [done|]. by eapply parse_loop_ended.
Qed.

Lemma parser_terminates_witness :
  ∃ p, parse_loop (parse_fuel (lit "[[[")) (AtValue begin_array (lit "[[") []) = Some p ∧ ended p.
Proof. apply (parser_terminates (lit "[[[") begin_array). vm_compute. reflexivity. Defined.
