(* ===== verification/JsonText.v ===== *)
(** The text of a JSON value, printed and read back: what the lexer makes of the
    characters the serializer writes, what the parser makes of a text, and that
    the two are inverse to each other. *)

From stdpp Require Import relations.
From S2P Require Import Prelude.
From S2P Require Import Text.
From S2P Require Import Utf8.
From S2P Require Import Entities.
From S2P Require Import Strtod.
From S2P Require Import Dtoa.
From S2P Require Import FloatText.
From S2P Require Import Json.
From S2P Require Import JsonDump.
From S2P Require Import JsonParse.
From Stdlib Require Import SpecFloat.

(** * Characters *)

(** Decide the comparisons of the goal that [lia] can decide. *)
Ltac decide_ltb :=
  repeat match goal with
  | |- context [?a <? ?b] => first [rewrite (proj2 (Z.ltb_lt a b)) by zdivmod_lia | rewrite (proj2 (Z.ltb_ge a b)) by zdivmod_lia]
  | |- context [?a <=? ?b] => first [rewrite (proj2 (Z.leb_le a b)) by zdivmod_lia | rewrite (proj2 (Z.leb_gt a b)) by zdivmod_lia]
  | |- context [?a =? ?b] => first [rewrite (proj2 (Z.eqb_eq a b)) by zdivmod_lia | rewrite (proj2 (Z.eqb_neq a b)) by zdivmod_lia]
  end; cbn [andb orb].

(** A step of [next_byte_in_range] that succeeded. *)
Lemma next_byte_inv lo hi rs i bs r :
  next_byte_in_range ((lo, hi) :: rs) i = Some (bs, r) →
  ∃ b bs' i', i = b :: i' ∧ bs = b :: bs' ∧ lo <= b <= hi ∧ next_byte_in_range rs i' = Some (bs', r).
Proof.
  destruct i as [|b i]; [done|]. cbn. destruct (Z.leb_spec lo b), (Z.leb_spec b hi); try done. cbn [andb].
  destruct (next_byte_in_range rs i) as [[bs' r']|] eqn:E; [|done]. intros [= <- <-]. eauto 10.
Qed.

Lemma next_byte_nil i bs r : next_byte_in_range [] i = Some (bs, r) → bs = [] ∧ i = r.
Proof. by intros [= <- <-]. Qed.

Ltac inv_ranges H :=
  repeat match type of H with
  | next_byte_in_range (_ :: _) _ = _ =>
      apply next_byte_inv in H;
      let b := fresh "b" in let bs := fresh "bs" in let i := fresh "i" in let Hb := fresh "Hb" in
      destruct H as (b & bs & i & -> & -> & Hb & H)
  end; apply next_byte_nil in H as [-> ->].

Ltac sequence cp := exists cp; split_and!; [unfold scalar; lia|lia|encoded cp].

(** The lexer accepts a sequence only if it is one scalar value. *)
Lemma ranges_sound c rs i bs r :
  byte_ranges c = Some rs → next_byte_in_range rs i = Some (bs, r) →
  ∃ cp, scalar cp ∧ 0x20 <= cp ∧ c :: bs = codepoint_bytes cp.
Proof.
  unfold byte_ranges. intros Hr Hn.
  repeat match type of Hr with
  | (if ?b then _ else _) = _ => destruct b eqn:?
  end; try done; injection Hr as <-; inv_ranges Hn; bool_to_prop.
  - sequence c.
  - sequence ((c - 0xC0) * 64 + (b - 0x80)).
  - subst c. sequence ((b - 0x80) * 64 + (b0 - 0x80)).
  - assert (0xE1 <= c <= 0xEC ∨ c = 0xEE ∨ c = 0xEF) by lia.
    sequence (((c - 0xE0) * 64 + (b - 0x80)) * 64 + (b0 - 0x80)).
  - subst c. sequence ((13 * 64 + (b - 0x80)) * 64 + (b0 - 0x80)).
  - subst c. sequence (((b - 0x80) * 64 + (b0 - 0x80)) * 64 + (b1 - 0x80)).
  - sequence ((((c - 0xF0) * 64 + (b - 0x80)) * 64 + (b0 - 0x80)) * 64 + (b1 - 0x80)).
  - subst c. sequence (((4 * 64 + (b - 0x80)) * 64 + (b0 - 0x80)) * 64 + (b1 - 0x80)).
Qed.

Lemma next_byte_cons lo hi rs b i :
  lo <= b <= hi → next_byte_in_range ((lo, hi) :: rs) (b :: i) =
  match next_byte_in_range rs i with Some (bs, r) => Some (b :: bs, r) | None => None end.
Proof. intros Hb. cbn. by rewrite (proj2 (Z.leb_le lo b)), (proj2 (Z.leb_le b hi)) by lia. Qed.

(** It accepts every scalar value but the control characters. *)
Lemma ranges_complete cp r :
  scalar cp → 0x20 <= cp →
  ∃ c bs rs, codepoint_bytes cp = c :: bs ∧ byte_ranges c = Some rs ∧ next_byte_in_range rs (bs ++ r) = Some (bs, r).
Proof.
  intros Hs Hc. rewrite codepoint_bytes_eq by (unfold scalar in Hs; lia). unfold scalar in Hs.
  destruct (Z.ltb_spec cp 0x80).
  { eexists _, _, _. split_and!; [done| |]; [unfold byte_ranges; by decide_ltb|done]. }
  destruct (Z.leb_spec cp 0x7FF).
  { eexists _, _, _. split_and!; [done| |]; [unfold byte_ranges; by decide_ltb|].
    cbn [app]. by rewrite next_byte_cons by zdivmod_lia. }
  destruct (Z.leb_spec cp 0xFFFF).
  { set (rs := if cp / 4096 =? 0 then [(0xA0, 0xBF); (0x80, 0xBF)]
               else if cp / 4096 =? 13 then [(0x80, 0x9F); (0x80, 0xBF)] else [(0x80, 0xBF); (0x80, 0xBF)]).
    eexists _, _, rs. subst rs. split_and!; [done| |].
    - destruct (Z.eqb_spec (cp / 4096) 0) as [->|]; [done|]. destruct (Z.eqb_spec (cp / 4096) 13) as [->|]; [done|].
      assert (Hx : cp / 4096 ∈ [1; 2; 3; 4; 5; 6; 7; 8; 9; 10; 11; 12; 14; 15]) by (rewrite !elem_of_cons; zdivmod_lia).
      revert Hx. generalize (cp / 4096). by apply Forall_forall; repeat constructor.
    - cbn [app]. destruct (Z.eqb_spec (cp / 4096) 0); [|destruct (Z.eqb_spec (cp / 4096) 13)];
        by rewrite !next_byte_cons by zdivmod_lia. }
  set (rs := if cp / 262144 =? 0 then [(0x90, 0xBF); (0x80, 0xBF); (0x80, 0xBF)]
             else if cp / 262144 =? 4 then [(0x80, 0x8F); (0x80, 0xBF); (0x80, 0xBF)]
             else [(0x80, 0xBF); (0x80, 0xBF); (0x80, 0xBF)]).
  eexists _, _, rs. subst rs. split_and!; [done| |].
  - destruct (Z.eqb_spec (cp / 262144) 0) as [->|]; [done|]. destruct (Z.eqb_spec (cp / 262144) 4) as [->|]; [done|].
    unfold byte_ranges. decide_ltb. done.
  - cbn [app]. destruct (Z.eqb_spec (cp / 262144) 0); [|destruct (Z.eqb_spec (cp / 262144) 4)];
      by rewrite !next_byte_cons by zdivmod_lia.
Qed.

Lemma hex_lower_value d : 0 <= d < 16 → hex_value (hex_lower d) = Some d.
Proof.
  intros Hd. unfold hex_lower, hex_value. destruct (Z.ltb_spec d 10); decide_ltb; f_equal; lia.
Qed.

Lemma get_codepoint_hex4 x r : 0 <= x < 65536 → get_codepoint (hex4 x ++ r) = Some (x, r).
Proof.
  intros Hx. unfold hex4, get_codepoint. cbn [app].
  rewrite !hex_lower_value by zdivmod_lia. rewrite !Z.shiftl_mul_pow2 by lia. do 2 f_equal.
  change (2 ^ 12) with 4096. change (2 ^ 8) with 256. change (2 ^ 4) with 16. change (2 ^ 0) with 1. zdivmod_lia.
Qed.

(** Escapes are read back. *)
Lemma scan_u16_escape x r :
  0 <= x < 0xD800 ∨ 0xE000 <= x < 0x10000 →
  scan_char (u16_escape x ++ r) = Some (codepoint_bytes x, r).
Proof.
  intros Hx. unfold u16_escape, scan_char. rewrite <- app_assoc. cbn [app Z.eqb Pos.eqb scan_escape].
  rewrite get_codepoint_hex4 by lia.
  destruct Hx; decide_ltb; done.
Qed.

Lemma scan_surrogates c r :
  0x10000 <= c <= 0x10FFFF →
  scan_char ((u16_escape (wrap 16 (0xD7C0 + Z.shiftr c 10)) ++ u16_escape (wrap 16 (0xDC00 + Z.land c 0x3FF))) ++ r) =
  Some (codepoint_bytes c, r).
Proof.
  intros Hc. rewrite (land_ones_mod c 10 0x3FF), Z.shiftr_div_pow2 by done. change (2 ^ 10) with 1024.
  rewrite !wrap_small by zdivmod_lia. unfold u16_escape, scan_char. rewrite <- !app_assoc. cbn [app Z.eqb Pos.eqb scan_escape].
  rewrite get_codepoint_hex4 by zdivmod_lia. decide_ltb. cbn [Z.eqb Pos.eqb andb].
  rewrite get_codepoint_hex4 by zdivmod_lia. decide_ltb. do 2 f_equal.
  rewrite Z.shiftl_mul_pow2 by lia. change (2 ^ 10) with 1024. rewrite wrap_small by zdivmod_lia. f_equal. zdivmod_lia.
Qed.

Lemma scan_char_plain c r : scalar c → 0x20 <= c → c ≠ 92 → scan_char (codepoint_bytes c ++ r) = Some (codepoint_bytes c, r).
Proof.
  intros Hs Hc Hn. destruct (ranges_complete c r Hs Hc) as (b & bs & rs & E & Hb & Hr).
  rewrite E. unfold scan_char. cbn [app]. rewrite Hb, Hr.
  destruct (Z.eqb_spec b 92) as [->|]; [|done]. exfalso. unfold scalar in Hs. rewrite codepoint_bytes_eq in E by lia.
  revert E. destruct (Z.ltb_spec c 0x80); [by intros [= -> _]|].
  destruct (Z.leb_spec c 0x7FF); [intros [= E _]; zdivmod_lia|].
  destruct (Z.leb_spec c 0xFFFF); intros [= E _]; zdivmod_lia.
Qed.

Lemma codepoint_bytes_ascii c : c < 0x80 → codepoint_bytes c = [c].
Proof. intros H. unfold codepoint_bytes. by rewrite (proj2 (Z.ltb_lt c 0x80)). Qed.

(** The lexer reads a character as the serializer writes it. *)
Lemma scan_char_escape a c r : scalar c → scan_char (escape a c ++ r) = Some (codepoint_bytes c, r).
Proof.
  intros Hs. unfold escape, escaped.
  destruct ((c <? 0x80) || a) eqn:Ha; cycle 1.
  { apply orb_false_elim in Ha as [Ha _]. bool_to_prop. apply scan_char_plain; [done|lia|lia]. }
  repeat match goal with
  | |- context [if c =? ?k then _ else _] => destruct (Z.eqb_spec c k) as [->|]; [done|]
  end.
  destruct ((c <=? 0x1F) || (a && (0x7F <=? c))) eqn:He; cbn [fst].
  - destruct (Z.leb_spec c 0xFFFF); cbn [fst].
    + unfold scalar in Hs. rewrite wrap_small by (unfold in_u; lia). apply scan_u16_escape. lia.
    + apply scan_surrogates. unfold scalar in Hs. lia.
  - assert (0x20 <= c < 0x80) by (apply orb_false_elim in He as [H1 H2]; destruct a; cbn [andb orb] in *;
      rewrite ?orb_false_r, ?orb_true_r in *; bool_to_prop; lia).
    rewrite <- (codepoint_bytes_ascii c) by lia. apply scan_char_plain; [done|lia|lia].
Qed.

Lemma escape_first a c : scalar c → ∃ b bs, escape a c = b :: bs ∧ b ≠ 34.
Proof.
  intros Hs. unfold escape, escaped, u16_escape.
  destruct ((c <? 0x80) || a) eqn:Ha; cycle 1.
  { apply orb_false_elim in Ha as [Ha _]. bool_to_prop. unfold scalar in Hs. rewrite codepoint_bytes_eq by lia.
    rewrite (proj2 (Z.ltb_ge c 0x80)) by lia.
    destruct (Z.leb_spec c 0x7FF); [|destruct (Z.leb_spec c 0xFFFF)]; (eexists _, _; split; [reflexivity|zdivmod_lia]). }
  repeat match goal with
  | |- context [if c =? ?k then _ else _] => destruct (Z.eqb_spec c k) as [->|]; [by eexists _, _|]
  end.
  destruct ((c <=? 0x1F) || (a && (0x7F <=? c))); [destruct (c <=? 0xFFFF)|]; cbn; (eexists _, _; split; [reflexivity|done]).
Qed.

Lemma scan_string_escaped a cps f r :
  Forall scalar cps → (length cps < f)%nat →
  scan_string f (escape_all a cps ++ 34 :: r) = (value_string (utf8_of cps), r).
Proof.
  intros H. revert f. unfold escape_all, utf8_of. induction H as [|c cps Hc _ IH]; intros f Hf; (destruct f as [|f]; [cbn in Hf; lia|]).
  - done.
  - cbn [mbind list_bind]. rewrite <- app_assoc. pose proof (scan_char_escape a c (mbind (escape a) cps ++ 34 :: r) Hc) as Hs.
    destruct (escape_first a c Hc) as (b & bs & E & Hb). rewrite E in Hs |- *. cbn [app] in Hs |- *.
    cbn [scan_string]. rewrite (proj2 (Z.eqb_neq b 34)) by done. rewrite Hs, IH by (cbn in Hf; lia). done.
Qed.

Lemma escape_all_length a cps : Forall scalar cps → (length cps <= length (escape_all a cps))%nat.
Proof.
  unfold escape_all. induction 1 as [|c cps Hc _ IH]; [done|]. cbn [mbind list_bind]. rewrite length_app.
  destruct (escape_first a c Hc) as (b & bs & -> & _). cbn. lia.
Qed.

(** What the lexer accepts as a string is UTF-8. *)
Lemma get_codepoint_range i x r : get_codepoint i = Some (x, r) → 0 <= x < 65536.
Proof.
  assert (Hh : ∀ c h, hex_value c = Some h → 0 <= h < 16).
  { intros c h. unfold hex_value. repeat case_match_goal; bool_to_prop; intros [= <-]; lia. }
  unfold get_codepoint. destruct i as [|c1 [|c2 [|c3 [|c4 i]]]]; try done.
  destruct (hex_value c1) eqn:E1, (hex_value c2) eqn:E2, (hex_value c3) eqn:E3, (hex_value c4) eqn:E4; try done.
  apply Hh in E1, E2, E3, E4. intros [= <- _]. rewrite !Z.shiftl_mul_pow2 by lia. lia.
Qed.

Lemma scan_escape_scalar i bs r : scan_escape i = Some (bs, r) → ∃ c, scalar c ∧ bs = codepoint_bytes c.
Proof.
  assert (Ha : ∀ k, 0 <= k < 0x80 → ∃ c, scalar c ∧ [k] = codepoint_bytes c).
  { intros k Hk. exists k. split; [unfold scalar; lia|]. by rewrite codepoint_bytes_ascii by lia. }
  unfold scan_escape. destruct i as [|c i]; [done|].
  repeat match goal with
  | |- (if c =? ?k then Some _ else _) = _ → _ => destruct (c =? k); [intros [= <- _]; apply Ha; lia|]
  end.
  destruct (c =? 117); [|done]. destruct (get_codepoint i) as [[x r1]|] eqn:E; [|done].
  apply get_codepoint_range in E. destruct ((0xD800 <=? x) && (x <=? 0xDBFF)) eqn:Eh.
  - bool_to_prop. destruct r1 as [|b [|u r1]]; try done. destruct ((b =? 92) && (u =? 117)); [|done].
    destruct (get_codepoint r1) as [[x2 r2]|] eqn:E2; [|done]. apply get_codepoint_range in E2.
    destruct ((0xDC00 <=? x2) && (x2 <=? 0xDFFF)) eqn:El; [|done]. bool_to_prop. intros [= <- _]. eexists. split; [|done].
    rewrite Z.shiftl_mul_pow2 by lia. rewrite wrap_small by (unfold in_u; lia). unfold scalar. lia.
  - destruct ((0xDC00 <=? x) && (x <=? 0xDFFF)) eqn:El; [done|]. intros [= <- _]. exists x. split; [|done].
    apply andb_false_iff in Eh, El. unfold scalar. destruct Eh, El; bool_to_prop; lia.
Qed.

Lemma scan_char_scalar i bs r : scan_char i = Some (bs, r) → ∃ c, scalar c ∧ bs = codepoint_bytes c.
Proof.
  unfold scan_char. destruct i as [|c i]; [done|]. destruct (c =? 92); [apply scan_escape_scalar|].
  destruct (byte_ranges c) as [rs|] eqn:E; [|done]. destruct (next_byte_in_range rs i) as [[bs' r']|] eqn:En; [|done].
  intros [= <- <-]. destruct (ranges_sound _ _ _ _ _ E En) as (cp & Hs & _ & Hc). by exists cp.
Qed.

Lemma scan_string_utf8 f i s r : scan_string f i = (value_string s, r) → utf8 s.
Proof.
  revert i s. induction f as [|f IH]; intros i s; cbn [scan_string]; [done|]. destruct i as [|c i]; [done|].
  destruct (c =? 34); [intros [= <- _]; by exists []|]. destruct (scan_char (c :: i)) as [[bs r1]|] eqn:E; [|done].
  destruct (scan_string f r1) as [t r2] eqn:E2. destruct t; try done. intros [= <- <-].
  apply scan_char_scalar in E as (cp & Hc & ->). destruct (IH _ _ E2) as (cps & Hcs & ->).
  exists (cp :: cps). split; [by constructor|done].
Qed.

(** * Numbers *)

(** What may follow a number. *)
Definition delimited (r : text) : bool :=
  match r with [] => true | c :: _ => negb (is_digit c || (c =? 46) || is_exp c) end.

Abbreviation digit := (λ c, is_digit c = true).

Lemma scan_digits ty ds r :
  Forall digit ds → delimited r = true → scan_number_from number_any1 ty (ds ++ r) = Some (ds, ty, r).
Proof.
  intros Hd Hr. induction Hd as [|c ds Hc _ IH]; cbn [app].
  - destruct r as [|c r]; [done|]. cbn [delimited] in Hr. apply negb_true_iff in Hr.
    apply orb_false_elim in Hr as [[H1 H2]%orb_false_elim H3]. cbn. by rewrite H1, H2, H3.
  - cbn [scan_number_from number_next]. rewrite Hc. cbn [number_type] in IH |- *. by rewrite IH.
Qed.

Lemma digit_range c : is_digit c = true ↔ 48 <= c <= 57.
Proof. unfold is_digit. rewrite andb_true_iff, !Z.leb_le. lia. Qed.

Lemma digits_of_digits f x : 0 <= x → Forall digit (digits_of f x).
Proof.
  intros Hx. eapply Forall_impl; [by apply digits_of_range|]. intros c Hc. by apply digit_range.
Qed.

Lemma digits_of_first f x :
  0 < x < 10 ^ Z.of_nat f → ∃ d ds, digits_of f x = d :: ds ∧ 49 <= d <= 57 ∧ Forall digit ds.
Proof.
  revert x. induction f as [|f IH]; intros x Hx; [cbn in Hx; lia|]. cbn [digits_of].
  destruct (Z.ltb_spec x 10).
  - exists (48 + x), []. split; [done|]. split; [lia|constructor].
  - rewrite Nat2Z.inj_succ, Z.pow_succ_r in Hx by lia. destruct (IH (x / 10)) as (d & ds & -> & Hd & Hds); [zdivmod_lia|].
    exists d, (ds ++ [48 + x mod 10]). split; [done|]. split; [done|]. apply Forall_app. split; [done|].
    repeat constructor. apply digit_range. zdivmod_lia.
Qed.

(** A digit of a number that is not a float. *)
Lemma float_stays st i b ty r : st ≠ number_minus → scan_number_from st is_float i = Some (b, ty, r) → ty = is_float.
Proof.
  revert st b. induction i as [|c i IH]; intros st b Hst; cbn [scan_number_from];
    replace (number_type st is_float) with is_float by (by destruct st).
  - destruct (number_next st eof) as [[?|]|]; try done. by intros [= _ <- _].
  - destruct (number_next st c) as [[st'|]|] eqn:E; [|by intros [= _ <- _]|done].
    destruct (scan_number_from st' is_float i) as [[[b' t] r']|] eqn:E2; [|done]. intros [= _ <- <-].
    apply IH in E2; [done|]. intros ->. destruct st; cbn in E; repeat case_match; done.
Qed.

Lemma float_enters st ty i : number_type st ty = is_float → st ≠ number_minus →
  scan_number_from st ty i = scan_number_from st is_float i.
Proof. intros H Hst. destruct i; cbn [scan_number_from]; rewrite H; by destruct st. Qed.

Lemma not_float_digits st ty i b ty' r :
  scan_number_from st ty i = Some (b, ty', r) → ty' ≠ is_float → Forall digit b.
Proof.
  revert st ty b. induction i as [|c i IH]; intros st ty b; cbn [scan_number_from].
  - destruct (number_next st eof) as [[?|]|]; try done. intros [= <- _ _] _. constructor.
  - destruct (number_next st c) as [[st'|]|] eqn:E; [|intros [= <- _ _] _; constructor|done].
    destruct (scan_number_from st' _ i) as [[[b' t] r']|] eqn:E2; [|done]. intros [= <- <- <-] Hf.
    constructor; [|by eapply IH]. destruct (is_digit c) eqn:Ed; [done|exfalso]. apply Hf.
    destruct st; cbn in E; rewrite ?Ed in E;
      repeat match type of E with (if ?b then _ else _) = _ => destruct b eqn:? end; try done;
      injection E as <-; cbn [number_type] in E2;
      solve [bool_to_prop; subst c; by vm_compute in Ed
            |rewrite ?float_enters in E2 by done; by eapply float_stays in E2].
Qed.

Lemma value_of_digits_nonneg ds : Forall digit ds → 0 <= value_of ds.
Proof.
  intros H. induction ds as [|c ds IH] using rev_ind; [done|]. rewrite value_of_app.
  apply Forall_app in H as [H [Hc _]%Forall_cons]. apply digit_range in Hc. specialize (IH H). lia.
Qed.

Lemma signed_stays st ty i b ty' r :
  scan_number_from st ty i = Some (b, ty', r) → number_type st ty ≠ is_unsigned → ty' ≠ is_unsigned.
Proof.
  revert st ty b. induction i as [|c i IH]; intros st ty b; cbn [scan_number_from].
  - destruct (number_next st eof) as [[?|]|]; try done. by intros [= _ <- _].
  - destruct (number_next st c) as [[st'|]|]; [|by intros [= _ <- _]|done].
    destruct (scan_number_from st' _ i) as [[[b' t] r']|] eqn:E; [|done]. intros [= _ <- <-] Hn.
    eapply IH; [exact E|]. by destruct st'; cbn.
Qed.

(** An integer the lexer reads fits 64 bits. *)
Lemma scan_number_range c i z r :
  (c =? 45) || is_digit c = true → scan_number c i = (value_number z, r) → number_in_range z = true.
Proof.
  intros Hc. unfold scan_number. destruct (scan_number_from _ is_unsigned i) as [[[b ty] r']|] eqn:E; [|done].
  assert (Hb : ty ≠ is_float → Forall digit b) by (intros H; by eapply not_float_digits).
  unfold number_in_range. destruct ty; [| |done].
  - specialize (Hb ltac:(done)). destruct (Z.eqb_spec c 45) as [->|].
    { by destruct (signed_stays _ _ _ _ _ _ E). }
    pose proof (value_of_digits_nonneg (c :: b) ltac:(by constructor)) as Hv.
    unfold strtoull. destruct (Z.ltb_spec (value_of (c :: b)) (2 ^ 64)); [|done]. intros [= <- _].
    apply andb_true_iff. rewrite Z.leb_le, Z.ltb_lt. lia.
  - specialize (Hb ltac:(done)). apply value_of_digits_nonneg in Hb.
    unfold strtoll. change (drop 1 (c :: b)) with b. destruct (Z.leb_spec (- 2 ^ 63) (- value_of b)); [|done]. intros [= <- _].
    apply andb_true_iff. rewrite Z.leb_le, Z.ltb_lt. lia.
Qed.

(** A floating number it reads is a double. *)
Lemma scan_number_valid c i d r : scan_number c i = (value_float d, r) → valid_double d = true.
Proof.
  unfold scan_number. destruct (scan_number_from _ is_unsigned i) as [[[b ty] r']|]; [|done].
  match goal with |- (match ?o with _ => _ end, _) = _ → _ => destruct o end; [done|]. intros [= <- _]. exact (strtod_valid (c :: b)).
Qed.

(** The lexer reads an integer as the serializer writes it. *)
Lemma scan_number_to_string z r :
  number_in_range z = true → delimited r = true →
  ∃ c i, to_string z ++ r = c :: i ∧ (c =? 45) || is_digit c = true ∧ scan_number c i = (value_number z, r).
Proof.
  intros Hz Hr. unfold number_in_range in Hz. bool_to_prop. unfold to_string.
  assert (Hp : 2 ^ 64 < 10 ^ Z.of_nat 20) by done.
  destruct (Z.ltb_spec z 0).
  - pose proof (value_of_digits 20 (- z) ltac:(lia)) as Hv.
    destruct (digits_of_first 20 (- z) ltac:(lia)) as (d & ds & E & Hd & Hds). rewrite E in Hv |- *.
    eexists _, _. split; [done|]. split; [done|]. unfold scan_number. cbn [app Z.eqb Pos.eqb scan_number_from number_next number_type].
    rewrite (proj2 (Z.eqb_neq d 48)), (proj2 (digit_range d)) by lia. rewrite scan_digits by done.
    unfold strtoll. change (drop 1 (45 :: d :: ds)) with (d :: ds). rewrite Hv, Z.opp_involutive, (proj2 (Z.leb_le _ _)) by lia. done.
  - destruct (Z.eqb_spec z 0) as [->|].
    { exists 48, r. split; [done|]. split; [done|]. unfold scan_number. cbn [Z.eqb Pos.eqb].
      assert (E : scan_number_from number_zero is_unsigned r = Some ([], is_unsigned, r)).
      { destruct r as [|c r]; [done|]. cbn [delimited] in Hr. apply negb_true_iff in Hr.
        apply orb_false_elim in Hr as [[_ Hdot]%orb_false_elim Hexp]. cbn. by rewrite Hdot, Hexp. }
      by rewrite E. }
    pose proof (value_of_digits 20 z ltac:(lia)) as Hv.
    destruct (digits_of_first 20 z ltac:(lia)) as (d & ds & E & Hd & Hds). rewrite E in Hv |- *.
    eexists _, _. split; [done|]. rewrite (proj2 (digit_range d)), orb_true_r by lia. split; [done|]. unfold scan_number.
    rewrite (proj2 (Z.eqb_neq d 45)), (proj2 (Z.eqb_neq d 48)) by lia. rewrite scan_digits by done.
    unfold strtoull. rewrite Hv. by rewrite (proj2 (Z.ltb_lt _ _)) by lia.
Qed.

(** * Floating numbers *)

Definition prepend (s : text) (o : option (text * NumberType * text)) : option (text * NumberType * text) :=
  match o with Some (b, ty, r) => Some (s ++ b, ty, r) | None => None end.

(** The states that read runs of digits, and in which a number may end. *)
Definition runs (st : NumberState) : Prop := st = number_any1 ∨ st = number_decimal2 ∨ st = number_any2.

Lemma scan_run st ty ds r :
  runs st → Forall digit ds → scan_number_from st ty (ds ++ r) = prepend ds (scan_number_from st ty r).
Proof.
  intros Hst Hd. assert (Ht : number_type st ty = ty) by (by destruct Hst as [->|[->| ->]]).
  induction Hd as [|c ds Hc _ IH]; cbn [app]; [by destruct (scan_number_from st ty r) as [[[b t] r']|]|].
  cbn [scan_number_from]. assert (number_next st c = Some (Some st)) as ->.
  { destruct Hst as [->|[->| ->]]; cbn [number_next]; by rewrite Hc. }
  rewrite Ht, IH. by destruct (scan_number_from st ty r) as [[[b t] r']|].
Qed.

Lemma scan_end st ty r :
  runs st → delimited r = true → scan_number_from st ty r = Some ([], ty, r).
Proof.
  intros Hst Hr. destruct r as [|c r]; [by destruct Hst as [->|[->| ->]]|].
  cbn [delimited] in Hr. apply negb_true_iff in Hr. apply orb_false_elim in Hr as [[H1 H2]%orb_false_elim H3].
  destruct Hst as [->|[->| ->]]; cbn; by rewrite ?H1, ?H2, ?H3.
Qed.

Lemma digit_not c : is_digit c = true → (c =? 46) = false ∧ is_exp c = false ∧ (c =? 43) = false ∧ (c =? 45) = false.
Proof. intros H. apply digit_range in H. unfold is_exp. lia. Qed.

Lemma scan_exponent ty e r :
  -999 <= e <= 999 → delimited r = true →
  scan_number_from number_exponent ty (append_exponent e ++ r) = Some (append_exponent e, is_float, r).
Proof.
  intros He Hr. destruct (append_exponent_spec e He) as (_ & s & d & ds & -> & Hs & Hds & _).
  apply Forall_cons in Hds as [Hd Hds]. apply digit_range in Hd.
  assert (Hds' : Forall digit ds) by (eapply Forall_impl; [exact Hds|]; intros c Hc; by apply digit_range).
  cbn [app scan_number_from number_type number_next]. assert ((s =? 43) || (s =? 45) = true) as -> by (destruct Hs; lia).
  cbn [scan_number_from number_type number_next]. rewrite Hd. rewrite scan_run by (done || (right; by right)). rewrite scan_end by (done || (right; by right)).
  cbn [prepend]. by rewrite app_nil_r.
Qed.

(** Where a fraction or an exponent may start. *)
Lemma scan_tail st ty fp ex r :
  st = number_zero ∨ st = number_any1 ∨ st = number_decimal2 ∧ fp = [] → fp ≠ [] ∨ is_Some ex → Forall digit fp →
  -999 <= default 0 ex <= 999 → delimited r = true →
  scan_number_from st ty ((fraction_part fp ++ exponent_part ex) ++ r) = Some (fraction_part fp ++ exponent_part ex, is_float, r).
Proof.
  intros Hst Hne Hf He Hr.
  assert (Hx : ∀ st ty, st = number_zero ∨ st = number_any1 ∨ st = number_decimal2 → is_Some ex →
    scan_number_from st ty (exponent_part ex ++ r) = Some (exponent_part ex, is_float, r)).
  { intros st1 ty1 H1 [e ->]. cbn [exponent_part app scan_number_from default] in *.
    assert (number_next st1 101 = Some (Some number_exponent)) as -> by (by destruct H1 as [->|[->| ->]]).
    by rewrite (scan_exponent _ e r He Hr). }
  destruct fp as [|c fp]; cbn [fraction_part app].
  { destruct Hne as [|Hne]; [done|]. apply Hx; [tauto|done]. }
  apply Forall_cons in Hf as [Hc Hf]. rewrite <- app_assoc. cbn [scan_number_from].
  assert (number_next st 46 = Some (Some number_decimal1)) as -> by (by destruct Hst as [->|[->|[_ ?]]]).
  cbn [scan_number_from number_type number_next]. rewrite Hc, scan_run by (done || (right; by left)).
  destruct ex as [e|].
  - rewrite Hx by (eauto || by eexists). by cbn [prepend].
  - cbn [exponent_part app]. rewrite scan_end by (done || (right; by left)). cbn [prepend]. by rewrite !app_nil_r.
Qed.

Lemma ranged_digits s : Forall (λ c, 48 <= c <= 57) s → Forall digit s.
Proof. intros H. eapply Forall_impl; [exact H|]. intros c Hc. by apply digit_range. Qed.

(** The text after its first digit. *)
Lemma scan_form t v ip fp ex r :
  float_form t v ip fp ex → delimited r = true →
  ∃ c t', t = c :: t' ∧ 48 <= c <= 57 ∧
    ∀ ty, scan_number_from (if c =? 48 then number_zero else number_any1) ty (t' ++ r) = Some (t', is_float, r).
Proof.
  intros [-> Hi Hf Hh Hne He _ _] Hr. apply ranged_digits in Hf as Hf'. destruct Hh as [->|Hh].
  - eexists 48, _. split; [done|]. split; [lia|]. intros ty. apply scan_tail; auto.
  - destruct Hi as [|c ip Hc Hi]; [cbn in Hh; lia|]. cbn [hd] in Hh. eexists c, _. split; [done|]. split; [done|].
    intros ty. rewrite (proj2 (Z.eqb_neq c 48)) by lia. rewrite <- app_assoc, scan_run by (by left || by apply ranged_digits).
    by rewrite scan_tail by auto.
Qed.

(** The lexer reads a floating number as the serializer writes it. *)
Lemma scan_number_to_chars d r :
  valid_double d = true → is_finite d = true → delimited r = true →
  ∃ c i, to_chars d ++ r = c :: i ∧ (c =? 45) || is_digit c = true ∧ scan_number c i = (value_float d, r).
Proof.
  intros Hv Hf Hr. pose proof (strtod_to_chars d Hv Hf) as Hs.
  destruct (finite_form d Hv Hf) as (sign & t & v & ip & fp & ex & E & Hsign & Hform). rewrite E in Hs |- *.
  destruct (scan_form _ _ _ _ _ r Hform Hr) as (c & t' & -> & Hc & Hscan). apply digit_range in Hc as Hd.
  destruct Hsign as [->| ->]; cbn [app] in *.
  - exists c, (t' ++ r). split; [done|]. rewrite Hd, orb_true_r. split; [done|]. unfold scan_number.
    rewrite (proj2 (Z.eqb_neq c 45)), Hscan by lia. by rewrite Hs.
  - exists 45, (c :: t' ++ r). split; [done|]. split; [done|]. unfold scan_number.
    cbn [Z.eqb Pos.eqb scan_number_from number_next]. rewrite Hd.
    specialize (Hscan (number_type number_minus is_unsigned)). destruct (c =? 48); rewrite Hscan; by rewrite Hs.
Qed.

(** * Keys *)

Lemma text_ltb_irrefl s : text_ltb s s = false.
Proof. induction s as [|c s IH]; cbn; [done|]. by rewrite Z.ltb_irrefl, Z.eqb_refl, IH. Qed.

Lemma text_ltb_trans s t u : text_ltb s t = true → text_ltb t u = true → text_ltb s u = true.
Proof.
  revert t u. induction s as [|a s IH]; intros [|b t] [|c u]; cbn; try done.
  rewrite !orb_true_iff, !andb_true_iff, !Z.ltb_lt, !Z.eqb_eq.
  intros [Hab|[-> Hst]] [Hbc|[-> Htu]]; try (left; lia). right. split; [done|by eapply IH].
Qed.

Lemma text_ltb_total s t : text_eqb s t = false → text_ltb t s = false → text_ltb s t = true.
Proof.
  intros Hne. assert (Hn : s ≠ t) by (intros H; by apply text_eqb_spec in H; rewrite H in Hne). clear Hne.
  revert t Hn. induction s as [|a s IH]; intros [|b t] Hn; cbn; try done.
  destruct (Z.ltb_spec b a); [done|]. destruct (Z.ltb_spec a b); [done|]. assert (b = a) as -> by lia.
  rewrite Z.eqb_refl. cbn. apply IH. congruence.
Qed.

Lemma keys_ascend_cons k v l :
  keys_ascend ((k, v) :: l) = true ↔ Forall (λ p, text_ltb k (fst p) = true) l ∧ keys_ascend l = true.
Proof.
  revert k v. induction l as [|[k' v'] l IH]; intros k v; [by split|].
  change (keys_ascend ((k, v) :: (k', v') :: l)) with (text_ltb k k' && keys_ascend ((k', v') :: l)).
  rewrite andb_true_iff, Forall_cons. cbn [fst]. split.
  - intros [H1 H2]. split; [|done]. split; [done|]. apply IH in H2 as [H2 _].
    eapply Forall_impl; [exact H2|]. intros p Hp. by eapply text_ltb_trans.
  - tauto.
Qed.

Lemma assoc_set_Forall (P : text * json → Prop) key v l :
  Forall P l → P (key, v) → (∀ k w, text_eqb k key = true → P (k, w) → P (k, v)) → Forall P (assoc_set key v l).
Proof.
  intros Hl Hk He. induction Hl as [|[k w] l Hw Hl IH]; cbn [assoc_set]; [by repeat constructor|].
  destruct (text_eqb k key) eqn:E; [constructor; [by eapply He|done]|]. destruct (text_ltb key k); by repeat constructor.
Qed.

(** A new key keeps the order, and one behind all others goes to the end. *)
Lemma assoc_set_ascends key v l : keys_ascend l = true → keys_ascend (assoc_set key v l) = true.
Proof.
  induction l as [|[k w] l IH]; cbn [assoc_set]; [done|]. intros H. apply keys_ascend_cons in H as [H1 H2].
  destruct (text_eqb k key) eqn:E; [by apply keys_ascend_cons|]. destruct (text_ltb key k) eqn:El.
  - apply keys_ascend_cons. split; [|by apply keys_ascend_cons]. constructor; [done|].
    eapply Forall_impl; [exact H1|]. intros p Hp. by eapply text_ltb_trans.
  - apply keys_ascend_cons. split; [|by apply IH]. apply assoc_set_Forall; [done|by apply text_ltb_total|done].
Qed.

Lemma text_ltb_ne s t : text_ltb s t = true → text_eqb s t = false ∧ text_ltb t s = false.
Proof.
  intros H. split.
  - destruct (text_eqb s t) eqn:E; [|done]. apply text_eqb_spec in E as ->. by rewrite text_ltb_irrefl in H.
  - destruct (text_ltb t s) eqn:E; [|done]. pose proof (text_ltb_trans _ _ _ H E) as Hc. by rewrite text_ltb_irrefl in Hc.
Qed.

Lemma assoc_set_last key v l : Forall (λ p, text_ltb (fst p) key = true) l → assoc_set key v l = l ++ [(key, v)].
Proof.
  induction 1 as [|[k w] l Hk _ IH]; cbn [assoc_set app]; [done|]. cbn [fst] in Hk.
  apply text_ltb_ne in Hk as [-> ->]. by rewrite IH.
Qed.

Lemma keys_ascend_before l1 k v l2 :
  keys_ascend (l1 ++ (k, v) :: l2) = true → Forall (λ p, text_ltb (fst p) k = true) l1.
Proof.
  induction l1 as [|[k1 v1] l1 IH]; cbn [app]; [constructor|]. intros H. apply keys_ascend_cons in H as [H1 H2].
  constructor; [|by apply IH]. by apply Forall_app in H1 as [_ [H1 _]%Forall_cons].
Qed.

(** * The types of what is parsed *)

(** What the library's types promise of a value. *)
Definition well_typed (j : json) : Prop := representable j = true ∧ printable j = true ∧ canonical j = true.

Definition text_typed (s : text) : Prop := is_bytes s = true ∧ is_utf8 s = true.

Definition token_typed (t : token) : Prop :=
  match t with
  | value_string s => text_typed s
  | value_number z => number_in_range z = true
  | value_float d => valid_double d = true
  | _ => True
  end.

Definition members_typed (l : list (text * json)) : Prop :=
  Forall (λ p, text_typed (fst p) ∧ well_typed (snd p)) l ∧ keys_ascend l = true.

Definition frame_typed (f : Frame) : Prop :=
  match f with
  | InArray l => Forall well_typed l
  | InObject l key => members_typed l ∧ text_typed key
  end.

Definition parser_typed (p : Parser) : Prop :=
  match p with
  | AtValue t _ stack => token_typed t ∧ Forall frame_typed stack
  | AtState v _ stack => well_typed v ∧ Forall frame_typed stack
  | Parsed v _ => well_typed v
  | Failed => True
  end.

Lemma utf8_text_typed s : utf8 s → text_typed s.
Proof.
  intros H. pose proof (utf8_bytes s H) as Hb. split.
  - apply forallb_forall. intros b Hin%list_elem_of_In. rewrite Forall_forall in Hb. apply Hb in Hin.
    unfold in_u in Hin. apply andb_true_iff. rewrite Z.leb_le, Z.ltb_lt. lia.
  - apply utf8_decoded in H as [cps H]; [|done]. unfold is_utf8. by rewrite H.
Qed.

Lemma well_typed_arr l : Forall well_typed l → well_typed (JArr l).
Proof.
  intros H. unfold well_typed. cbn [representable printable canonical]. rewrite !forallb_forall.
  rewrite Forall_forall in H. split_and!; intros j Hj%list_elem_of_In; by destruct (H j Hj) as (?&?&?).
Qed.

Lemma well_typed_obj l : members_typed l → well_typed (JObj l).
Proof.
  intros [H Hk]. unfold well_typed. cbn [representable printable canonical]. rewrite Hk, andb_true_r, !forallb_forall.
  rewrite Forall_forall in H.
  split_and!; intros p Hp%list_elem_of_In; destruct (H p Hp) as [(?&?) (?&?&?)]; rewrite ?andb_true_iff; done.
Qed.

Lemma scan_literal_typed s t i t' r : token_typed t → scan_literal s t i = (t', r) → token_typed t'.
Proof. unfold scan_literal. destruct (prefixb s i); by intros ? [= <- _]. Qed.

Lemma scan_typed i t r : scan i = (t, r) → token_typed t.
Proof.
  unfold scan. destruct (skip_whitespace i) as [|c rest]; [by intros [= <- _]|].
  repeat match goal with
  | |- (if c =? ?k then (_, _) else _) = _ → _ => destruct (c =? k); [by intros [= <- _]|]
  | |- (if c =? ?k then scan_literal _ _ _ else _) = _ → _ => destruct (c =? k); [by apply scan_literal_typed|]
  end.
  destruct (c =? 34).
  { intros H. destruct (scan_string_token _ _ _ _ H) as [->|(s & -> & _)]; [done|].
    by eapply utf8_text_typed, scan_string_utf8. }
  destruct ((c =? 45) || is_digit c) eqn:Hc.
  { intros H. destruct t; try done.
    - unfold scan_number in H. repeat case_match; done.
    - by eapply scan_number_range.
    - eapply scan_number_valid, H. }
  destruct (c =? 0); by intros [= <- _].
Qed.

Lemma parse_key_typed t i l stack :
  token_typed t → members_typed l → Forall frame_typed stack → parser_typed (parse_key t i l stack).
Proof.
  intros Ht Hl Hs. unfold parse_key. destruct t; try done. destruct (scan i) as [t1 i1] eqn:E1.
  destruct t1; try done. destruct (scan i1) as [t2 i2] eqn:E2. apply scan_typed in E2.
  split; [done|]. by constructor.
Qed.

Lemma handle_value_typed v f : well_typed v → frame_typed f → frame_typed (handle_value v f).
Proof.
  intros Hv Hf. destruct f as [l|l key]; cbn [handle_value frame_typed] in *.
  - apply Forall_app. split; [done|by constructor].
  - destruct Hf as [[Hl Hk] Hkey]. split; [split|done].
    + apply assoc_set_Forall; [done|by split|]. intros k w _ [? _]. by split.
    + by apply assoc_set_ascends.
Qed.

Lemma parse_step_typed p : parser_typed p → parser_typed (parse_step p).
Proof.
  destruct p as [t i stack|v i stack| |]; cbn [parser_typed]; try done; intros [Ht Hs].
  - destruct t as [| | | | | | | | |s|z|d| |]; cbn [parse_step]; try done; try (by split_and!).
    3: { destruct Ht. split; [by split_and!|done]. }
    3: { destruct (is_finite d) eqn:Hf; [|done]. by split_and!. }
    + destruct (scan i) as [t1 i1] eqn:E1. pose proof (scan_typed _ _ _ E1).
      destruct t1; (split; [done|]); by repeat constructor.
    + destruct (scan i) as [t1 i1] eqn:E1. pose proof (scan_typed _ _ _ E1) as H1.
      destruct t1; try (by apply parse_key_typed); by split.
  - destruct stack as [|f stack]; [done|]. cbn [parse_step]. apply Forall_cons in Hs as [Hf Hs].
    pose proof (handle_value_typed v f Ht Hf) as Hh.
    destruct (handle_value v f) as [l|l key], (scan i) as [t1 i1] eqn:E1; destruct t1; try done.
    + split; [by apply well_typed_arr|done].
    + destruct (scan i1) as [t2 i2] eqn:E2. apply scan_typed in E2. split; [done|]. by constructor.
    + destruct Hh. split; [by apply well_typed_obj|done].
    + destruct (scan i1) as [t2 i2] eqn:E2. apply scan_typed in E2. destruct Hh. by apply parse_key_typed.
Qed.

Lemma parse_steps_typed p q : parse_steps p q → parser_typed p → parser_typed q.
Proof. induction 1 as [|p p' q -> _ IH]; [done|]. intros H. by apply IH, parse_step_typed. Qed.

Lemma parse_typed strict input v : parse strict input = Some v → well_typed v.
Proof.
  unfold parse. destruct (skip_bom input) as [i|]; [|done]. destruct (scan i) as [t rest] eqn:E.
  destruct (parse_loop _ _) as [[| |w r|]|] eqn:El; try done. intros H.
  assert (w = v) as -> by (destruct strict; [destruct (scan r) as [[] ?]; congruence|congruence]).
  apply parse_loop_steps in El. apply (parse_steps_typed _ _ El). split; [by eapply scan_typed|constructor].
Qed.

(** * Reading back what was printed *)

Lemma number_scan c i t :
  (c =? 45) || is_digit c = true → scan_number c i = t → scan (c :: i) = t.
Proof.
  intros Hc Hs. assert (Hr : c = 45 ∨ 48 <= c <= 57).
  { apply orb_prop in Hc as [H|H]; [left; by apply Z.eqb_eq|right; by apply digit_range]. }
  unfold scan. replace (skip_whitespace (c :: i)) with (c :: i).
  - rewrite !(proj2 (Z.eqb_neq c _)) by lia. by rewrite Hc.
  - unfold skip_whitespace, drop_while, is_blank. by rewrite !(proj2 (Z.eqb_neq c _)) by lia.
Qed.

Lemma to_string_scan z r :
  number_in_range z = true → delimited r = true → scan (to_string z ++ r) = (value_number z, r).
Proof.
  intros Hz Hr. destruct (scan_number_to_string z r Hz Hr) as (c & i & -> & Hc & Hs). by apply number_scan.
Qed.

Lemma to_chars_scan d r :
  valid_double d = true → is_finite d = true → delimited r = true → scan (to_chars d ++ r) = (value_float d, r).
Proof.
  intros Hv Hf Hr. destruct (scan_number_to_chars d r Hv Hf Hr) as (c & i & -> & Hc & Hs). by apply number_scan.
Qed.

Section reading.
Context (a : bool).
Context (newline : nat → text) (step : nat) (colon : text).
Context (newline_blank : ∀ n, Forall (λ c, is_blank c = true) (newline n)).
Context (colon_sep : ∃ b, colon = 58 :: b ∧ Forall (λ c, is_blank c = true) b).

Abbreviation text_of := (json_text a newline step colon).
Implicit Types (r : text) (st : list Frame).

Lemma skip_blank b i : Forall (λ c, is_blank c = true) b → skip_whitespace (b ++ i) = skip_whitespace i.
Proof. induction 1 as [|c b Hc _ IH]; [done|]. unfold skip_whitespace in *. cbn. by rewrite Hc. Qed.

Lemma scan_blank b i : Forall (λ c, is_blank c = true) b → scan (b ++ i) = scan i.
Proof. intros Hb. unfold scan. by rewrite skip_blank. Qed.

Lemma delimited_blank b c r :
  Forall (λ c, is_blank c = true) b → delimited [c] = true → delimited (b ++ c :: r) = true.
Proof.
  intros [|d b' Hd _] Hc; cbn [app delimited].
  - exact Hc.
  - assert (H : d ∈ [32; 9; 10; 13]).
    { unfold is_blank in Hd. rewrite !orb_true_iff, !Z.eqb_eq in Hd. rewrite !elem_of_cons. tauto. }
    clear Hd. revert d H. by apply Forall_forall; repeat constructor.
Qed.

Lemma scan_string_text s r :
  Forall is_byte s → is_utf8 s = true → scan (string_text a s ++ r) = (value_string s, r).
Proof.
  intros Hb Hu. unfold is_utf8 in Hu. destruct (decode_text 0 0 s) as [cps|] eqn:E; [|done].
  apply decode_text_spec in E as Hs; [|done]. destruct Hs as [Hc ->].
  unfold string_text, escape_text. rewrite E. change (default [] (Some cps)) with cps. rewrite <- !app_assoc.
  change (scan ([34] ++ escape_all a cps ++ [34] ++ r)) with
    (scan_string (length (escape_all a cps ++ 34 :: r)) (escape_all a cps ++ 34 :: r)).
  apply scan_string_escaped; [done|]. rewrite length_app. cbn [length]. pose proof (escape_all_length a cps Hc). lia.
Qed.

(** The parser reads the text of [j], up to what follows it. *)
Definition reads (j : json) : Prop :=
  ∀ cur r, delimited r = true →
    ∃ t i, scan (text_of cur j ++ r) = (t, i) ∧ t ≠ end_array ∧
           ∀ st, parse_steps (AtValue t i st) (AtState j r st).

Lemma one_step p q : parse_steps (parse_step p) q → parse_steps p q.
Proof. intros H. by eapply rtc_l. Qed.

Lemma reads_literal j t s r0 r :
  scan (s ++ r) = (t, r0) → t ≠ end_array → (∀ st, parse_step (AtValue t r0 st) = AtState j r st) →
  ∃ t i, scan (s ++ r) = (t, i) ∧ t ≠ end_array ∧ ∀ st, parse_steps (AtValue t i st) (AtState j r st).
Proof.
  intros Hs Ht Hp. exists t, r0. split_and!; [done|done|]. intros st. apply one_step. rewrite Hp. apply rtc_refl.
Qed.

(** The elements behind the first. *)
Lemma reads_elements cur new l done v r st :
  Forall reads l →
  parse_steps
    (AtState v (concat (map (λ v, [44] ++ newline new ++ text_of new v) l) ++ newline cur ++ [93] ++ r) (InArray done :: st))
    (AtState (JArr (done ++ v :: l)) r st).
Proof.
  intros H. revert done v. induction H as [|v' l Hv _ IH]; intros done v; apply one_step; cbn [map concat].
  - cbn [app parse_step handle_value]. rewrite scan_blank by done. apply rtc_refl.
  - rewrite <- !app_assoc. cbn [parse_step handle_value].
    set (rest := concat _ ++ _) in *.
    change (scan ([44] ++ newline new ++ text_of new v' ++ rest)) with (value_separator, newline new ++ text_of new v' ++ rest).
    cbn iota beta. rewrite scan_blank by done. destruct (Hv new rest) as (t & i & E & _ & Hst).
    { subst rest. destruct l as [|v2 l]; [by apply delimited_blank|done]. }
    rewrite E. cbn iota beta. etrans; [apply Hst|]. subst rest.
    replace (done ++ v :: v' :: l) with ((done ++ [v]) ++ v' :: l) by (by rewrite <- app_assoc). apply IH.
Qed.

Lemma scan_colon : ∃ b, Forall (λ c, is_blank c = true) b ∧ ∀ i, scan (colon ++ i) = (name_separator, b ++ i).
Proof. destruct colon_sep as (b & -> & Hb). by exists b. Qed.

(** A member behind its key. *)
Lemma reads_member k new v l rest st :
  reads v → delimited rest = true →
  parse_steps (parse_key (value_string k) (colon ++ text_of new v ++ rest) l st) (AtState v rest (InObject l k :: st)).
Proof.
  intros Hv Hd. destruct scan_colon as (b & Hb & Hs). unfold parse_key. rewrite Hs. cbn iota beta.
  rewrite scan_blank by done. destruct (Hv new rest Hd) as (t & i & -> & _ & Hst). apply Hst.
Qed.

Definition key_ok (k : text) : Prop := Forall is_byte k ∧ is_utf8 k = true.

Lemma reads_members cur new l done k v r st :
  Forall (λ p, key_ok (fst p) ∧ reads (snd p)) l → keys_ascend (done ++ (k, v) :: l) = true →
  parse_steps
    (AtState v (concat (map (λ p, [44] ++ newline new ++ string_text a (fst p) ++ colon ++ text_of new (snd p)) l) ++
                newline cur ++ [125] ++ r) (InObject done k :: st))
    (AtState (JObj (done ++ (k, v) :: l)) r st).
Proof.
  intros H. revert done k v. induction H as [|[k' v'] l [[Hkb Hku] Hv] _ IH]; intros done k v Hk; apply one_step; cbn [map concat fst snd];
    pose proof (assoc_set_last k v done (keys_ascend_before _ _ _ _ Hk)) as Hl.
  - cbn [app parse_step handle_value]. rewrite scan_blank, Hl by done. apply rtc_refl.
  - rewrite <- !app_assoc. cbn [parse_step handle_value]. rewrite Hl. cbn [fst snd] in *.
    set (rest := concat _ ++ _) in *.
    change (scan ([44] ++ ?x)) with (value_separator, x).
    cbn iota beta. rewrite scan_blank, scan_string_text by done. cbn iota beta.
    etrans; [apply reads_member; [done|]|].
    { subst rest. destruct l as [|p2 l]; [by apply delimited_blank|done]. }
    subst rest. replace (done ++ (k, v) :: (k', v') :: l) with ((done ++ [(k, v)]) ++ (k', v') :: l) in Hk |- *
      by (by rewrite <- app_assoc). by apply IH.
Qed.

Lemma reads_value j :
  canonical j = true → representable j = true → printable j = true → reads j.
Proof.
  induction j as [|b|z|d|s|l IH|l IH] using json_ind_nested; intros Hc Hr Hp; intros cur r Hd;
    cbn [canonical representable printable] in Hc, Hr, Hp; try done.
  - by eapply reads_literal.
  - destruct b; by eapply reads_literal.
  - eapply reads_literal; [by apply to_string_scan|done|done].
  - cbn [json_text]. unfold dump_float. rewrite Hc. eapply reads_literal; [by apply to_chars_scan|done|].
    intros st. cbn [parse_step]. by rewrite Hc.
  - eapply reads_literal; [apply scan_string_text; [by apply forallb_bytes|done]|done|done].
  - destruct l as [|v l]; [eexists _, _; split_and!; [done|done|]; intros st; apply one_step; apply rtc_refl|].
    assert (Hl : Forall reads (v :: l)).
    { rewrite Forall_forall in IH |- *. rewrite forallb_forall in Hc, Hr, Hp. setoid_rewrite <- list_elem_of_In in Hc.
      setoid_rewrite <- list_elem_of_In in Hr. setoid_rewrite <- list_elem_of_In in Hp. auto. }
    apply Forall_cons in Hl as [Hv Hl]. cbn [json_text]. rewrite <- !app_assoc.
    eexists begin_array, _. split_and!; [done|done|]. intros st. apply one_step. cbn [parse_step].
    rewrite scan_blank by done.
    set (rest := concat _ ++ _). destruct (Hv (cur + step)%nat rest) as (t & i & -> & Ht & Hst).
    { subst rest. destruct l as [|v2 l]; [by apply delimited_blank|done]. }
    assert (Hs : parse_steps (AtValue t i (InArray [] :: st)) (AtState (JArr (v :: l)) r st)).
    { etrans; [apply Hst|]. apply (reads_elements cur (cur + step) l [] v r st Hl). }
    by destruct t.
  - destruct l as [|[k v] l]; [eexists _, _; split_and!; [done|done|]; intros st; apply one_step; apply rtc_refl|].
    apply andb_prop in Hc as [Hc Ho].
    assert (Hl : Forall (λ p, key_ok (fst p) ∧ reads (snd p)) ((k, v) :: l)).
    { rewrite Forall_forall in IH |- *. rewrite forallb_forall in Hc, Hr, Hp. intros p Hin.
      pose proof (proj1 (list_elem_of_In _ _) Hin) as Hin'. specialize (Hr p Hin'). specialize (Hp p Hin').
      apply andb_prop in Hr as [Hk Hr], Hp as [Hu Hp]. split; [split; [by apply forallb_bytes|done]|].
      apply IH; auto. }
    apply Forall_cons in Hl as [[[Hkb Hku] Hv] Hl]. cbn [json_text]. rewrite <- !app_assoc.
    eexists begin_object, _. split_and!; [done|done|]. intros st. apply one_step. cbn [parse_step].
    rewrite scan_blank, scan_string_text by done. cbn iota beta. cbn [fst snd] in *.
    etrans; [apply reads_member; [done|]|].
    { destruct l as [|p2 l]; [by apply delimited_blank|done]. }
    apply (reads_members cur (cur + step) l [] k v r st Hl). done.
Qed.

(** A printed value does not start like a byte order mark. *)
Lemma no_bom_number c i : (c =? 45) || is_digit c = true → skip_bom (c :: i) = Some (c :: i).
Proof.
  intros Hc. destruct (Z.eqb_spec c 0xEF) as [->|Hn]; [done|]. unfold skip_bom. repeat (case_match; try done).
Qed.

Lemma no_bom cur j : canonical j = true → representable j = true → skip_bom (text_of cur j) = Some (text_of cur j).
Proof.
  destruct j as [|b|z|d|s|[|v l]|[|[k v] l]]; try done; intros Hc Hr; [by destruct b| |]; cbn [json_text].
  - destruct (scan_number_to_string z [] Hr) as (c & i & E & Hd & _); [done|]. rewrite app_nil_r in E.
    rewrite E. by apply no_bom_number.
  - unfold dump_float. cbn [canonical] in Hc. rewrite Hc.
    destruct (scan_number_to_chars d [] Hr Hc) as (c & i & E & Hd & _); [done|]. rewrite app_nil_r in E.
    rewrite E. by apply no_bom_number.
Qed.

Lemma parse_text strict j :
  canonical j = true → representable j = true → printable j = true →
  parse strict (text_of 0 j) = Some j.
Proof.
  intros Hc Hr Hp. unfold parse. rewrite no_bom by done.
  destruct (reads_value j Hc Hr Hp 0%nat [] eq_refl) as (t & i & E & _ & Hst). rewrite app_nil_r in E. rewrite E.
  rewrite (parse_loop_result _ _ (Parsed j [])).
  - by destruct strict.
  - unfold parse_fuel. destruct (turns_scanned _ _ _ [] E) as [?|[->| ->]]; [lia|cbn; lia..].
  - etrans; [apply Hst|]. apply one_step. apply rtc_refl.
  - done.
Qed.
End reading.

Lemma parse_dumped indent a strict j :
  canonical j = true → representable j = true → printable j = true →
  parse strict (dumped_text indent a j) = Some j.
Proof.
  intros Hc Hr Hp. unfold dumped_text. destruct (0 <=? indent).
  - apply parse_text; try done.
    + intros n. constructor; [done|]. by apply Forall_replicate.
    + exists [32]. split; [done|]. by constructor.
  - apply parse_text; try done. exists []. by split.
Qed.

(** C10: what is printed is read back.  A value whose objects are in
    key order, whose integers fit 64 bits, whose floating numbers are finite and
    whose strings are UTF-8 is printed by [dump], compact or with any indent up
    to 512, with or without escaping what is not ASCII, and the text parses to
    exactly that value, down to the last bit of its floating numbers and the
    signs of their zeros, strictly or not. *)
Theorem dumped_text_parses_back indent a strict j :
  canonical j = true → representable j = true → printable j = true → indent <= Z.of_nat INDENT_STRING →
  ∃ m, dump indent a j = Done m ∧ parse strict m = Some j.
Proof.
  intros Hc Hr Hp Hi. pose proof (dump_prints indent a j Hr Hi) as Hd. rewrite Hp in Hd.
  destruct Hd as (m & Hm & ->). exists (dumped_text indent a j). split; [done|]. by apply parse_dumped.
Qed.

Lemma dumped_text_parses_back_witness :
  let j := JObj [(lit "a", JArr [JInt (-12); JStr [206; 187; 34]; JFloat (S754_zero true)]);
                 (lit "b", JFloat (S754_finite false 7205759403792794 (-56)))] in
  ∃ m, dump 4 false j = Done m ∧ parse true m = Some j.
Proof. apply dumped_text_parses_back; vm_compute; congruence. Defined.

(** C11: what is parsed has the library's types and a text of its own.  Whatever
    bytes are parsed, strictly or not, a value that comes out has integers of 64
    bits, floating numbers that are finite doubles, strings and keys that are
    UTF-8, and objects whose keys ascend and so are distinct at every depth; it
    can be printed, in any layout, and what is printed is parsed to it again. *)
Theorem parsed_values_are_typed strict input v :
  parse strict input = Some v →
  well_typed v ∧
  ∀ indent a strict', indent <= Z.of_nat INDENT_STRING → ∃ m, dump indent a v = Done m ∧ parse strict' m = Some v.
Proof.
  intros H. apply parse_typed in H as Ht. split; [done|]. destruct Ht as (Hr & Hp & Hc). intros indent a strict' Hi.
  pose proof (dump_prints indent a v Hr Hi) as Hd. rewrite Hp in Hd. destruct Hd as (m & Hm & ->).
  exists (dumped_text indent a v). split; [done|]. by apply parse_dumped.
Qed.

Definition sample_json : text :=
  map (λ c, if c =? 39 then 34 else c) (lit "{ 'b': ['\u03bb', 0.10, 1E2], 'a': 1, 'a': 2 }").

Lemma parsed_values_are_typed_witness :
  ∃ v, parse true sample_json = Some v ∧ well_typed v ∧
       ∃ m, dump (-1) true v = Done m ∧ parse true m = Some v.
Proof.
  destruct (parse true sample_json) as [v|] eqn:E; [|vm_compute in E; discriminate]. exists v. split; [reflexivity|].
  destruct (parsed_values_are_typed true sample_json v E) as [Ht H]. split; [exact Ht|].
  exact (H (-1) true true ltac:(unfold INDENT_STRING; lia)).
Defined.
