(* ===== verification/Lexer.v ===== *)
(** The lexer and the parser of the vendored nlohmann::json once more
    (src/external/nlohmann/json.hpp, classes lexer, parser, exception and
    parse_error), now with all that they keep: the current character and whether
    it was put back, the position, the characters of the token for messages, and
    the text of the exception a refused input is answered with.

    File JsonParse has the same code as functions of the input alone; they are
    the reference that [parse_refines] compares with; what holds of the texts of
    the exceptions is in file ParseErrors.  The characters are those of a
    [std::string]; [eof] is no byte.  The counters of the position are unbounded:
    they count the characters of a string in memory. *)

From stdpp Require Import relations.
From S2P Require Import Prelude.
From S2P Require Import Text.
From S2P Require Import Utf8.
From S2P Require Import Entities.
From S2P Require Import Strtod.
From S2P Require Import Json.
From S2P Require Import JsonDump.
From S2P Require Import JsonParse.

(** * The lexer *)

Record Lexer := mkLexer {
  ia : text;                             (* what the input adapter has left *)
  current : Z;
  next_unget : bool;
  chars_read_total : Z;
  chars_read_current_line : Z;
  lines_read : Z;
  token_string : text;
  token_buffer : text;
  error_message : text
}.

Definition Lexer_new (input : text) : Lexer := mkLexer input eof false 0 0 0 [] [] [].

Definition set_error (what : String.string) (l : Lexer) : Lexer :=
  mkLexer (ia l) (current l) (next_unget l) (chars_read_total l) (chars_read_current_line l) (lines_read l)
    (token_string l) (token_buffer l) (lit what).
Arguments set_error what%_string_scope l.

(** [add], a byte or several. *)
Definition add (bs : text) (l : Lexer) : Lexer :=
  mkLexer (ia l) (current l) (next_unget l) (chars_read_total l) (chars_read_current_line l) (lines_read l)
    (token_string l) (token_buffer l ++ bs) (error_message l).

Definition reset (l : Lexer) : Lexer :=
  mkLexer (ia l) (current l) (next_unget l) (chars_read_total l) (chars_read_current_line l) (lines_read l)
    [current l] [] (error_message l).

Definition get (l : Lexer) : Lexer :=
  let '(c, rest) :=
    if next_unget l then (current l, ia l)
    else match ia l with c :: rest => (c, rest) | [] => (eof, []) end in
  mkLexer rest c false (chars_read_total l + 1)
    (if c =? 10 then 0 else chars_read_current_line l + 1)
    (if c =? 10 then lines_read l + 1 else lines_read l)
    (if c =? eof then token_string l else token_string l ++ [c])
    (token_buffer l) (error_message l).

Definition unget (l : Lexer) : Lexer :=
  let line_start := chars_read_current_line l =? 0 in
  mkLexer (ia l) (current l) true (chars_read_total l - 1)
    (if line_start then chars_read_current_line l else chars_read_current_line l - 1)
    (if line_start && (0 <? lines_read l) then lines_read l - 1 else lines_read l)
    (if current l =? eof then token_string l else removelast (token_string l))
    (token_buffer l) (error_message l).

(** ** Strings *)

(** [get_codepoint]: the value of four digits, or -1. *)
Fixpoint get_digits (factors : list Z) (codepoint : Z) (l : Lexer) : Z * Lexer :=
  match factors with
  | [] => (codepoint, l)
  | factor :: factors' =>
      let l := get l in
      match hex_value (current l) with
      | Some h => get_digits factors' (codepoint + Z.shiftl h factor) l
      | None => (-1, l)
      end
  end.

Definition get_codepoint : Lexer → Z * Lexer := get_digits [12; 8; 4; 0] 0.

Fixpoint bytes_in_range (ranges : list (Z * Z)) (l : Lexer) : bool * Lexer :=
  match ranges with
  | [] => (true, l)
  | (lo, hi) :: ranges' =>
      let l := get l in
      if (lo <=? current l) && (current l <=? hi) then bytes_in_range ranges' (add [current l] l)
      else (false, set_error "invalid string: ill-formed UTF-8 byte" l)
  end.

Definition next_byte_in_range (ranges : list (Z * Z)) (l : Lexer) : bool * Lexer :=
  bytes_in_range ranges (add [current l] l).

(** How a turn of a loop ends. *)
Inductive turn :=
| Continue (l : Lexer)
| Return (t : token) (l : Lexer).

Definition fail (what : String.string) (l : Lexer) : turn := Return parse_error (set_error what l).
Arguments fail what%_string_scope l.

Definition four_digits : String.string := "invalid string: '\u' must be followed by 4 hex digits"%string.
Definition low_expected : String.string :=
  "invalid string: surrogate U+D800..U+DBFF must be followed by U+DC00..U+DFFF"%string.

(** The second half of a pair of surrogates. *)
Definition scan_low_surrogate (codepoint1 : Z) (l : Lexer) : turn :=
  let l := get l in
  if negb (current l =? 92) then fail low_expected l
  else
    let l := get l in
    if negb (current l =? 117) then fail low_expected l
    else
      let '(codepoint2, l) := get_codepoint l in
      if codepoint2 =? -1 then fail four_digits l
      else if (0xDC00 <=? codepoint2) && (codepoint2 <=? 0xDFFF) then
        Continue (add (codepoint_bytes (wrap 32 (Z.shiftl codepoint1 10 + codepoint2 - 0x35FDC00))) l)
      else fail low_expected l.

Definition scan_unicode (l : Lexer) : turn :=
  let '(codepoint1, l) := get_codepoint l in
  if codepoint1 =? -1 then fail four_digits l
  else if (0xD800 <=? codepoint1) && (codepoint1 <=? 0xDBFF) then scan_low_surrogate codepoint1 l
  else if (0xDC00 <=? codepoint1) && (codepoint1 <=? 0xDFFF) then
    fail "invalid string: surrogate U+DC00..U+DFFF must follow U+D800..U+DBFF" l
  else Continue (add (codepoint_bytes codepoint1) l).

Definition scan_escape (l : Lexer) : turn :=
  let l := get l in
  let c := current l in
  if c =? 34 then Continue (add [34] l)
  else if c =? 92 then Continue (add [92] l)
  else if c =? 47 then Continue (add [47] l)
  else if c =? 98 then Continue (add [8] l)
  else if c =? 102 then Continue (add [12] l)
  else if c =? 110 then Continue (add [10] l)
  else if c =? 114 then Continue (add [13] l)
  else if c =? 116 then Continue (add [9] l)
  else if c =? 117 then scan_unicode l
  else fail "invalid string: forbidden character after backslash" l.

(** The names of the control characters. *)
Definition control_names : list String.string :=
  ["NUL"; "SOH"; "STX"; "ETX"; "EOT"; "ENQ"; "ACK"; "BEL"; "BS"; "HT"; "LF"; "VT"; "FF"; "CR"; "SO"; "SI";
   "DLE"; "DC1"; "DC2"; "DC3"; "DC4"; "NAK"; "SYN"; "ETB"; "CAN"; "EM"; "SUB"; "ESC"; "FS"; "GS"; "RS"; "US"]%string.

Definition short_escape (c : Z) : text :=
  if c =? 8 then lit " or \b" else if c =? 9 then lit " or \t" else if c =? 10 then lit " or \n"
  else if c =? 12 then lit " or \f" else if c =? 13 then lit " or \r" else [].

Definition control_message (c : Z) : text :=
  lit "invalid string: control character U+00" ++ hex_bytes c ++
  lit " (" ++ lit (nth (Z.to_nat c) control_names ""%string) ++ lit ") must be escaped to \u00" ++ hex_bytes c ++
  short_escape c.

Definition fail_control (l : Lexer) : turn :=
  Return parse_error
    (mkLexer (ia l) (current l) (next_unget l) (chars_read_total l) (chars_read_current_line l) (lines_read l)
       (token_string l) (token_buffer l) (control_message (current l))).

(** One turn of the loop of [scan_string]. *)
Definition string_turn (l : Lexer) : turn :=
  let l := get l in
  let c := current l in
  if c =? eof then fail "invalid string: missing closing quote" l
  else if c =? 34 then Return (value_string (token_buffer l)) l
  else if c =? 92 then scan_escape l
  else if (0 <=? c) && (c <=? 0x1F) then fail_control l
  else
    match byte_ranges c with
    | Some ranges =>
        match next_byte_in_range ranges l with
        | (true, l) => Continue l
        | (false, l) => Return parse_error l
        end
    | None => fail "invalid string: ill-formed UTF-8 byte" l
    end.

Fixpoint string_loop (fuel : nat) (l : Lexer) : token * Lexer :=
  match fuel with
  | O => (parse_error, l)
  | S f => match string_turn l with Continue l => string_loop f l | Return t l => (t, l) end
  end.

(** Each turn reads a character or returns. *)
Definition scan_string (l : Lexer) : token * Lexer := string_loop (S (length (ia l))) (reset l).

(** ** Numbers *)

Definition number_error (st : NumberState) : String.string :=
  match st with
  | number_minus => "invalid number; expected digit after '-'"
  | number_decimal1 => "invalid number; expected digit after '.'"
  | number_exponent => "invalid number; expected '+', '-', or digit after exponent"
  | number_sign => "invalid number; expected digit after exponent sign"
  | _ => ""
  end%string.

(** From [scan_number_done] on. *)
Definition scan_number_done (ty : NumberType) (l : Lexer) : token * Lexer :=
  let l := unget l in
  let converted :=
    match ty with
    | is_unsigned => strtoull (token_buffer l)
    | is_integer => strtoll (token_buffer l)
    | is_float => None
    end in
  (match converted with Some z => value_number z | None => value_float (strtod (token_buffer l)) end, l).

(** The states, from the label of [st] on; the decimal point of the locale is a
    full stop. *)
Fixpoint number_loop (fuel : nat) (st : NumberState) (ty : NumberType) (l : Lexer) : token * Lexer :=
  match fuel with
  | O => (parse_error, l)
  | S f =>
      let ty := number_type st ty in
      let l := get l in
      match number_next st (current l) with
      | None => (parse_error, set_error (number_error st) l)
      | Some None => scan_number_done ty l
      | Some (Some st') => number_loop f st' ty (add [current l] l)
      end
  end.

Definition scan_number (l : Lexer) : token * Lexer :=
  let l := reset l in
  let c := current l in
  let st := if c =? 45 then number_minus else if c =? 48 then number_zero else number_any1 in
  number_loop (S (length (ia l))) st is_unsigned (add [c] l).

(** ** The scanner *)

(** [scan_literal] after the first character. *)
Fixpoint scan_literal (rest_of_literal : text) (t : token) (l : Lexer) : token * Lexer :=
  match rest_of_literal with
  | [] => (t, l)
  | c :: rest =>
      let l := get l in
      if current l =? c then scan_literal rest t l else (parse_error, set_error "invalid literal" l)
  end.

Definition skip_bom (l : Lexer) : bool * Lexer :=
  let l := get l in
  if current l =? 0xEF then
    let l := get l in
    if current l =? 0xBB then let l := get l in (current l =? 0xBF, l) else (false, l)
  else (true, unget l).

Fixpoint skip_blanks (fuel : nat) (l : Lexer) : Lexer :=
  let l := get l in
  match fuel with
  | O => l
  | S f => if is_blank (current l) then skip_blanks f l else l
  end.

(** One turn for each character that is left, and one for one put back. *)
Definition skip_whitespace (l : Lexer) : Lexer := skip_blanks (S (length (ia l))) l.

(** [scan] from the first character of a token on. *)
Definition scan_token (l : Lexer) : token * Lexer :=
  let c := current l in
  if c =? 91 then (begin_array, l)
  else if c =? 93 then (end_array, l)
  else if c =? 123 then (begin_object, l)
  else if c =? 125 then (end_object, l)
  else if c =? 58 then (name_separator, l)
  else if c =? 44 then (value_separator, l)
  else if c =? 116 then scan_literal (lit "rue") literal_true l
  else if c =? 102 then scan_literal (lit "alse") literal_false l
  else if c =? 110 then scan_literal (lit "ull") literal_null l
  else if c =? 34 then scan_string l
  else if (c =? 45) || is_digit c then scan_number l
  else if (c =? 0) || (c =? eof) then (end_of_input, l)
  else (parse_error, set_error "invalid literal" l).

Definition scan (l : Lexer) : token * Lexer :=
  let '(bom, l) := if chars_read_total l =? 0 then skip_bom l else (true, l) in
  if bom : bool then scan_token (skip_whitespace l)
  else (parse_error, set_error "invalid BOM; must be 0xEF 0xBB 0xBF if given" l).

(** * Exceptions *)

Definition escape_control (c : Z) : text := if c <=? 0x1F then lit "<U+00" ++ hex_bytes c ++ lit ">" else [c].

(** Every control character is shown by its number. *)
Definition get_token_string (l : Lexer) : text := token_string l ≫= escape_control.

(** What is expected, or was read: [literal_or_value] and [uninitialized] are no
    tokens of the scanner. *)
Inductive expectation :=
| expect (t : token)
| literal_or_value
| uninitialized.

Definition token_type_name (t : token) : text :=
  match t with
  | literal_true => lit "true literal"
  | literal_false => lit "false literal"
  | literal_null => lit "null literal"
  | value_string _ => lit "string literal"
  | value_number _ | value_float _ => lit "number literal"
  | begin_array => lit "'['"
  | begin_object => lit "'{'"
  | end_array => lit "']'"
  | end_object => lit "'}'"
  | name_separator => lit "':'"
  | value_separator => lit "','"
  | parse_error => lit "<parse error>"
  | end_of_input => lit "end of input"
  end.

Definition exception_message (last_token : token) (l : Lexer) (expected : expectation) (context : String.string) : text :=
  lit "syntax error while parsing " ++ lit context ++ lit " - " ++
  match last_token with
  | parse_error => error_message l ++ lit "; last read: '" ++ get_token_string l ++ lit "'"
  | t => lit "unexpected " ++ token_type_name t
  end ++
  match expected with
  | expect t => lit "; expected " ++ token_type_name t
  | literal_or_value => lit "; expected '[', '{', or a literal"
  | uninitialized => []
  end.
Arguments exception_message last_token l expected context%_string_scope.

Definition position_string (l : Lexer) : text :=
  lit " at line " ++ to_string (lines_read l + 1) ++ lit ", column " ++ to_string (chars_read_current_line l).

(** [parse_error::create], whose text passes through a C string. *)
Definition parse_error_101 (l : Lexer) (what : text) : text :=
  cstr (exception_name "parse_error" 101 ++ lit "parse error" ++ position_string l ++ lit ": " ++ what).

Definition out_of_range_406 (l : Lexer) : text :=
  cstr (exception_name "out_of_range" 406 ++ lit "number overflow parsing '" ++ get_token_string l ++ lit "'").

(** * The parser *)

Inductive Parser :=
| AtValue (last_token : token) (l : Lexer) (ref_stack : list Frame)
| AtState (value : json) (l : Lexer) (ref_stack : list Frame)
| Parsed (value : json) (l : Lexer)
| Threw (what : text).

Definition unexpected (t : token) (l : Lexer) (expected : expectation) (context : String.string) : Parser :=
  Threw (parse_error_101 l (exception_message t l expected context)).
Arguments unexpected t l expected context%_string_scope.

(** The key of an object, its separator and the first token of its value. *)
Definition parse_key (t : token) (l : Lexer) (members : list (text * json)) (stack : list Frame) : Parser :=
  match t with
  | value_string key =>
      match scan l with
      | (name_separator, l) => let '(t, l) := scan l in AtValue t l (InObject members key :: stack)
      | (t, l) => unexpected t l (expect name_separator) "object separator"
      end
  | _ => unexpected t l (expect (value_string [])) "object key"
  end.

(** One turn of the loop of [sax_parse_internal]. *)
Definition parse_step (p : Parser) : Parser :=
  match p with
  | AtValue t l stack =>
      match t with
      | begin_object =>
          match scan l with
          | (end_object, l) => AtState (JObj []) l stack
          | (t, l) => parse_key t l [] stack
          end
      | begin_array =>
          match scan l with
          | (end_array, l) => AtState (JArr []) l stack
          | (t, l) => AtValue t l (InArray [] :: stack)
          end
      | value_float d => if is_finite d then AtState (JFloat d) l stack else Threw (out_of_range_406 l)
      | literal_false => AtState (JBool false) l stack
      | literal_true => AtState (JBool true) l stack
      | literal_null => AtState JNull l stack
      | value_number z => AtState (JInt z) l stack
      | value_string s => AtState (JStr s) l stack
      | parse_error => unexpected t l uninitialized "value"
      | end_of_input =>
          if chars_read_total l =? 1 then
            Threw (parse_error_101 l (lit "attempting to parse an empty input; check that your input string or stream contains the expected JSON"))
          else unexpected t l literal_or_value "value"
      | _ => unexpected t l literal_or_value "value"
      end
  | AtState v l [] => Parsed v l
  | AtState v l (f :: stack) =>
      match handle_value v f, scan l with
      | InArray vs, (value_separator, l) => let '(t, l) := scan l in AtValue t l (InArray vs :: stack)
      | InArray vs, (end_array, l) => AtState (JArr vs) l stack
      | InArray _, (t, l) => unexpected t l (expect end_array) "array"
      | InObject ms _, (value_separator, l) => let '(t, l) := scan l in parse_key t l ms stack
      | InObject ms _, (end_object, l) => AtState (JObj ms) l stack
      | InObject _ _, (t, l) => unexpected t l (expect end_object) "object"
      end
  | Parsed _ _ | Threw _ => p
  end.

Fixpoint parse_loop (fuel : nat) (p : Parser) : option Parser :=
  match p with
  | Parsed _ _ | Threw _ => Some p
  | _ => match fuel with O => None | S f => parse_loop f (parse_step p) end
  end.

(** The constructor of the parser, which reads the first token, and
    [parser::parse].  Within [parse_fuel] turns the loop ends. *)
Definition parse (strict : bool) (input : text) : exec json :=
  let '(t, l) := scan (Lexer_new input) in
  match parse_loop (parse_fuel input) (AtValue t l []) with
  | Some (Parsed v l) =>
      if strict then
        match scan l with
        | (end_of_input, _) => Done v
        | (t, l) => Raised (parse_error_101 l (exception_message t l (expect end_of_input) "value"))
        end
      else Done v
  | Some (Threw what) => Raised what
  | _ => Undefined
  end.

(** * What the lexer has left to read *)

Definition no_eof : text → Prop := Forall (λ c, c ≠ eof).

(** The input of [l] is [i], and [n] characters were read at least. *)
Record reads (n : Z) (l : Lexer) (i : text) : Prop := {
  rd_input : i = if next_unget l then (if current l =? eof then [] else current l :: ia l) else ia l;
  rd_bytes : no_eof (ia l);
  rd_end : next_unget l = true → current l = eof → ia l = [];
  rd_total : n <= chars_read_total l
}.

(** [l] has just read [c], and [i] is left. *)
Record just_read (n : Z) (l : Lexer) (c : Z) (i : text) : Prop := {
  jr_current : current l = c;
  jr_unget : next_unget l = false;
  jr_input : ia l = i;
  jr_bytes : no_eof i;
  jr_end : c = eof → i = [];
  jr_total : n <= chars_read_total l
}.

Lemma reads_get n l i :
  reads n l i → just_read (n + 1) (get l) (match i with c :: _ => c | [] => eof end) (match i with _ :: r => r | [] => [] end).
Proof.
  intros [Hi Hb He Ht]. unfold get. destruct (next_unget l) eqn:Hu.
  - destruct (Z.eqb_spec (current l) eof) as [Hc|Hc]; subst i; split; cbn; try done; try lia; auto; constructor.
  - rewrite <- Hi in *. destruct i as [|c i]; split; cbn; try done; try lia.
    + by inversion Hb.
    + inversion Hb; by intros ->.
Qed.

Lemma just_read_reads n l c i : just_read n l c i → reads n l i.
Proof. intros [H1 H2 H3 H4 H5 H6]. subst. by split; rewrite ?H2. Qed.

Lemma just_read_unget n l c i :
  just_read (n + 1) l c i → reads n (unget l) (if c =? eof then [] else c :: i).
Proof.
  intros [H1 H2 H3 H4 H5 H6]. split; cbn; rewrite ?H1, ?H3; try done; try lia; auto.
Qed.

Lemma reads_no_eof n l c i : reads n l (c :: i) → c ≠ eof.
Proof.
  intros [Hi Hb _ _] ->. destruct (next_unget l).
  - destruct (Z.eqb_spec (current l) eof) as [|Hc]; [done|]. injection Hi. congruence.
  - rewrite <- Hi in Hb. by inversion Hb.
Qed.

(** Only the position of the input matters, not what was collected. *)
Lemma reads_add n l i bs : reads n l i → reads n (add bs l) i.
Proof. by intros [H1 H2 H3 H4]. Qed.

Lemma just_read_add n l c i bs : just_read n l c i → just_read n (add bs l) c i.
Proof. by intros [H1 H2 H3 H4 H5 H6]. Qed.

Lemma just_read_reset n l c i : just_read n l c i → just_read n (reset l) c i.
Proof. by intros [H1 H2 H3 H4 H5 H6]. Qed.

Lemma get_buffer l : token_buffer (get l) = token_buffer l.
Proof. unfold get. by destruct (next_unget l), (ia l). Qed.

Lemma just_read_le n m l c i : m <= n → just_read n l c i → just_read m l c i.
Proof. intros Hm [H1 H2 H3 H4 H5 H6]. split; try done. lia. Qed.

Lemma reads_le n m l i : m <= n → reads n l i → reads m l i.
Proof. intros Hm [H1 H2 H3 H4]. split; try done. lia. Qed.

(** The start of every token but the first: something was read. *)
Abbreviation begun := (reads 1).

Lemma begun_get l i :
  begun l i → just_read 2 (get l) (match i with c :: _ => c | [] => eof end) (match i with _ :: r => r | [] => [] end).
Proof. apply reads_get. Qed.

Lemma just_begun n l c i : 1 <= n → just_read n l c i → begun l i.
Proof. intros Hn H. eapply reads_le; [exact Hn|]. by eapply just_read_reads. Qed.

(** ** Strings *)

Lemma hex_value_eof : hex_value eof = None.
Proof. done. Qed.

(** A loop over [factors] digits, in the reference. *)
Fixpoint digits_ref (factors : list Z) (codepoint : Z) (i : text) : option (Z * text) :=
  match factors with
  | [] => Some (codepoint, i)
  | f :: fs =>
      match i with
      | c :: i => match hex_value c with Some h => digits_ref fs (codepoint + Z.shiftl h f) i | None => None end
      | [] => None
      end
  end.

Lemma get_digits_spec fs cp l i :
  begun l i →
  match digits_ref fs cp i with
  | Some (z, r) => ∃ l', get_digits fs cp l = (z, l') ∧ begun l' r ∧ token_buffer l' = token_buffer l
  | None => ∃ l', get_digits fs cp l = (-1, l')
  end.
Proof.
  revert cp l i. induction fs as [|f fs IH]; intros cp l i H; cbn [digits_ref get_digits]; [by exists l|].
  apply begun_get in H. destruct i as [|c i].
  - rewrite (jr_current _ _ _ _ H), hex_value_eof. by eexists.
  - rewrite (jr_current _ _ _ _ H). destruct (hex_value c) as [h|]; [|by eexists].
    apply just_begun in H; [|lia]. specialize (IH (cp + Z.shiftl h f) _ _ H). rewrite get_buffer in IH. exact IH.
Qed.

Lemma hex_value_range c h : hex_value c = Some h → 0 <= h < 16.
Proof.
  unfold hex_value. repeat match goal with |- context [if ?b then _ else _] => destruct b eqn:? end;
    try done; intros [= <-]; bool_to_prop; lia.
Qed.

Lemma get_codepoint_spec l i :
  begun l i →
  match JsonParse.get_codepoint i with
  | Some (z, r) => ∃ l', get_codepoint l = (z, l') ∧ begun l' r ∧ token_buffer l' = token_buffer l ∧ z ≠ -1
  | None => ∃ l', get_codepoint l = (-1, l')
  end.
Proof.
  intros H. apply (get_digits_spec [12; 8; 4; 0] 0) in H. unfold get_codepoint.
  assert (He : digits_ref [12; 8; 4; 0] 0 i = JsonParse.get_codepoint i).
  { unfold JsonParse.get_codepoint, digits_ref.
    destruct i as [|c1 [|c2 [|c3 [|c4 i]]]]; try done;
      repeat case_match; simplify_eq; rewrite ?Z.add_0_l, ?Z.add_assoc; done. }
  rewrite He in H. destruct (JsonParse.get_codepoint i) as [[z r]|] eqn:E; [|done].
  destruct H as (l' & H1 & H2 & H3). exists l'. split_and!; try done. clear -E. unfold JsonParse.get_codepoint in E.
  destruct i as [|c1 [|c2 [|c3 [|c4 i]]]]; try done.
  destruct (hex_value c1) eqn:E1, (hex_value c2) eqn:E2, (hex_value c3) eqn:E3, (hex_value c4) eqn:E4; try done.
  apply hex_value_range in E1, E2, E3, E4. injection E as <- <-. rewrite !Z.shiftl_mul_pow2 by lia. lia.
Qed.

(** The character that [get] finds, on either kind of input. *)
Ltac get_next H := apply begun_get in H; rewrite ?(jr_current _ _ _ _ H).

Lemma bytes_in_range_spec rs l i :
  Forall (λ r, 0 <= fst r) rs → begun l i →
  match JsonParse.next_byte_in_range rs i with
  | Some (bs, r) => ∃ l', bytes_in_range rs l = (true, l') ∧ begun l' r ∧ token_buffer l' = token_buffer l ++ bs
  | None => ∃ l', bytes_in_range rs l = (false, l')
  end.
Proof.
  intros Hrs. revert l i. induction Hrs as [|[lo hi] rs Hlo _ IH]; intros l i H; cbn [JsonParse.next_byte_in_range bytes_in_range].
  { exists l. by rewrite app_nil_r. }
  cbn [fst] in Hlo. get_next H. destruct i as [|c i].
  { rewrite (proj2 (Z.leb_gt lo eof)) by (unfold eof; lia). by eexists. }
  destruct (_ && _); [|by eexists]. apply just_begun in H; [|lia].
  apply (reads_add _ _ _ [c]) in H. specialize (IH _ _ H).
  destruct (JsonParse.next_byte_in_range rs i) as [[bs r]|]; [|exact IH].
  destruct IH as (l' & -> & Hr & Hb). exists l'. split_and!; [done..|]. rewrite Hb. cbn [add token_buffer].
  by rewrite get_buffer, <- app_assoc.
Qed.

Lemma byte_ranges_lo c rs : byte_ranges c = Some rs → Forall (λ r, 0 <= fst r) rs.
Proof.
  unfold byte_ranges. repeat match goal with |- context [if ?b then _ else _] => destruct b end;
    try done; intros [= <-]; repeat constructor; cbn; lia.
Qed.

(** What a turn does, compared with the reference: bytes added and input left,
    or an error. *)
Definition turn_ok (buffer : text) (ref : option (text * text)) (t : turn) : Prop :=
  match ref with
  | Some (bs, r) => ∃ l', t = Continue l' ∧ begun l' r ∧ token_buffer l' = buffer ++ bs
  | None => ∃ l', t = Return parse_error l'
  end.

Lemma turn_ok_add buffer bs l r :
  begun l r → token_buffer l = buffer → turn_ok buffer (Some (bs, r)) (Continue (add bs l)).
Proof. intros H <-. exists (add bs l). split_and!; [done|by apply reads_add|done]. Qed.

Lemma turn_ok_fail buffer what l : turn_ok buffer None (fail what l).
Proof. by eexists. Qed.

(** The reference for the second half of a pair. *)
Definition low_surrogate_ref (codepoint1 : Z) (i : text) : option (text * text) :=
  match i with
  | b :: u :: rest =>
      if (b =? 92) && (u =? 117) then
        match JsonParse.get_codepoint rest with
        | None => None
        | Some (codepoint2, rest) =>
            if (0xDC00 <=? codepoint2) && (codepoint2 <=? 0xDFFF) then
              Some (codepoint_bytes (wrap 32 (Z.shiftl codepoint1 10 + codepoint2 - 0x35FDC00)), rest)
            else None
        end
      else None
  | _ => None
  end.

Lemma scan_low_surrogate_spec cp l i :
  begun l i → turn_ok (token_buffer l) (low_surrogate_ref cp i) (scan_low_surrogate cp l).
Proof.
  intros H. unfold scan_low_surrogate, low_surrogate_ref. get_next H.
  destruct i as [|b i]; [by apply turn_ok_fail|]. destruct (b =? 92); cbn [negb andb]; [|destruct i; by apply turn_ok_fail].
  apply just_begun in H; [|lia]. get_next H. destruct i as [|u i]; [by apply turn_ok_fail|].
  destruct (u =? 117); cbn [negb]; [|by apply turn_ok_fail]. apply just_begun in H; [|lia].
  apply get_codepoint_spec in H. destruct (JsonParse.get_codepoint i) as [[z r]|].
  - destruct H as (l' & -> & Hr & Hb & Hz). rewrite (proj2 (Z.eqb_neq _ _)) by done.
    destruct (_ && _); [|by apply turn_ok_fail]. apply turn_ok_add; [done|]. by rewrite Hb, !get_buffer.
  - destruct H as (l' & ->). by apply turn_ok_fail.
Qed.

Lemma scan_unicode_spec l i :
  begun l i →
  turn_ok (token_buffer l)
    match JsonParse.get_codepoint i with
    | None => None
    | Some (cp, r) =>
        if (0xD800 <=? cp) && (cp <=? 0xDBFF) then low_surrogate_ref cp r
        else if (0xDC00 <=? cp) && (cp <=? 0xDFFF) then None else Some (codepoint_bytes cp, r)
    end (scan_unicode l).
Proof.
  intros H. apply get_codepoint_spec in H. unfold scan_unicode. destruct (JsonParse.get_codepoint i) as [[cp r]|].
  - destruct H as (l' & -> & Hr & Hb & Hz). rewrite (proj2 (Z.eqb_neq _ _)) by done.
    destruct (_ && _); [rewrite <- Hb; by apply scan_low_surrogate_spec|].
    destruct (_ && _); [by apply turn_ok_fail|by apply turn_ok_add].
  - destruct H as (l' & ->). by apply turn_ok_fail.
Qed.

Lemma scan_escape_spec l i :
  begun l i → turn_ok (token_buffer l) (JsonParse.scan_escape i) (scan_escape l).
Proof.
  intros H. unfold scan_escape, JsonParse.scan_escape. get_next H. destruct i as [|c i]; [by apply turn_ok_fail|].
  apply just_begun in H; [|lia].
  repeat match goal with
  | |- context [if c =? ?k then Some ?x else _] => destruct (c =? k); [apply turn_ok_add; [done|by rewrite get_buffer]|]
  end.
  destruct (c =? 117); [|by apply turn_ok_fail]. apply scan_unicode_spec in H. by rewrite get_buffer in H.
Qed.

Lemma string_turn_spec l i :
  begun l i →
  match i with
  | [] => ∃ l', string_turn l = Return parse_error l'
  | c :: r =>
      if c =? 34 then ∃ l', string_turn l = Return (value_string (token_buffer l)) l' ∧ begun l' r
      else turn_ok (token_buffer l) (scan_char i) (string_turn l)
  end.
Proof.
  intros H. unfold string_turn. pose proof H as H'. get_next H. destruct i as [|c i]; [by eexists|].
  apply reads_no_eof in H'. rewrite (proj2 (Z.eqb_neq _ _) H'). destruct (c =? 34).
  { rewrite get_buffer. eexists. split; [done|]. eapply just_begun; [|done]. lia. }
  unfold scan_char. destruct (c =? 92).
  { apply just_begun in H; [|lia]. apply scan_escape_spec in H. by rewrite get_buffer in H. }
  destruct (Z.leb_spec 0 c) as [H0|H0]; [destruct (Z.leb_spec c 0x1F) as [H1|H1]|]; cbn [andb].
  { replace (byte_ranges c) with (@None (list (Z * Z))); [by eexists|]. symmetry. unfold byte_ranges.
    repeat match goal with |- context [if ?b then _ else _] => destruct b eqn:?; [bool_to_prop; lia|] end. done. }
  all: destruct (byte_ranges c) as [rs|] eqn:Ers; [|by apply turn_ok_fail]; apply byte_ranges_lo in Ers;
    unfold next_byte_in_range; rewrite (jr_current _ _ _ _ H); apply just_begun in H; [|lia];
    apply (reads_add _ _ _ [c]) in H; apply (bytes_in_range_spec rs) in H; [|done];
    destruct (JsonParse.next_byte_in_range rs i) as [[bs r]|]; [destruct H as (l' & -> & Hr & Hb)|destruct H as (l' & ->); by eexists];
    exists l'; split_and!; [done..|]; rewrite Hb; cbn [add token_buffer];
    by rewrite get_buffer, <- app_assoc.
Qed.

Lemma string_turn_progress n l i l' : reads n l i → string_turn l = Continue l' → i ≠ [].
Proof.
  intros H E ->. revert E. unfold string_turn. apply reads_get in H. rewrite (jr_current _ _ _ _ H).
  by rewrite Z.eqb_refl.
Qed.

(** What a scanner returns, compared with the reference; after an error the
    input is never read again. *)
Definition scanned (ref : token * text) (res : token * Lexer) : Prop :=
  fst res = fst ref ∧ (fst ref ≠ parse_error → begun (snd res) (snd ref)).

Lemma scanned_error ref l : fst ref = parse_error → scanned ref (parse_error, l).
Proof. intros H. by split; rewrite H. Qed.

Lemma scanned_token t r l : begun l r → scanned (t, r) (t, l).
Proof. by split. Qed.

Lemma string_loop_spec f f' l i :
  begun l i → (length i <= f')%nat → (length i < f)%nat →
  scanned
    (let '(t, r) := JsonParse.scan_string f' i in
     (match t with value_string s => value_string (token_buffer l ++ s) | _ => t end, r))
    (string_loop f l).
Proof.
  revert f f' i l. induction f as [|f IH]; intros f' i l H Hf' Hf; [lia|]. cbn [string_loop].
  pose proof (string_turn_spec l i H) as Ht. destruct i as [|c i].
  { destruct Ht as (l' & ->). destruct f'; by apply scanned_error. }
  cbn [length] in *. destruct f' as [|f']; [lia|]. cbn [JsonParse.scan_string]. destruct (c =? 34).
  { destruct Ht as (l' & -> & Hr). rewrite app_nil_r. by apply scanned_token. }
  destruct (scan_char (c :: i)) as [[bs r]|] eqn:E; cbn in Ht.
  - destruct Ht as (l' & -> & Hr & Hb). apply scan_char_length in E. cbn [length] in E.
    assert (H' := IH f' r l' Hr ltac:(lia) ltac:(lia)).
    destruct (JsonParse.scan_string f' r) as [t r']. destruct t; try exact H'. by rewrite Hb, <- app_assoc in H'.
  - destruct Ht as (l' & ->). by apply scanned_error.
Qed.

(** Right after the opening quote. *)
Lemma scan_string_spec l i :
  just_read 1 l 34 i → scanned (JsonParse.scan_string (length i) i) (scan_string l).
Proof.
  intros H. unfold scan_string. rewrite (jr_input _ _ _ _ H).
  apply just_read_reset, just_begun in H; [|lia].
  pose proof (string_loop_spec (S (length i)) (length i) (reset l) i H ltac:(lia) ltac:(lia)) as Hs.
  cbn [reset token_buffer app] in Hs. destruct (JsonParse.scan_string (length i) i) as [t r]. by destruct t.
Qed.

(** ** Numbers *)

Lemma number_next_eof_error st : number_next st eof = None ∨ number_next st eof = Some None.
Proof. destruct st; cbn; auto. Qed.

Lemma number_loop_spec f st ty l i :
  begun l i → (length i < f)%nat →
  scanned
    match scan_number_from st ty i with
    | None => (parse_error, i)
    | Some (buffer, ty', rest) =>
        (match (match ty' with
                | is_unsigned => strtoull (token_buffer l ++ buffer)
                | is_integer => strtoll (token_buffer l ++ buffer)
                | is_float => None
                end) with Some z => value_number z | None => value_float (strtod (token_buffer l ++ buffer)) end, rest)
    end
    (number_loop f st ty l).
Proof.
  revert st ty l i. induction f as [|f IH]; intros st ty l i H Hf; [lia|]. cbn [number_loop].
  pose proof H as H'. get_next H. destruct i as [|c i]; cbn [scan_number_from].
  - destruct (number_next_eof_error st) as [E|E]; rewrite E; [by apply scanned_error|].
    apply (just_read_unget 1) in H. rewrite app_nil_r. unfold scan_number_done. cbn [unget token_buffer].
    rewrite get_buffer. by apply scanned_token.
  - destruct (number_next st c) as [[st'|]|]; [..|by apply scanned_error].
    + apply just_begun in H; [|lia]. apply (reads_add _ _ _ [c]) in H.
      specialize (IH st' (number_type st ty) _ i H). cbn [length] in Hf. cbn [add token_buffer] in IH.
      rewrite get_buffer in IH. destruct (scan_number_from st' _ i) as [[[b ty'] r]|]; [|split; [by apply IH; lia|done]].
      rewrite <- !app_assoc in IH. apply IH. lia.
    + apply (just_read_unget 1) in H. apply reads_no_eof in H'. rewrite (proj2 (Z.eqb_neq _ _) H') in H.
      rewrite app_nil_r. unfold scan_number_done. cbn [unget token_buffer]. rewrite get_buffer. by apply scanned_token.
Qed.

Lemma scan_number_spec l c i :
  just_read 1 l c i → scanned (JsonParse.scan_number c i) (scan_number l).
Proof.
  intros H. unfold scan_number. apply just_read_reset in H. rewrite (jr_input _ _ _ _ H), (jr_current _ _ _ _ H).
  apply just_begun in H; [|lia]. apply (reads_add _ _ _ [c]) in H.
  unfold JsonParse.scan_number.
  set (st := if c =? 45 then number_minus else if c =? 48 then number_zero else number_any1).
  apply (number_loop_spec (S (length i)) st is_unsigned) in H; [|lia]. cbn [add reset token_buffer app] in H.
  destruct (scan_number_from st is_unsigned i) as [[[b ty] r]|]; exact H.
Qed.

(** ** The scanner *)

Lemma scan_literal_spec n p t l i :
  t ≠ parse_error → Forall (λ c, c ≠ eof) p → just_read 1 l n i →
  scanned (JsonParse.scan_literal p t i) (scan_literal p t l).
Proof.
  intros Ht Hp H. apply just_begun in H; [|lia]. clear n. unfold JsonParse.scan_literal. revert l i H.
  induction Hp as [|c p Hc _ IH]; intros l i H; cbn [prefixb scan_literal length].
  - cbn [drop]. by apply scanned_token.
  - get_next H. destruct i as [|x i].
    { rewrite (proj2 (Z.eqb_neq _ _)) by congruence. by apply scanned_error. }
    rewrite (Z.eqb_sym x c). destruct (c =? x); cbn [andb]; [|by apply scanned_error].
    apply just_begun in H; [|lia]. apply IH in H. cbn [drop].
    destruct (prefixb p i); [exact H|]. split; [apply H|done].
Qed.

Lemma skip_blanks_spec n f l i :
  reads n l i → (length i <= f)%nat →
  just_read (n + 1) (skip_blanks f l) (match JsonParse.skip_whitespace i with c :: _ => c | [] => eof end)
    (match JsonParse.skip_whitespace i with _ :: r => r | [] => [] end).
Proof.
  unfold JsonParse.skip_whitespace. revert l i. induction f as [|f IH]; intros l i H Hf; cbn [skip_blanks]; apply reads_get in H.
  { destruct i; [exact H|cbn in Hf; lia]. }
  rewrite (jr_current _ _ _ _ H). destruct i as [|c i]; [exact H|].
  cbn [drop_while length] in *. destruct (is_blank c); [|exact H].
  apply IH; [eapply (reads_le (n + 1)); [lia|by eapply just_read_reads]|lia].
Qed.

Lemma skip_whitespace_spec n l i :
  reads n l i →
  just_read (n + 1) (skip_whitespace l) (match JsonParse.skip_whitespace i with c :: _ => c | [] => eof end)
    (match JsonParse.skip_whitespace i with _ :: r => r | [] => [] end).
Proof.
  intros H. unfold skip_whitespace. apply skip_blanks_spec; [done|].
  destruct H as [-> _ _ _]. repeat case_match; cbn; lia.
Qed.

(** The reference on what follows the white space. *)
Definition token_ref (c : Z) (rest : text) : token * text :=
  if c =? 91 then (begin_array, rest)
  else if c =? 93 then (end_array, rest)
  else if c =? 123 then (begin_object, rest)
  else if c =? 125 then (end_object, rest)
  else if c =? 58 then (name_separator, rest)
  else if c =? 44 then (value_separator, rest)
  else if c =? 116 then JsonParse.scan_literal (lit "rue") literal_true rest
  else if c =? 102 then JsonParse.scan_literal (lit "alse") literal_false rest
  else if c =? 110 then JsonParse.scan_literal (lit "ull") literal_null rest
  else if c =? 34 then JsonParse.scan_string (length rest) rest
  else if (c =? 45) || is_digit c then JsonParse.scan_number c rest
  else if (c =? 0) || (c =? eof) then (end_of_input, rest)
  else (parse_error, rest).

Lemma token_ref_eq i :
  no_eof i →
  JsonParse.scan i = match JsonParse.skip_whitespace i with [] => token_ref eof [] | c :: r => token_ref c r end.
Proof.
  intros H. unfold JsonParse.scan, token_ref. destruct (JsonParse.skip_whitespace i) as [|c r] eqn:E; [done|].
  assert (Hc : c ≠ eof).
  { revert E. unfold JsonParse.skip_whitespace. induction H as [|x i Hx _ IH]; cbn [drop_while]; [done|].
    destruct (is_blank x); [done|]. by intros [= <- _]. }
  by rewrite (proj2 (Z.eqb_neq _ _) Hc), orb_false_r.
Qed.

Lemma scan_token_spec l c i : just_read 1 l c i → scanned (token_ref c i) (scan_token l).
Proof.
  intros H. unfold scan_token, token_ref. rewrite (jr_current _ _ _ _ H).
  assert (Hb : begun l i) by (eapply just_begun; [|exact H]; lia).
  repeat match goal with
  | |- scanned (if c =? ?k then (?t, i) else _) _ => destruct (c =? k); [by apply scanned_token|]
  | |- scanned (if c =? ?k then JsonParse.scan_literal _ _ _ else _) _ =>
      destruct (c =? k); [eapply scan_literal_spec; [done|by repeat constructor|exact H]|]
  end.
  destruct (Z.eqb_spec c 34) as [->|_]; [by apply scan_string_spec|].
  destruct (_ || _); [by apply scan_number_spec|]. destruct (_ || _); [by apply scanned_token|by apply scanned_error].
Qed.

(** Both lexers return the same tokens. *)
Lemma scan_spec l i : begun l i → no_eof i → scanned (JsonParse.scan i) (scan l).
Proof.
  intros H Hi. unfold scan. pose proof (rd_total _ _ _ H). rewrite (proj2 (Z.eqb_neq _ _)) by lia.
  rewrite token_ref_eq by done. apply (skip_whitespace_spec 1), (just_read_le _ 1) in H; [|lia].
  destruct (JsonParse.skip_whitespace i) as [|c r]; by apply scan_token_spec.
Qed.

Lemma reads_new input : no_eof input → reads 0 (Lexer_new input) input.
Proof. by split. Qed.

Lemma no_eof_reads n l i : reads n l i → no_eof i.
Proof.
  intros [-> Hb _ _]. destruct (next_unget l); [|done]. destruct (Z.eqb_spec (current l) eof); by constructor.
Qed.

(** ** The byte order mark *)

Lemma skip_bom_eq input :
  JsonParse.skip_bom input =
    match input with
    | c :: rest =>
        if c =? 0xEF then
          match rest with a :: b :: rest => if (a =? 0xBB) && (b =? 0xBF) then Some rest else None | _ => None end
        else Some input
    | [] => Some []
    end.
Proof.
  destruct input as [|c rest]; [done|]. unfold JsonParse.skip_bom. destruct (Z.eqb_spec c 0xEF) as [->|H].
  - destruct rest as [|a [|b rest]]; [done|by repeat case_match|].
    destruct (Z.eqb_spec a 0xBB) as [->|Ha]; cbn [andb]; [|by repeat (case_match; try done)].
    destruct (Z.eqb_spec b 0xBF) as [->|Hb]; [done|by repeat (case_match; try done)].
  - by repeat (case_match; try done).
Qed.

Lemma skip_bom_spec input :
  no_eof input →
  match JsonParse.skip_bom input with
  | None => ∃ l, skip_bom (Lexer_new input) = (false, l)
  | Some i => ∃ l, skip_bom (Lexer_new input) = (true, l) ∧ reads 0 l i ∧ no_eof i
  end.
Proof.
  intros Hi. rewrite skip_bom_eq. unfold skip_bom. pose proof (reads_new input Hi) as H. apply reads_get in H.
  rewrite (jr_current _ _ _ _ H). destruct input as [|c i].
  { apply (just_read_unget 0) in H. by eexists. }
  destruct (c =? 0xEF) eqn:Ec.
  - apply just_begun in H; [|lia]. get_next H. destruct i as [|a i]; [by eexists|].
    destruct (a =? 0xBB); cbn [andb]; [|destruct i; by eexists].
    apply just_begun in H; [|lia]. get_next H. destruct i as [|b i]; [by eexists|].
    destruct (b =? 0xBF); [|by eexists]. apply just_begun in H; [|lia].
    eexists. split; [done|]. split; [eapply reads_le; [|done]; lia|by eapply no_eof_reads].
  - pose proof (reads_no_eof _ _ _ _ (reads_new _ Hi)) as Hc. apply (just_read_unget 0) in H.
    rewrite (proj2 (Z.eqb_neq _ _) Hc) in H. by eexists.
Qed.

(** The first token. *)
Lemma first_scan_spec input :
  no_eof input →
  match JsonParse.skip_bom input with
  | None => fst (scan (Lexer_new input)) = parse_error
  | Some i => scanned (JsonParse.scan i) (scan (Lexer_new input))
  end.
Proof.
  intros Hi. pose proof (skip_bom_spec input Hi) as H. unfold scan.
  change (chars_read_total (Lexer_new input) =? 0) with true. cbn iota.
  destruct (JsonParse.skip_bom input) as [i|].
  - destruct H as (l & -> & H & Hi'). rewrite token_ref_eq by done. apply skip_whitespace_spec in H.
    destruct (JsonParse.skip_whitespace i) as [|c r]; by apply scan_token_spec.
  - by destruct H as (l & ->).
Qed.

(** * The parser *)

(** The states of the parser and of the reference agree. *)
Definition agree (p : JsonParse.Parser) (q : Parser) : Prop :=
  match p, q with
  | JsonParse.AtValue t i st, AtValue t' l st' => t' = t ∧ st' = st ∧ (t ≠ parse_error → begun l i)
  | JsonParse.AtState v i st, AtState v' l st' => v' = v ∧ st' = st ∧ begun l i
  | JsonParse.Parsed v i, Parsed v' l => v' = v ∧ begun l i
  | JsonParse.Failed, Threw _ => True
  | _, _ => False
  end.

(** Both lexers on the same input. *)
Lemma scan_both l i :
  begun l i → ∃ t r l', JsonParse.scan i = (t, r) ∧ scan l = (t, l') ∧ (t ≠ parse_error → begun l' r).
Proof.
  intros H. pose proof (scan_spec l i H (no_eof_reads _ _ _ H)) as [Ht Hr].
  destruct (JsonParse.scan i) as [t r], (scan l) as [t' l']. cbn in *. subst t'. by exists t, r, l'.
Qed.

Ltac scan_step H :=
  let t := fresh "t" in let r := fresh "r" in let l := fresh "l" in let E := fresh "E" in let E' := fresh "E" in
  let Hr := fresh "Hr" in
  destruct (scan_both _ _ H) as (t & r & l & E & E' & Hr); rewrite E, E'.

Lemma parse_key_agrees t i l ms st :
  (t ≠ parse_error → begun l i) → agree (JsonParse.parse_key t i ms st) (parse_key t l ms st).
Proof.
  intros H. unfold JsonParse.parse_key, parse_key. destruct t; try done.
  scan_step (H ltac:(done)). destruct t; try done. scan_step (Hr ltac:(done)). by split_and!.
Qed.

Lemma parse_step_agrees p q : agree p q → agree (JsonParse.parse_step p) (parse_step q).
Proof.
  destruct p as [t i st|v i st|v i|], q as [t' l st'|v' l st'|v' l|what]; try done.
  - intros (-> & -> & H). cbn [JsonParse.parse_step parse_step].
    destruct t; try done; try by (split_and!; auto).
    + scan_step (H ltac:(done)). destruct t; try done; by split_and!; auto.
    + scan_step (H ltac:(done)). destruct t; try (apply (parse_key_agrees); done). by split_and!; auto.
    + destruct (is_finite d); [|done]. by split_and!; auto.
    + by destruct (_ =? 1).
  - intros (-> & -> & H). cbn [JsonParse.parse_step parse_step]. destruct st as [|f st]; [done|].
    scan_step H. destruct (handle_value v f), t; try done; try by (split_and!; auto).
    + scan_step (Hr ltac:(done)). by split_and!.
    + scan_step (Hr ltac:(done)). by apply parse_key_agrees.
Qed.

Lemma parse_loop_agrees f p q :
  agree p q →
  match JsonParse.parse_loop f p with
  | Some p' => ∃ q', parse_loop f q = Some q' ∧ agree p' q'
  | None => parse_loop f q = None
  end.
Proof.
  revert p q. induction f as [|f IH]; intros p q H.
  - destruct p, q; try done; cbn; by eexists.
  - destruct p as [t i st|v i st|v i|], q as [t' l st'|v' l st'|v' l|what]; try done;
      cbn [JsonParse.parse_loop parse_loop]; try (by eexists); apply IH; by apply parse_step_agrees.
Qed.

Lemma parse_loop_more f f' p q :
  (f <= f')%nat → JsonParse.parse_loop f p = Some q → JsonParse.parse_loop f' p = Some q.
Proof.
  revert f' p. induction f as [|f IH]; intros f' p Hf.
  - cbn [JsonParse.parse_loop]. destruct p; try done; by destruct f'.
  - destruct f' as [|f']; [lia|]. cbn [JsonParse.parse_loop]. destruct p; try done; apply IH; lia.
Qed.

Lemma skip_bom_length input i : JsonParse.skip_bom input = Some i → (length i <= length input)%nat.
Proof.
  rewrite skip_bom_eq. destruct input as [|c rest]; [by intros [= <-]|]. destruct (c =? 0xEF); [|by intros [= <-]].
  destruct rest as [|a [|b rest]]; try done. destruct (_ && _); [|done]. intros [= <-]. cbn. lia.
Qed.

Lemma loop_refines input i t r l f :
  JsonParse.skip_bom input = Some i → JsonParse.scan i = (t, r) → (t ≠ parse_error → begun l r) →
  (parse_fuel i <= f)%nat →
  ∃ p q, JsonParse.parse_loop (parse_fuel i) (JsonParse.AtValue t r []) = Some p ∧
         parse_loop f (AtValue t l []) = Some q ∧ agree p q ∧ ended p.
Proof.
  intros Hb Hs Hr Hf.
  destruct (parse_loop_ends (parse_fuel i) (JsonParse.AtValue t r [])) as [p Hp].
  { unfold parse_fuel. destruct (turns_scanned _ _ _ [] Hs) as [?|[->| ->]]; [lia|cbn; lia..]. }
  pose proof (parse_loop_more _ _ _ _ Hf Hp) as Hp'.
  pose proof (parse_loop_agrees f (JsonParse.AtValue t r []) (AtValue t l []) ltac:(by split_and!)) as H.
  rewrite Hp' in H. destruct H as (q & Hq & Ha). exists p, q. split_and!; try done. by eapply parse_loop_ended.
Qed.

(** The states of both parsers agree to the end. *)
Lemma parse_refines strict input :
  no_eof input →
  match JsonParse.parse strict input with
  | Some v => parse strict input = Done v
  | None => ∃ what, parse strict input = Raised what
  end.
Proof.
  intros Hi. pose proof (first_scan_spec input Hi) as Hs. unfold JsonParse.parse, parse.
  destruct (JsonParse.skip_bom input) as [i|] eqn:Hb.
  2: { destruct (scan (Lexer_new input)) as [t l]. cbn in Hs. subst t. unfold parse_fuel. rewrite (Nat.add_comm _ 2). cbn. by eexists. }
  destruct Hs as [Ht Hr]. destruct (JsonParse.scan i) as [t r] eqn:E, (scan (Lexer_new input)) as [t' l].
  cbn in Ht, Hr. subst t'. apply skip_bom_length in Hb as Hl.
  destruct (loop_refines input i t r l (parse_fuel input) Hb E Hr) as (p & q & Hp & Hq & Ha & He).
  { unfold parse_fuel. lia. }
  rewrite Hp, Hq. destruct p as [| |v i'|], q as [| |v' l'|what]; try done; [|by eexists].
  destruct Ha as [-> Ha]. destruct strict; [|done]. scan_step Ha. destruct t0; try by eexists.
Qed.
