(* ===== verification/ParseErrors.v ===== *)
(** The texts of the exceptions of the parser of file Lexer: whatever bytes are
    parsed, the text that is thrown holds no control character, so that it is
    one line; what is thrown on a text whose first letter is not ASCII; and the
    parser refines that of file JsonParse. *)

From S2P Require Import Prelude.
From S2P Require Import Text.
From S2P Require Import Utf8.
From S2P Require Import Entities.
From S2P Require Import Json.
From S2P Require Import JsonDump.
From S2P Require Import JsonParse.
From S2P Require Import JsonText.
From S2P Require Import Lexer.

(** * The lexer *)

Abbreviation bytes := (Forall (λ c, 0 <= c)).

(** What a message may quote: a visible text, and bytes. *)
Record quotable (l : Lexer) : Prop := {
  qt_input : bytes (ia l);
  qt_current : current l = eof ∨ 0 <= current l;
  qt_string : bytes (token_string l);
  qt_message : visible (error_message l)
}.

Lemma get_quotable l : quotable l → quotable (get l).
Proof.
  intros [H1 H2 H3 H4]. unfold get. destruct (next_unget l), (ia l) as [|c i]; split; cbn; try done; auto;
    try (case_match; [done|]; apply Forall_app; split; [done|]; constructor; [|constructor]);
    repeat match goal with H : bytes (_ :: _) |- _ => inversion H; clear H; subst end; auto; bool_to_prop; try lia.
  all: destruct H2; [done|lia].
Qed.

Lemma unget_quotable l : quotable l → quotable (unget l).
Proof.
  intros [H1 H2 H3 H4]. split; try done. cbn. case_match; [done|].
  destruct (token_string l) as [|c s _] using rev_ind; [done|]. rewrite removelast_last. by apply Forall_app in H3 as [? _].
Qed.

Lemma add_quotable bs l : quotable l → quotable (add bs l).
Proof. by intros [H1 H2 H3 H4]. Qed.

Lemma reset_quotable l : current l ≠ eof → quotable l → quotable (reset l).
Proof. intros Hc [H1 [H2|H2] H3 H4]; [done|]. split; try done; [by right|by constructor]. Qed.

Lemma set_error_quotable what l : visible (lit what) → quotable l → quotable (set_error what l).
Proof. by intros Hw [H1 H2 H3 H4]. Qed.

Create HintDb quotable discriminated.
#[local] Hint Resolve get_quotable unget_quotable add_quotable : quotable.
#[local] Hint Extern 1 (quotable (set_error _ _)) => apply set_error_quotable; [visible_text|] : quotable.

Definition turn_quotable (t : turn) : Prop := match t with Continue l | Return _ l => quotable l end.

(** Follow the branches of an operation: each result is built from sound
    lexers. *)
Ltac quote := repeat (cbn [snd fst turn_quotable fail]; first [solve [eauto with quotable] | case_match]).

Lemma get_digits_quotable fs cp l : quotable l → quotable (snd (get_digits fs cp l)).
Proof. revert cp l. induction fs as [|f fs IH]; intros cp l H; cbn [get_digits]; quote. Qed.

Lemma get_codepoint_quotable l z l' : get_codepoint l = (z, l') → quotable l → quotable l'.
Proof. intros E H. apply (get_digits_quotable [12; 8; 4; 0] 0) in H. unfold get_codepoint in E. by rewrite E in H. Qed.

Lemma bytes_in_range_quotable rs l : quotable l → quotable (snd (bytes_in_range rs l)).
Proof. revert l. induction rs as [|[lo hi] rs IH]; intros l H; cbn [bytes_in_range]; quote. Qed.

Lemma next_byte_in_range_quotable rs l b l' : next_byte_in_range rs l = (b, l') → quotable l → quotable l'.
Proof.
  intros E H. apply (add_quotable [current l]), (bytes_in_range_quotable rs) in H. unfold next_byte_in_range in E.
  by rewrite E in H.
Qed.

#[local] Hint Resolve get_codepoint_quotable next_byte_in_range_quotable : quotable.

Lemma scan_low_surrogate_quotable cp l : quotable l → turn_quotable (scan_low_surrogate cp l).
Proof. intros H. unfold scan_low_surrogate, fail. quote. Qed.

Lemma scan_unicode_quotable l : quotable l → turn_quotable (scan_unicode l).
Proof.
  intros H. unfold scan_unicode, fail. destruct (get_codepoint l) as [z l'] eqn:E.
  assert (H' : quotable l') by eauto with quotable. repeat case_match; try by apply scan_low_surrogate_quotable.
  all: quote.
Qed.

Lemma scan_escape_quotable l : quotable l → turn_quotable (scan_escape l).
Proof.
  intros H. unfold scan_escape, fail. repeat (case_match; [by quote|]).
  case_match; [by apply scan_unicode_quotable, get_quotable|quote].
Qed.

Lemma control_message_visible c : 0 <= c <= 0x1F → visible (control_message c).
Proof.
  intros Hc. apply plain_visible, plain_forallb.
  apply (all_from_spec 32 0 (λ c, forallb (λ b, (0x20 <=? b) && (b <? 0x80)) (control_message c))); [by vm_compute|lia].
Qed.

Lemma string_turn_quotable l : quotable l → turn_quotable (string_turn l).
Proof.
  intros H. unfold string_turn. apply get_quotable in H. destruct (current (get l) =? eof); [unfold fail; quote|].
  destruct (current (get l) =? 34); [done|]. destruct (current (get l) =? 92); [by apply scan_escape_quotable|].
  destruct (_ && _) eqn:Hc.
  - bool_to_prop. destruct H as [Q1 Q2 Q3 Q4]. split; try done. apply control_message_visible. lia.
  - unfold fail. repeat case_match; quote.
Qed.

Lemma string_loop_quotable f l : quotable l → quotable (snd (string_loop f l)).
Proof.
  revert l. induction f as [|f IH]; intros l H; cbn [string_loop]; [done|].
  apply string_turn_quotable in H. destruct (string_turn l); [by apply IH|done].
Qed.

Lemma number_loop_quotable f st ty l : quotable l → quotable (snd (number_loop f st ty l)).
Proof.
  revert st ty l. induction f as [|f IH]; intros st ty l H; cbn [number_loop]; [done|]. apply get_quotable in H.
  destruct (number_next st _) as [[st'|]|]; cbn [snd scan_number_done].
  - by apply IH, add_quotable.
  - by apply unget_quotable.
  - apply set_error_quotable; [|done]. destruct st; visible_text.
Qed.

Lemma scan_literal_quotable p t l : quotable l → quotable (snd (scan_literal p t l)).
Proof. revert l. induction p as [|c p IH]; intros l H; cbn [scan_literal]; quote. Qed.

Lemma skip_bom_quotable l b l' : skip_bom l = (b, l') → quotable l → quotable l'.
Proof.
  unfold skip_bom. intros E H. repeat case_match; injection E as _ <-; eauto with quotable.
Qed.

Lemma skip_blanks_quotable f l : quotable l → quotable (skip_blanks f l).
Proof. revert l. induction f as [|f IH]; intros l H; cbn [skip_blanks]; quote. Qed.

Lemma scan_token_quotable l : quotable l → quotable (snd (scan_token l)).
Proof.
  intros H. unfold scan_token.
  repeat match goal with |- context [if current l =? ?k then (?t, l) else _] => destruct (current l =? k); [done|] end.
  do 3 (case_match; [by apply scan_literal_quotable|]).
  destruct (Z.eqb_spec (current l) 34) as [E|_].
  { apply string_loop_quotable, reset_quotable; [by rewrite E|done]. }
  destruct (_ || _) eqn:Hn.
  { apply number_loop_quotable, add_quotable, reset_quotable; [|done]. intros E. by rewrite E in Hn. }
  case_match; quote.
Qed.

Lemma scan_quotable l t l' : scan l = (t, l') → quotable l → quotable l'.
Proof.
  intros E H. replace l' with (snd (scan l)) by by rewrite E. clear E. unfold scan.
  destruct (if chars_read_total l =? 0 then skip_bom l else (true, l)) as [b l1] eqn:Hb.
  assert (H1 : quotable l1).
  { destruct (_ =? 0); [by eapply skip_bom_quotable|by injection Hb as _ <-]. }
  destruct b; [by apply scan_token_quotable, skip_blanks_quotable|]. quote.
Qed.

(** * The exceptions *)

Lemma get_token_string_visible l : quotable l → visible (get_token_string l).
Proof.
  intros [_ _ H _]. unfold get_token_string. induction H as [|c s Hc _ IH]; cbn [mbind list_bind]; [constructor|].
  apply Forall_app. split; [|done]. unfold escape_control. destruct (Z.leb_spec c 0x1F) as [Hle|Hgt].
  - apply plain_visible, plain_forallb.
    apply (all_from_spec 32 0 (λ c, forallb (λ b, (0x20 <=? b) && (b <? 0x80)) (lit "<U+00" ++ hex_bytes c ++ lit ">")));
      [by vm_compute|lia].
  - constructor; [lia|constructor].
Qed.

Lemma token_type_name_visible t : visible (token_type_name t).
Proof. destruct t; visible_text. Qed.

Lemma exception_message_visible t l e context :
  visible (lit context) → quotable l → visible (exception_message t l e context).
Proof.
  intros Hc H. unfold exception_message. pose proof (get_token_string_visible l H). pose proof (qt_message l H).
  pose proof (token_type_name_visible t). repeat (apply Forall_app; split); try visible_text.
  - destruct t; visible_text.
  - destruct e; [|visible_text..]. apply Forall_app. split; [visible_text|apply token_type_name_visible].
Qed.

Lemma parse_error_101_visible l what : visible what → visible (parse_error_101 l what).
Proof.
  intros H. apply cstr_Forall. apply Forall_app. split; [visible_text|]. apply Forall_app. split; [visible_text|].
  apply Forall_app. split; [|visible_text]. unfold position_string. visible_text.
Qed.

Lemma out_of_range_406_visible l : quotable l → visible (out_of_range_406 l).
Proof.
  intros H. apply cstr_Forall. pose proof (get_token_string_visible l H). apply Forall_app. split; visible_text.
Qed.

Definition parser_quotable (p : Parser) : Prop :=
  match p with
  | AtValue _ l _ | AtState _ l _ | Parsed _ l => quotable l
  | Threw what => visible what
  end.

Lemma unexpected_visible t l e context :
  visible (lit context) → quotable l → parser_quotable (unexpected t l e context).
Proof. intros Hc H. by apply parse_error_101_visible, exception_message_visible. Qed.

#[local] Hint Resolve scan_quotable : quotable.
#[local] Hint Extern 1 (parser_quotable (unexpected _ _ _ _)) => apply unexpected_visible; [visible_text|] : quotable.
#[local] Hint Extern 1 (Forall _ (parse_error_101 _ _)) => apply parse_error_101_visible; visible_text : quotable.
#[local] Hint Extern 1 (Forall _ (out_of_range_406 _)) => apply out_of_range_406_visible : quotable.

Ltac quote_parser := repeat (cbn [parser_quotable]; first [solve [eauto with quotable] | case_match]).

Lemma parse_key_quotable t l ms st : quotable l → parser_quotable (parse_key t l ms st).
Proof. intros H. unfold parse_key. quote_parser. Qed.

#[local] Hint Resolve parse_key_quotable : quotable.

Lemma parse_step_quotable p : parser_quotable p → parser_quotable (parse_step p).
Proof.
  destruct p as [t l st|v l st|v l|what]; cbn [parser_quotable parse_step]; try done; intros H.
  - destruct t; quote_parser.
  - destruct st as [|f st]; [done|]. destruct (scan l) as [t l'] eqn:E. quote_parser.
Qed.

Lemma parse_loop_quotable f p q : parse_loop f p = Some q → parser_quotable p → parser_quotable q.
Proof.
  revert p. induction f as [|f IH]; intros p; cbn [parse_loop]; destruct p; try done; try (by intros [= <-]);
    intros E H; by apply IH in E; [|apply parse_step_quotable].
Qed.

(** Whatever bytes are parsed, the text of the exception is one line without
    control characters. *)
Lemma parse_error_is_one_line strict input what :
  bytes input → parse strict input = Raised what → visible what.
Proof.
  intros Hi. unfold parse. destruct (scan (Lexer_new input)) as [t l] eqn:Es.
  apply scan_quotable in Es; [|by split; auto].
  destruct (parse_loop _ _) as [q|] eqn:E; [|done]. apply parse_loop_quotable in E; [|done].
  destruct q as [| |v l'|w]; try done; [|by intros [= <-]].
  destruct strict; [|done]. destruct (scan l') as [t' l''] eqn:E'. apply scan_quotable in E'; [|done].
  destruct t'; try done; intros [= <-]; apply parse_error_101_visible, exception_message_visible; by visible_text.
Qed.

(** ** An error of the first byte *)

(** What is thrown on a text that begins with a byte that begins no token. *)
Definition bad_literal (c : Z) : text :=
  lit "[json.exception.parse_error.101] parse error at line 1, column 1: syntax error while parsing value - invalid literal; last read: '" ++
  [c] ++ lit "'".

(** The lexer after that byte. *)
Definition after_first (c : Z) (rest : text) : Lexer := mkLexer rest c false 1 1 0 [c] [] (lit "invalid literal").

Lemma scan_high_byte c rest :
  0x80 <= c → c ≠ 0xEF → scan (Lexer_new (c :: rest)) = (parse_error, after_first c rest).
Proof.
  intros Hc He. unfold scan, skip_bom, get, unget, skip_whitespace, Lexer_new.
  cbn [chars_read_total chars_read_current_line lines_read ia next_unget current token_string token_buffer error_message
       skip_blanks length get app removelast Z.add Z.sub Z.eqb].
  assert (Hn : ∀ k, k < 0x80 → (c =? k) = false) by (intros k Hk; apply Z.eqb_neq; lia).
  unfold is_blank, scan_token, is_digit, eof. rewrite (proj2 (Z.eqb_neq _ _) He).
  cbn [chars_read_total chars_read_current_line lines_read ia next_unget current token_string token_buffer error_message].
  rewrite !Hn by lia. cbn. rewrite !Hn by lia. rewrite (proj2 (Z.leb_gt c 57)) by lia. rewrite andb_false_r. unfold eof. by rewrite Hn by lia.
Qed.

(** The text that is thrown quotes the byte alone. *)
Lemma parse_high_byte strict c rest :
  0x80 <= c < 256 → c ≠ 0xEF → parse strict (c :: rest) = Raised (bad_literal c).
Proof.
  intros Hc He. unfold parse. rewrite scan_high_byte by lia. unfold parse_fuel. rewrite (Nat.add_comm _ 2).
  change (2 + ?n)%nat with (S (S n)). cbn [parse_loop parse_step]. unfold unexpected. f_equal.
  change (parse_error_101 (after_first c rest) (exception_message parse_error (after_first c rest) uninitialized "value"))
    with (parse_error_101 (after_first c []) (exception_message parse_error (after_first c []) uninitialized "value")).
  apply text_eqb_spec. set (p c := text_eqb
    (parse_error_101 (after_first c []) (exception_message parse_error (after_first c []) uninitialized "value")) (bad_literal c)).
  assert (H : (c <? 0x80) || p c = true).
  { apply (all_from_spec 256 0 (λ c, (c <? 0x80) || p c)); [by vm_compute|lia]. }
  by rewrite (proj2 (Z.ltb_ge c 0x80)) in H by lia.
Qed.

(** It is no UTF-8. *)
Lemma bad_literal_text c : 0x80 <= c < 256 → is_bytes (bad_literal c) = true ∧ is_utf8 (bad_literal c) = false.
Proof.
  intros Hc. set (p c := is_bytes (bad_literal c) && negb (is_utf8 (bad_literal c))).
  assert (H : (c <? 0x80) || p c = true).
  { apply (all_from_spec 256 0 (λ c, (c <? 0x80) || p c)); [by vm_compute|lia]. }
  rewrite (proj2 (Z.ltb_ge c 0x80)) in H by lia. apply andb_prop in H as [H1 H2]. split; [exact H1|]. apply (proj1 (negb_true_iff _)). exact H2.
Qed.

(** A text that begins like a byte order mark that is none. *)
Definition bad_bom (d : Z) : text :=
  lit "[json.exception.parse_error.101] parse error at line 1, column 2: syntax error while parsing value - invalid BOM; must be 0xEF 0xBB 0xBF if given; last read: '" ++
  [0xEF; d] ++ lit "'".

Definition after_bom (d : Z) (rest : text) : Lexer :=
  mkLexer rest d false 2 2 0 [0xEF; d] [] (lit "invalid BOM; must be 0xEF 0xBB 0xBF if given").

Lemma scan_bad_bom d rest :
  0x80 <= d → d ≠ 0xBB → scan (Lexer_new (0xEF :: d :: rest)) = (parse_error, after_bom d rest).
Proof.
  intros Hd He. unfold scan, skip_bom, get, Lexer_new.
  cbn [chars_read_total chars_read_current_line lines_read ia next_unget current token_string token_buffer error_message
       app Z.add Z.eqb].
  cbn. rewrite (proj2 (Z.eqb_neq d 10)), (proj2 (Z.eqb_neq d eof)), (proj2 (Z.eqb_neq d 187)) by (unfold eof; lia).
  done.
Qed.

Lemma parse_bad_bom strict d rest :
  0x80 <= d < 0xC0 → d ≠ 0xBB → parse strict (0xEF :: d :: rest) = Raised (bad_bom d).
Proof.
  intros Hd He. unfold parse. rewrite scan_bad_bom by lia. unfold parse_fuel. rewrite (Nat.add_comm _ 2).
  change (2 + ?n)%nat with (S (S n)). cbn [parse_loop parse_step]. unfold unexpected. f_equal.
  change (parse_error_101 (after_bom d rest) (exception_message parse_error (after_bom d rest) uninitialized "value"))
    with (parse_error_101 (after_bom d []) (exception_message parse_error (after_bom d []) uninitialized "value")).
  apply text_eqb_spec. exact (all_from_spec 64 0x80 (λ d, text_eqb
    (parse_error_101 (after_bom d []) (exception_message parse_error (after_bom d []) uninitialized "value"))
    (bad_bom d)) d eq_refl Hd).
Qed.

Lemma bad_bom_text d : 0x80 <= d < 0xC0 → is_bytes (bad_bom d) = true ∧ is_utf8 (bad_bom d) = false.
Proof.
  intros Hd.
  pose proof (all_from_spec 64 0x80 (λ d, is_bytes (bad_bom d) && negb (is_utf8 (bad_bom d))) d eq_refl Hd) as H.
  apply andb_prop in H as [H1 H2]. split; [exact H1|]. apply (proj1 (negb_true_iff _)). exact H2.
Qed.

(** ** A text whose first letter is not ASCII *)

(** Such a text, but for the letters from U+FEC0 to U+FEFF, whose first two
    bytes are those of a byte order mark. *)
Definition foreign (s : text) : bool :=
  match s with
  | [] => false
  | c :: rest => (0x80 <=? c) && negb ((c =? 0xEF) && match rest with d :: _ => d =? 0xBB | [] => false end)
  end.

(** What is thrown on it. *)
Definition foreign_error (s : text) : text :=
  match s with
  | c :: rest => if c =? 0xEF then bad_bom (nth 0 rest 0) else bad_literal c
  | [] => []
  end.

Lemma after_ef rest : text_typed (0xEF :: rest) → ∃ d rest', rest = d :: rest' ∧ 0x80 <= d < 0xC0.
Proof.
  intros [Hb Hu]. destruct rest as [|d rest]; [vm_compute in Hu; discriminate|]. exists d, rest. split; [done|].
  cbn [is_bytes forallb] in Hb. apply andb_prop in Hb as [_ Hb]. apply andb_prop in Hb as [Hd _].
  unfold is_utf8 in Hu. cbn [decode_text] in Hu.
  change (decode 0 0 0xEF) with (3, 15) in Hu. cbn -[decode decode_text] in Hu.
  destruct (decode 3 15 d) as [st cp] eqn:E.
  assert (Hst : st ≠ UTF8_REJECT) by (intros ->; done).
  assert (H : ((0x80 <=? d) && (d <? 0xC0)) || (fst (decode 3 15 d) =? UTF8_REJECT) = true).
  { refine (all_from_spec 256 0 (λ d, ((0x80 <=? d) && (d <? 0xC0)) || (fst (decode 3 15 d) =? UTF8_REJECT)) d _ _);
      [vm_compute; reflexivity|]. unfold is_byte in Hd. bool_to_prop. lia. }
  rewrite E in H. cbn [fst] in H. rewrite (proj2 (Z.eqb_neq _ _) Hst), orb_false_r in H. bool_to_prop. lia.
Qed.

Lemma parse_foreign strict s :
  text_typed s → foreign s = true →
  parse strict s = Raised (foreign_error s) ∧ is_bytes (foreign_error s) = true ∧ is_utf8 (foreign_error s) = false.
Proof.
  destruct s as [|c rest]; [done|]. intros Ht Hf. unfold foreign in Hf. unfold foreign_error.
  apply andb_prop in Hf as [Hc Hf]. apply Z.leb_le in Hc. destruct (Z.eqb_spec c 0xEF) as [->|He].
  - destruct (after_ef _ Ht) as (d & rest' & -> & Hd). cbn [nth]. cbn [andb] in Hf.
    apply negb_true_iff, Z.eqb_neq in Hf. split; [by apply parse_bad_bom|by apply bad_bom_text].
  - assert (c < 256).
    { destruct Ht as [Hb _]. cbn [is_bytes forallb] in Hb. apply andb_prop in Hb as [Hb _]. bool_to_prop. lia. }
    split; [by apply parse_high_byte|by apply bad_literal_text].
Qed.

(** * The parser and its reference *)

(** C14: The parser with all its state, which puts one character back at a time and
    collects buffers, positions and messages, accepts exactly the texts of the
    reference, with the same values; on every other text of bytes it ends too,
    with an exception whose text is one line without control characters. *)
Theorem parser_refines_reference strict input :
  Forall is_byte input →
  (∀ v, Lexer.parse strict input = Done v ↔ JsonParse.parse strict input = Some v) ∧
  (JsonParse.parse strict input = None → ∃ what, Lexer.parse strict input = Raised what ∧ visible what).
Proof.
  intros Hi. pose proof (parse_refines strict input) as H.
  assert (Hb : no_eof input) by (eapply Forall_impl; [exact Hi|]; unfold in_u, eof; cbn; lia).
  specialize (H Hb). destruct (JsonParse.parse strict input) as [j|].
  - split; [|done]. intros v. rewrite H. split; by intros [= ->].
  - destruct H as (what & H). rewrite H. split; [by intros v; split|]. intros _. exists what. split; [done|].
    eapply parse_error_is_one_line; [|exact H]. eapply Forall_impl; [exact Hi|]. unfold in_u. cbn. lia.
Qed.

Lemma parser_refines_reference_witness :
  (∀ v, Lexer.parse true (lit "[1, 22] ") = Done v ↔ v = JArr [JInt 1; JInt 22]) ∧
  ∃ what, Lexer.parse true (lit "[1, 2" ++ [10]) = Raised what ∧ visible what.
Proof.
  assert (Hb : ∀ s, forallb (λ b, (0 <=? b) && (b <? 256)) s = true → Forall is_byte s) by exact forallb_bytes.
  destruct (parser_refines_reference true (lit "[1, 22] ")) as [H _]; [apply Hb; vm_compute; reflexivity|].
  destruct (parser_refines_reference true (lit "[1, 2" ++ [10])) as [_ H']; [apply Hb; vm_compute; reflexivity|].
  split.
  - intros v. rewrite H. change (JsonParse.parse true (lit "[1, 22] ")) with (Some (JArr [JInt 1; JInt 22])).
    split; congruence.
  - apply H'. vm_compute. reflexivity.
Defined.
