(* ===== verification/Agent.v ===== *)
(** The authentication agent that runs in the user's session:
    [ContextStore.h/.cpp], [SspiEngine.h/.cpp] and the request handling of
    [main.cpp] under src/auth-agent.

    The security support provider is a parameter: its answers come with each
    request, and the handles it has handed out and not yet taken back are the
    [Sspi] part of the state.  Deleting a handle that is not live is a fault
    ([None]).  A request is one step here; AgentThreads takes it apart. *)

From S2P Require Import Prelude.
From S2P Require Import Text.
From S2P Require Import Base64.
From S2P Require Import Json.

(** * SSPI *)

Record Sspi := mkSspi { sp_creds : gset Z; sp_ctxs : gset Z }.

Definition FreeCredentialsHandle (h : Z) (s : Sspi) : option Sspi :=
  if decide (h ∈ sp_creds s) then Some (mkSspi (sp_creds s ∖ {[h]}) (sp_ctxs s)) else None.

Definition DeleteSecurityContext (h : Z) (s : Sspi) : option Sspi :=
  if decide (h ∈ sp_ctxs s) then Some (mkSspi (sp_creds s) (sp_ctxs s ∖ {[h]})) else None.

Definition SEC_E_OK : Z := 0.
Definition SEC_I_CONTINUE_NEEDED : Z := 0x00090312.
Definition SEC_I_COMPLETE_NEEDED : Z := 0x00090313.
Definition SEC_I_COMPLETE_AND_CONTINUE : Z := 0x00090314.
Definition SEC_E_INVALID_HANDLE : Z := 0x80090301.
Definition SEC_E_TARGET_UNKNOWN : Z := 0x80090303.
Definition SEC_E_INTERNAL_ERROR : Z := 0x80090304.
Definition SEC_E_INVALID_TOKEN : Z := 0x80090308.
Definition SEC_E_LOGON_DENIED : Z := 0x8009030C.
Definition SEC_E_NO_CREDENTIALS : Z := 0x8009030E.
Definition SEC_E_WRONG_PRINCIPAL : Z := 0x80090322.

(** What SSPI answers while a request is handled. *)
Record SspiAnswers := mkAnswers {
  sa_acquire : Z;                          (* AcquireCredentialsHandleW *)
  sa_cred : Z;
  sa_init : text → Z;                      (* InitializeSecurityContextW, per target *)
  sa_ctx : Z;
  sa_token : option text;                  (* the output buffer *)
  sa_continue : Z → text → Z * option text (* the next call, per context and input *)
}.

(** * ContextStore *)

Record ContextEntry := mkEntry {
  en_credentials : Z;
  en_context : Z;
  en_spn : text;
  en_created_at : Z;     (* steady_clock, nanoseconds *)
  en_ttl : Z;            (* seconds *)
  en_in_use : bool
}.

Definition kDefaultTtl : Z := 1800.

Definition IsExpired (now : Z) (e : ContextEntry) : bool :=
  en_ttl e * 1000000000 <? now - en_created_at e.

Record ContextStore := mkStore { m_contexts : gmap Z ContextEntry; m_nextId : Z }.

Definition ContextStore_new : ContextStore := mkStore ∅ 1.

(** [DestroyContext]; clearing [in_use] matters only to an entry that stays,
    and every caller erases the entry. *)
Definition DestroyContext (e : ContextEntry) (s : Sspi) : option Sspi :=
  if en_in_use e then
    match DeleteSecurityContext (en_context e) s with
    | Some s => FreeCredentialsHandle (en_credentials e) s
    | None => None
    end
  else Some s.

Definition Create (now credentials context : Z) (spn : text) (ttl : Z) (st : ContextStore)
    : Z * ContextStore :=
  let id := m_nextId st in
  (id, mkStore (<[id := mkEntry credentials context spn now ttl true]> (m_contexts st)) (id +u64 1)).

Definition Get (now id : Z) (st : ContextStore) (s : Sspi)
    : option (option ContextEntry * ContextStore * Sspi) :=
  match m_contexts st !! id with
  | None => Some (None, st, s)
  | Some e =>
      if IsExpired now e then
        match DestroyContext e s with
        | Some s => Some (None, mkStore (delete id (m_contexts st)) (m_nextId st), s)
        | None => None
        end
      else Some (Some e, st, s)
  end.

Definition Close (id : Z) (st : ContextStore) (s : Sspi) : option (ContextStore * Sspi) :=
  match m_contexts st !! id with
  | None => Some (st, s)
  | Some e =>
      match DestroyContext e s with
      | Some s => Some (mkStore (delete id (m_contexts st)) (m_nextId st), s)
      | None => None
      end
  end.

Fixpoint destroy_all (l : list (Z * ContextEntry)) (s : Sspi) : option Sspi :=
  match l with
  | [] => Some s
  | (_, e) :: l' => match DestroyContext e s with Some s => destroy_all l' s | None => None end
  end.

Definition CleanupExpired (now : Z) (st : ContextStore) (s : Sspi) : option (ContextStore * Sspi) :=
  let expired := filter (λ p, IsExpired now (snd p) = true) (m_contexts st) in
  match destroy_all (map_to_list expired) s with
  | Some s =>
      Some (mkStore (filter (λ p, ¬ IsExpired now (snd p) = true) (m_contexts st)) (m_nextId st), s)
  | None => None
  end.

Definition Clear (st : ContextStore) (s : Sspi) : option (ContextStore * Sspi) :=
  match destroy_all (map_to_list (m_contexts st)) s with
  | Some s => Some (mkStore ∅ (m_nextId st), s)
  | None => None
  end.

Definition Size (st : ContextStore) : nat := size (m_contexts st).

(** * SspiEngine *)

Record SspiStepResult := mkStep {
  sr_success : bool;
  sr_token : text;
  sr_needs_continue : bool;
  sr_error_message : text
}.

Definition hex_digit (d : Z) : Z := if d <? 10 then 48 + d else 55 + d.

Fixpoint hex_upper (n : nat) (z : Z) : text :=
  match n with O => [] | S n' => hex_upper n' (z / 16) ++ [hex_digit (z mod 16)] end.

Definition dash : text := lit " " ++ [226; 128; 148] ++ lit " ".

Definition SspiErrorText (sc : Z) : text :=
  if sc =? SEC_E_NO_CREDENTIALS then
    lit "SEC_E_NO_CREDENTIALS" ++ dash ++ lit "Kerberos/NTLM credentials not available"
  else if sc =? SEC_E_WRONG_PRINCIPAL then
    lit "SEC_E_WRONG_PRINCIPAL" ++ dash ++ lit "target principal mismatch"
  else if sc =? SEC_E_TARGET_UNKNOWN then
    lit "SEC_E_TARGET_UNKNOWN" ++ dash ++ lit "SPN not recognized"
  else if sc =? SEC_E_INVALID_TOKEN then
    lit "SEC_E_INVALID_TOKEN" ++ dash ++ lit "malformed token"
  else if sc =? SEC_E_INVALID_HANDLE then
    lit "SEC_E_INVALID_HANDLE" ++ dash ++ lit "invalid context handle"
  else if sc =? SEC_E_INTERNAL_ERROR then
    lit "SEC_E_INTERNAL_ERROR" ++ dash ++ lit "LSA internal error"
  else if sc =? SEC_E_LOGON_DENIED then
    lit "SEC_E_LOGON_DENIED" ++ dash ++ lit "logon denied"
  else lit "0x" ++ hex_upper 8 (wrap 32 sc).

Definition EngineMakeSpn (host : text) : text := lit "HTTP/" ++ host.

Definition sspi_ok (sc : Z) : bool :=
  (sc =? SEC_E_OK) || (sc =? SEC_I_CONTINUE_NEEDED)
  || (sc =? SEC_I_COMPLETE_NEEDED) || (sc =? SEC_I_COMPLETE_AND_CONTINUE).

Definition sspi_continues (sc : Z) : bool :=
  (sc =? SEC_I_CONTINUE_NEEDED) || (sc =? SEC_I_COMPLETE_AND_CONTINUE).

(** [if (cbBuffer > 0 && pvBuffer != nullptr) result.token = Base64Encode(...)] *)
Definition encode_token (t : option text) : text :=
  match t with Some bytes => EngineBase64Encode bytes | None => [] end.

(** The result and, on success, the two handles that are now live. *)
Definition SspiEngine_CreateContext (a : SspiAnswers) (spn : text) (s : Sspi)
    : option (SspiStepResult * Sspi) :=
  let sc := sa_acquire a in
  if negb (sc =? SEC_E_OK) then
    Some (mkStep false [] false (lit "AcquireCredentialsHandleW failed: " ++ SspiErrorText sc), s)
  else
    let s := mkSspi ({[sa_cred a]} ∪ sp_creds s) (sp_ctxs s) in
    let sc := sa_init a (EngineMakeSpn spn) in
    if sspi_ok sc then
      Some (mkStep true (encode_token (sa_token a)) (sspi_continues sc) [],
            mkSspi (sp_creds s) ({[sa_ctx a]} ∪ sp_ctxs s))
    else
      match FreeCredentialsHandle (sa_cred a) s with
      | Some s => Some (mkStep false [] false
                          (lit "InitializeSecurityContextW failed: " ++ SspiErrorText sc), s)
      | None => None
      end.

Definition SspiEngine_ContinueContext (a : SspiAnswers) (context : Z) (challenge : text)
    : SspiStepResult :=
  let '(sc, token) := sa_continue a context (EngineBase64Decode challenge) in
  if sspi_ok sc then mkStep true (encode_token token) (sspi_continues sc) []
  else mkStep false [] false (lit "InitializeSecurityContextW (continue) failed: " ++ SspiErrorText sc).

(** * Requests (main.cpp) *)

Record AgentState := mkAgent { g_store : ContextStore; g_sspi : Sspi }.

Definition error_reply (code : Z) (message : text) : text * json :=
  (lit "error", obj [("code", JInt code); ("message", JStr message)]%string).

Definition result_reply (l : list (String.string * json)) : text * json := (lit "result", obj l).

(** A method's reply, or the exception it throws; [None] is a fault. *)
Abbreviation reply := (option (AgentState * exec (text * json))).

Definition do_hello (params : exec json) (st : AgentState) : reply :=
  Some (st, p <-? params;; _ <-? value_or get_int "version" 0 p;;
            Done (result_reply [("version", JInt 1);
                                ("agent", JStr (lit "TcpRedirectorAuthAgent/1.1.0"))]%string)).

Definition do_create (a : SspiAnswers) (now : Z) (params : exec json) (st : AgentState) : reply :=
  match p <-? params;; v <-? at_const "spn" p;; get_string v with
  | Raised e => Some (st, Raised e)
  | Undefined => Some (st, Undefined)
  | Done spn =>
      match SspiEngine_CreateContext a spn (g_sspi st) with
      | None => None
      | Some (r, sspi) =>
          if negb (sr_success r) then
            Some (mkAgent (g_store st) sspi, Done (error_reply (-1) (sr_error_message r)))
          else
            let '(contextId, store) := Create now (sa_cred a) (sa_ctx a) spn kDefaultTtl (g_store st) in
            Some (mkAgent store sspi,
                  Done (result_reply [("context_id", JInt contextId); ("token", JStr (sr_token r));
                                      ("continue", JBool (sr_needs_continue r))]%string))
      end
  end.

Definition not_found (contextId : Z) : text :=
  lit "Context not found or expired (id=" ++ to_string contextId ++ lit ")".

Definition close_in (contextId : Z) (st : AgentState) : option AgentState :=
  match Close contextId (g_store st) (g_sspi st) with
  | Some (store, sspi) => Some (mkAgent store sspi)
  | None => None
  end.

Definition do_continue (a : SspiAnswers) (now : Z) (params : exec json) (st : AgentState) : reply :=
  match p <-? params;; i <-? at_const "context_id" p;; id <-? get_uint64 i;;
        c <-? at_const "challenge" p;; ch <-? get_string c;; Done (id, ch) with
  | Raised e => Some (st, Raised e)
  | Undefined => Some (st, Undefined)
  | Done (contextId, challenge) =>
      match Get now contextId (g_store st) (g_sspi st) with
      | None => None
      | Some (None, store, sspi) =>
          Some (mkAgent store sspi, Done (error_reply (-2) (not_found contextId)))
      | Some (Some entry, store, sspi) =>
          let st := mkAgent store sspi in
          let r := SspiEngine_ContinueContext a (en_context entry) challenge in
          if negb (sr_success r) then
            match close_in contextId st with
            | Some st => Some (st, Done (error_reply (-1) (sr_error_message r)))
            | None => None
            end
          else
            let answer := Done (result_reply [("token", JStr (sr_token r));
                                              ("continue", JBool (sr_needs_continue r))]%string) in
            if sr_needs_continue r then Some (st, answer)
            else match close_in contextId st with
                 | Some st => Some (st, answer)
                 | None => None
                 end
      end
  end.

Definition do_close (params : exec json) (st : AgentState) : reply :=
  match p <-? params;; i <-? at_const "context_id" p;; get_uint64 i with
  | Raised e => Some (st, Raised e)
  | Undefined => Some (st, Undefined)
  | Done contextId =>
      match close_in contextId st with
      | Some st => Some (st, Done (result_reply [("closed", JBool true)]%string))
      | None => None
      end
  end.

Definition dispatch (a : SspiAnswers) (now : Z) (method : text) (req : json) (st : AgentState) : reply :=
  let params := at_const "params" req in
  if text_eqb method (lit "hello") then do_hello params st
  else if text_eqb method (lit "ping") then
    Some (st, Done (result_reply [("pong", JBool true)]%string))
  else if text_eqb method (lit "create_context") then do_create a now params st
  else if text_eqb method (lit "continue_context") then do_continue a now params st
  else if text_eqb method (lit "close_context") then do_close params st
  else Some (st, Done (error_reply (-32601) (lit "Method not found: " ++ method))).

(** [resp\["jsonrpc"\] = "2.0"; resp\["id"\] = id;] and the result or error. *)
Definition envelope (id : json) (kv : text * json) : json :=
  JObj (assoc_set (fst kv) (snd kv)
    (assoc_set (lit "id") id (assoc_set (lit "jsonrpc") (JStr (lit "2.0")) []))).

(** [HandleRequest].  The id and the method are read outside the [try]. *)
Definition HandleRequest (a : SspiAnswers) (now : Z) (req : json) (st : AgentState)
    : option (AgentState * exec json) :=
  match value_or get_null "id" JNull req with
  | Raised e => Some (st, Raised e)
  | Undefined => Some (st, Undefined)
  | Done id =>
      match value_or get_string "method" [] req with
      | Raised e => Some (st, Raised e)
      | Undefined => Some (st, Undefined)
      | Done method =>
          let resp := envelope id in
          match dispatch a now method req st with
          | None => None
          | Some (st, Done kv) => Some (st, Done (resp kv))
          | Some (st, Raised what) =>
              Some (st, Done (resp (error_reply (-32603) (lit "Internal error: " ++ what))))
          | Some (st, Undefined) => Some (st, Undefined)
          end
      end
  end.

(** One turn of [HandleClient].  [req] is the parsed message ([None]: reading
    or parsing threw); the turn ends the session, or sends a reply. *)
Inductive Turn :=
| Replied (resp : json)
| Disconnected
| Undefined_behaviour.

Definition HandleClient_turn (a : SspiAnswers) (now : Z) (req : option json) (st : AgentState)
    : option (AgentState * Turn) :=
  match req with
  | None => Some (st, Disconnected)
  | Some req =>
      match HandleRequest a now req st with
      | None => None
      | Some (st, Done resp) => Some (st, Replied resp)
      | Some (st, Raised _) => Some (st, Disconnected)
      | Some (st, Undefined) => Some (st, Undefined_behaviour)
      end
  end.

(** * The store owns the handles *)

Definition owned_once (f : ContextEntry → Z) (m : gmap Z ContextEntry) (live : gset Z) : Prop :=
  (∀ h, h ∈ live ↔ ∃ i e, m !! i = Some e ∧ f e = h) ∧
  (∀ i j e e', m !! i = Some e → m !! j = Some e' → f e = f e' → i = j).

(** Every live handle is in exactly one entry, and every entry is in use. *)
Definition owns (m : gmap Z ContextEntry) (s : Sspi) : Prop :=
  map_Forall (λ _ e, en_in_use e = true) m ∧
  owned_once en_credentials m (sp_creds s) ∧ owned_once en_context m (sp_ctxs s).

Lemma owned_once_delete f m live i e :
  owned_once f m live → m !! i = Some e →
  f e ∈ live ∧ owned_once f (delete i m) (live ∖ {[f e]}).
Proof.
  intros [H1 H2] Hi. split; [apply H1; eauto|]. split.
  - intros h. rewrite elem_of_difference, H1, elem_of_singleton. split.
    + intros [(j & e' & Hj & <-) Hne]. exists j, e'. split; [|done].
      rewrite lookup_delete_ne; [done|]. intros ->. simplify_eq.
    + intros (j & e' & [Hj1 Hj2]%lookup_delete_Some & <-). split; [eauto|].
      intros Heq. by destruct Hj1, (H2 _ _ _ _ Hj2 Hi Heq).
  - intros j k e1 e2 [_ Hj]%lookup_delete_Some [_ Hk]%lookup_delete_Some. by apply H2.
Qed.

Lemma owned_once_insert f m live i e :
  owned_once f m live → m !! i = None → f e ∉ live →
  owned_once f (<[i := e]> m) ({[f e]} ∪ live).
Proof.
  intros [H1 H2] Hi He. split.
  - intros h. rewrite elem_of_union, elem_of_singleton, H1. split.
    + intros [->|(j & e' & Hj & <-)]; [exists i, e; by rewrite lookup_insert_eq|].
      exists j, e'. split; [|done]. rewrite lookup_insert_ne; [done|]. intros ->. congruence.
    + intros (j & e' & [[-> ->]|[_ Hj]]%lookup_insert_Some & <-); eauto.
  - intros j k e1 e2 Hj Hk Heq.
    apply lookup_insert_Some in Hj as [[<- <-]|[? Hj]], Hk as [[<- <-]|[? Hk]]; [done| | |by eauto].
    + destruct He. rewrite Heq. apply H1. eauto.
    + destruct He. rewrite <- Heq. apply H1. eauto.
Qed.

Lemma owns_delete m s i e :
  owns m s → m !! i = Some e →
  ∃ s', DestroyContext e s = Some s' ∧ owns (delete i m) s'.
Proof.
  intros (Hu & Hc & Hx) Hi.
  destruct (owned_once_delete _ _ _ _ _ Hc Hi) as [Hc1 Hc2].
  destruct (owned_once_delete _ _ _ _ _ Hx Hi) as [Hx1 Hx2].
  unfold DestroyContext, DeleteSecurityContext, FreeCredentialsHandle. rewrite (Hu _ _ Hi).
  rewrite decide_True by done. cbn [sp_creds sp_ctxs]. rewrite decide_True by done.
  eexists. split; [done|]. split; [by apply map_Forall_delete|]. done.
Qed.

Lemma owns_destroy_all l m s :
  owns m s → NoDup (fst <$> l) → (∀ i e, (i, e) ∈ l → m !! i = Some e) →
  ∃ s' m', destroy_all l s = Some s' ∧ owns m' s' ∧
    ∀ i, m' !! i = if decide (i ∈ fst <$> l) then None else m !! i.
Proof.
  revert m s. induction l as [|[i e] l IH]; intros m s Ho Hnd Hm.
  - exists s, m. split; [done|]. split; [done|]. done.
  - rewrite fmap_cons in Hnd. apply NoDup_cons in Hnd as [Hi Hnd].
    destruct (owns_delete m s i e Ho) as (s1 & E & Ho1); [by apply Hm; left|].
    destruct (IH (delete i m) s1 Ho1 Hnd) as (s' & m' & E' & Ho' & Hl).
    { intros j e' Hj. rewrite lookup_delete_ne; [by apply Hm; right|].
      intros ->. apply Hi. apply list_elem_of_fmap. by exists (j, e'). }
    exists s', m'. cbn [destroy_all]. rewrite E. split; [done|]. split; [done|].
    intros j. rewrite Hl, fmap_cons. cbn [fst].
    destruct (decide (j = i)) as [->|Hne].
    + rewrite decide_False, decide_True by (done || by left). by rewrite lookup_delete_eq.
    + rewrite lookup_delete_ne by done. apply decide_ext. rewrite elem_of_cons. naive_solver.
Qed.

Lemma owns_map_to_list m m1 s :
  owns m s → m1 ⊆ m →
  ∃ s', destroy_all (map_to_list m1) s = Some s' ∧ owns (m ∖ m1) s'.
Proof.
  intros Ho Hsub.
  destruct (owns_destroy_all (map_to_list m1) m s Ho) as (s' & m' & E & Ho' & Hl).
  - apply NoDup_fst_map_to_list.
  - intros i e H%elem_of_map_to_list. by eapply lookup_weaken.
  - exists s'. split; [done|]. replace (m ∖ m1) with m'; [done|].
    apply map_eq. intros i. rewrite Hl.
    destruct (m1 !! i) as [e|] eqn:E1.
    + rewrite decide_True; [by rewrite lookup_difference, E1|].
      apply list_elem_of_fmap. exists (i, e). split; [done|]. by apply elem_of_map_to_list.
    + rewrite decide_False; [by rewrite lookup_difference, E1|].
      intros ([j e'] & -> & Hj%elem_of_map_to_list)%list_elem_of_fmap. simpl in *. congruence.
Qed.

(** * The agent as a transition system *)

Inductive AgentEvent :=
| EvMessage (a : SspiAnswers) (now : Z) (req : option json)
| EvCleanup (now : Z)              (* the cleanup thread, every five minutes *)
| EvClientGone.                    (* the pipe is closed and created again *)

(** The agent goes on, or its behaviour is not defined: nothing is said of what
    follows. *)
Inductive AgentRun := Running (st : AgentState) | Wild.

(** [None] where a handle that is not live is deleted. *)
Definition agent_step (ev : AgentEvent) (st : AgentState) : option AgentRun :=
  match ev with
  | EvMessage a now req =>
      match HandleClient_turn a now req st with
      | Some (_, Undefined_behaviour) => Some Wild
      | Some (st, _) => Some (Running st)
      | None => None
      end
  | EvCleanup now =>
      match CleanupExpired now (g_store st) (g_sspi st) with
      | Some (store, sspi) => Some (Running (mkAgent store sspi))
      | None => None
      end
  | EvClientGone => Some (Running st)
  end.

(** SSPI hands out handles that are not live. *)
Definition fresh_answers (ev : AgentEvent) (st : AgentState) : Prop :=
  match ev with
  | EvMessage a _ _ => (sa_cred a ∉ sp_creds (g_sspi st)) ∧ (sa_ctx a ∉ sp_ctxs (g_sspi st))
  | _ => True
  end.

Definition agent_init : AgentState := mkAgent ContextStore_new (mkSspi ∅ ∅).

(** Reachable in [n] events. *)
Inductive agent_reachable : nat → AgentState → Prop :=
| agent_start : agent_reachable 0 agent_init
| agent_next n ev st st' :
    agent_reachable n st → fresh_answers ev st → agent_step ev st = Some (Running st') →
    agent_reachable (S n) st'.

Record agent_inv (n : nat) (st : AgentState) : Prop := mkAgentInv {
  ai_owns : owns (m_contexts (g_store st)) (g_sspi st);
  ai_keys : ∀ i e, m_contexts (g_store st) !! i = Some e → i < m_nextId (g_store st);
  ai_next : 1 <= m_nextId (g_store st) <= 1 + Z.of_nat n
}.

Lemma agent_inv_mono n st : agent_inv n st → agent_inv (S n) st.
Proof. intros []. constructor; auto. lia. Qed.

Lemma agent_inv_delete n st i s' :
  agent_inv n st → owns (delete i (m_contexts (g_store st))) s' →
  agent_inv n (mkAgent (mkStore (delete i (m_contexts (g_store st))) (m_nextId (g_store st))) s').
Proof.
  intros [Ho Hk Hn] Ho'. constructor; [done| |done]. cbn.
  intros j e [_ Hj]%lookup_delete_Some. by eapply Hk.
Qed.

Lemma close_in_inv n id st :
  agent_inv n st →
  ∃ st', close_in id st = Some st' ∧ agent_inv n st' ∧
         m_contexts (g_store st') = delete id (m_contexts (g_store st)).
Proof.
  intros HI. unfold close_in, Close. destruct (m_contexts (g_store st) !! id) as [e|] eqn:E.
  - destruct (owns_delete _ _ _ _ (ai_owns _ _ HI) E) as (s' & -> & Ho).
    eexists. split; [done|]. split; [by apply agent_inv_delete|done].
  - exists st. destruct st as [[m k] s]. split; [done|]. split; [done|].
    cbn in *. by rewrite delete_id.
Qed.

Lemma Get_inv n now id st :
  agent_inv n st →
  ∃ o store sspi, Get now id (g_store st) (g_sspi st) = Some (o, store, sspi) ∧
    agent_inv n (mkAgent store sspi) ∧
    match o with
    | Some e => store = g_store st ∧ sspi = g_sspi st ∧ m_contexts store !! id = Some e ∧
                IsExpired now e = false
    | None => m_contexts store = delete id (m_contexts (g_store st)) ∧
              ∀ e, m_contexts (g_store st) !! id = Some e → IsExpired now e = true
    end.
Proof.
  intros HI. unfold Get. destruct (m_contexts (g_store st) !! id) as [e|] eqn:E.
  - destruct (IsExpired now e) eqn:Ex.
    + destruct (owns_delete _ _ _ _ (ai_owns _ _ HI) E) as (s' & -> & Ho).
      eexists None, _, _. split; [done|]. split; [by apply agent_inv_delete|].
      split; [done|]. intros e' [= <-]. done.
    + exists (Some e), (g_store st), (g_sspi st). split; [done|]. by destruct st.
  - exists None, (g_store st), (g_sspi st). split; [done|]. split; [by destruct st|].
    split; [by rewrite delete_id|done].
Qed.

Lemma do_create_inv n a now params st :
  agent_inv n st → Z.of_nat n < 2 ^ 64 - 2 →
  sa_cred a ∉ sp_creds (g_sspi st) → sa_ctx a ∉ sp_ctxs (g_sspi st) →
  ∃ st' r, do_create a now params st = Some (st', r) ∧ agent_inv (S n) st'.
Proof.
  intros HI Hn Hc Hx. pose proof (agent_inv_mono _ _ HI) as HI'. unfold do_create.
  destruct (ebind _ _) as [spn|e|]; [|by eauto..].
  destruct st as [[m k] [cr cx]]. cbn [g_sspi g_store sp_creds sp_ctxs] in *.
  unfold SspiEngine_CreateContext.
  destruct (negb _); [cbn [sr_success negb]; by eauto|]. cbn [sp_creds sp_ctxs].
  destruct (sspi_ok _).
  - cbn [sr_success negb Create m_nextId]. eexists _, _. split; [done|].
    destruct HI as [(Hu & Ho1 & Ho2) Hk Hb]. cbn in Hu, Ho1, Ho2, Hk, Hb.
    assert (Hnone : m !! k = None).
    { destruct (m !! k) as [e|] eqn:E; [|done]. apply Hk in E. lia. }
    rewrite wrap_small by (unfold in_u; lia).
    constructor; cbn [g_store g_sspi m_contexts m_nextId]; [|intros j e|lia].
    + split; [|split]; cbn [sp_creds sp_ctxs].
      * by apply map_Forall_insert_2.
      * by apply (owned_once_insert en_credentials).
      * by apply (owned_once_insert en_context).
    + intros [[<- _]|[_ Hj]]%lookup_insert_Some; [lia|]. apply Hk in Hj. lia.
  - unfold FreeCredentialsHandle. cbn [sp_creds sp_ctxs]. rewrite decide_True by set_solver.
    cbn [sr_success negb]. eexists _, _. split; [done|].
    replace (({[sa_cred a]} ∪ cr) ∖ {[sa_cred a]}) with cr by set_solver. done.
Qed.

Lemma do_continue_inv n a now params st :
  agent_inv n st → ∃ st' r, do_continue a now params st = Some (st', r) ∧ agent_inv n st'.
Proof.
  intros HI. unfold do_continue. destruct (ebind _ _) as [[id ch]|e|]; [|by eauto..].
  destruct (Get_inv n now id st HI) as (o & store & sspi & -> & HI1 & _).
  destruct o as [e|]; [|by eauto]. cbv zeta.
  destruct (close_in_inv n id _ HI1) as (st' & E & HI2 & _).
  destruct (negb _); [rewrite E; by eauto|]. destruct (sr_needs_continue _); [by eauto|].
  rewrite E. by eauto.
Qed.

Lemma do_close_inv n params st :
  agent_inv n st → ∃ st' r, do_close params st = Some (st', r) ∧ agent_inv n st'.
Proof.
  intros HI. unfold do_close. destruct (ebind _ _) as [id|e|]; [|by eauto..].
  destruct (close_in_inv n id st HI) as (st' & -> & ? & _). by eauto.
Qed.

Lemma dispatch_inv n a now method req st :
  agent_inv n st → Z.of_nat n < 2 ^ 64 - 2 →
  sa_cred a ∉ sp_creds (g_sspi st) → sa_ctx a ∉ sp_ctxs (g_sspi st) →
  ∃ st' r, dispatch a now method req st = Some (st', r) ∧ agent_inv (S n) st'.
Proof.
  intros HI Hn Hc Hx. pose proof (agent_inv_mono _ _ HI) as HI'. unfold dispatch.
  destruct (text_eqb method (lit "hello")); [eexists _, _; by split|].
  destruct (text_eqb method (lit "ping")); [eexists _, _; by split|].
  destruct (text_eqb method (lit "create_context")); [by apply do_create_inv|].
  destruct (text_eqb method (lit "continue_context")); [by apply do_continue_inv|].
  destruct (text_eqb method (lit "close_context")); [by apply do_close_inv|eexists _, _; by split].
Qed.

Lemma turn_inv n a now req st :
  agent_inv n st → Z.of_nat n < 2 ^ 64 - 2 →
  sa_cred a ∉ sp_creds (g_sspi st) → sa_ctx a ∉ sp_ctxs (g_sspi st) →
  ∃ st' t, HandleClient_turn a now req st = Some (st', t) ∧ agent_inv (S n) st'.
Proof.
  intros HI Hn Hc Hx. pose proof (agent_inv_mono _ _ HI) as HI'.
  unfold HandleClient_turn. destruct req as [req|]; [|by eauto]. unfold HandleRequest.
  destruct (value_or get_null _ _ _); [|by eauto..].
  destruct (value_or get_string _ _ _) as [method|e|]; [|by eauto..].
  destruct (dispatch_inv n a now method req st HI Hn Hc Hx) as (st' & r & -> & ?).
  destruct r; by eauto.
Qed.

Lemma destroyed_all m s (P : Z * ContextEntry → Prop) `{!∀ x, Decision (P x)} :
  owns m s →
  ∃ s', destroy_all (map_to_list (filter P m)) s = Some s' ∧ owns (filter (λ x, ¬ P x) m) s'.
Proof.
  intros Ho. destruct (owns_map_to_list m (filter P m) s Ho) as (s' & E & Ho').
  { apply map_filter_subseteq. }
  exists s'. split; [done|]. replace (filter (λ x, ¬ P x) m) with (m ∖ filter P m); [done|].
  apply map_eq. intros i. rewrite lookup_difference, !map_lookup_filter.
  destruct (m !! i) as [e|]; [|done]. cbn.
  repeat case_guard; naive_solver.
Qed.

Lemma agent_step_inv n ev st :
  agent_inv n st → Z.of_nat n < 2 ^ 64 - 2 → fresh_answers ev st →
  ∃ r, agent_step ev st = Some r ∧ match r with Running st' => agent_inv (S n) st' | Wild => True end.
Proof.
  intros HI Hn Hf. destruct ev as [a now req|now|]; cbn [agent_step].
  - destruct Hf as [Hc Hx]. destruct (turn_inv n a now req st HI Hn Hc Hx) as (st' & t & -> & ?).
    destruct t; by eexists.
  - unfold CleanupExpired.
    destruct (destroyed_all _ _ (λ p, IsExpired now (snd p) = true) (ai_owns _ _ HI)) as (s' & -> & Ho).
    eexists. split; [done|]. apply agent_inv_mono. destruct HI as [_ Hk Hb].
    constructor; [done| |done]. cbn. intros i e [Hi _]%map_lookup_filter_Some. by eapply Hk.
  - exists (Running st). split; [done|]. by apply agent_inv_mono.
Qed.

Lemma agent_reachable_inv n st : agent_reachable n st → Z.of_nat n < 2 ^ 64 - 2 → agent_inv n st.
Proof.
  induction 1 as [|n ev st st' _ IH Hf Hs]; intros Hn.
  - constructor; cbn; [|intros i e; by rewrite lookup_empty|lia].
    split; [apply map_Forall_empty|]. split; (split; [|intros i j e e'; by rewrite lookup_empty]);
      intros h; (split; [set_solver|]); intros (i & e & Hi & _); by rewrite lookup_empty in Hi.
  - destruct (agent_step_inv n ev st) as (st'' & Hs' & ?); [apply IH; lia|lia|done|]. by simplify_eq.
Qed.

Lemma Clear_releases n st :
  agent_inv n st → ∃ store, Clear (g_store st) (g_sspi st) = Some (store, mkSspi ∅ ∅) ∧ m_contexts store = ∅.
Proof.
  intros HI. unfold Clear.
  destruct (owns_map_to_list _ (m_contexts (g_store st)) _ (ai_owns _ _ HI)) as (s' & -> & Ho); [done|].
  rewrite map_difference_diag in Ho. destruct Ho as (_ & [H1 _] & [H2 _]). destruct s' as [c x].
  cbn in H1, H2. replace c with (∅ : gset Z); [replace x with (∅ : gset Z); [by eexists|]|];
    apply set_eq; intros h; rewrite ?H1, ?H2; (split; [set_solver|]);
    intros (i & e & Hi & _); by rewrite lookup_empty in Hi.
Qed.

(** C28: the agent never deletes a handle twice or one it does not hold, and
    leaks none: whatever messages, disconnections and cleanups it sees, the
    live SSPI handles are exactly those of the stored contexts, one pair per
    context, each context in use under its own id; and clearing the store at
    shutdown releases all of them.  A message on which the behaviour of the agent
    is not defined, one with a key missing, does no such deletion before, and
    ends what is said of the agent. *)
Theorem agent_owns_its_handles n st :
  agent_reachable n st → Z.of_nat n < 2 ^ 64 - 2 →
  owns (m_contexts (g_store st)) (g_sspi st) ∧
  (∀ ev, fresh_answers ev st → is_Some (agent_step ev st)) ∧
  ∃ store, Clear (g_store st) (g_sspi st) = Some (store, mkSspi ∅ ∅) ∧ m_contexts store = ∅.
Proof.
  intros H Hn. pose proof (agent_reachable_inv _ _ H Hn) as HI. split; [apply HI|].
  split; [|by eapply Clear_releases].
  intros ev Hf. destruct (agent_step_inv n ev st HI Hn Hf) as (st' & -> & _). eauto.
Qed.

Definition sample_answers : SspiAnswers :=
  mkAnswers SEC_E_OK 500 (λ _, SEC_I_CONTINUE_NEEDED) 600 (Some [96; 130])
    (λ _ _, (SEC_E_OK, Some [161])).

Definition create_request (spn : text) : json :=
  obj [("method", JStr (lit "create_context")); ("params", obj [("spn", JStr spn)])]%string.

Definition continue_request (id : Z) (challenge : text) : json :=
  obj [("method", JStr (lit "continue_context"));
       ("params", obj [("context_id", JInt id); ("challenge", JStr challenge)])]%string.

Definition sample_event : AgentEvent :=
  EvMessage sample_answers 0 (Some (create_request (lit "proxy.local"))).

Definition sample_agent : AgentState :=
  match agent_step sample_event agent_init with Some (Running st) => st | _ => agent_init end.

Lemma sample_agent_reachable : agent_reachable 1 sample_agent.
Proof.
  apply (agent_next 0 sample_event agent_init); [apply agent_start| |].
  - split; apply not_elem_of_empty.
  - unfold sample_agent. destruct (agent_step _ _) as [[st|]|] eqn:E; [done|vm_compute in E; discriminate..].
Qed.

Lemma agent_owns_its_handles_witness :
  Size (g_store sample_agent) = 1%nat ∧
  ∃ store, Clear (g_store sample_agent) (g_sspi sample_agent) = Some (store, mkSspi ∅ ∅).
Proof.
  destruct (agent_owns_its_handles 1 sample_agent) as (_ & _ & store & H & _).
  - exact sample_agent_reachable.
  - vm_compute. reflexivity.
  - split; [vm_compute; reflexivity|]. exists store. exact H.
Defined.

(** * What a continued context becomes *)

Definition live_context (now id : Z) (st : AgentState) : option ContextEntry :=
  match m_contexts (g_store st) !! id with
  | Some e => if IsExpired now e then None else Some e
  | None => None
  end.

Definition reply_of (kv : text * json) : json := envelope JNull kv.

(** The reply to a continue request, and whether its context stays. *)
Definition continue_outcome (a : SspiAnswers) (now id : Z) (challenge : text) (st : AgentState)
    : json * bool :=
  match live_context now id st with
  | None => (reply_of (error_reply (-2) (not_found id)), false)
  | Some e =>
      let '(sc, token) := sa_continue a (en_context e) (EngineBase64Decode challenge) in
      if sspi_ok sc then
        (reply_of (result_reply [("token", JStr (encode_token token));
                                 ("continue", JBool (sspi_continues sc))]%string), sspi_continues sc)
      else
        (reply_of (error_reply (-1)
           (lit "InitializeSecurityContextW (continue) failed: " ++ SspiErrorText sc)), false)
  end.

(** a context lives exactly as long as its negotiation.  A request to
    continue it passes the decoded challenge to its security context; the
    reply carries the encoded token and says whether another round follows,
    and the context stays stored only in that case: it is destroyed when the
    negotiation completes, when SSPI refuses the challenge and when 30 minutes
    have passed, and the reply then names the error.  No other context
    changes. *)
Theorem context_lives_while_it_continues n st a now id challenge :
  agent_reachable n st → Z.of_nat n < 2 ^ 64 - 2 → in_u 64 id →
  ∃ st', HandleRequest a now (continue_request id challenge) st =
           Some (st', Done (fst (continue_outcome a now id challenge st))) ∧
  m_contexts (g_store st') =
    if snd (continue_outcome a now id challenge st) then m_contexts (g_store st)
    else delete id (m_contexts (g_store st)).
Proof.
  intros Hr Hn Hid. pose proof (agent_reachable_inv _ _ Hr Hn) as HI.
  change (HandleRequest a now (continue_request id challenge) st) with
    (match do_continue a now (Done (obj [("context_id", JInt id); ("challenge", JStr challenge)]%string)) st with
     | None => None
     | Some (st, Done kv) => Some (st, Done (reply_of kv))
     | Some (st, Raised what) =>
         Some (st, Done (reply_of (error_reply (-32603) (lit "Internal error: " ++ what))))
     | Some (st, Undefined) => Some (st, Undefined)
     end).
  unfold do_continue.
  match goal with |- context [ebind ?x ?k] =>
    replace (ebind x k) with (Done (wrap 64 id, challenge)) by done end.
  rewrite (wrap_small _ _ Hid).
  destruct (Get_inv n now id st HI) as (o & store & sspi & -> & HI1 & Ho).
  unfold continue_outcome, live_context.
  destruct o as [e|].
  - destruct Ho as (-> & -> & He & Hx). rewrite He, Hx. unfold SspiEngine_ContinueContext.
    destruct (close_in_inv n id _ HI1) as (st' & E & _ & Hd). cbn [g_store] in Hd.
    destruct (sa_continue a (en_context e) (EngineBase64Decode challenge)) as [sc token].
    destruct (sspi_ok sc); cbn [sr_success negb sr_needs_continue sr_token sr_error_message];
      [destruct (sspi_continues sc)|]; rewrite ?E; eexists; (split; [reflexivity|]); done.
  - destruct Ho as [Hd Hx]. eexists. split.
    + destruct (m_contexts (g_store st) !! id) as [e|]; [rewrite (Hx e) by done|]; reflexivity.
    + destruct (m_contexts (g_store st) !! id) as [e|] eqn:E; [rewrite (Hx e) by done|]; exact Hd.
Qed.

(** The sample context completes in the second round and is gone. *)
Lemma context_lives_while_it_continues_witness :
  ∃ st', HandleRequest sample_answers 5 (continue_request 1 (lit "oRQ=")) sample_agent =
           Some (st', Done (reply_of (result_reply
             [("token", JStr (lit "oQ==")); ("continue", JBool false)]%string))) ∧
         Size (g_store st') = 0%nat.
Proof.
  destruct (context_lives_while_it_continues 1 sample_agent sample_answers 5 1 (lit "oRQ="))
    as (st' & E & Hm).
  - exact sample_agent_reachable.
  - vm_compute. reflexivity.
  - vm_compute. split; [discriminate|reflexivity].
  - exists st'. split; [rewrite E; vm_compute; reflexivity|]. unfold Size. rewrite Hm.
    vm_compute. reflexivity.
Defined.

(** * Numbered requests

    The id is read with a default of type [nullptr_t], for which the JSON
    library accepts only null, and outside the handler's [try]: a request that
    carries an id is not performed, gets no reply and ends the session. *)

Lemma numbered_request_disconnects a now l v st :
  assoc (lit "id") l = Some v → v ≠ JNull →
  HandleClient_turn a now (Some (JObj l)) st = Some (st, Disconnected).
Proof.
  intros Hv Hn. unfold HandleClient_turn, HandleRequest. cbn [value_or]. rewrite Hv. by destruct v.
Qed.
