(* ===== verification/AgentThreads.v ===== *)
(** The two threads of the authentication agent (main.cpp under
    src/auth-agent): the main thread answers requests, and the cleanup thread
    deletes expired contexts.  The mutex of the store protects its methods, but
    [Get] returns a pointer into the store, which the main thread uses after the
    mutex is free.

    A request that continues a context is taken apart at the call of the engine
    into three steps: the lookup, the beginning and the end of the call; the
    store of the other requests is touched in one step.  An entry that is gone
    when the call begins or ends has been freed under it, with its handles: a
    fault. *)

From stdpp Require Import relations.
From S2P Require Import Prelude.
From S2P Require Import Text.
From S2P Require Import Base64.
From S2P Require Import Json.
From S2P Require Import Agent.

(** * A request in two parts *)

(** A request that the lookup has finished, or a call on an entry to make. *)
Inductive Begun :=
| Answered (r : exec json)
| Found (id : json) (contextId : Z) (challenge : text) (entry : ContextEntry).

Definition reply_with (id : json) (r : exec (text * json)) : exec json :=
  match r with
  | Done kv => Done (envelope id kv)
  | Raised what => Done (envelope id (error_reply (-32603) (lit "Internal error: " ++ what)))
  | Undefined => Undefined
  end.

Definition continue_params (req : json) : exec (Z * text) :=
  p <-? at_const "params" req;; i <-? at_const "context_id" p;; id <-? get_uint64 i;;
  c <-? at_const "challenge" p;; ch <-? get_string c;; Done (id, ch).

(** [HandleRequest] up to the call of the engine on an entry of the store. *)
Definition begin_request (a : SspiAnswers) (now : Z) (req : json) (st : AgentState)
    : option (AgentState * Begun) :=
  match value_or get_null "id" JNull req with
  | Raised e => Some (st, Answered (Raised e))
  | Undefined => Some (st, Answered Undefined)
  | Done id =>
      match value_or get_string "method" [] req with
      | Raised e => Some (st, Answered (Raised e))
      | Undefined => Some (st, Answered Undefined)
      | Done method =>
          if text_eqb method (lit "continue_context") then
            match continue_params req with
            | Raised e => Some (st, Answered (reply_with id (Raised e)))
            | Undefined => Some (st, Answered Undefined)
            | Done (contextId, challenge) =>
                match Get now contextId (g_store st) (g_sspi st) with
                | None => None
                | Some (None, store, sspi) =>
                    Some (mkAgent store sspi,
                          Answered (reply_with id (Done (error_reply (-2) (not_found contextId)))))
                | Some (Some entry, store, sspi) =>
                    Some (mkAgent store sspi, Found id contextId challenge entry)
                end
            end
          else
            match dispatch a now method req st with
            | None => None
            | Some (st, r) => Some (st, Answered (reply_with id r))
            end
      end
  end.

(** The rest of a request to continue a context. *)
Definition end_request (a : SspiAnswers) (id : json) (contextId : Z) (challenge : text) (entry : ContextEntry)
    (st : AgentState) : option (AgentState * exec json) :=
  let r := SspiEngine_ContinueContext a (en_context entry) challenge in
  let answer := reply_with id (Done (result_reply [("token", JStr (sr_token r));
                                                  ("continue", JBool (sr_needs_continue r))]%string)) in
  if negb (sr_success r) then
    match close_in contextId st with
    | Some st => Some (st, reply_with id (Done (error_reply (-1) (sr_error_message r))))
    | None => None
    end
  else if sr_needs_continue r then Some (st, answer)
  else match close_in contextId st with
       | Some st => Some (st, answer)
       | None => None
       end.

(** * The threads *)

Inductive MainPc :=
| Idle
| Calling (a : SspiAnswers) (id : json) (contextId : Z) (challenge : text) (entry : ContextEntry)
| InCall (a : SspiAnswers) (id : json) (contextId : Z) (challenge : text) (entry : ContextEntry)
| Freed (entry : ContextEntry)           (* which has been used after it was freed *)
| Lost.                                  (* its behaviour is not defined *)

Record Agents := mkAgents {
  ag_state : AgentState;
  ag_now : Z;                            (* steady_clock, nanoseconds *)
  ag_pc : MainPc
}.

Inductive ThreadAct :=
| ActRequest (a : SspiAnswers) (req : json)
| ActMain                                (* the next step of the main thread *)
| ActCleanup                             (* the cleanup thread wakes up *)
| ActTime (d : Z).                       (* time passes *)

(** The pointer [Get] has returned is good; the store does not give an id twice. *)
Definition still_stored (contextId : Z) (s : Agents) : bool :=
  match m_contexts (g_store (ag_state s)) !! contextId with Some _ => true | None => false end.

(** The main thread after a request. *)
Definition after (r : exec json) : MainPc := match r with Undefined => Lost | _ => Idle end.

(** A request or a step of the main thread gives its reply, if it has one. *)
Definition main_turn (s : Agents) : option (Agents * option (exec json)) :=
  match ag_pc s with
  | Calling a id contextId challenge entry =>
      Some (mkAgents (ag_state s) (ag_now s)
              (if still_stored contextId s then InCall a id contextId challenge entry
               else Freed entry), None)
  | InCall a id contextId challenge entry =>
      if still_stored contextId s then
        match end_request a id contextId challenge entry (ag_state s) with
        | Some (st, r) => Some (mkAgents st (ag_now s) (after r), Some r)
        | None => None
        end
      else Some (mkAgents (ag_state s) (ag_now s) (Freed entry), None)
  | Idle | Freed _ | Lost => None
  end.

Definition request_turn (a : SspiAnswers) (req : json) (s : Agents) : option (Agents * option (exec json)) :=
  match ag_pc s with
  | Idle =>
      match begin_request a (ag_now s) req (ag_state s) with
      | None => None
      | Some (st, Answered r) => Some (mkAgents st (ag_now s) (after r), Some r)
      | Some (st, Found id contextId challenge entry) =>
          Some (mkAgents st (ag_now s) (Calling a id contextId challenge entry), None)
      end
  | _ => None
  end.

Definition cleanup_turn (s : Agents) : option Agents :=
  match CleanupExpired (ag_now s) (g_store (ag_state s)) (g_sspi (ag_state s)) with
  | Some (store, sspi) => Some (mkAgents (mkAgent store sspi) (ag_now s) (ag_pc s))
  | None => None
  end.

Definition thread_act (act : ThreadAct) (s : Agents) : option Agents :=
  match act with
  | ActRequest a req => fst <$> request_turn a req s
  | ActMain => fst <$> main_turn s
  | ActCleanup => cleanup_turn s
  | ActTime d => if 0 <=? d then Some (mkAgents (ag_state s) (ag_now s + d) (ag_pc s)) else None
  end.

(** SSPI hands out handles that are not live. *)
Definition fresh_act (act : ThreadAct) (s : Agents) : Prop :=
  match act with
  | ActRequest a _ => (sa_cred a ∉ sp_creds (g_sspi (ag_state s))) ∧ (sa_ctx a ∉ sp_ctxs (g_sspi (ag_state s)))
  | _ => True
  end.

#[export] Instance fresh_act_dec act s : Decision (fresh_act act s).
Proof. destruct act; cbn; apply _. Defined.

Fixpoint thread_acts (acts : list ThreadAct) (s : Agents) : option Agents :=
  match acts with
  | [] => Some s
  | a :: acts' =>
      if decide (fresh_act a s) then
        match thread_act a s with Some s' => thread_acts acts' s' | None => None end
      else None
  end.

Definition agents_init : Agents := mkAgents agent_init 0 Idle.

(** Reachable in [n] actions. *)
Inductive agents_reachable : nat → Agents → Prop :=
| agents_start : agents_reachable 0 agents_init
| agents_next n act s s' :
    agents_reachable n s → fresh_act act s → thread_act act s = Some s' → agents_reachable (S n) s'.

(** * The request as one step *)

Lemma begin_then_end a now req st :
  HandleRequest a now req st =
  match begin_request a now req st with
  | None => None
  | Some (st, Answered r) => Some (st, r)
  | Some (st, Found id contextId challenge entry) => end_request a id contextId challenge entry st
  end.
Proof.
  unfold HandleRequest, begin_request.
  destruct (value_or get_null _ _ _) as [id|e|]; [|done..].
  destruct (value_or get_string _ _ _) as [method|e|]; [|done..].
  destruct (text_eqb method (lit "continue_context")) eqn:E.
  - apply text_eqb_spec in E as ->.
    change (dispatch a now (lit "continue_context") req st) with (do_continue a now (at_const "params" req) st).
    unfold do_continue. change (ebind (at_const "params" req) _) with (continue_params req).
    destruct (continue_params req) as [[contextId challenge]|e|]; [|done..].
    destruct (Get now contextId (g_store st) (g_sspi st)) as [[[[entry|] store] sspi]|]; [|done..].
    unfold end_request. cbv zeta.
    destruct (negb _); [|destruct (sr_needs_continue _); [done|]];
      by destruct (close_in contextId (mkAgent store sspi)).
  - destruct (dispatch a now method req st) as [[st' r]|]; [|done]. by destruct r.
Qed.

Lemma begin_request_inv n a now req st :
  agent_inv n st → Z.of_nat n < 2 ^ 64 - 2 →
  sa_cred a ∉ sp_creds (g_sspi st) → sa_ctx a ∉ sp_ctxs (g_sspi st) →
  ∃ st' r, begin_request a now req st = Some (st', r) ∧ agent_inv (S n) st' ∧
    match r with
    | Answered _ => True
    | Found _ contextId _ entry => m_contexts (g_store st') !! contextId = Some entry
    end.
Proof.
  intros HI Hn Hc Hx. pose proof (agent_inv_mono _ _ HI) as HI'. unfold begin_request.
  destruct (value_or get_null _ _ _) as [id|e|]; [|by eexists _, _..].
  destruct (value_or get_string _ _ _) as [method|e|]; [|by eexists _, _..].
  destruct (text_eqb method (lit "continue_context")).
  - destruct (continue_params req) as [[contextId challenge]|e|]; [|by eexists _, _..].
    destruct (Get_inv n now contextId st HI) as (o & store & sspi & -> & HI1 & Ho).
    apply agent_inv_mono in HI1. destruct o as [entry|]; eexists _, _; (split; [done|]); split; try done.
    by destruct Ho as (_ & _ & Ho & _).
  - destruct (dispatch_inv n a now method req st HI Hn Hc Hx) as (st' & r & -> & ?). by eexists _, _.
Qed.

Lemma end_request_inv n a id contextId challenge entry st :
  agent_inv n st → ∃ st' r, end_request a id contextId challenge entry st = Some (st', r) ∧ agent_inv n st'.
Proof.
  intros HI. unfold end_request. destruct (close_in_inv n contextId st HI) as (st' & -> & HI' & _). cbv zeta.
  destruct (negb _); [by eauto|]. destruct (sr_needs_continue _); by eauto.
Qed.

(** * The races *)

(** An entry the main thread is using is in the store, or has expired. *)
Definition in_use_ok (s : Agents) (contextId : Z) (entry : ContextEntry) : Prop :=
  m_contexts (g_store (ag_state s)) !! contextId = Some entry ∨ IsExpired (ag_now s) entry = true.

Record agents_inv (n : nat) (s : Agents) : Prop := {
  gi_agent : agent_inv n (ag_state s);
  gi_pc : match ag_pc s with
          | Idle | Lost => True
          | Calling _ _ contextId _ entry | InCall _ _ contextId _ entry => in_use_ok s contextId entry
          | Freed entry => IsExpired (ag_now s) entry = true
          end
}.

Lemma IsExpired_later now d e : 0 <= d → IsExpired now e = true → IsExpired (now + d) e = true.
Proof. unfold IsExpired. rewrite !Z.ltb_lt. lia. Qed.

Lemma cleanup_inv n s :
  agents_inv n s → ∃ s', cleanup_turn s = Some s' ∧ agents_inv n s'.
Proof.
  intros [HI Hp]. unfold cleanup_turn, CleanupExpired.
  destruct (destroyed_all _ _ (λ p, IsExpired (ag_now s) (snd p) = true) (ai_owns _ _ HI)) as (s' & -> & Ho).
  eexists. split; [done|]. constructor; cbn [ag_state ag_pc].
  - destruct HI as [_ Hk Hb]. constructor; [done| |done]. cbn.
    intros i e [Hi _]%map_lookup_filter_Some. by eapply Hk.
  - assert (Hk : ∀ contextId entry, in_use_ok s contextId entry →
      in_use_ok (mkAgents (mkAgent (mkStore (filter (λ p, ¬ IsExpired (ag_now s) (snd p) = true)
        (m_contexts (g_store (ag_state s)))) (m_nextId (g_store (ag_state s)))) s') (ag_now s) (ag_pc s))
        contextId entry).
    { intros contextId entry [Hm|Hx]; [|by right]. unfold in_use_ok. cbn.
      destruct (IsExpired (ag_now s) entry) eqn:E; [by right|]. left.
      apply map_lookup_filter_Some. split; [done|]. cbn. by rewrite E. }
    destruct (ag_pc s); [done|by apply Hk|by apply Hk|done|done].
Qed.

Lemma main_turn_inv n s s' r : agents_inv n s → main_turn s = Some (s', r) → agents_inv n s'.
Proof.
  intros [HI Hp] Hm. unfold main_turn, still_stored in Hm. destruct (ag_pc s) as [|a id ci ch e|a id ci ch e|e|] eqn:E; try done.
  - destruct (m_contexts (g_store (ag_state s)) !! ci) as [e'|] eqn:El; injection Hm as <- _; constructor; try done; cbn.
    destruct Hp as [Hp|Hp]; [congruence|done].
  - destruct (m_contexts (g_store (ag_state s)) !! ci) as [e'|] eqn:El.
    + destruct (end_request_inv n a id ci ch e _ HI) as (st' & r' & Hr & HI'). rewrite Hr in Hm.
      injection Hm as <- _. constructor; [done|]. cbn. by destruct r'.
    + injection Hm as <- _. constructor; try done. cbn. destruct Hp as [Hp|Hp]; [congruence|done].
Qed.

Lemma request_turn_inv n a req s s' r :
  agents_inv n s → Z.of_nat n < 2 ^ 64 - 2 → fresh_act (ActRequest a req) s →
  request_turn a req s = Some (s', r) → agents_inv (S n) s'.
Proof.
  intros [HI _] Hn [Hc Hx] Hr. unfold request_turn in Hr. destruct (ag_pc s); try done.
  destruct (begin_request_inv n a (ag_now s) req _ HI Hn Hc Hx) as (st' & b & E & HI' & Hb). rewrite E in Hr.
  destruct b as [r'|id ci ch e]; injection Hr as <- _; constructor; try done; cbn; [by destruct r'|by left].
Qed.

Lemma thread_act_inv n act s s' :
  agents_inv n s → Z.of_nat n < 2 ^ 64 - 2 → fresh_act act s → thread_act act s = Some s' → agents_inv (S n) s'.
Proof.
  assert (Hmono : ∀ s, agents_inv n s → agents_inv (S n) s).
  { intros t [HI Hp]. constructor; [by apply agent_inv_mono|done]. }
  intros HI Hn Hf Ha. destruct act as [a req| | |d]; cbn [thread_act] in Ha.
  - destruct (request_turn a req s) as [[s1 r]|] eqn:E; [|done]. injection Ha as <-. by eapply request_turn_inv.
  - destruct (main_turn s) as [[s1 r]|] eqn:E; [|done]. injection Ha as <-. apply Hmono. by eapply main_turn_inv.
  - destruct (cleanup_inv n s HI) as (s1 & E & HI'). rewrite E in Ha. injection Ha as <-. by apply Hmono.
  - destruct (Z.leb_spec 0 d) as [Hd|Hd]; [|done]. injection Ha as <-. apply Hmono. destruct HI as [HI Hp].
    constructor; [done|]. unfold in_use_ok in *. cbn.
    destruct (ag_pc s); try done; [destruct Hp; [by left|right]..|]; by apply IsExpired_later.
Qed.

Lemma agents_reachable_inv n s : agents_reachable n s → Z.of_nat n < 2 ^ 64 - 2 → agents_inv n s.
Proof.
  induction 1 as [|n act s s' _ IH Hf Ha]; intros Hn.
  - constructor; [|done]. apply (agent_reachable_inv 0 agent_init); [constructor|lia].
  - eapply thread_act_inv; [apply IH; lia|lia|exact Hf|exact Ha].
Qed.

(** A request the cleanup thread does not come between. *)
Definition serve (a : SspiAnswers) (req : json) (s : Agents) : option (Agents * exec json) :=
  match request_turn a req s with
  | Some (s, Some r) => Some (s, r)
  | Some (s, None) =>
      match main_turn s with
      | Some (s, _) => match main_turn s with Some (s, Some r) => Some (s, r) | _ => None end
      | None => None
      end
  | None => None
  end.

(** the steps of a request, taken without interruption, are those of
    [HandleRequest]: they give its reply and leave the agent in its state. *)
Theorem uninterrupted_request_is_HandleRequest n s a req :
  agents_reachable n s → Z.of_nat n < 2 ^ 64 - 2 → ag_pc s = Idle → fresh_act (ActRequest a req) s →
  serve a req s =
  match HandleRequest a (ag_now s) req (ag_state s) with
  | Some (st, r) => Some (mkAgents st (ag_now s) (after r), r)
  | None => None
  end.
Proof.
  intros Hr Hn Hp [Hc Hx]. destruct (agents_reachable_inv n s Hr Hn) as [HI _].
  rewrite begin_then_end. unfold serve, request_turn. rewrite Hp.
  destruct (begin_request_inv n a (ag_now s) req _ HI Hn Hc Hx) as (st & b & -> & HI' & Hb).
  destruct b as [r|id ci ch e]; [done|]. unfold main_turn at 1, still_stored. cbn. rewrite Hb.
  unfold main_turn, still_stored. cbn. rewrite Hb. by destruct (end_request a id ci ch e st) as [[st' r]|].
Qed.

Definition half_hour : Z := 1800000000000.

Definition next_answers : SspiAnswers :=
  mkAnswers SEC_E_OK 501 (λ _, SEC_I_CONTINUE_NEEDED) 601 (Some [96; 130]) (λ _ _, (SEC_E_OK, Some [161])).

(** Half an hour after a context was created, the service continues it; the
    lookup comes just in time, and the cleanup thread just after it. *)
Definition late_continue : list ThreadAct :=
  [ActRequest sample_answers (create_request (lit "proxy.local")); ActTime half_hour;
   ActRequest next_answers (continue_request 1 (lit "oRQ=")); ActTime 1; ActCleanup; ActMain].

Definition agents_after (acts : list ThreadAct) : Agents := default agents_init (thread_acts acts agents_init).

Lemma thread_acts_reachable acts n s s' :
  agents_reachable n s → thread_acts acts s = Some s' → agents_reachable (length acts + n) s'.
Proof.
  revert n s. induction acts as [|a acts IH]; intros n s Hr Ha; cbn in Ha; [by injection Ha as <-|].
  destruct (decide (fresh_act a s)) as [Hf|]; [|done]. destruct (thread_act a s) as [s1|] eqn:E; [|done].
  cbn. rewrite <- Nat.add_succ_r. apply (IH (S n) s1); [by eapply agents_next|done].
Qed.

Lemma agents_after_reachable acts :
  is_Some (thread_acts acts agents_init) → agents_reachable (length acts + 0) (agents_after acts).
Proof. intros [s E]. unfold agents_after. rewrite E. by eapply thread_acts_reachable; [apply agents_start|]. Qed.

(** ** Exactly when *)

(** The main thread holds the pointer to an entry. *)
Definition uses (s : Agents) (contextId : Z) (entry : ContextEntry) : Prop :=
  ∃ a id challenge, ag_pc s = Calling a id contextId challenge entry ∨ ag_pc s = InCall a id contextId challenge entry.

Definition stored (s : Agents) (contextId : Z) : option ContextEntry :=
  m_contexts (g_store (ag_state s)) !! contextId.

(** The lookup gives out what is in the store. *)
Lemma lookup_is_stored n a req s s' r ci e :
  agents_inv n s → Z.of_nat n < 2 ^ 64 - 2 → fresh_act (ActRequest a req) s →
  request_turn a req s = Some (s', r) → uses s' ci e → stored s' ci = Some e.
Proof.
  intros [HI _] Hn [Hc Hx] Hr (a' & id & ch & Hu). unfold request_turn in Hr. destruct (ag_pc s); try done.
  destruct (begin_request_inv n a (ag_now s) req _ HI Hn Hc Hx) as (st' & b & E & HI' & Hb). rewrite E in Hr.
  destruct b as [r'|id' ci' ch' e']; injection Hr as <- _; cbn in Hu; [by destruct r', Hu|].
  destruct Hu as [Hu|Hu]; try discriminate Hu.
  injection Hu as <- <- <- <- <-. exact Hb.
Qed.

(** A step on the entry is one on freed memory where it is not in the store. *)
Lemma main_turn_freed s s' r ci e :
  uses s ci e → main_turn s = Some (s', r) → ag_pc s' = Freed e ↔ stored s ci = None.
Proof.
  intros (a & id & ch & Hu) Hm. unfold main_turn, still_stored in Hm. unfold stored.
  destruct Hu as [Hu|Hu]; rewrite Hu in Hm.
  - destruct (m_contexts (g_store (ag_state s)) !! ci); by injection Hm as <- _.
  - destruct (m_contexts (g_store (ag_state s)) !! ci).
    + destruct (end_request a id ci ch e (ag_state s)) as [[st r0]|]; [|done]. injection Hm as <- _. by destruct r0.
    + by injection Hm as <- _.
Qed.

(** The cleanup thread takes it out of the store where it has expired, and
    leaves the pointer with the main thread. *)
Lemma cleanup_takes s s' ci e :
  stored s ci = Some e → cleanup_turn s = Some s' →
  ag_pc s' = ag_pc s ∧ (stored s' ci = None ↔ IsExpired (ag_now s) e = true).
Proof.
  unfold stored, cleanup_turn, CleanupExpired. intros Hs. cbv zeta.
  match goal with |- context [destroy_all ?l ?k] => destruct (destroy_all l k) as [sspi|]; [|intros H0; discriminate H0] end.
  intros [= <-]. split; [done|]. cbn [ag_state g_store m_contexts]. rewrite map_lookup_filter_None. split.
  - intros [H|H]; [congruence|]. specialize (H e Hs). cbn in H.
    destruct (IsExpired (ag_now s) e); [done|]. by destruct H.
  - intros H. right. intros e' He' Hn. rewrite Hs in He'. injection He' as <-. by apply Hn.
Qed.

(** C36: the cleanup thread frees a context that is being used exactly when its
    half hour has ended as the thread wakes up.  In every reachable state of the
    two threads the store owns exactly the live handles, and neither thread
    deletes a handle that is not live.  But [Get] gives out a pointer that
    outlives its lock.  The entry is in the store when it is given out, and while
    the main thread uses it only a wake-up of the cleanup thread can take it away:
    it does so exactly if the entry has expired by then, and then, and only then,
    the next step of the main thread uses the entry and its security context
    after both were freed.  This happens in a run. *)
Theorem context_is_freed_in_use :
  (∀ n s, agents_reachable n s → Z.of_nat n < 2 ^ 64 - 2 →
     owns (m_contexts (g_store (ag_state s))) (g_sspi (ag_state s)) ∧
     is_Some (cleanup_turn s) ∧
     ((∀ entry, ag_pc s ≠ Freed entry) → ag_pc s ≠ Idle → ag_pc s ≠ Lost → is_Some (main_turn s)) ∧
     (∀ a req s' r ci entry, fresh_act (ActRequest a req) s → request_turn a req s = Some (s', r) →
        uses s' ci entry → stored s' ci = Some entry) ∧
     (∀ ci entry, uses s ci entry →
        (∀ s' r, main_turn s = Some (s', r) → ag_pc s' = Freed entry ↔ stored s ci = None) ∧
        (∀ d s', thread_act (ActTime d) s = Some s' → uses s' ci entry ∧ stored s' ci = stored s ci) ∧
        (∀ s', cleanup_turn s = Some s' → stored s ci = Some entry →
           uses s' ci entry ∧
           (stored s' ci = None ↔ en_ttl entry * 1000000000 < ag_now s - en_created_at entry)))) ∧
  (∃ n s entry, agents_reachable n s ∧ Z.of_nat n < 2 ^ 64 - 2 ∧ ag_pc s = Freed entry).
Proof.
  split.
  - intros n s Hr Hn. pose proof (agents_reachable_inv n s Hr Hn) as HI. split_and!.
    + apply (gi_agent _ _ HI).
    + destruct (cleanup_inv n s HI) as (s' & -> & _). by eexists.
    + intros Hf Hi Hl. unfold main_turn. destruct (ag_pc s) as [|a id ci ch e|a id ci ch e|e|] eqn:E; [done|by eexists| | |done].
      * destruct (still_stored ci s); [|by eexists].
        destruct (end_request_inv n a id ci ch e _ (gi_agent _ _ HI)) as (st & r & -> & _). by eexists.
      * by destruct (Hf e).
    + intros a req s' r ci e Hf Ht Hu. by eapply lookup_is_stored.
    + intros ci e Hu. split_and!.
      * intros s' r Hm. by apply (main_turn_freed s s' r).
      * intros d s'. cbn. destruct (0 <=? d); [|done]. by intros [= <-].
      * intros s' Hc Hs. destruct (cleanup_takes s s' ci e Hs Hc) as [Hp Hx]. unfold uses. rewrite Hp.
        split; [done|]. rewrite Hx. apply Z.ltb_lt.
  - destruct (ag_pc (agents_after late_continue)) as [| | |entry|] eqn:E; [by vm_compute in E..| |by vm_compute in E].
    exists 6%nat, (agents_after late_continue), entry. split; [|done].
    apply (agents_after_reachable late_continue). vm_compute. by eexists.
Qed.

(** * Concrete runs *)

(** A context in use is stored, and may be used, however long the call takes. *)
Definition in_time : list ThreadAct :=
  [ActRequest sample_answers (create_request (lit "proxy.local")); ActTime half_hour;
   ActRequest next_answers (continue_request 1 (lit "oRQ="))].

Lemma context_is_freed_in_use_witness : is_Some (main_turn (agents_after in_time)).
Proof.
  apply (proj1 context_is_freed_in_use 3%nat (agents_after in_time)).
  - apply (agents_after_reachable in_time). vm_compute. by eexists.
  - vm_compute. reflexivity.
  - intros entry H. vm_compute in H. discriminate.
  - intros H. vm_compute in H. discriminate.
  - intros H. vm_compute in H. discriminate.
Defined.

Definition created : Agents := agents_after (firstn 1 in_time).

Lemma uninterrupted_request_is_HandleRequest_witness :
  ∃ s r, serve next_answers (continue_request 1 (lit "oRQ=")) created = Some (s, r) ∧
         Size (g_store (ag_state s)) = 0%nat.
Proof.
  rewrite (uninterrupted_request_is_HandleRequest 1).
  - eexists _, _. split; vm_compute; reflexivity.
  - apply (agents_after_reachable (firstn 1 in_time)). vm_compute. by eexists.
  - vm_compute. reflexivity.
  - vm_compute. reflexivity.
  - apply (bool_decide_unpack _). vm_compute. exact I.
Defined.
