(* ===== verification/Kerberos.v ===== *)
(** [infrastructure/auth/KerberosAgentProvider.h/.cpp]: the authentication
    provider that obtains its tokens from the agent over a named pipe.

    The provider is written against a class of pipes; file AgentPipe has an
    instance that connects it to the agent of file Agent, so that the two
    programs can be run against each other. *)

From S2P Require Import Prelude.
From S2P Require Import Text.
From S2P Require Import Auth.
From S2P Require Import Json.
From S2P Require Import Agent.

(** * The pipe *)

Inductive CallResult :=
| CallReply (resp : json)
| CallBroken (error : Z)   (* ReadFile: ERROR_BROKEN_PIPE or ERROR_PIPE_NOT_CONNECTED *)
| CallThrew (what : text). (* any other exception: WriteFile, ReadFile, json *)

(** [pipe_open] is WaitNamedPipe with its retries, CreateFile and
    SetNamedPipeHandleState; [pipe_launch] starts the agent process. *)
Class IAgentPipe (S : Type) := {
  pipe_open : S → bool * S;
  pipe_call : json → S → CallResult * S;
  pipe_close : S → S;
  pipe_launch : text → S → S
}.

(** * Starting the agent *)

Record LaunchOs := mkLaunchOs {
  ln_now : Z;                       (* nanoseconds, at the start *)
  ln_session : Z;                   (* WTSGetActiveConsoleSessionId *)
  ln_userToken : bool;              (* WTSQueryUserToken succeeds *)
  ln_duplicate : bool;
  ln_environment : bool;
  ln_exePath : text;
  ln_create : bool;                 (* CreateProcessAsUserW succeeds *)
  ln_end : Z                        (* nanoseconds, when it returns *)
}.

Inductive LaunchEvent :=
| EvUserToken | EvDupToken | EvEnvironment
| EvProcess (path : text)
| EvDestroyEnvironment | EvCloseDup | EvCloseUser.

Record LaunchState := mkLaunch { s_launchInProgress : bool; s_lastLaunchTime : Z }.

Definition agent_path (exePath : text) : text :=
  default exePath (upto_last_of (lit "\/") exePath) ++ lit "TcpRedirectorAuthAgent.exe".

Definition cooldown (now last : Z) : bool := (0 <? last) && (now - last <? 10000000000).

(** The steps up to [cleanup:], with what they acquired. *)
Definition launch_steps (os : LaunchOs) : bool * list LaunchEvent :=
  if ln_session os =? 0xFFFFFFFF then (false, [])
  else if negb (ln_userToken os) then (false, [])
  else if negb (ln_duplicate os) then (false, [EvUserToken])
  else
    let acquired := EvUserToken :: EvDupToken :: (if ln_environment os then [EvEnvironment] else []) in
    if ln_create os then (true, acquired ++ [EvProcess (agent_path (ln_exePath os))])
    else (false, acquired).

Definition is_launch (want e : LaunchEvent) : bool :=
  match want, e with
  | EvUserToken, EvUserToken | EvDupToken, EvDupToken | EvEnvironment, EvEnvironment => true
  | EvDestroyEnvironment, EvDestroyEnvironment | EvCloseDup, EvCloseDup | EvCloseUser, EvCloseUser => true
  | EvProcess _, EvProcess _ => true
  | _, _ => false
  end.

(** [if (envBlock) ... if (dupToken) ... if (userToken) ...] *)
Definition launch_cleanup (acquired : list LaunchEvent) : list LaunchEvent :=
  (if existsb (is_launch EvEnvironment) acquired then [EvDestroyEnvironment] else [])
  ++ (if existsb (is_launch EvDupToken) acquired then [EvCloseDup] else [])
  ++ (if existsb (is_launch EvUserToken) acquired then [EvCloseUser] else []).

Definition LaunchAuthAgentInUserSession (os : LaunchOs) (l : LaunchState)
    : bool * list LaunchEvent * LaunchState :=
  if cooldown (ln_now os) (s_lastLaunchTime l) then (false, [], l)
  else if s_launchInProgress l then (false, [], l)
  else
    let '(result, events) := launch_steps os in
    (result, events ++ launch_cleanup events,
     mkLaunch false (if result then ln_end os else s_lastLaunchTime l)).

(** * The provider *)

Section provider.
Context {S : Type} `{!IAgentPipe S}.

Record Kerberos := mkKerberos {
  k_peer : S;
  m_pipe : bool;                    (* not INVALID_HANDLE_VALUE *)
  m_connected : bool;
  m_version : Z;
  m_requestId : Z;                  (* m_nextId *)
  k_launch : LaunchState;
  k_os : nat → LaunchOs;            (* the system at each launch *)
  k_launches : nat
}.

Definition set_peer (s : S) (p : Kerberos) : Kerberos :=
  mkKerberos s (m_pipe p) (m_connected p) (m_version p) (m_requestId p) (k_launch p) (k_os p) (k_launches p).
Definition set_link (pipe connected : bool) (p : Kerberos) : Kerberos :=
  mkKerberos (k_peer p) pipe connected (m_version p) (m_requestId p) (k_launch p) (k_os p) (k_launches p).
Definition set_version (v : Z) (p : Kerberos) : Kerberos :=
  mkKerberos (k_peer p) (m_pipe p) (m_connected p) v (m_requestId p) (k_launch p) (k_os p) (k_launches p).
Definition next_id (p : Kerberos) : Kerberos :=
  mkKerberos (k_peer p) (m_pipe p) (m_connected p) (m_version p) (m_requestId p +u64 1)
    (k_launch p) (k_os p) (k_launches p).

Definition request (id : Z) (method : String.string) (params : option json) : json :=
  obj ([("jsonrpc", JStr (lit "2.0")); ("method", JStr (lit method)); ("id", JInt id)]%string
       ++ match params with Some v => [("params"%string, v)] | None => [] end).

Definition write_failed (error : Z) : text := lit "WriteFile failed: " ++ to_string error.
Definition read_failed (error : Z) : text := lit "ReadFile failed: " ++ to_string error.

Definition ERROR_INVALID_HANDLE : Z := 6.

(** [Call], with [SendMessage] and [ReadMessage]. *)
Definition Call (method : String.string) (params : option json) (p : Kerberos)
    : exec json * Kerberos :=
  let req := request (m_requestId p) method params in
  let p := next_id p in
  if negb (m_pipe p) then (Raised (write_failed ERROR_INVALID_HANDLE), p)
  else
    match pipe_call req (k_peer p) with
    | (CallReply resp, s) => (Done resp, set_peer s p)
    | (CallBroken error, s) => (Raised (read_failed error), set_link (m_pipe p) false (set_peer s p))
    | (CallThrew what, s) => (Raised what, set_peer s p)
    end.

Arguments Call method%_string_scope params p.

(** The version of a hello reply, [None] where it is not as expected or an
    exception is thrown. *)
Definition hello_version (resp : exec json) : option Z :=
  match resp with
  | Done resp =>
      if contains_key "result" resp then
        match r <-? at_mut "result" resp;;
              (if contains_key "version" r then v <-? at_mut "version" r;; get_int v
               else Raised []) with
        | Done v => Some v
        | _ => None
        end
      else None
  | _ => None
  end.

Definition ConnectToAgent (p : Kerberos) : bool * Kerberos :=
  if m_pipe p then (true, p)
  else
    let '(opened, s) := pipe_open (k_peer p) in
    let p := set_peer s p in
    if negb opened then (false, p)
    else
      let '(resp, p) := Call "hello" (Some (obj [("version", JInt 1)]%string))
                          (set_link true (m_connected p) p) in
      match hello_version resp with
      | Some v => (true, set_link true true (set_version v p))
      | None => (false, set_link false (m_connected p) (set_peer (pipe_close (k_peer p)) p))
      end.

Definition DisconnectFromAgent (p : Kerberos) : Kerberos :=
  let p := set_link (m_pipe p) false p in
  if m_pipe p then set_link false false (set_peer (pipe_close (k_peer p)) p) else p.

(** [LaunchAuthAgentInUserSession] on the shared state. *)
Definition launch (p : Kerberos) : Kerberos :=
  let os := k_os p (k_launches p) in
  let '(result, _, l) := LaunchAuthAgentInUserSession os (k_launch p) in
  mkKerberos (if result then pipe_launch (agent_path (ln_exePath os)) (k_peer p) else k_peer p)
    (m_pipe p) (m_connected p) (m_version p) (m_requestId p) l (k_os p) (k_launches p + 1).

(** [for (attempt = 0; attempt < 20; ++attempt)] *)
Fixpoint poll (attempts : nat) (p : Kerberos) : Kerberos :=
  match attempts with
  | O => p
  | Datatypes.S attempts' => let '(ok, p) := ConnectToAgent p in if ok then p else poll attempts' p
  end.

Definition EnsureConnected (p : Kerberos) : Kerberos :=
  if m_connected p then p
  else let '(ok, p) := ConnectToAgent p in if ok then p else poll 20 (launch p).

Definition not_available : text := lit "AuthAgent not available".

Definition reply_error (resp : json) : exec text :=
  e <-? at_mut "error" resp;; m <-? at_mut "message" e;; get_string m.

(** The fields in the order they are read: an exception keeps what was set
    before it, [success] included. *)
Definition read_created (resp : json) : CreateContextResult :=
  let failed ok id token what :=
    mkCreateResult ok id token false (lit "create_context failed: " ++ what) in
  if contains_key "error" resp then
    match reply_error resp with
    | Done message => mkCreateResult false 0 [] false message
    | Raised what => failed false 0 [] what
    | Undefined => failed false 0 [] []
    end
  else
    match at_mut "result" resp with
    | Done r =>
        match v <-? at_mut "context_id" r;; get_uint64 v with
        | Done id =>
            match v <-? at_mut "token" r;; get_string v with
            | Done token =>
                match value_or get_bool "continue" false r with
                | Done continue => mkCreateResult true id token continue []
                | Raised what => failed true id token what
                | Undefined => failed true id token []
                end
            | Raised what => failed true id [] what
            | Undefined => failed true id [] []
            end
        | Raised what => failed true 0 [] what
        | Undefined => failed true 0 [] []
        end
    | Raised what => failed false 0 [] what
    | Undefined => failed false 0 [] []
    end.

Definition read_continued (resp : json) : ContinueContextResult :=
  let failed ok token what :=
    mkContinueResult ok token false (lit "continue_context failed: " ++ what) in
  if contains_key "error" resp then
    match reply_error resp with
    | Done message => mkContinueResult false [] false message
    | Raised what => failed false [] what
    | Undefined => failed false [] []
    end
  else
    match at_mut "result" resp with
    | Done r =>
        match v <-? at_mut "token" r;; get_string v with
        | Done token =>
            match value_or get_bool "continue" false r with
            | Done continue => mkContinueResult true token continue []
            | Raised what => failed true token what
            | Undefined => failed true token []
            end
        | Raised what => failed true [] what
        | Undefined => failed true [] []
        end
    | Raised what => failed false [] what
    | Undefined => failed false [] []
    end.

Definition KerberosCreateContext (spn : text) (p : Kerberos) : CreateContextResult * Kerberos :=
  let p := EnsureConnected p in
  if negb (m_connected p) then (mkCreateResult false 0 [] false not_available, p)
  else
    let '(resp, p) := Call "create_context" (Some (obj [("spn", JStr spn)]%string)) p in
    (match resp with
     | Done resp => read_created resp
     | Raised what => mkCreateResult false 0 [] false (lit "create_context failed: " ++ what)
     | Undefined => mkCreateResult false 0 [] false []
     end, p).

Definition KerberosContinueContext (context_id : Z) (challenge : text) (p : Kerberos)
    : ContinueContextResult * Kerberos :=
  let p := EnsureConnected p in
  if negb (m_connected p) then (mkContinueResult false [] false not_available, p)
  else
    let '(resp, p) := Call "continue_context"
      (Some (obj [("context_id", JInt context_id); ("challenge", JStr challenge)]%string)) p in
    (match resp with
     | Done resp => read_continued resp
     | Raised what => mkContinueResult false [] false (lit "continue_context failed: " ++ what)
     | Undefined => mkContinueResult false [] false []
     end, p).

Definition KerberosCloseContext (context_id : Z) (p : Kerberos) : Kerberos :=
  let p := EnsureConnected p in
  if negb (m_connected p) then p
  else snd (Call "close_context" (Some (obj [("context_id", JInt context_id)]%string)) p).

Definition KerberosReset (p : Kerberos) : Kerberos := DisconnectFromAgent p.

(** One turn of [KeepaliveLoop], after its sleep. *)
Definition Keepalive_turn (p : Kerberos) : Kerberos :=
  if negb (m_connected p) then
    let '(ok, p) := ConnectToAgent p in if ok then p else poll 20 (launch p)
  else
    let '(resp, p) := Call "ping" None p in
    match resp with
    | Done resp => if contains_key "error" resp then DisconnectFromAgent p else p
    | _ => DisconnectFromAgent p
    end.

#[export] Program Instance Kerberos_provider : IAuthenticationProvider Kerberos := {
  ap_CreateContext := KerberosCreateContext;
  ap_ContinueContext := KerberosContinueContext;
  ap_CloseContext := KerberosCloseContext;
  ap_Reset := KerberosReset;
  ap_GetType _ := KerberosAgent
}.
Solve All Obligations with done.
End provider.

Arguments Kerberos : clear implicits.
Arguments request id method%_string_scope params.
Arguments Call {S _} method%_string_scope params p.

(** * A broken pipe *)

Inductive KerberosOp :=
| OpCreate (spn : text)
| OpContinue (id : Z) (challenge : text)
| OpClose (id : Z)
| OpKeepalive
| OpReset.

Definition is_reset (op : KerberosOp) : bool := match op with OpReset => true | _ => false end.

Section runs.
Context {S : Type} `{!IAgentPipe S}.
Implicit Types p : Kerberos S.

Definition kerberos_op (op : KerberosOp) p : Kerberos S :=
  match op with
  | OpCreate spn => snd (KerberosCreateContext spn p)
  | OpContinue id ch => snd (KerberosContinueContext id ch p)
  | OpClose id => KerberosCloseContext id p
  | OpKeepalive => Keepalive_turn p
  | OpReset => KerberosReset p
  end.

Definition kerberos_run (ops : list KerberosOp) p : Kerberos S := foldl (λ p op, kerberos_op op p) p ops.

(** No call is answered. *)
Definition unavailable p : Prop :=
  (∀ spn, fst (KerberosCreateContext spn p) = mkCreateResult false 0 [] false not_available) ∧
  (∀ id ch, fst (KerberosContinueContext id ch p) = mkContinueResult false [] false not_available).

Definition wedged p : Prop := m_pipe p = true ∧ m_connected p = false.

Lemma Connect_wedged p : wedged p → ConnectToAgent p = (true, p).
Proof. intros [H _]. unfold ConnectToAgent. by rewrite H. Qed.

Lemma Ensure_wedged p : wedged p → EnsureConnected p = p.
Proof. intros H. unfold EnsureConnected. rewrite (proj2 H). by rewrite Connect_wedged. Qed.

Lemma wedged_unavailable p : wedged p → unavailable p.
Proof.
  intros H. unfold unavailable, KerberosCreateContext, KerberosContinueContext.
  rewrite (Ensure_wedged p H), (proj2 H). done.
Qed.

Lemma wedged_op op p : wedged p → is_reset op = false → kerberos_op op p = p.
Proof.
  intros H Hr. destruct op as [spn|id ch|id| |]; [..|done]; cbn [kerberos_op];
    unfold KerberosCreateContext, KerberosContinueContext, KerberosCloseContext, Keepalive_turn;
    rewrite ?Ensure_wedged, (proj2 H) by done; [done..|].
  cbn [negb]. by rewrite Connect_wedged.
Qed.

Lemma wedged_run ops p : wedged p → forallb (λ op, negb (is_reset op)) ops = true → kerberos_run ops p = p.
Proof.
  intros H. unfold kerberos_run. induction ops as [|op ops IH]; [done|].
  cbn [forallb foldl]. intros [H1 H2]%andb_prop. apply negb_true_iff in H1.
  rewrite wedged_op by done. by apply IH.
Qed.

(** when the pipe breaks while a token is requested, the provider is left
    with a dead handle that it takes for a connection: whatever further calls
    and keepalive turns run, it never contacts the agent again and refuses
    every request as unavailable, until it is reset. *)
Theorem broken_pipe_wedges_the_provider p spn s ops error :
  m_pipe p = true → m_connected p = true →
  pipe_call (request (m_requestId p) "create_context" (Some (obj [("spn", JStr spn)]%string)))
    (k_peer p) = (CallBroken error, s) →
  forallb (λ op, negb (is_reset op)) ops = true →
  let p' := kerberos_run ops (kerberos_op (OpCreate spn) p) in
  k_peer p' = s ∧ unavailable p' ∧ m_pipe (KerberosReset p') = false.
Proof.
  intros Hp Hc Hcall Hops. cbv zeta.
  assert (E : kerberos_op (OpCreate spn) p = set_link true false (set_peer s (next_id p))).
  { cbn [kerberos_op]. unfold KerberosCreateContext, EnsureConnected. rewrite Hc. cbn [negb].
    rewrite Hc. unfold Call. cbn [next_id m_pipe k_peer negb]. rewrite Hp. cbn [negb].
    by rewrite Hcall. }
  rewrite E, wedged_run by done. split; [done|]. split; [by apply wedged_unavailable|done].
Qed.
End runs.

(** A pipe whose other end has died. *)
#[local] Instance dead_pipe : IAgentPipe unit := {
  pipe_open s := (true, s);
  pipe_call _ s := (CallBroken 109, s);
  pipe_close s := s;
  pipe_launch _ s := s
}.

Definition sample_launch_os : LaunchOs :=
  mkLaunchOs 30000000000 1 true true false (lit "C:\svc\svc.exe") true 31000000000.

Definition sample_kerberos {S} (s : S) (up : bool) : Kerberos S :=
  mkKerberos s up up 1 7 (mkLaunch false 0) (λ _, sample_launch_os) 0.

Lemma broken_pipe_wedges_the_provider_witness :
  unavailable (kerberos_run [OpKeepalive; OpCreate (lit "HTTP/p")]
    (kerberos_op (OpCreate (lit "HTTP/p")) (sample_kerberos tt true))).
Proof.
  apply (broken_pipe_wedges_the_provider (sample_kerberos tt true) (lit "HTTP/p") tt
           [OpKeepalive; OpCreate (lit "HTTP/p")] 109); reflexivity.
Defined.

(** * Starting the agent *)

Definition count_launch (e : LaunchEvent) (l : list LaunchEvent) : nat :=
  length (filterb (is_launch e) l).

(** a launch closes every token and environment block it obtained, on each
    of its failure paths too, reports success exactly when it started the
    agent's executable from the service's own directory, and after a success
    none starts for ten seconds. *)
Theorem launch_releases_and_is_rate_limited os l :
  let '(result, evs, l') := LaunchAuthAgentInUserSession os l in
  count_launch EvUserToken evs = count_launch EvCloseUser evs ∧
  count_launch EvDupToken evs = count_launch EvCloseDup evs ∧
  count_launch EvEnvironment evs = count_launch EvDestroyEnvironment evs ∧
  (result = true ↔ In (EvProcess (agent_path (ln_exePath os))) evs) ∧
  (s_launchInProgress l = false → s_launchInProgress l' = false) ∧
  (result = true → 0 < ln_end os →
     ∀ os', ln_now os' - ln_end os < 10000000000 →
       LaunchAuthAgentInUserSession os' l' = (false, [], l')).
Proof.
  unfold LaunchAuthAgentInUserSession at 1, launch_steps.
  repeat (case_match_goal; simplify_eq; try done);
    cbn; split_and!; try done; try (intuition congruence);
    intros _ Hpos os' Hnow; unfold LaunchAuthAgentInUserSession, cooldown; cbn;
    by rewrite (proj2 (Z.ltb_lt _ _) Hpos), (proj2 (Z.ltb_lt _ _) Hnow).
Qed.
