(* ===== verification/Stats.v ===== *)
(** [infrastructure/stats/StatsCollector.h/.cpp]: the lock-free packet counters.

    A call of [OnPacket] is a thread of atomic operations; any number of them
    are interleaved by a step relation.  A relaxed load, and the load of a
    compare-exchange that fails (for a mismatch or spuriously), may return any
    value its location has held; a read-modify-write acts on the latest.  The
    quotients of [GetStats] are doubles. *)

From stdpp Require Import relations.
From S2P Require Import Prelude.
From S2P Require Import Entities.
From S2P Require Import Strtod.
From Stdlib Require Import SpecFloat.

Record PacketInfo := mkPacketInfo {
  packet_size : Z;
  protocol : Z;
  redirected : bool;
  error : bool;
  flow_id : Z
}.

(** The atomic counters; the two extremes with the values they held, latest
    first. *)
Record StatsCollector := mkStats {
  m_totalPackets : Z;
  m_tcpPackets : Z;
  m_redirectedPackets : Z;
  m_errors : Z;
  m_totalBytes : Z;
  m_minPacketSize : list Z;
  m_maxPacketSize : list Z
}.

Definition StatsCollector_new : StatsCollector := mkStats 0 0 0 0 0 [0xFFFFFFFF] [0].

Definition latest (h : list Z) : Z := hd 0 h.

(** * OnPacket *)

(** Where a call of [OnPacket] stands. *)
Inductive pc :=
| AtTotal | AtBytes | AtProtocol | AtRedirected | AtError
| AtLoadMin | AtMin (expectedMin : Z)
| AtLoadMax | AtMax (expectedMax : Z)
| AtEnd.

Definition add_total (c : StatsCollector) :=
  mkStats (m_totalPackets c +u64 1) (m_tcpPackets c) (m_redirectedPackets c) (m_errors c)
    (m_totalBytes c) (m_minPacketSize c) (m_maxPacketSize c).
Definition add_bytes (n : Z) (c : StatsCollector) :=
  mkStats (m_totalPackets c) (m_tcpPackets c) (m_redirectedPackets c) (m_errors c)
    (m_totalBytes c +u64 n) (m_minPacketSize c) (m_maxPacketSize c).
Definition add_tcp (n : Z) (c : StatsCollector) :=
  mkStats (m_totalPackets c) (m_tcpPackets c +u64 n) (m_redirectedPackets c) (m_errors c)
    (m_totalBytes c) (m_minPacketSize c) (m_maxPacketSize c).
Definition add_redirected (n : Z) (c : StatsCollector) :=
  mkStats (m_totalPackets c) (m_tcpPackets c) (m_redirectedPackets c +u64 n) (m_errors c)
    (m_totalBytes c) (m_minPacketSize c) (m_maxPacketSize c).
Definition add_error (n : Z) (c : StatsCollector) :=
  mkStats (m_totalPackets c) (m_tcpPackets c) (m_redirectedPackets c) (m_errors c +u64 n)
    (m_totalBytes c) (m_minPacketSize c) (m_maxPacketSize c).
Definition store_min (n : Z) (c : StatsCollector) :=
  mkStats (m_totalPackets c) (m_tcpPackets c) (m_redirectedPackets c) (m_errors c)
    (m_totalBytes c) (n :: m_minPacketSize c) (m_maxPacketSize c).
Definition store_max (n : Z) (c : StatsCollector) :=
  mkStats (m_totalPackets c) (m_tcpPackets c) (m_redirectedPackets c) (m_errors c)
    (m_totalBytes c) (m_minPacketSize c) (n :: m_maxPacketSize c).

Definition one_if (b : bool) : Z := if b then 1 else 0.

(** The counters a step adds to, skipped where the test of the source fails. *)
Definition w_tcp (i : PacketInfo) : Z := one_if (protocol i =? 6).
Definition w_redirected (i : PacketInfo) : Z := one_if (redirected i).
Definition w_error (i : PacketInfo) : Z := one_if (error i).

Inductive OnPacket_step (i : PacketInfo) : StatsCollector → pc → StatsCollector → pc → Prop :=
| step_total c : OnPacket_step i c AtTotal (add_total c) AtBytes
| step_bytes c : OnPacket_step i c AtBytes (add_bytes (packet_size i) c) AtProtocol
| step_protocol c :
    OnPacket_step i c AtProtocol (if protocol i =? 6 then add_tcp 1 c else c) AtRedirected
| step_redirected c :
    OnPacket_step i c AtRedirected (if redirected i then add_redirected 1 c else c) AtError
| step_error c : OnPacket_step i c AtError (if error i then add_error 1 c else c) AtLoadMin
| step_load_min c e : e ∈ m_minPacketSize c → OnPacket_step i c AtLoadMin c (AtMin e)
| step_min_exit c e : (packet_size i <? e) = false → OnPacket_step i c (AtMin e) c AtLoadMax
| step_min_swap c e :
    (packet_size i <? e) = true → latest (m_minPacketSize c) = e →
    OnPacket_step i c (AtMin e) (store_min (packet_size i) c) AtLoadMax
| step_min_fail c e e' :
    (packet_size i <? e) = true → e' ∈ m_minPacketSize c →
    OnPacket_step i c (AtMin e) c (AtMin e')
| step_load_max c e : e ∈ m_maxPacketSize c → OnPacket_step i c AtLoadMax c (AtMax e)
| step_max_exit c e : (e <? packet_size i) = false → OnPacket_step i c (AtMax e) c AtEnd
| step_max_swap c e :
    (e <? packet_size i) = true → latest (m_maxPacketSize c) = e →
    OnPacket_step i c (AtMax e) (store_max (packet_size i) c) AtEnd
| step_max_fail c e e' :
    (e <? packet_size i) = true → e' ∈ m_maxPacketSize c →
    OnPacket_step i c (AtMax e) c (AtMax e').

Abbreviation thread := (PacketInfo * pc)%type.

(** One step of some thread. *)
Inductive stats_step : StatsCollector * list thread → StatsCollector * list thread → Prop :=
| stats_step_at k i p p' c c' ts :
    ts !! k = Some (i, p) → OnPacket_step i c p c' p' →
    stats_step (c, ts) (c', <[k := (i, p')]> ts).

Definition start (infos : list PacketInfo) : StatsCollector * list thread :=
  (StatsCollector_new, (λ i, (i, AtTotal)) <$> infos).

Definition finished (ts : list thread) : Prop := Forall (λ t, snd t = AtEnd) ts.

(** * GetStats and Reset *)

Record StatsSnapshot := mkSnapshot {
  s_totalPackets : Z;
  s_tcpPackets : Z;
  s_redirectedPackets : Z;
  s_errors : Z;
  s_totalBytes : Z;
  s_avgPacketSize : double;
  s_minPacketSize : Z;
  s_maxPacketSize : Z;
  s_packetsPerSecond : double
}.

Record RateState := mkRate { m_lastStatsCall : Z; m_lastTotalPackets : Z }.

(** [now_ms - last] is the elapsed time in milliseconds. *)
Definition GetStats (now_ms : Z) (c : StatsCollector) (r : RateState) : StatsSnapshot * RateState :=
  let total := m_totalPackets c in
  let elapsed_ms := now_ms - m_lastStatsCall r in
  let packetsSinceLast := total -u64 m_lastTotalPackets r in
  (mkSnapshot total (m_tcpPackets c) (m_redirectedPackets c) (m_errors c) (m_totalBytes c)
     (if 0 <? total then double_div (double_of_Z (m_totalBytes c)) (double_of_Z total) else double_0)
     (latest (m_minPacketSize c)) (latest (m_maxPacketSize c))
     (if 0 <? elapsed_ms
      then double_div (double_mul (double_of_Z packetsSinceLast) (double_of_Z 1000)) (double_of_Z elapsed_ms)
      else double_0),
   mkRate now_ms total).

Definition Reset (now_ms : Z) : StatsCollector * RateState :=
  (StatsCollector_new, mkRate now_ms 0).

(** * Aggregates over the threads *)

Definition rank (p : pc) : nat :=
  match p with
  | AtTotal => 0 | AtBytes => 1 | AtProtocol => 2 | AtRedirected => 3 | AtError => 4
  | AtLoadMin => 5 | AtMin _ => 6 | AtLoadMax => 7 | AtMax _ => 8 | AtEnd => 9
  end.

(** What a thread has contributed once it is past operation [k]. *)
Definition past (k : nat) (w : PacketInfo → Z) (t : thread) : option Z :=
  if (k <? rank (snd t))%nat then Some (w (fst t)) else None.

Section aggregate.
Context (op : Z → Z → Z) (op_assoc : ∀ x y z, op x (op y z) = op (op x y) z)
  (op_comm : ∀ x y, op x y = op y x).

Definition agg (e : Z) (f : thread → option Z) (ts : list thread) : Z :=
  foldr (λ t acc, match f t with Some v => op v acc | None => acc end) e ts.

Lemma agg_same e f ts k t t' :
  ts !! k = Some t → f t = f t' → agg e f (<[k := t']> ts) = agg e f ts.
Proof.
  intros Hk Hf. revert k Hk. induction ts as [|u ts IH]; intros [|k] Hk; simplify_eq/=.
  - by rewrite Hf.
  - by rewrite IH.
Qed.

Lemma agg_more e f ts k t t' v :
  ts !! k = Some t → f t = None → f t' = Some v → agg e f (<[k := t']> ts) = op v (agg e f ts).
Proof.
  intros Hk Hn Hs. revert k Hk. induction ts as [|u ts IH]; intros [|k] Hk; simplify_eq/=.
  - by rewrite Hn, Hs.
  - rewrite IH by done. destruct (f u) as [x|]; [|done].
    rewrite !op_assoc. f_equal. apply op_comm.
Qed.
End aggregate.

Definition total_of (w : PacketInfo → Z) (infos : list PacketInfo) : Z := foldr (λ i a, w i + a) 0 infos.
Definition min_of (infos : list PacketInfo) : Z := foldr (λ i a, Z.min (packet_size i) a) 0xFFFFFFFF infos.
Definition max_of (infos : list PacketInfo) : Z := foldr (λ i a, Z.max (packet_size i) a) 0 infos.

Abbreviation sum_past := (λ k w ts, agg Z.add 0 (past k w) ts).

Record stats_inv (c : StatsCollector) (ts : list thread) : Prop := mkStatsInv {
  si_total : m_totalPackets c = wrap 64 (sum_past 0%nat (λ _, 1) ts);
  si_bytes : m_totalBytes c = wrap 64 (sum_past 1%nat packet_size ts);
  si_tcp : m_tcpPackets c = wrap 64 (sum_past 2%nat w_tcp ts);
  si_redirected : m_redirectedPackets c = wrap 64 (sum_past 3%nat w_redirected ts);
  si_errors : m_errors c = wrap 64 (sum_past 4%nat w_error ts);
  si_min : latest (m_minPacketSize c) = agg Z.min 0xFFFFFFFF (past 6 packet_size) ts;
  si_max : latest (m_maxPacketSize c) = agg Z.max 0 (past 8 packet_size) ts;
  si_min_hist : Forall (λ e, latest (m_minPacketSize c) <= e) (m_minPacketSize c);
  si_max_hist : Forall (λ e, e <= latest (m_maxPacketSize c)) (m_maxPacketSize c);
  si_nonempty : m_minPacketSize c ≠ [] ∧ m_maxPacketSize c ≠ [];
  si_min_seen : ∀ k i e, ts !! k = Some (i, AtMin e) → latest (m_minPacketSize c) <= e;
  si_max_seen : ∀ k i e, ts !! k = Some (i, AtMax e) → e <= latest (m_maxPacketSize c)
}.

(** * The invariant is preserved *)

(** An aggregate changes exactly at the operation it counts. *)
Lemma agg_step op e n w ts k i p p' :
  (∀ x y z, op x (op y z) = op (op x y) z) → (∀ x y, op x y = op y x) →
  ts !! k = Some (i, p) → (rank p <= rank p')%nat →
  agg op e (past n w) (<[k := (i, p')]> ts) =
  if ((n <? rank p) || negb (n <? rank p'))%nat then agg op e (past n w) ts
  else op (w i) (agg op e (past n w) ts).
Proof.
  intros Ha Hc Hk Hr.
  destruct (Nat.ltb_spec n (rank p)) as [H1|H1], (Nat.ltb_spec n (rank p')) as [H2|H2]; cbn [orb negb];
    try lia.
  - apply (agg_same op e _ _ _ _ _ Hk). unfold past. cbn [fst snd].
    by rewrite (proj2 (Nat.ltb_lt _ _) H1), (proj2 (Nat.ltb_lt _ _) H2).
  - apply (agg_more op Ha Hc e _ _ _ _ _ _ Hk); unfold past; cbn [fst snd];
      [by rewrite (proj2 (Nat.ltb_ge _ _) H1)|by rewrite (proj2 (Nat.ltb_lt _ _) H2)].
  - apply (agg_same op e _ _ _ _ _ Hk). unfold past. cbn [fst snd].
    by rewrite (proj2 (Nat.ltb_ge _ _) H1), (proj2 (Nat.ltb_ge _ _) H2).
Qed.

Lemma wrap_sum x y : wrap 64 (wrap 64 x + y) = wrap 64 (y + x).
Proof. rewrite wrap_add_l. f_equal. lia. Qed.

Lemma seen_other {ts : list thread} {k i p} (P : Z → Prop) (at_ : Z → pc) :
  (∀ j i' e, ts !! j = Some (i', at_ e) → P e) → (∀ e, p = at_ e → P e) →
  ∀ j i' e, <[k := (i, p)]> ts !! j = Some (i', at_ e) → P e.
Proof.
  intros H Hp j i' e Hj. apply list_lookup_insert_Some in Hj as [(-> & [= -> Hq] & _)|[_ Hj]]; eauto.
Qed.

Lemma latest_in h : h ≠ [] → latest h ∈ h.
Proof. destruct h; [done|]. intros _. by left. Qed.

Ltac split_inv Hk :=
  constructor;
  rewrite ?(agg_step Z.add _ _ _ _ _ _ _ _ Z.add_assoc Z.add_comm Hk) by (cbn; lia);
  rewrite ?(agg_step Z.min _ _ _ _ _ _ _ _ Z.min_assoc Z.min_comm Hk) by (cbn; lia);
  rewrite ?(agg_step Z.max _ _ _ _ _ _ _ _ Z.max_assoc Z.max_comm Hk) by (cbn; lia);
  cbn [rank Nat.ltb Nat.leb orb negb];
  cbn [m_totalPackets m_totalBytes m_tcpPackets m_redirectedPackets m_errors m_minPacketSize
       m_maxPacketSize add_total add_bytes add_tcp add_redirected add_error store_min store_max latest hd].

Lemma stats_step_inv c ts k i p c' p' :
  stats_inv c ts → ts !! k = Some (i, p) → OnPacket_step i c p c' p' →
  stats_inv c' (<[k := (i, p')]> ts).
Proof.
  intros HI Hk Hs. pose proof HI as [H1 H2 H3 H4 H5 H6 H7 H8 H9 [Ha Hb] H10 H11].
  destruct Hs as [c|c|c|c|c|c e He|c e He|c e He Hl|c e e' He Hl|c e He|c e He|c e He Hl|c e e' He Hl].
  - split_inv Hk; rewrite ?H1, ?wrap_sum; try done; by eapply seen_other.
  - split_inv Hk; rewrite ?H2, ?wrap_sum; try done; by eapply seen_other.
  - destruct (protocol i =? 6) eqn:E; split_inv Hk; unfold w_tcp; rewrite ?E, ?H3, ?wrap_sum;
      try done; by eapply seen_other.
  - destruct (redirected i) eqn:E; split_inv Hk; unfold w_redirected; rewrite ?E, ?H4, ?wrap_sum;
      try done; by eapply seen_other.
  - destruct (error i) eqn:E; split_inv Hk; unfold w_error; rewrite ?E, ?H5, ?wrap_sum;
      try done; by eapply seen_other.
  - split_inv Hk; try done; eapply seen_other; try done.
    intros e' [= <-]. by eapply Forall_forall in H8.
  - split_inv Hk; try done; try (by eapply seen_other).
    rewrite <- H6. pose proof (H10 _ _ _ Hk). bool_to_prop. lia.
  - split_inv Hk; try done; try (by eapply seen_other).
    + rewrite <- H6, Hl. bool_to_prop. lia.
    + bool_to_prop. constructor; [lia|]. eapply Forall_impl; [exact H8|]. cbn. intros. lia.
    + bool_to_prop. eapply seen_other; [|done]. intros. etrans; [|by eapply H10]. lia.
  - split_inv Hk; try done; eapply seen_other; try done.
    intros e'' [= <-]. by eapply Forall_forall in H8.
  - split_inv Hk; try done; eapply seen_other; try done.
    intros e' [= <-]. by eapply Forall_forall in H9.
  - split_inv Hk; try done; try (by eapply seen_other).
    rewrite <- H7. pose proof (H11 _ _ _ Hk). bool_to_prop. lia.
  - split_inv Hk; try done; try (by eapply seen_other).
    + rewrite <- H7, Hl. bool_to_prop. lia.
    + bool_to_prop. constructor; [lia|]. eapply Forall_impl; [exact H9|]. cbn. intros. lia.
    + bool_to_prop. eapply seen_other; [|done]. intros. etrans; [by eapply H11|]. lia.
  - split_inv Hk; try done; eapply seen_other; try done.
    intros e'' [= <-]. by eapply Forall_forall in H9.
Qed.

Lemma stats_start_inv infos : stats_inv (fst (start infos)) (snd (start infos)).
Proof.
  assert (Hz : ∀ op e n w, agg op e (past n w) (snd (start infos)) = e).
  { intros. cbn. induction infos as [|i infos IH]; [done|]. exact IH. }
  constructor; rewrite ?Hz; try done; cbn [start fst snd m_minPacketSize m_maxPacketSize];
    try (apply Forall_singleton; cbn; lia);
    intros k i e; rewrite list_lookup_fmap; by destruct (infos !! k).
Qed.

Lemma stats_steps_inv infos st :
  rtc stats_step (start infos) st →
  stats_inv (fst st) (snd st) ∧ fst <$> snd st = infos.
Proof.
  intros H.
  apply (rtc_ind_r (R := stats_step) (λ st, stats_inv (fst st) (snd st) ∧ fst <$> snd st = infos)
           (start infos)); [| |exact H].
  - split; [apply stats_start_inv|]. cbn. rewrite <- list_fmap_compose. by apply list_fmap_id.
  - intros st1 st2 _ Hs [HI Hf]. destruct Hs as [k i p p' c c' ts Hk Hs]. cbn [fst snd] in *.
    split; [by eapply stats_step_inv|]. rewrite list_fmap_insert. cbn [fst]. rewrite <- Hf.
    apply list_insert_id. by rewrite list_lookup_fmap, Hk.
Qed.

Lemma agg_finished op e n w ts :
  finished ts → (n < 9)%nat →
  agg op e (past n w) ts = foldr (λ i a, op (w i) a) e (fst <$> ts).
Proof.
  intros Hf Hn. induction Hf as [|[i p] ts Hp _ IH]; [done|]. cbn in Hp. subst p.
  change (agg op e (past n w) ((i, AtEnd) :: ts)) with
    (match past n w (i, AtEnd) with Some v => op v (agg op e (past n w) ts)
     | None => agg op e (past n w) ts end).
  rewrite fmap_cons. cbn [foldr fst]. rewrite <- IH. unfold past at 1. cbn [fst snd].
  change (rank AtEnd) with 9%nat. by rewrite (proj2 (Nat.ltb_lt n 9) Hn).
Qed.

(** * Every call can finish *)

(** From a state where the extremes have a value, a call that runs alone, with
    compare-exchanges that do not fail spuriously, reaches its end. *)
Definition has_values (c : StatsCollector) : Prop := m_minPacketSize c ≠ [] ∧ m_maxPacketSize c ≠ [].

Abbreviation alone i := (rtc (λ x y : StatsCollector * pc, OnPacket_step i (fst x) (snd x) (fst y) (snd y))).

Lemma alone_step i c p c1 p1 z :
  OnPacket_step i c p c1 p1 → alone i (c1, p1) z → alone i (c, p) z.
Proof. intros Hs. by apply rtc_l. Qed.

Lemma alone_once i c p c1 p1 : OnPacket_step i c p c1 p1 → alone i (c, p) (c1, p1).
Proof. intros Hs. by apply (alone_step i c p c1 p1). Qed.

Lemma alone_max i c e :
  has_values c → ∃ c', alone i (c, AtMax e) (c', AtEnd) ∧ has_values c'.
Proof.
  intros [H1 H2]. destruct (e <? packet_size i) eqn:E.
  - destruct (decide (latest (m_maxPacketSize c) = e)) as [Hl|Hl].
    + exists (store_max (packet_size i) c). split; [|by split]. eapply alone_once. by apply step_max_swap.
    + set (e' := latest (m_maxPacketSize c)). destruct (e' <? packet_size i) eqn:E'.
      * exists (store_max (packet_size i) c). split; [|by split].
        eapply alone_step; [apply (step_max_fail i c e e'); [done|by apply latest_in]|].
        eapply alone_once. by apply step_max_swap.
      * exists c. split; [|done].
        eapply alone_step; [apply (step_max_fail i c e e'); [done|by apply latest_in]|].
        eapply alone_once. by apply step_max_exit.
  - exists c. split; [|done]. eapply alone_once. by apply step_max_exit.
Qed.

Lemma alone_load_max i c : has_values c → ∃ c', alone i (c, AtLoadMax) (c', AtEnd) ∧ has_values c'.
Proof.
  intros H. destruct (alone_max i c (latest (m_maxPacketSize c)) H) as (c' & Hr & H').
  exists c'. split; [|done]. eapply alone_step; [|exact Hr]. apply step_load_max, latest_in, H.
Qed.

Lemma alone_min i c e :
  has_values c → ∃ c', alone i (c, AtMin e) (c', AtEnd) ∧ has_values c'.
Proof.
  intros H. pose proof H as [H1 H2].
  assert (Hexit : ∀ e0, (packet_size i <? e0) = false →
            ∃ c', alone i (c, AtMin e0) (c', AtEnd) ∧ has_values c').
  { intros e0 E. destruct (alone_load_max i c H) as (c' & Hr & H'). exists c'. split; [|done].
    eapply alone_step; [|exact Hr]. by apply step_min_exit. }
  assert (Hswap : ∀ e0, (packet_size i <? e0) = true → latest (m_minPacketSize c) = e0 →
            ∃ c', alone i (c, AtMin e0) (c', AtEnd) ∧ has_values c').
  { intros e0 E Hl. destruct (alone_load_max i (store_min (packet_size i) c)) as (c' & Hr & H'); [done|].
    exists c'. split; [|done]. eapply alone_step; [|exact Hr]. by apply step_min_swap. }
  destruct (packet_size i <? e) eqn:E; [|by apply Hexit].
  set (e' := latest (m_minPacketSize c)).
  assert (Hnext : ∃ c', alone i (c, AtMin e') (c', AtEnd) ∧ has_values c').
  { destruct (packet_size i <? e') eqn:E'; [by apply Hswap|by apply Hexit]. }
  destruct Hnext as (c' & Hr & H'). exists c'. split; [|done].
  eapply alone_step; [|exact Hr]. apply step_min_fail; [done|by apply latest_in].
Qed.

Lemma alone_finishes i c p : has_values c → ∃ c', alone i (c, p) (c', AtEnd) ∧ has_values c'.
Proof.
  assert (Hgo : ∀ c p c1 p1, OnPacket_step i c p c1 p1 → has_values c1 →
    (∀ c, has_values c → ∃ c', alone i (c, p1) (c', AtEnd) ∧ has_values c') →
    ∃ c', alone i (c, p) (c', AtEnd) ∧ has_values c').
  { intros c0 p0 c1 p1 Hs H1 Hr. destruct (Hr c1 H1) as (c' & Hr' & H'). exists c'.
    split; [|done]. by eapply alone_step. }
  assert (HLmin : ∀ c, has_values c → ∃ c', alone i (c, AtLoadMin) (c', AtEnd) ∧ has_values c').
  { intros c0 H. eapply Hgo; [apply step_load_min, latest_in, H|done|]. intros; by apply alone_min. }
  assert (HE : ∀ c, has_values c → ∃ c', alone i (c, AtError) (c', AtEnd) ∧ has_values c').
  { intros c0 H. eapply Hgo; [apply step_error|by destruct (error i)|done]. }
  assert (HR : ∀ c, has_values c → ∃ c', alone i (c, AtRedirected) (c', AtEnd) ∧ has_values c').
  { intros c0 H. eapply Hgo; [apply step_redirected|by destruct (redirected i)|done]. }
  assert (HP : ∀ c, has_values c → ∃ c', alone i (c, AtProtocol) (c', AtEnd) ∧ has_values c').
  { intros c0 H. eapply Hgo; [apply step_protocol|by destruct (protocol i =? 6)|done]. }
  assert (HB : ∀ c, has_values c → ∃ c', alone i (c, AtBytes) (c', AtEnd) ∧ has_values c').
  { intros c0 H. eapply Hgo; [apply step_bytes|done|done]. }
  intros H. destruct p; [|by auto..|by apply alone_min|by apply alone_load_max|by apply alone_max|].
  - by eapply Hgo; [apply step_total|done|exact HB].
  - exists c. split; [apply rtc_refl|done].
Qed.

Lemma alone_in_system ts k i c p c' p' :
  alone i (c, p) (c', p') → ts !! k = Some (i, p) →
  rtc stats_step (c, ts) (c', <[k := (i, p')]> ts).
Proof.
  intros H. remember (c, p) as x eqn:Ex. remember (c', p') as y eqn:Ey. revert c p ts Ex.
  induction H as [x|x [c1 p1] z Hs _ IH]; intros c p ts Ex Hk; simplify_eq.
  - by rewrite list_insert_id.
  - eapply rtc_l; [by eapply stats_step_at|].
    replace (<[k := (i, p')]> ts) with (<[k := (i, p')]> (<[k := (i, p1)]> ts)) by apply list_insert_insert_eq.
    eapply IH; try done. apply list_lookup_insert_eq. by eapply lookup_lt_Some.
Qed.

Lemma all_finish n c ts :
  has_values c → (∀ k t, ts !! k = Some t → (k < n)%nat → snd t = AtEnd) → 
  ∃ c' ts', rtc stats_step (c, ts) (c', ts') ∧ finished ts'.
Proof.
  remember (length ts - n)%nat as m eqn:Em. revert n c ts Em.
  induction m as [|m IH]; intros n c ts Em Hv Hd.
  - exists c, ts. split; [done|]. apply Forall_lookup. intros k t Hk.
    apply (Hd k); [done|]. apply lookup_lt_Some in Hk. lia.
  - destruct (lookup_lt_is_Some_2 ts n) as [[i p] Hk]; [lia|].
    destruct (alone_finishes i c p Hv) as (c1 & Hr & Hv1).
    destruct (IH (S n) c1 (<[n := (i, AtEnd)]> ts)) as (c' & ts' & Hr' & Hf).
    + rewrite length_insert. lia.
    + done.
    + intros k t Hkt Hlt. apply list_lookup_insert_Some in Hkt as [(-> & <- & _)|[Hne Hkt]]; [done|].
      apply (Hd k); [done|lia].
    + exists c', ts'. split; [|done]. etrans; [by eapply alone_in_system|done].
Qed.

(** C30: the lock-free counters lose nothing.  However the operations of any
    number of [OnPacket] calls interleave, with stale relaxed loads and
    compare-exchanges that fail spuriously, when all of them have returned the
    counters are the sums over the packets modulo 2^64 and the extremes are
    the least and greatest packet size; and from every state on the way the
    calls can all return. *)
Theorem counters_are_exact infos c ts :
  rtc stats_step (start infos) (c, ts) →
  (finished ts →
     m_totalPackets c = wrap 64 (Z.of_nat (length infos)) ∧
     m_totalBytes c = wrap 64 (total_of packet_size infos) ∧
     m_tcpPackets c = wrap 64 (total_of w_tcp infos) ∧
     m_redirectedPackets c = wrap 64 (total_of w_redirected infos) ∧
     m_errors c = wrap 64 (total_of w_error infos) ∧
     latest (m_minPacketSize c) = min_of infos ∧ latest (m_maxPacketSize c) = max_of infos) ∧
  ∃ c' ts', rtc stats_step (c, ts) (c', ts') ∧ finished ts'.
Proof.
  intros H. destruct (stats_steps_inv _ _ H) as [HI Hf]. cbn [fst snd] in *. split.
  - intros Hd. destruct HI as [H1 H2 H3 H4 H5 H6 H7 _ _ _ _ _].
    rewrite ?H1, ?H2, ?H3, ?H4, ?H5, ?H6, ?H7, ?agg_finished, Hf by (done || lia).
    split; [|done]. f_equal. clear. induction infos as [|i infos IH]; [done|].
    cbn [foldr length]. rewrite IH. lia.
  - apply (all_finish 0); [apply HI|]. intros. lia.
Qed.

Definition sample_packet (size : Z) (tcp : bool) : PacketInfo :=
  mkPacketInfo size (if tcp then 6 else 17) tcp false 0.

(** One call, run to its end. *)
Lemma counters_are_exact_witness :
  ∃ c ts, rtc stats_step (start [sample_packet 40 true]) (c, ts) ∧ finished ts ∧
          m_totalBytes c = 40 ∧ latest (m_minPacketSize c) = 40.
Proof.
  destruct (counters_are_exact [sample_packet 40 true] _ _ (rtc_refl _ _)) as (_ & c & ts & Hr & Hf).
  destruct (counters_are_exact [sample_packet 40 true] c ts Hr) as [H _].
  destruct (H Hf) as (_ & Hb & _ & _ & _ & Hm & _).
  exists c, ts. split; [exact Hr|]. split; [exact Hf|]. split; [rewrite Hb|rewrite Hm]; vm_compute; reflexivity.
Defined.
