(* ===== verification/ConfigManager.v ===== *)
(** [infrastructure/config/ConfigManager.h/.cpp] behind the port
    [domain/ports/IConfigStore.h]: the settings and rules in memory, their JSON
    document, loading and saving it through a temporary file, the password
    under DPAPI, and the listeners.

    Every method holds the manager's mutex to its end, so a call is one step.
    A listener is a number; that it was called, with which settings, is
    recorded.  What the JSON library prints and parses, the system's text
    conversions and DPAPI are parameters; what each file operation answers
    comes with the call. *)

From S2P Require Import Prelude.
From S2P Require Import Text.
From S2P Require Import Entities.
From S2P Require Import Base64.
From S2P Require Import Json.

(** * Assignments to the settings *)

Definition put_app (v : AppSettings) (c : Config) : Config :=
  mkConfig v (c_proxy c) (c_auth c) (c_log c) (c_log_rotation c) (c_stats c).
Definition put_proxy (v : ProxySettings) (c : Config) : Config :=
  mkConfig (c_app c) v (c_auth c) (c_log c) (c_log_rotation c) (c_stats c).
Definition put_auth (v : AuthSettings) (c : Config) : Config :=
  mkConfig (c_app c) (c_proxy c) v (c_log c) (c_log_rotation c) (c_stats c).
Definition put_log (v : LogSettings) (c : Config) : Config :=
  mkConfig (c_app c) (c_proxy c) (c_auth c) v (c_log_rotation c) (c_stats c).
Definition put_log_rotation (v : LogRotationSettings) (c : Config) : Config :=
  mkConfig (c_app c) (c_proxy c) (c_auth c) (c_log c) v (c_stats c).
Definition put_stats (v : StatsSettings) (c : Config) : Config :=
  mkConfig (c_app c) (c_proxy c) (c_auth c) (c_log c) (c_log_rotation c) v.

Definition put_encryptedPassword (p : text) (c : Config) : Config :=
  let a := c_auth c in
  put_auth (mkAuthSettings (au_enabled a) (au_username a) p (au_kerberos a) (au_authMode a)) c.
Definition put_level (n : Z) (c : Config) : Config :=
  put_log (mkLogSettings n (lg_fileEnabled (c_log c)) (lg_maxSizeMB (c_log c))) c.

(** * The JSON document *)

Section strings.
Context (MultiByteToWideChar WideCharToMultiByte : text → option text).
Abbreviation Utf8ToWide := (Utf8ToWide MultiByteToWideChar).
Abbreviation WideToUtf8 := (WideToUtf8 WideCharToMultiByte).

Definition type_name (t : RuleType) : text :=
  match t with ProcessPath => lit "process_path" | Global => lit "global" | _ => lit "process_name" end.
Definition action_name (a : RuleAction) : text :=
  match a with Direct => lit "direct" | Block => lit "block" | _ => lit "proxy" end.

Definition type_of_name (s : text) : RuleType :=
  if text_eqb s (lit "process_path") then ProcessPath
  else if text_eqb s (lit "global") then Global else ProcessName.
Definition action_of_name (s : text) : RuleAction :=
  if text_eqb s (lit "direct") then Direct else if text_eqb s (lit "block") then Block else Proxy.

Definition rule_to_json (r : Rule) : json :=
  obj [("id", JStr (r_id r)); ("pattern", JStr (WideToUtf8 (r_pattern r)));
       ("description", JStr (WideToUtf8 (r_description r))); ("priority", JInt (r_priority r));
       ("enabled", JBool (r_enabled r)); ("type", JStr (type_name (r_type r)));
       ("action", JStr (action_name (r_action r)))]%string.

Definition RulesToJson (rules : list Rule) : json := JArr (map rule_to_json rules).

(** [for (const auto& r : j)] *)
Definition elements (j : json) : list json :=
  match j with JArr l => l | JObj l => map snd l | JNull => [] | v => [v] end.

Definition rule_of_json (r : json) : exec Rule :=
  id <-? value_or get_string "id" [] r;;
  pattern <-? (p <-? at_const "pattern" r;; get_string p);;
  description <-? value_or get_string "description" [] r;;
  priority <-? value_or get_int "priority" 0 r;;
  enabled <-? value_or get_bool "enabled" true r;;
  type_str <-? value_or get_string "type" (lit "process_name") r;;
  action_str <-? value_or get_string "action" (lit "proxy") r;;
  Done (mkRule id (type_of_name type_str) (action_of_name action_str) (Utf8ToWide pattern)
          (Utf8ToWide description) priority enabled 0 0).

Fixpoint rules_of (l : list json) : exec (list Rule) :=
  match l with
  | [] => Done []
  | r :: l' => rule <-? rule_of_json r;; rules <-? rules_of l';; Done (rule :: rules)
  end.

Definition JsonToRules (j : json) : exec (list Rule) :=
  if contains_key "rules" j then rs <-? at_const "rules" j;; rules_of (elements rs) else Done [].

(** [j\[section\]\[key\] = v] *)
Definition set_in (sec key : String.string) (v : json) (j : list (text * json)) : list (text * json) :=
  let fields := match assoc (lit sec) j with Some (JObj l) => l | _ => [] end in
  assoc_set (lit sec) (JObj (assoc_set (lit key) v fields)) j.

Definition set_all (fields : list (String.string * String.string * json)) : list (text * json) :=
  foldl (λ j f, set_in (fst (fst f)) (snd (fst f)) (snd f) j) [] fields.

Definition head_fields (c : Config) : list (String.string * String.string * json) :=
  [("app", "exePath", JStr (WideToUtf8 (app_exePath (c_app c))));
   ("proxy", "host", JStr (px_host (c_proxy c)));
   ("proxy", "port", JInt (px_port (c_proxy c)));
   ("proxy", "enabled", JBool (px_enabled (c_proxy c)));
   ("auth", "enabled", JBool (au_enabled (c_auth c)));
   ("auth", "username", JStr (au_username (c_auth c)));
   ("auth", "encryptedPassword", JStr (au_encryptedPassword (c_auth c)));
   ("auth", "kerberos", JBool (au_kerberos (c_auth c)));
   ("log", "level", JInt (lg_level (c_log c)));
   ("log", "fileEnabled", JBool (lg_fileEnabled (c_log c)));
   ("log", "maxSizeMB", JInt (lg_maxSizeMB (c_log c)))]%string.

Definition rotation_fields (r : LogRotationSettings) : list (String.string * String.string * json) :=
  [("log_rotation", "enabled", JBool (lr_enabled r));
   ("log_rotation", "schedule", JStr (lr_schedule r));
   ("log_rotation", "hour", JInt (lr_hour r));
   ("log_rotation", "minute", JInt (lr_minute r));
   ("log_rotation", "max_age_days", JInt (lr_max_age_days r));
   ("log_rotation", "archive_dir", JStr (lr_archive_dir r));
   ("log_rotation", "compress", JBool (lr_compress r))]%string.

Definition interval_fields (c : Config) : list (String.string * String.string * json) :=
  [("stats", "updateIntervalMs", JInt (st_updateIntervalMs (c_stats c)))]%string.

Definition ConfigToJson (c : Config) : json := JObj (set_all (head_fields c ++ interval_fields c)).

(** Both conversion helpers are unused: loading and saving assign the fields
    themselves, and this one ignores its argument. *)
Definition JsonToConfig (j : json) : Config := Config_default.

(** The document of [SaveImpl]. *)
Definition document (c : Config) (rules : list Rule) : json :=
  JObj (assoc_set (lit "rules") (RulesToJson rules)
    (set_all (head_fields c ++ rotation_fields (c_log_rotation c) ++ interval_fields c))).

(** ** Loading

    The settings are assigned one by one; an exception keeps what was
    assigned before it. *)
Definition Loader : Type := Config → Config * exec unit.

Definition assign {A} (read : exec A) (put : A → Config → Config) : Loader :=
  λ c, match read with
       | Done a => (put a c, Done tt)
       | Raised e => (c, Raised e)
       | Undefined => (c, Undefined)
       end.

Fixpoint in_turn (ls : list Loader) : Loader :=
  λ c, match ls with
       | [] => (c, Done tt)
       | l :: ls' =>
           match l c with
           | (c', Done _) => in_turn ls' c'
           | stopped => stopped
           end
       end.

(** [if (j.contains(key)) { auto& s = j\[key\]; ... }] *)
Definition in_section (key : String.string) (j : json) (body : json → list Loader) : Loader :=
  λ c, if contains_key key j then
         match at_mut key j with
         | Done s => in_turn (body s) c
         | Raised e => (c, Raised e)
         | Undefined => (c, Undefined)
         end
       else (c, Done tt).
Arguments in_section key%_string_scope j body.

Definition load_app (a : json) : list Loader :=
  [assign (v <-? at_mut "exePath" a;; get_string v) (λ s, put_app (mkAppSettings (Utf8ToWide s)))].

(** The port is read as an [int] and stored in 16 bits. *)
Definition load_proxy (p : json) : list Loader :=
  [assign (value_or get_string "host" (lit "127.0.0.1") p)
     (λ v c, put_proxy (mkProxySettings v (px_port (c_proxy c)) (px_enabled (c_proxy c))) c);
   assign (value_or get_int "port" 3128 p)
     (λ v c, put_proxy (mkProxySettings (px_host (c_proxy c)) (wrap 16 v) (px_enabled (c_proxy c))) c);
   assign (value_or get_bool "enabled" true p)
     (λ v c, put_proxy (mkProxySettings (px_host (c_proxy c)) (px_port (c_proxy c)) v) c)].

Definition load_auth (a : json) : list Loader :=
  [assign (value_or get_bool "enabled" false a)
     (λ v c, let s := c_auth c in
             put_auth (mkAuthSettings v (au_username s) (au_encryptedPassword s) (au_kerberos s)
                         (au_authMode s)) c);
   assign (value_or get_string "username" [] a)
     (λ v c, let s := c_auth c in
             put_auth (mkAuthSettings (au_enabled s) v (au_encryptedPassword s) (au_kerberos s)
                         (au_authMode s)) c);
   assign (value_or get_string "encryptedPassword" [] a) put_encryptedPassword;
   assign (value_or get_bool "kerberos" false a)
     (λ v c, let s := c_auth c in
             put_auth (mkAuthSettings (au_enabled s) (au_username s) (au_encryptedPassword s) v
                         (au_authMode s)) c)].

Definition load_log (l : json) : list Loader :=
  [assign (value_or get_int "level" 2 l) put_level;
   assign (value_or get_bool "fileEnabled" true l)
     (λ v c, put_log (mkLogSettings (lg_level (c_log c)) v (lg_maxSizeMB (c_log c))) c);
   assign (value_or get_int "maxSizeMB" 10 l)
     (λ v c, put_log (mkLogSettings (lg_level (c_log c)) (lg_fileEnabled (c_log c)) v) c)].

Definition load_stats (s : json) : list Loader :=
  [assign (value_or get_int "updateIntervalMs" 2000 s) (λ v, put_stats (mkStatsSettings v))].

Definition put_rotation (f : LogRotationSettings → LogRotationSettings) (c : Config) : Config :=
  put_log_rotation (f (c_log_rotation c)) c.

Definition load_log_rotation (lr : json) : list Loader :=
  [assign (value_or get_bool "enabled" true lr)
     (λ v, put_rotation (λ r, mkLogRotationSettings v (lr_schedule r) (lr_hour r) (lr_minute r)
             (lr_max_age_days r) (lr_archive_dir r) (lr_compress r)));
   assign (value_or get_string "schedule" (lit "daily") lr)
     (λ v, put_rotation (λ r, mkLogRotationSettings (lr_enabled r) v (lr_hour r) (lr_minute r)
             (lr_max_age_days r) (lr_archive_dir r) (lr_compress r)));
   assign (value_or get_int "hour" 3 lr)
     (λ v, put_rotation (λ r, mkLogRotationSettings (lr_enabled r) (lr_schedule r) v (lr_minute r)
             (lr_max_age_days r) (lr_archive_dir r) (lr_compress r)));
   assign (value_or get_int "minute" 0 lr)
     (λ v, put_rotation (λ r, mkLogRotationSettings (lr_enabled r) (lr_schedule r) (lr_hour r) v
             (lr_max_age_days r) (lr_archive_dir r) (lr_compress r)));
   assign (value_or get_int "max_age_days" 30 lr)
     (λ v, put_rotation (λ r, mkLogRotationSettings (lr_enabled r) (lr_schedule r) (lr_hour r)
             (lr_minute r) v (lr_archive_dir r) (lr_compress r)));
   assign (value_or get_string "archive_dir" [] lr)
     (λ v, put_rotation (λ r, mkLogRotationSettings (lr_enabled r) (lr_schedule r) (lr_hour r)
             (lr_minute r) (lr_max_age_days r) v (lr_compress r)));
   assign (value_or get_bool "compress" true lr)
     (λ v, put_rotation (λ r, mkLogRotationSettings (lr_enabled r) (lr_schedule r) (lr_hour r)
             (lr_minute r) (lr_max_age_days r) (lr_archive_dir r) v))].

Definition load_settings (j : json) : Loader :=
  in_turn [in_section "app" j load_app; in_section "proxy" j load_proxy;
           in_section "auth" j load_auth; in_section "log" j load_log;
           in_section "stats" j load_stats; in_section "log_rotation" j load_log_rotation].
End strings.

(** * DPAPI *)

Section dpapi.
Context (CryptProtectData CryptUnprotectData : text → option text).

(** A wide string in memory: little-endian 16-bit units. *)
Definition wide_bytes (ws : text) : text := flat_map (λ c, [c mod 256; c / 256]) ws.

Fixpoint wide_of_bytes (b : text) : text :=
  match b with
  | lo :: hi :: b' => (lo + 256 * hi) :: wide_of_bytes b'
  | _ => []
  end.

Definition EncryptPassword (plaintext : text) : text :=
  match CryptProtectData (wide_bytes plaintext) with
  | Some blob => ConfigBase64Encode blob
  | None => []
  end.

Definition DecryptPassword (ciphertext : text) : text :=
  match ConfigBase64Decode ciphertext with
  | [] => []
  | raw => match CryptUnprotectData raw with Some b => wide_of_bytes b | None => [] end
  end.

(** [SecretsManager]: the same without the base64 text. *)
Definition SecretsManager_Encrypt (plaintext : text) : text :=
  match CryptProtectData (wide_bytes plaintext) with Some blob => blob | None => [] end.

Definition SecretsManager_Decrypt (ciphertext : text) : text :=
  match CryptUnprotectData ciphertext with Some b => wide_of_bytes b | None => [] end.
End dpapi.

(** * The manager *)

Section manager.
Context {M : Type}.

(** A file holds the whole printed document, or a part of it that does not
    parse. *)
Inductive FileText := Whole (m : M) | Torn.

Record Manager := mkManager {
  m_config : Config;
  m_rules : list Rule;
  m_listeners : gmap Z bool;             (* whether the callback is callable *)
  m_nextListenerId : Z;
  cm_file : option FileText;             (* config.json *)
  cm_tmp : option FileText;              (* config.json.tmp *)
  cm_notified : list (Z * Config * Config)
}.

Definition set_config (c : Config) (s : Manager) : Manager :=
  mkManager c (m_rules s) (m_listeners s) (m_nextListenerId s) (cm_file s) (cm_tmp s) (cm_notified s).
Definition set_rules (rs : list Rule) (s : Manager) : Manager :=
  mkManager (m_config s) rs (m_listeners s) (m_nextListenerId s) (cm_file s) (cm_tmp s) (cm_notified s).
Definition set_files (file tmp : option FileText) (s : Manager) : Manager :=
  mkManager (m_config s) (m_rules s) (m_listeners s) (m_nextListenerId s) file tmp (cm_notified s).
Definition set_listeners (l : gmap Z bool) (next : Z) (s : Manager) : Manager :=
  mkManager (m_config s) (m_rules s) l next (cm_file s) (cm_tmp s) (cm_notified s).
Definition add_notified (ns : list (Z * Config * Config)) (s : Manager) : Manager :=
  mkManager (m_config s) (m_rules s) (m_listeners s) (m_nextListenerId s) (cm_file s) (cm_tmp s)
    (cm_notified s ++ ns).

Definition ConfigManager_new (file : option FileText) : Manager :=
  mkManager Config_default [] ∅ 1 file None [].

(** The temporary file is closed, and what it buffers written, only after
    [file.good()] was asked. *)
Inductive WriteOutcome := Written | StreamBad | LostOnClose.

Record FileOs := mkFileOs {
  fs_exists : bool;                      (* std::filesystem::exists did not throw *)
  fs_read : bool;
  fs_mkdir : bool;
  fs_open : bool;
  fs_write : WriteOutcome;
  fs_rename : bool
}.

Context (MultiByteToWideChar WideCharToMultiByte : text → option text).
Context (CryptProtectData CryptUnprotectData : text → option text).
(** [j.dump(4)], which throws on text that is not UTF-8, and [file >> j]. *)
Context (dump : json → option M) (parse : M → option json).

Definition SaveImpl (os : FileOs) (s : Manager) : bool * Manager :=
  if negb (fs_mkdir os) then (false, s)
  else if negb (fs_open os) then (false, s)
  else
    match dump (document WideCharToMultiByte (m_config s) (m_rules s)) with
    | None => (false, set_files (cm_file s) (Some Torn) s)
    | Some m =>
        match fs_write os with
        | StreamBad => (false, set_files (cm_file s) (Some Torn) s)
        | w =>
            let tmp := Some (match w with Written => Whole m | _ => Torn end) in
            if fs_rename os then (true, set_files tmp None s)
            else (false, set_files (cm_file s) tmp s)
        end
    end.

Definition default_rule : Rule :=
  mkRule (lit "default") ProcessName Proxy (lit "TransfersClient.exe")
    (lit "Redirect TcpRedirector traffic") 1 true 0 0.

Definition default_config : Config :=
  put_proxy (mkProxySettings (lit "127.0.0.1") 8888 true)
    (put_app (mkAppSettings (lit "C:\Projects\china\police_sec\TransfersClient.exe")) Config_default).

Definition CreateDefaultConfig (os : FileOs) (s : Manager) : bool * Manager :=
  SaveImpl os (set_rules (m_rules s ++ [default_rule]) (set_config default_config s)).

(** [catch (...) { return false; }] *)
Definition LoadImpl (os : FileOs) (s : Manager) : exec bool * Manager :=
  if negb (fs_exists os) then (Done false, s)
  else
    match cm_file s with
    | None => let '(ok, s) := CreateDefaultConfig os s in (Done ok, s)
    | Some f =>
        if negb (fs_read os) then (Done false, s)
        else
          match (match f with Whole m => parse m | Torn => None end) with
          | None => (Done false, s)
          | Some j =>
              let '(c, r) := load_settings MultiByteToWideChar j (m_config s) in
              let s := set_config c s in
              match r with
              | Raised _ => (Done false, s)
              | Undefined => (Undefined, s)
              | Done _ =>
                  if contains_key "rules" j then
                    match JsonToRules MultiByteToWideChar j with
                    | Done rs => (Done true, set_rules rs s)
                    | Raised _ => (Done false, s)
                    | Undefined => (Undefined, s)
                    end
                  else (Done true, s)
              end
          end
    end.

Definition Load := LoadImpl.
Definition Save := SaveImpl.

Definition NotifyListeners (oldCfg newCfg : Config) (s : Manager) : Manager :=
  add_notified ((λ l, (fst l, oldCfg, newCfg)) <$>
                filterb (λ l, snd l) (map_to_list (m_listeners s))) s.

Definition GetProxyConfig (s : Manager) : ProxyConfig :=
  let c := m_config s in
  let has_password := negb (text_eqb (au_encryptedPassword (c_auth c)) []) in
  mkProxyConfig (Utf8ToWide MultiByteToWideChar (px_host (c_proxy c))) (px_port (c_proxy c))
    (au_enabled (c_auth c)) (au_kerberos (c_auth c))
    (Utf8ToWide MultiByteToWideChar (au_username (c_auth c))) [] has_password
    (if has_password then DecryptPassword CryptUnprotectData (au_encryptedPassword (c_auth c)) else []).

Definition SetProxyConfig (os : FileOs) (pc : ProxyConfig) (s : Manager) : bool * Manager :=
  let oldCfg := m_config s in
  let a := c_auth oldCfg in
  let c := put_proxy (mkProxySettings (WideToUtf8 WideCharToMultiByte (pc_host pc)) (pc_port pc) true)
             (put_auth (mkAuthSettings (pc_auth_required pc)
                          (WideToUtf8 WideCharToMultiByte (pc_login pc)) (au_encryptedPassword a)
                          (pc_kerberos_auth pc) (au_authMode a)) oldCfg) in
  let c := if pc_has_password pc
           then put_encryptedPassword (EncryptPassword CryptProtectData (pc_plain_password pc)) c
           else c in
  SaveImpl os (NotifyListeners oldCfg c (set_config c s)).

Definition GetRules (s : Manager) : list Rule := m_rules s.
Definition SetRules (rules : list Rule) (s : Manager) : bool * Manager := (true, set_rules rules s).

Definition GetLogLevel (s : Manager) : LogLevel :=
  let n := lg_level (c_log (m_config s)) in
  if n =? 0 then LTrace else if n =? 1 then LDebug else if n =? 2 then LInfo
  else if n =? 3 then LWarn else if n =? 4 then LError else LInfo.

(** [if (SaveImpl()) { NotifyListeners(...); return true; } return false;] *)
Definition save_and_notify (os : FileOs) (oldCfg : Config) (s : Manager) : bool * Manager :=
  let '(ok, s) := SaveImpl os s in
  if ok then (true, NotifyListeners oldCfg (m_config s) s) else (false, s).

Definition SetLogLevel (os : FileOs) (level : LogLevel) (s : Manager) : bool * Manager :=
  let n := match level with
           | LTrace => 0 | LDebug => 1 | LInfo => 2 | LWarn => 3 | LError => 4 | _ => 2 end in
  save_and_notify os (m_config s) (set_config (put_level n (m_config s)) s).

Definition GetMaxLogFileSizeMB : Z := 50.
Definition GetMaxLogFiles : Z := 10.

Definition GetConfig (s : Manager) : Config := m_config s.

Definition UpdateConfig (os : FileOs) (newConfig : Config) (s : Manager) : bool * Manager :=
  let old := au_encryptedPassword (c_auth (m_config s)) in
  let c := if text_eqb (au_encryptedPassword (c_auth newConfig)) [] && negb (text_eqb old [])
           then put_encryptedPassword old newConfig else newConfig in
  save_and_notify os (m_config s) (set_config c s).

Definition UpdateConfigNoSave (newConfig : Config) (s : Manager) : bool * Manager :=
  (true, NotifyListeners (m_config s) newConfig (set_config newConfig s)).

Definition GetPlainPassword (s : Manager) : text :=
  match au_encryptedPassword (c_auth (m_config s)) with
  | [] => []
  | p => DecryptPassword CryptUnprotectData p
  end.

Definition SetPassword (os : FileOs) (plainPassword : text) (s : Manager) : Manager :=
  snd (SaveImpl os (set_config
    (put_encryptedPassword (EncryptPassword CryptProtectData plainPassword) (m_config s)) s)).

Definition AddListener (callable : bool) (s : Manager) : Z * Manager :=
  let id := m_nextListenerId s in
  (id, set_listeners (<[id := callable]> (m_listeners s)) (id +u64 1) s).

Definition RemoveListener (listenerId : Z) (s : Manager) : Manager :=
  set_listeners (delete listenerId (m_listeners s)) (m_nextListenerId s) s.
End manager.

Arguments Manager : clear implicits.
Arguments FileText : clear implicits.

(** * The document *)

Section documents.
Context (MultiByteToWideChar WideCharToMultiByte : text → option text).

(** Text that the system converts to UTF-8 and back. *)
Definition convertible (ws : text) : Prop :=
  Utf8ToWide MultiByteToWideChar (WideToUtf8 WideCharToMultiByte ws) = ws.

Definition rule_ok (r : Rule) : Prop :=
  convertible (r_pattern r) ∧ convertible (r_description r) ∧ in_s 32 (r_priority r).

Definition rotation_ok (r : LogRotationSettings) : Prop :=
  in_s 32 (lr_hour r) ∧ in_s 32 (lr_minute r) ∧ in_s 32 (lr_max_age_days r).

Definition settings_ok (c : Config) : Prop :=
  convertible (app_exePath (c_app c)) ∧ in_u 16 (px_port (c_proxy c)) ∧
  in_s 32 (lg_level (c_log c)) ∧ in_s 32 (lg_maxSizeMB (c_log c)) ∧
  rotation_ok (c_log_rotation c) ∧ in_s 32 (st_updateIntervalMs (c_stats c)).

(** What a rule and the settings become: the document has neither the dates
    nor unknown kinds of a rule, nor the authentication mode. *)
Definition reloaded_rule (r : Rule) : Rule :=
  mkRule (r_id r) (type_of_name (type_name (r_type r))) (action_of_name (action_name (r_action r)))
    (r_pattern r) (r_description r) (r_priority r) (r_enabled r) 0 0.

Definition with_mode (m : AuthenticationMode) (c : Config) : Config :=
  put_auth (mkAuthSettings (au_enabled (c_auth c)) (au_username (c_auth c))
              (au_encryptedPassword (c_auth c)) (au_kerberos (c_auth c)) m) c.

Lemma value_or_found {A} (get : json → exec A) key d l v :
  assoc (lit key) l = Some v → value_or get key d (JObj l) = get v.
Proof. intros H. cbn [value_or]. by rewrite H. Qed.

Lemma at_const_found key l v : assoc (lit key) l = Some v → at_const key (JObj l) = Done v.
Proof. intros H. cbn [at_const]. by rewrite H. Qed.

Lemma at_mut_found key l v : assoc (lit key) l = Some v → at_mut key (JObj l) = Done v.
Proof. intros H. cbn [at_mut]. by rewrite H. Qed.

Lemma contains_found key l v : assoc (lit key) l = Some v → contains_key key (JObj l) = true.
Proof. intros H. cbn [contains_key]. by rewrite H. Qed.

Lemma get_int_in z : in_s 32 z → get_int (JInt z) = Done z.
Proof. intros H. unfold get_int. by rewrite swrap_small. Qed.

Lemma in_u16_in_s32 z : in_u 16 z → in_s 32 z.
Proof. unfold in_u, in_s. lia. Qed.

(** Reads every field of a concrete object. *)
Ltac read_fields :=
  repeat (first [erewrite value_or_found by reflexivity
                |erewrite at_const_found by reflexivity
                |erewrite at_mut_found by reflexivity]);
  cbn [snd get_string get_bool ebind];
  rewrite ?get_int_in by (first [done | by apply in_u16_in_s32]);
  cbn [ebind].

Lemma rule_roundtrip r :
  rule_ok r → rule_of_json MultiByteToWideChar (rule_to_json WideCharToMultiByte r) = Done (reloaded_rule r).
Proof.
  intros (Hp & Hd & Hi). unfold rule_of_json, rule_to_json, obj. read_fields.
  unfold reloaded_rule. by rewrite Hp, Hd.
Qed.

Lemma rules_roundtrip rs :
  Forall rule_ok rs →
  rules_of MultiByteToWideChar (map (rule_to_json WideCharToMultiByte) rs) = Done (map reloaded_rule rs).
Proof.
  induction 1 as [|r rs Hr _ IH]; [done|]. cbn [map rules_of]. by rewrite rule_roundtrip, IH.
Qed.

Lemma assign_done {A} (a : A) put ls c : in_turn (assign (Done a) put :: ls) c = in_turn ls (put a c).
Proof. done. Qed.

Lemma section_found key l v body ls c c' :
  assoc (lit key) l = Some v → in_turn (body v) c = (c', Done tt) →
  in_turn (in_section key (JObj l) body :: ls) c = in_turn ls c'.
Proof.
  intros H Hb. cbn [in_turn]. unfold in_section.
  rewrite (contains_found _ _ _ H), (at_mut_found _ _ _ H). by rewrite Hb.
Qed.

(** Runs the next section of a concrete document. *)
Ltac next_section :=
  erewrite section_found;
    [|reflexivity
     |unfold load_app, load_proxy, load_auth, load_log, load_stats, load_log_rotation;
      read_fields; rewrite ?assign_done; cbn; reflexivity].

Lemma settings_roundtrip c c0 rs :
  settings_ok c →
  load_settings MultiByteToWideChar (document WideCharToMultiByte c rs) c0 =
    (with_mode (au_authMode (c_auth c0)) c, Done tt).
Proof.
  destruct c as [[exe] [host port pxon] [auon user enc krb mode] [lvl fon size]
                 [on sched hh mm age dir zip] [upd]].
  destruct c0 as [[exe0] [host0 port0 pxon0] [auon0 user0 enc0 krb0 mode0] [lvl0 fon0 size0]
                  [on0 sched0 hh0 mm0 age0 dir0 zip0] [upd0]].
  intros (He & Hp & Hl & Hm & (Hh & Hmi & Ha) & Hs).
  unfold load_settings, document, head_fields, rotation_fields, interval_fields.
  cbn [c_app c_proxy c_auth c_log c_log_rotation c_stats app_exePath px_host px_port px_enabled
       au_enabled au_username au_encryptedPassword au_kerberos au_authMode lg_level lg_fileEnabled
       lg_maxSizeMB lr_enabled lr_schedule lr_hour lr_minute lr_max_age_days lr_archive_dir
       lr_compress st_updateIntervalMs] in *.
  do 6 next_section. cbn [in_turn]. by rewrite He, wrap_small.
Qed.
Lemma canonical_rules rs : canonical (RulesToJson WideCharToMultiByte rs) = true.
Proof.
  cbn [RulesToJson canonical]. induction rs as [|r rs IH]; [done|].
  cbn [map forallb]. rewrite IH, andb_true_r. by vm_compute.
Qed.

Lemma canonical_document c rs : canonical (document WideCharToMultiByte c rs) = true.
Proof.
  pose proof (canonical_rules rs) as H. unfold document.
  revert H. generalize (RulesToJson WideCharToMultiByte rs). intros j H.
  vm_compute in H |- *. by rewrite H.
Qed.
End documents.

(** * Theorems *)

(** * What the loaders leave alone *)

Definition stable (P : Config → Prop) (l : Loader) : Prop := ∀ c, P c → P (fst (l c)).

Lemma assign_stable {A} P (read : exec A) put :
  (∀ a c, read = Done a → P c → P (put a c)) → stable P (assign read put).
Proof. intros H c. unfold assign. destruct read; cbn; auto. Qed.

Lemma in_turn_stable P ls : Forall (stable P) ls → stable P (in_turn ls).
Proof.
  induction 1 as [|l ls Hl _ IH]; intros c Hc; [done|]. cbn [in_turn].
  specialize (Hl c Hc). destruct (l c) as [c' [|?|]]; cbn in Hl |- *; [by apply IH|done..].
Qed.

Lemma in_section_stable P key j body :
  (∀ v, at_mut key j = Done v → Forall (stable P) (body v)) → stable P (in_section key j body).
Proof.
  intros H c Hc. unfold in_section. case_match_goal; [|done].
  destruct (at_mut key j) as [v|?|]; [|done..]. apply in_turn_stable; auto.
Qed.

Ltac loaders_stable :=
  apply in_turn_stable; repeat constructor; apply in_section_stable; intros v Hv;
    unfold load_app, load_proxy, load_auth, load_log, load_stats, load_log_rotation;
    repeat constructor; apply assign_stable.

Definition mode_of (c : Config) : AuthenticationMode := au_authMode (c_auth c).

(** The loaders keep the mode: there is no field for it. *)
Lemma load_settings_keeps MultiByteToWideChar j c :
  mode_of (fst (load_settings MultiByteToWideChar j c)) = mode_of c.
Proof.
  cut (stable (λ c', mode_of c' = mode_of c) (load_settings MultiByteToWideChar j)); [by auto|].
  loaders_stable; by intros a c' _ <-.
Qed.

(** The password text that a document gives, if it gives one, is [e]. *)
Definition password_in (e : text) (j : json) : Prop :=
  ∀ v x, at_mut "auth" j = Done v → value_or get_string "encryptedPassword" [] v = Done x → x = e.

Lemma load_settings_password MultiByteToWideChar e j c :
  password_in e j → au_encryptedPassword (c_auth c) = e →
  au_encryptedPassword (c_auth (fst (load_settings MultiByteToWideChar j c))) = e.
Proof.
  intros Hj. revert c. change (stable (λ c, au_encryptedPassword (c_auth c) = e) (load_settings MultiByteToWideChar j)).
  loaders_stable; intros a c' Ha Hc'; try exact Hc'. exact (Hj v a Hv Ha).
Qed.

Lemma document_password WideCharToMultiByte c rs :
  password_in (au_encryptedPassword (c_auth c)) (document WideCharToMultiByte c rs).
Proof.
  intros v x. unfold document, head_fields, rotation_fields, interval_fields.
  erewrite at_mut_found by reflexivity. intros [= <-].
  erewrite value_or_found by reflexivity. by intros [= <-].
Qed.

Section theorems.
Context {M : Type} (MultiByteToWideChar WideCharToMultiByte : text → option text).
Context (CryptProtectData CryptUnprotectData : text → option text).
Context (dump : json → option M) (parse : M → option json).
Implicit Types s : Manager M.

Abbreviation Save := (SaveImpl WideCharToMultiByte dump).
Abbreviation Load := (LoadImpl MultiByteToWideChar WideCharToMultiByte dump parse).
Abbreviation doc s := (document WideCharToMultiByte (m_config s) (m_rules s)).

(** Everything but the two files. *)
Definition same_memory s s' : Prop := s' = set_files (cm_file s') (cm_tmp s') s.

Lemma Save_memory os s : same_memory s (snd (Save os s)).
Proof.
  unfold same_memory, SaveImpl. repeat case_match_goal; by destruct s.
Qed.

Lemma Save_outcome os s :
  fst (Save os s) = true →
  ∃ m, dump (doc s) = Some m ∧ fs_write os ≠ StreamBad ∧
       snd (Save os s) =
         set_files (Some (match fs_write os with Written => Whole m | _ => Torn end)) None s.
Proof.
  unfold SaveImpl. repeat case_match_goal; cbn; intros; try done; eexists; by split_and!.
Qed.

Lemma Save_failure os s : fst (Save os s) = false → cm_file (snd (Save os s)) = cm_file s.
Proof. unfold SaveImpl. by repeat case_match_goal. Qed.

Lemma Save_success os s :
  fst (Save os s) = true ↔
  fs_mkdir os = true ∧ fs_open os = true ∧ is_Some (dump (doc s)) ∧
  fs_write os ≠ StreamBad ∧ fs_rename os = true.
Proof.
  unfold SaveImpl.
  destruct (fs_mkdir os), (fs_open os), (dump (doc s)), (fs_write os), (fs_rename os);
    cbn; rewrite ?is_Some_alt; intuition (try congruence; eauto).
Qed.

(** saving replaces the configuration file or leaves it.  A save reports
    success exactly when the directory, the temporary file, the printing, the
    write and the rename succeeded; a save that reports failure leaves the file
    as it was, and none touches the settings, rules or listeners.  After a
    success the file is the whole document, unless what the stream still
    buffered was lost on closing, which is not looked at: then a torn file is
    in place, success is reported, and the next load fails. *)
Theorem save_replaces_or_keeps os s :
  let '(ok, s') := Save os s in
  same_memory s s' ∧
  (ok = true ↔ fs_mkdir os = true ∧ fs_open os = true ∧ is_Some (dump (doc s)) ∧
               fs_write os ≠ StreamBad ∧ fs_rename os = true) ∧
  (ok = false → cm_file s' = cm_file s) ∧
  (ok = true → fs_write os = Written → ∃ m, dump (doc s) = Some m ∧ cm_file s' = Some (Whole m)) ∧
  (ok = true → fs_write os = LostOnClose →
     cm_file s' = Some Torn ∧ ∀ os', fst (Load os' s') = Done false ∧ snd (Load os' s') = s').
Proof.
  pose proof (Save_memory os s) as Hm. pose proof (Save_success os s) as Hs.
  pose proof (Save_outcome os s) as Ho. pose proof (Save_failure os s) as Hf.
  destruct (Save os s) as [ok s']. cbn [fst snd] in *. split_and!; [done..| |].
  - intros Hok Hw. destruct (Ho Hok) as (m & Hd & _ & ->). exists m. by rewrite Hw.
  - intros Hok Hw. destruct (Ho Hok) as (m & Hd & _ & ->). rewrite Hw.
    split; [done|]. intros os'. unfold LoadImpl. cbn. by repeat case_match_goal.
Qed.
(** The JSON library parses what it prints. *)
Definition parses_back : Prop :=
  ∀ j m, canonical j = true → dump j = Some m → parse m = Some j.

Lemma load_saved os os' s t :
  parses_back →
  settings_ok MultiByteToWideChar WideCharToMultiByte (m_config s) →
  Forall (rule_ok MultiByteToWideChar WideCharToMultiByte) (m_rules s) →
  fst (Save os s) = true → fs_write os = Written →
  cm_file t = cm_file (snd (Save os s)) → fs_exists os' = true → fs_read os' = true →
  Load os' t =
    (Done true, set_rules (map reloaded_rule (m_rules s))
                  (set_config (with_mode (au_authMode (c_auth (m_config t))) (m_config s)) t)).
Proof.
  intros Hpb Hc Hr Hok Hw Hf He Hrd. destruct (Save_outcome os s Hok) as (m & Hd & _ & Hs).
  rewrite Hs, Hw in Hf. cbn [set_files cm_file] in Hf.
  unfold LoadImpl. rewrite He, Hf, Hrd. cbn [negb].
  rewrite (Hpb _ _ (canonical_document _ _ _) Hd), settings_roundtrip by done.
  unfold document. erewrite contains_found by apply assoc_set_same.
  unfold JsonToRules. erewrite contains_found by apply assoc_set_same.
  erewrite at_const_found by apply assoc_set_same. cbn [ebind RulesToJson elements].
  by rewrite rules_roundtrip.
Qed.

(** what a save wrote, a later load restores.  After a successful save of
    settings in their ranges, with text that converts to UTF-8 and back, a load
    of that file by any manager, whatever it held before, succeeds and leaves
    it with the saved settings and rules; lost are the dates and the unknown
    kinds of the rules, and the authentication mode, which stays the one the
    loading manager had. *)
Theorem save_load_roundtrip os os' s t :
  parses_back →
  settings_ok MultiByteToWideChar WideCharToMultiByte (m_config s) →
  Forall (rule_ok MultiByteToWideChar WideCharToMultiByte) (m_rules s) →
  fst (Save os s) = true → fs_write os = Written →
  cm_file t = cm_file (snd (Save os s)) → fs_exists os' = true → fs_read os' = true →
  Load os' t =
    (Done true, set_rules (map reloaded_rule (m_rules s))
                  (set_config (with_mode (au_authMode (c_auth (m_config t))) (m_config s)) t)).
Proof. apply load_saved. Qed.

(** ** The password *)

Lemma wide_bytes_roundtrip ws : Forall (in_u 16) ws → wide_of_bytes (wide_bytes ws) = ws.
Proof.
  unfold wide_bytes. induction 1 as [|c ws Hc _ IH]; [done|]. cbn. rewrite IH. f_equal. zdivmod_lia.
Qed.

(** The blob that DPAPI made of a password, and what it opens to. *)
Definition protects (p : text) : Prop :=
  ∃ blob, CryptProtectData (wide_bytes p) = Some blob ∧ blob ≠ [] ∧ Forall is_byte blob ∧
          CryptUnprotectData blob = Some (wide_bytes p).

Lemma decrypt_encrypt p :
  protects p → Forall (in_u 16) p →
  DecryptPassword CryptUnprotectData (EncryptPassword CryptProtectData p) = p ∧
  EncryptPassword CryptProtectData p ≠ [].
Proof.
  intros (blob & Hp & Hne & Hb & Hu) H16. unfold DecryptPassword, EncryptPassword. rewrite Hp.
  assert (E : ConfigBase64Decode (ConfigBase64Encode blob) = blob).
  { rewrite ConfigBase64Encode_spec by done. by apply decode_spec; try apply _. }
  rewrite E. split.
  - destruct blob; [done|]. by rewrite Hu, wide_bytes_roundtrip.
  - intros H0. rewrite H0 in E. by subst blob.
Qed.

Lemma plain_of_config s p :
  au_encryptedPassword (c_auth (m_config s)) = EncryptPassword CryptProtectData p →
  protects p → Forall (in_u 16) p → GetPlainPassword CryptUnprotectData s = p.
Proof.
  intros He Hp H16. destruct (decrypt_encrypt p Hp H16) as [Hd Hne].
  unfold GetPlainPassword. rewrite He. by destruct (EncryptPassword _ p).
Qed.
Definition stored s : text := au_encryptedPassword (c_auth (m_config s)).

Abbreviation SetProxy := (SetProxyConfig WideCharToMultiByte CryptProtectData dump).
Abbreviation GetProxy := (GetProxyConfig MultiByteToWideChar CryptUnprotectData).

(** Both readers answer [p]. *)
Definition holds_password (p : text) s : Prop :=
  GetPlainPassword CryptUnprotectData s = p ∧
  pc_has_password (GetProxy s) = true ∧ pc_plain_password (GetProxy s) = p.

Lemma holds_encrypted p s :
  protects p → Forall (in_u 16) p → stored s = EncryptPassword CryptProtectData p → holds_password p s.
Proof.
  intros Hp H16 E. unfold holds_password. split; [by apply plain_of_config|].
  destruct (decrypt_encrypt p Hp H16) as [Hd Hne]. unfold GetProxyConfig. cbn.
  unfold stored in E. rewrite E. unfold text_eqb. rewrite bool_decide_eq_false_2 by done.
  done.
Qed.

Lemma stored_Save os s : stored (snd (Save os s)) = stored s.
Proof. rewrite (Save_memory os s). by destruct s. Qed.

(** ** What the calls do to the stored password *)

(** The calls that may change the manager. *)
Inductive ManagerOp :=
| OpLoad (os : FileOs) | OpSave (os : FileOs)
| OpSetProxyConfig (os : FileOs) (pc : ProxyConfig)
| OpSetRules (rs : list Rule)
| OpSetLogLevel (os : FileOs) (level : LogLevel)
| OpUpdateConfig (os : FileOs) (c : Config)
| OpUpdateConfigNoSave (c : Config)
| OpSetPassword (os : FileOs) (p : text)
| OpAddListener (callable : bool)
| OpRemoveListener (id : Z).

Definition manager_call (op : ManagerOp) s : Manager M :=
  match op with
  | OpLoad os => snd (Load os s)
  | OpSave os => snd (Save os s)
  | OpSetProxyConfig os pc => snd (SetProxy os pc s)
  | OpSetRules rs => snd (SetRules rs s)
  | OpSetLogLevel os level => snd (SetLogLevel WideCharToMultiByte dump os level s)
  | OpUpdateConfig os c => snd (UpdateConfig WideCharToMultiByte dump os c s)
  | OpUpdateConfigNoSave c => snd (UpdateConfigNoSave c s)
  | OpSetPassword os p => SetPassword WideCharToMultiByte CryptProtectData dump os p s
  | OpAddListener callable => snd (AddListener callable s)
  | OpRemoveListener id => RemoveListener id s
  end.

Definition manager_calls (ops : list ManagerOp) s : Manager M := foldl (λ s op, manager_call op s) s ops.

(** The password a call is given to store. *)
Definition gives (op : ManagerOp) : option text :=
  match op with
  | OpSetPassword _ p => Some p
  | OpSetProxyConfig _ pc => if pc_has_password pc then Some (pc_plain_password pc) else None
  | _ => None
  end.

(** The calls that are to keep the stored text [e]. *)
Definition keeps (e : text) (op : ManagerOp) : Prop :=
  match op with
  | OpSetPassword _ _ => False
  | OpSetProxyConfig _ pc => pc_has_password pc = false
  | OpUpdateConfig _ c => au_encryptedPassword (c_auth c) = [] ∨ au_encryptedPassword (c_auth c) = e
  | OpUpdateConfigNoSave c => au_encryptedPassword (c_auth c) = e
  | _ => True
  end.

(** There is a configuration file, and if it parses it has the text [e]. *)
Definition file_in_step (e : text) s : Prop :=
  match cm_file s with
  | None => False
  | Some Torn => True
  | Some (Whole m) => ∀ j, parse m = Some j → password_in e j
  end.

Lemma Save_in_step e os s :
  parses_back → stored s = e → cm_file (snd (Save os s)) = cm_file s ∨ file_in_step e (snd (Save os s)).
Proof.
  intros Hpb He. unfold SaveImpl.
  destruct (fs_mkdir os); cbn [negb]; [|by left]. destruct (fs_open os); cbn [negb]; [|by left].
  destruct (dump _) as [m|] eqn:Ed; [|by left].
  assert (Hm : ∀ j, parse m = Some j → password_in e j).
  { intros j Hj. rewrite (Hpb _ _ (canonical_document _ _ _) Ed) in Hj. apply (inj Some) in Hj as <-.
    rewrite <- He. apply document_password. }
  destruct (fs_write os), (fs_rename os); cbn; auto; right; done.
Qed.

Lemma Load_in_step e os s :
  stored s = e → file_in_step e s → stored (snd (Load os s)) = e ∧ cm_file (snd (Load os s)) = cm_file s.
Proof.
  intros He Hf. unfold LoadImpl, file_in_step in *. destruct (fs_exists os); cbn [negb]; [|done].
  destruct (cm_file s) as [f|] eqn:Ef; [|done]. destruct (fs_read os); cbn [negb]; [|done].
  destruct (match f with Whole m => parse m | Torn => None end) as [j|] eqn:Ej; [|done].
  assert (Hj : password_in e j) by (destruct f; [by apply Hf|done]).
  pose proof (load_settings_password MultiByteToWideChar e j (m_config s) Hj He) as Hk.
  destruct (load_settings MultiByteToWideChar j (m_config s)) as [c [|?|]]; cbn in Hk |- *; [|done..].
  repeat case_match_goal; done.
Qed.

(** A call that keeps the text keeps it in the file as well. *)
Lemma manager_call_keeps e op s :
  parses_back → e ≠ [] → keeps e op → stored s = e → file_in_step e s →
  stored (manager_call op s) = e ∧ file_in_step e (manager_call op s).
Proof.
  intros Hpb Hne Hk He Hf.
  assert (Hsave : ∀ os s1, stored s1 = e → cm_file s1 = cm_file s →
      stored (snd (Save os s1)) = e ∧ file_in_step e (snd (Save os s1))).
  { intros os s1 H1 Hc. rewrite stored_Save. split; [done|].
    destruct (Save_in_step e os s1 Hpb H1) as [E|E]; [|done]. unfold file_in_step in *. by rewrite E, Hc. }
  assert (Hnote : ∀ os old s1, stored s1 = e → cm_file s1 = cm_file s →
      let r := snd (save_and_notify WideCharToMultiByte dump os old s1) in stored r = e ∧ file_in_step e r).
  { intros os old s1 H1 Hc. destruct (Hsave os s1 H1 Hc) as [H2 H3]. unfold save_and_notify.
    destruct (Save os s1) as [[] s2]; done. }
  destruct op; cbn [manager_call keeps] in *; try done.
  - destruct (Load_in_step e os s He Hf) as [H1 H2]. split; [done|]. unfold file_in_step in *. by rewrite H2.
  - by apply Hsave.
  - unfold SetProxyConfig. rewrite Hk. by apply Hsave.
  - by apply Hnote.
  - apply Hnote; [|done]. unfold stored in *. cbn [set_config m_config]. rewrite He.
    destruct Hk as [Hk|Hk]; rewrite Hk; unfold text_eqb.
    + rewrite (bool_decide_eq_true_2 ([] = [])), (bool_decide_eq_false_2 (e = [])) by done. done.
    + rewrite (bool_decide_eq_false_2 (e = [])) by done. done.
Qed.

Lemma manager_calls_keep e ops s :
  parses_back → e ≠ [] → Forall (keeps e) ops → stored s = e → file_in_step e s →
  stored (manager_calls ops s) = e ∧ file_in_step e (manager_calls ops s).
Proof.
  intros Hpb Hne H. revert s. induction H as [|op ops Hop _ IH]; intros s He Hf; [done|].
  destruct (manager_call_keeps e op s Hpb Hne Hop He Hf) as [H1 H2]. by apply IH.
Qed.

Lemma gives_stored op p s :
  gives op = Some p →
  ∃ os s1, manager_call op s = snd (Save os s1) ∧ cm_file s1 = cm_file s ∧
           stored s1 = EncryptPassword CryptProtectData p.
Proof.
  destruct op as [| |os pc| | | | |os q| |]; try done; cbn [gives manager_call].
  - destruct (pc_has_password pc) eqn:Hh; [|done]. intros [= <-]. unfold SetProxyConfig. rewrite Hh.
    eexists os, _. by split_and!.
  - intros [= ->]. eexists os, _. by split_and!.
Qed.

Lemma no_password s : stored s = [] → pc_has_password (GetProxy s) = false ∧ GetPlainPassword CryptUnprotectData s = [].
Proof. unfold stored, GetProxyConfig, GetPlainPassword. intros E. cbn. by rewrite E. Qed.

End theorems.

(** * The authentication mode *)

Section mode.
Context {M : Type} (MultiByteToWideChar WideCharToMultiByte : text → option text).
Context (CryptProtectData : text → option text).
Context (dump : json → option M) (parse : M → option json).
Implicit Types s : Manager M.

Lemma SaveImpl_config os s :
  m_config (snd (SaveImpl WideCharToMultiByte dump os s)) = m_config s.
Proof. unfold SaveImpl. by repeat case_match_goal. Qed.

(** Loading keeps the mode or resets it to the default. *)
Lemma LoadImpl_mode os s :
  mode_of (m_config s) = KerberosPreferred →
  mode_of (m_config (snd (LoadImpl MultiByteToWideChar WideCharToMultiByte dump parse os s))) = KerberosPreferred.
Proof.
  intros Hm. unfold LoadImpl. destruct (fs_exists os); cbn [negb]; [|done].
  destruct (cm_file s) as [f|].
  - destruct (fs_read os); cbn [negb]; [|done].
    destruct (match f with Whole m => parse m | Torn => None end) as [j|]; [|done].
    pose proof (load_settings_keeps MultiByteToWideChar j (m_config s)) as Hk.
    destruct (load_settings MultiByteToWideChar j (m_config s)) as [c [|?|]]; cbn in Hk |- *;
      repeat case_match_goal; cbn; congruence.
  - unfold CreateDefaultConfig.
    match goal with |- context [SaveImpl _ _ os ?s1] =>
      pose proof (SaveImpl_config os s1) as Hc;
      destruct (SaveImpl WideCharToMultiByte dump os s1) as [ok s2] end.
    cbn in Hc |- *. by rewrite Hc.
Qed.

Lemma SetProxyConfig_mode os pc s :
  mode_of (m_config (snd (SetProxyConfig WideCharToMultiByte CryptProtectData dump os pc s))) =
  mode_of (m_config s).
Proof. unfold SetProxyConfig. rewrite SaveImpl_config. unfold mode_of. cbn. by case_match_goal. Qed.

Lemma SetLogLevel_mode os l s :
  mode_of (m_config (snd (SetLogLevel WideCharToMultiByte dump os l s))) = mode_of (m_config s).
Proof.
  unfold SetLogLevel, save_and_notify.
  match goal with |- context [SaveImpl _ _ os ?s1] =>
    pose proof (SaveImpl_config os s1) as Hc; destruct (SaveImpl WideCharToMultiByte dump os s1) as [[] s2] end;
    cbn in Hc |- *; by rewrite Hc.
Qed.
End mode.

(** * Concrete runs *)

Definition sample_os : FileOs := mkFileOs true true true true Written true.

Definition sample_rule : Rule :=
  mkRule (lit "r1") ProcessPath Block (lit "C:\app.exe") (lit "app") 3 true 77 78.

Definition sample_manager : Manager json :=
  set_rules [sample_rule] (set_config default_config (ConfigManager_new None)).

(** The documents of this system are their own text, and its DPAPI adds a byte. *)
Definition sample_protect (b : text) : option text := Some (7 :: b).
Definition sample_unprotect (b : text) : option text :=
  match b with _ :: b' => Some b' | [] => None end.

Lemma save_load_roundtrip_witness :
  snd (LoadImpl Some Some Some Some sample_os
         (ConfigManager_new (cm_file (snd (SaveImpl Some Some sample_os sample_manager))))) =
  set_rules [mkRule (lit "r1") ProcessPath Block (lit "C:\app.exe") (lit "app") 3 true 0 0]
    (set_config default_config
       (ConfigManager_new (cm_file (snd (SaveImpl Some Some sample_os sample_manager))))).
Proof.
  rewrite (save_load_roundtrip (M := json) Some Some Some Some sample_os sample_os sample_manager
             (ConfigManager_new (cm_file (snd (SaveImpl Some Some sample_os sample_manager)))));
    try reflexivity.
  - intros j m _ Hm. injection Hm as <-. reflexivity.
  - vm_compute. repeat split; discriminate.
  - repeat constructor; vm_compute; try reflexivity; discriminate.
Defined.

