(* ===== verification/Library.v ===== *)
(** The JSON library as the components of the program use it: [j.dump()] without
    escaping and [json::parse], the serializer of file JsonDump and the parser of
    file Lexer, with what their texts are made of. *)

From S2P Require Import Prelude.
From S2P Require Import Text.
From S2P Require Import Utf8.
From S2P Require Import Entities.
From S2P Require Import FloatText.
From S2P Require Import Json.
From S2P Require Import JsonDump.
From S2P Require Import JsonParse.
From S2P Require Import JsonText.
From S2P Require Import Lexer.
From S2P Require Import ParseErrors.
From S2P Require Import ConfigManager.

(** [j.dump(indent)]. *)
Definition library_dump (indent : Z) (j : json) : exec text := JsonDump.dump indent false j.

(** [json::parse(s)]. *)
Definition library_parse : text → exec json := Lexer.parse true.

(** The same where every exception is caught alike: [j.dump(4)] and [file >> j] of
    the configuration manager. *)
Definition caught {A} (x : exec A) : option A := match x with Done a => Some a | _ => None end.

(** The text of an exception. *)
Definition what {A} (x : exec A) : text := match x with Raised w => w | _ => [] end.

Definition file_dump (j : json) : option text := caught (library_dump 4 j).
Definition file_parse (t : text) : option json := caught (Lexer.parse false t).

(** * Printed text *)

(** What holds of the pieces of a text and of their sums. *)
Section printed.
Context (P : text → Prop).
Context (P_app : ∀ s t, P s → P t → P (s ++ t)) (P_plain : ∀ s, plain s → P s).
Context (P_char : ∀ c, scalar c → 0x80 <= c → P (codepoint_bytes c)).
Context (nl : nat → text) (step : nat) (colon : text) (P_nl : ∀ n, P (nl n)) (P_colon : P colon).

Lemma escape_printed c : scalar c → P (escape false c).
Proof.
  intros Hs. unfold escape, escaped. rewrite orb_false_r. destruct (Z.ltb_spec c 0x80); [apply P_plain|by apply P_char].
  repeat match goal with
  | |- context [if c =? ?k then _ else _] => destruct (Z.eqb_spec c k); [by apply plain_forallb|]
  end. cbn [andb]. rewrite orb_false_r. destruct (Z.leb_spec c 0x1F); [|cbn [fst]; repeat constructor; lia].
  rewrite (proj2 (Z.leb_le c 0xFFFF)) by lia. cbn [fst]. unfold u16_escape, hex4.
  unfold scalar in Hs. rewrite wrap_small by (unfold in_u; lia).
  assert (Hh : ∀ d, 0 <= d < 16 → 0x20 <= hex_lower d < 0x80) by (intros d Hd; unfold hex_lower; case_match; lia).
  cbn [app]. repeat (apply Forall_cons; split; [first [lia|apply Hh; zdivmod_lia]|]). constructor.
Qed.

Lemma string_text_printed s : is_bytes s = true → P (string_text false s).
Proof.
  intros Hb%forallb_bytes. unfold string_text, escape_text, escape_all. destruct (decode_text 0 0 s) as [cps|] eqn:E.
  - apply decode_text_spec in E as [Hc _]; [|done]. change (default [] (Some cps)) with cps.
    apply P_app; [by apply P_plain, plain_forallb|]. apply P_app; [|by apply P_plain, plain_forallb].
    induction Hc as [|c cps Hc _ IH]; cbn [mbind list_bind]; [by apply P_plain|]. apply P_app; [by apply escape_printed|done].
  - by apply P_plain, plain_forallb.
Qed.

Local Ltac piece :=
  first [by apply P_plain, plain_forallb | by apply string_text_printed | apply P_nl | apply P_colon].

Lemma json_printed cur j : representable j = true → P (json_text false nl step colon cur j).
Proof.
  revert cur. induction j as [|b|z|d|s|l IH|l IH] using json_ind_nested; intros cur Hr; cbn [representable] in Hr.
  - piece.
  - destruct b; piece.
  - apply P_plain, to_string_plain.
  - by apply P_plain, dump_float_plain.
  - piece.
  - destruct l as [|v l]; [piece|]. cbn [json_text]. cbv zeta.
    cbn [forallb] in Hr. apply andb_prop in Hr as [Hv Hl]. apply Forall_cons in IH as [IHv IH].
    do 2 (apply P_app; [piece|]). apply P_app; [by apply IHv|]. apply P_app; [|apply P_app; piece].
    clear IHv Hv v. induction IH as [|v l IHv _ IH]; [piece|]. cbn [forallb] in Hl. apply andb_prop in Hl as [Hv Hl].
    cbn [map concat]. rewrite <- !app_assoc. do 2 (apply P_app; [piece|]). apply P_app; [by apply IHv|by apply IH].
  - destruct l as [|[k v] l]; [piece|]. cbn [json_text]. cbv zeta.
    cbn [forallb fst snd] in Hr. apply andb_prop in Hr as [[Hk Hv]%andb_prop Hl]. apply Forall_cons in IH as [IHv IH]. cbn [snd] in IHv.
    do 4 (apply P_app; [piece|]). apply P_app; [by apply IHv|]. apply P_app; [|apply P_app; piece].
    clear IHv Hv Hk k v. induction IH as [|[k v] l IHv _ IH]; [piece|]. cbn [forallb fst snd] in Hl, IHv.
    apply andb_prop in Hl as [[Hk Hv]%andb_prop Hl]. cbn [map concat fst snd]. rewrite <- !app_assoc.
    do 4 (apply P_app; [piece|]). apply P_app; [by apply IHv|by apply IH].
Qed.
End printed.

(** The compact text of a value is a single line, and is UTF-8. *)
Lemma compact_visible j : representable j = true → visible (compact_text false 0 j).
Proof.
  apply json_printed; [by intros; apply Forall_app|apply plain_visible| |by constructor|by apply plain_visible, plain_forallb].
  intros c Hs Hc. unfold scalar in Hs. rewrite codepoint_bytes_eq by lia. rewrite (proj2 (Z.ltb_ge c 0x80)) by done.
  destruct (c <=? 0x7FF); [|destruct (c <=? 0xFFFF)]; repeat constructor; zdivmod_lia.
Qed.

Lemma utf8_app s t : utf8 s → utf8 t → utf8 (s ++ t).
Proof.
  intros (c & Hc & ->) (d & Hd & ->). exists (c ++ d). split; [by apply Forall_app|].
  unfold utf8_of. by rewrite bind_app.
Qed.

Lemma ascii_utf8 s : Forall (λ b, 0 <= b < 0x80) s → utf8 s.
Proof.
  induction 1 as [|b s Hb _ IH]; [by exists []|]. apply (utf8_app [b]); [|done]. exists [b].
  split; [repeat constructor; unfold scalar; lia|]. unfold utf8_of. cbn. by rewrite codepoint_bytes_ascii by lia.
Qed.

Lemma plain_utf8 s : plain s → utf8 s.
Proof. intros H. apply ascii_utf8. eapply Forall_impl; [exact H|]. cbn. lia. Qed.

Lemma dumped_utf8 indent j : representable j = true → utf8 (dumped_text indent false j).
Proof.
  assert (Hc : ∀ c, scalar c → 0x80 <= c → utf8 (codepoint_bytes c)).
  { intros c Hs _. exists [c]. split; [by apply Forall_singleton|]. unfold utf8_of. cbn. by rewrite app_nil_r. }
  unfold dumped_text. destruct (0 <=? indent);
    (apply json_printed; [apply utf8_app|apply plain_utf8|exact Hc| |by apply plain_utf8, plain_forallb]).
  - intros n. apply ascii_utf8. constructor; [lia|]. apply Forall_replicate. lia.
  - intros _. by exists [].
Qed.

Lemma bytes_no_eof s : Forall is_byte s → no_eof s.
Proof. intros H. eapply Forall_impl; [exact H|]. unfold in_u, eof. cbn. lia. Qed.

Lemma dumped_no_eof indent j : representable j = true → no_eof (dumped_text indent false j).
Proof. intros H. by apply bytes_no_eof, utf8_bytes, dumped_utf8. Qed.

(** * Printing and parsing *)

(** A value that the library holds is printed, or its text is refused. *)
Lemma library_dump_spec indent j :
  representable j = true → indent <= Z.of_nat INDENT_STRING →
  if printable j then library_dump indent j = Done (dumped_text indent false j)
  else ∃ what, library_dump indent j = Raised what ∧ plain what.
Proof.
  intros Hr Hi. pose proof (dump_prints indent false j Hr Hi) as Hd. unfold library_dump.
  destruct (printable j); [|exact Hd]. by destruct Hd as (t & -> & ->).
Qed.

Lemma library_dump_done indent j t :
  indent <= Z.of_nat INDENT_STRING → library_dump indent j = Done t →
  representable j = true ∧ printable j = true ∧ t = dumped_text indent false j.
Proof.
  intros Hi Hd. assert (Hr : representable j = true).
  { unfold library_dump, JsonDump.dump in Hd. by destruct (representable j). }
  pose proof (library_dump_spec indent j Hr Hi) as H. rewrite Hd in H.
  destruct (printable j); [by injection H as ->|by destruct H as (w & ? & _)].
Qed.

Lemma library_dump_defined indent j :
  indent <= Z.of_nat INDENT_STRING → representable j = true → library_dump indent j ≠ Undefined.
Proof.
  intros Hi Hr. pose proof (library_dump_spec indent j Hr Hi) as H.
  destruct (printable j); [by rewrite H|by destruct H as (w & -> & _)].
Qed.

Lemma library_dump_raised indent j what :
  indent <= Z.of_nat INDENT_STRING → library_dump indent j = Raised what → plain what.
Proof.
  intros Hi Hd. assert (Hr : representable j = true).
  { unfold library_dump, JsonDump.dump in Hd. by destruct (representable j). }
  pose proof (library_dump_spec indent j Hr Hi) as H. rewrite Hd in H.
  destruct (printable j); [done|]. destruct H as (w & [= ->] & H). done.
Qed.

(** The library parses what it prints. *)
Lemma parse_printed indent strict j :
  canonical j = true → representable j = true → printable j = true →
  Lexer.parse strict (dumped_text indent false j) = Done j.
Proof.
  intros Hc Hr Hp. pose proof (parse_refines strict _ (dumped_no_eof indent j Hr)) as H.
  by rewrite parse_dumped in H.
Qed.

Lemma library_reads_back j m :
  canonical j = true → library_dump (-1) j = Done m → library_parse m = Done j.
Proof. intros Hc E. apply library_dump_done in E as (Hr & Hp & ->); [|done]. by apply parse_printed. Qed.

Lemma file_parses_back : parses_back file_dump file_parse.
Proof.
  intros j m Hc Hd. unfold file_dump in Hd. destruct (library_dump 4 j) as [t|w|] eqn:E; try done.
  injection Hd as ->. apply library_dump_done in E as (Hr & Hp & ->); [|done].
  unfold file_parse. by rewrite parse_printed.
Qed.
