(* ===== verification/AgentPipe.v ===== *)
(** The service's provider (file Kerberos) and the agent (file Agent) run against
    each other: the pipe between them carries the text that the JSON library
    prints (file Library). *)

From S2P Require Import Prelude.
From S2P Require Import Text.
From S2P Require Import Auth.
From S2P Require Import Json.
From S2P Require Import Agent.
From S2P Require Import Kerberos.
From S2P Require Import Library.

Section composition.
(** What WriteFile reports when the agent has closed its end. *)
Context (write_error : Z).

Record AgentWorld := mkWorld {
  aw_agent : AgentState;
  aw_running : bool;
  aw_session : bool;                     (* a client is connected *)
  aw_answers : nat → SspiAnswers * Z;    (* SSPI and the clock, per request *)
  aw_turn : nat
}.

Definition end_session (w : AgentWorld) : AgentWorld :=
  mkWorld (aw_agent w) (aw_running w) false (aw_answers w) (aw_turn w).

Definition ERROR_BROKEN_PIPE : Z := 109.

(** One request and its answer; the agent closes its end when its session ends. *)
Definition agent_call (req : json) (w : AgentWorld) : CallResult * AgentWorld :=
  match library_dump (-1) req with
  | Done message =>
      if negb (aw_session w) then (CallThrew (write_failed write_error), w)
      else
        let '(a, now) := aw_answers w (aw_turn w) in
        match HandleClient_turn a now (caught (library_parse message)) (aw_agent w) with
        | None => (CallBroken ERROR_BROKEN_PIPE, mkWorld (aw_agent w) false false (aw_answers w) (aw_turn w))
        | Some (ag, turn) =>
            let w := mkWorld ag (aw_running w) true (aw_answers w) (Datatypes.S (aw_turn w)) in
            match turn with
            | Replied resp =>
                match library_dump (-1) resp with
                | Done message =>
                    match library_parse message with
                    | Done resp => (CallReply resp, w)
                    | failed => (CallThrew (what failed), w)
                    end
                | _ => (CallBroken ERROR_BROKEN_PIPE, end_session w)
                end
            | Disconnected => (CallBroken ERROR_BROKEN_PIPE, end_session w)
            | Undefined_behaviour => (CallBroken ERROR_BROKEN_PIPE, mkWorld ag false false (aw_answers w) (aw_turn w))
            end
        end
  | failed => (CallThrew (what failed), w)
  end.

#[export] Instance agent_pipe : IAgentPipe AgentWorld := {
  pipe_open w := (aw_running w, if aw_running w
                   then mkWorld (aw_agent w) true true (aw_answers w) (aw_turn w) else w);
  pipe_call := agent_call;
  pipe_close := end_session;
  pipe_launch _ w := mkWorld (aw_agent w) true (aw_session w) (aw_answers w) (aw_turn w)
}.

Definition apart (ag : AgentState) (p : Kerberos AgentWorld) : Prop :=
  m_pipe p = false ∧ m_connected p = false ∧ aw_agent (k_peer p) = ag.

Lemma canonical_request id method params :
  match params with Some v => canonical v | None => true end = true →
  canonical (request id method params) = true.
Proof.
  intros H. unfold request. destruct params as [v|]; [|reflexivity].
  unfold obj, app. cbn [foldl]. vm_compute in H |- *. by rewrite H.
Qed.

Lemma numbered_call method params p ag :
  match params with Some v => canonical v | None => true end = true →
  aw_agent (k_peer p) = ag → m_pipe p = true →
  ∃ e s c, Call method params p = (Raised e, set_link true c (set_peer s (next_id p))) ∧
           aw_agent s = ag ∧ (c = false ∨ c = m_connected p).
Proof.
  intros Hv Ha Hp. unfold Call. cbn [next_id m_pipe]. rewrite Hp. cbn [negb].
  unfold pipe_call, agent_pipe, agent_call. cbn [k_peer next_id].
  assert (Hthrew : ∀ e, ∃ e' s c, (@Raised json e, set_peer (k_peer p) (next_id p)) =
    (Raised e', set_link true c (set_peer s (next_id p))) ∧ aw_agent s = ag ∧ (c = false ∨ c = m_connected p)).
  { intros e. exists e, (k_peer p), (m_connected p). split; [|auto]. unfold set_link, set_peer, next_id. cbn. by rewrite Hp. }
  destruct (library_dump (-1) _) as [m|e|] eqn:E; [|apply Hthrew..].
  destruct (aw_session (k_peer p)); cbn [negb]; [|apply Hthrew].
  apply library_reads_back in E; [|by apply canonical_request].
  destruct (aw_answers _ _) as [a now]. rewrite E. cbn [caught]. unfold request, obj.
  rewrite (numbered_request_disconnects _ _ _ (JInt (m_requestId p))) by (by destruct params).
  eexists _, _, false. auto.
Qed.

Lemma Connect_apart ag p :
  apart ag p → ∃ p', ConnectToAgent p = (false, p') ∧ apart ag p'.
Proof.
  intros (Hp & Hc & Ha). unfold ConnectToAgent. rewrite Hp. unfold pipe_open, agent_pipe at 1.
  destruct (aw_running (k_peer p)); cbn [negb]; [|eexists; split; [done|]; by repeat split].
  set (p1 := set_link _ _ _).
  destruct (numbered_call "hello"%string (Some (obj [("version"%string, JInt 1)])) p1 ag)
    as (e & s & c & -> & Hs & Hcc); [done..|].
  cbn [hello_version]. eexists. split; [done|]. repeat split; cbn; [|done].
  destruct Hcc as [->| ->]; [done|]. done.
Qed.

Lemma poll_apart ag n p : apart ag p → apart ag (poll n p).
Proof.
  revert p. induction n as [|n IH]; intros p H; [done|]. cbn [poll].
  destruct (Connect_apart ag p H) as (p' & -> & H'). by apply IH.
Qed.

Lemma launch_apart ag p : apart ag p → apart ag (launch p).
Proof.
  intros (Hp & Hc & Ha). unfold launch.
  destruct (LaunchAuthAgentInUserSession _ _) as [[r evs] l]. repeat split; [done|done|].
  cbn. by destruct r.
Qed.

Lemma Ensure_apart ag p : apart ag p → apart ag (EnsureConnected p).
Proof.
  intros H. unfold EnsureConnected. rewrite (proj1 (proj2 H)).
  destruct (Connect_apart ag p H) as (p' & -> & H'). by apply poll_apart, launch_apart.
Qed.

Lemma apart_op ag op p : apart ag p → apart ag (kerberos_op op p).
Proof.
  intros H. pose proof (Ensure_apart ag p H) as He.
  destruct op as [spn|id ch|id| |]; cbn [kerberos_op];
    unfold KerberosCreateContext, KerberosContinueContext, KerberosCloseContext, Keepalive_turn;
    rewrite ?(proj1 (proj2 He)); [done..| |].
  - rewrite (proj1 (proj2 H)). cbn [negb].
    destruct (Connect_apart ag p H) as (p' & -> & H'). by apply poll_apart, launch_apart.
  - unfold KerberosReset, DisconnectFromAgent. cbn [set_link m_pipe]. destruct H as (-> & _ & Ha).
    by repeat split.
Qed.

Lemma apart_unavailable ag p : apart ag p → unavailable p.
Proof.
  intros H. destruct (Ensure_apart ag p H) as (_ & Hc & _).
  unfold unavailable, KerberosCreateContext, KerberosContinueContext. by rewrite Hc.
Qed.

(** C29: run against each other, the provider and the agent never agree on a
    connection.  The provider numbers every request, its version handshake
    included, and the agent ends the session on a numbered request; so from a
    fresh provider, whatever calls, keepalive turns and resets follow and
    however often the agent is launched, the agent's contexts stay as they
    were and every token request fails as unavailable. *)
Theorem provider_never_reaches_the_agent (w : AgentWorld) os n ops :
  let p := kerberos_run ops (mkKerberos w false false 0 n (mkLaunch false 0) os 0) in
  unavailable p ∧ m_connected p = false ∧ aw_agent (k_peer p) = aw_agent w.
Proof.
  cbv zeta. set (p0 := mkKerberos _ _ _ _ _ _ _ _).
  assert (H : apart (aw_agent w) (kerberos_run ops p0)).
  { unfold kerberos_run. assert (H0 : apart (aw_agent w) p0) by done. revert H0.
    generalize p0. induction ops as [|op ops IH]; intros p H0; [done|].
    cbn [foldl]. by apply IH, apart_op. }
  split; [by eapply apart_unavailable|]. by destruct H as (_ & ? & ?).
Qed.
End composition.

Definition sample_world : AgentWorld :=
  mkWorld agent_init false false (λ _, (sample_answers, 0)) 0.

(** What each side does with a numbered request and with one that has no number. *)
Example agent_call_ex :
  fst (agent_call 232 (request 1 "hello" None) (mkWorld agent_init true true (λ _, (sample_answers, 0)) 0)) =
    CallBroken ERROR_BROKEN_PIPE ∧
  fst (agent_call 232 (request 1 "hello" None) sample_world) = CallThrew (lit "WriteFile failed: 232").
Proof. by vm_compute. Qed.
