(* ===== verification/Ipc.v ===== *)
(** The two servers the user interface connects to:
    [infrastructure/ipc/PipeServer.h], one message of a named pipe per request,
    and [infrastructure/ipc/TcpIpcServer.h], one line of a byte stream per
    request.  Both serve one client at a time and hand requests to a callback,
    which may throw.

    Parsing and printing of JSON text are parameters, with their exceptions
    (files Library and Wire give them).  The texts of the push messages, which nothing
    sends, come last; when they are sent is in PipeServer. *)

From S2P Require Import Prelude.
From S2P Require Import Text.
From S2P Require Import Entities.
From S2P Require Import Json.

(** Literal text of the sources with double quotes, written as single ones. *)
Definition raw (s : String.string) : text := (λ c, if c =? 39 then 34 else c) <$> lit s.
Arguments raw s%_string_scope.

Definition RequestCallback (S : Type) : Type := text → text → S → exec text * S.

Section servers.
Context {S : Type} (parse : text → exec json).
Context (callback : option (RequestCallback S)).
Implicit Types s : S.

(** The request of a message: both fields must be text. *)
Definition read_request (message : text) : exec (text * text) :=
  j <-? parse message;;
  method <-? value_or get_string "method" [] j;;
  params <-? value_or get_string "params" [] j;;
  Done (method, params).

(** The body of the [try] of both loops, up to the write. *)
Definition respond (message : text) s : exec text * S :=
  match read_request message with
  | Raised e => (Raised e, s)
  | Undefined => (Undefined, s)
  | Done (method, params) =>
      match callback with
      | Some cb => cb method params s
      | None => (Done (raw "{'status':'error','error':'not_ready'}"), s)
      end
  end.

(** * The named pipe *)

(** [sizeof(buffer) - 1] *)
Definition IPC_READ : nat := Z.to_nat 65535.

(** The client I/O loop of [PipeThread] over the messages of a client, until it
    disconnects: the replies, and whether the process survives.  [ReadFile]
    fails with ERROR_MORE_DATA on a message longer than the buffer. *)
Fixpoint PipeClient (messages : list text) s : list text * bool * S :=
  match messages with
  | [] => ([], true, s)
  | m :: messages' =>
      if (length m =? 0)%nat || (IPC_READ <? length m)%nat then ([], true, s)
      else if (IPC_READ <=? length m)%nat then
        let '(rs, ok, s) := PipeClient messages' s in
        (raw "{'status':'error','error':'message_too_large'}" :: rs, ok, s)
      else
        match respond m s with
        | (Done response, s) =>
            let '(rs, ok, s) := PipeClient messages' s in (response :: rs, ok, s)
        | (Raised _, s) =>
            let '(rs, ok, s) := PipeClient messages' s in
            (raw "{'status':'error','error':'parse_error'}" :: rs, ok, s)
        | (Undefined, s) => ([], false, s)
        end
  end.

(** * The byte stream *)

Definition newline : Z := 10.

(** [line.back() == '\r'] *)
Definition trim_cr (line : text) : text :=
  match rev line with c :: l => if c =? 13 then rev l else line | [] => [] end.

(** What one line is answered; an empty line is skipped. *)
Definition handle_line (line : text) s : list text * bool * S :=
  match trim_cr line with
  | [] => ([], true, s)
  | l =>
      match respond l s with
      | (Done response, s) => ([response ++ [newline]], true, s)
      | (Raised what, s) =>
          ([raw "{'status':'error','error':'parse_error','detail':'" ++ what ++ raw "'}" ++ [newline]], true, s)
      | (Undefined, s) => ([], false, s)
      end
  end.

(** [accum.find('\n')], [accum.substr(0, pos)] and [accum.erase(0, pos + 1)]. *)
Fixpoint split_line (accum : text) : option (text * text) :=
  match accum with
  | [] => None
  | c :: accum' =>
      if c =? newline then Some ([], accum')
      else match split_line accum' with
           | Some (line, rest) => Some (c :: line, rest)
           | None => None
           end
  end.

(** The inner loop; each turn erases a character at least. *)
Fixpoint process_lines (fuel : nat) (accum : text) s : list text * bool * text * S :=
  match fuel with
  | O => ([], true, accum, s)
  | Datatypes.S fuel' =>
      match split_line accum with
      | None => ([], true, accum, s)
      | Some (line, rest) =>
          match handle_line line s with
          | (rs, false, s) => (rs, false, rest, s)
          | (rs, true, s) =>
              let '(rs', ok, rest, s) := process_lines fuel' rest s in (rs ++ rs', ok, rest, s)
          end
      end
  end.

(** The client I/O loop of [ServerThread] over what [recv] delivers, until it
    fails or the client closes. *)
Fixpoint TcpClient (accum : text) (chunks : list text) s : list text * bool * S :=
  match chunks with
  | [] => ([], true, s)
  | chunk :: chunks' =>
      let accum := accum ++ chunk in
      match process_lines (length accum) accum s with
      | (rs, false, _, s) => (rs, false, s)
      | (rs, true, accum, s) =>
          let '(rs', ok, s) := TcpClient accum chunks' s in (rs ++ rs', ok, s)
      end
  end.

(** * The framing of the byte stream *)

(** The reference: the lines of the whole input, in order. *)
Fixpoint lines (input : text) : list text * text :=
  match input with
  | [] => ([], [])
  | c :: input' =>
      let '(ls, rest) := lines input' in
      if c =? newline then ([] :: ls, rest)
      else match ls with
           | [] => ([], c :: rest)
           | l :: ls' => ((c :: l) :: ls', rest)
           end
  end.

Fixpoint handle_lines (ls : list text) s : list text * bool * S :=
  match ls with
  | [] => ([], true, s)
  | l :: ls' =>
      match handle_line l s with
      | (rs, false, s) => (rs, false, s)
      | (rs, true, s) => let '(rs', ok, s) := handle_lines ls' s in (rs ++ rs', ok, s)
      end
  end.

Lemma split_line_lines input :
  match split_line input with
  | Some (l, rest) => lines input = (l :: fst (lines rest), snd (lines rest)) ∧
                      (length rest < length input)%nat
  | None => lines input = ([], input)
  end.
Proof.
  induction input as [|c input IH]; [done|]. cbn [split_line lines].
  destruct (Z.eqb_spec c newline) as [->|Hc].
  - destruct (lines input) as [ls rest]. cbn. split; [done|lia].
  - destruct (split_line input) as [[l rest]|].
    + destruct IH as [-> Hlen]. cbn. split; [done|lia].
    + by rewrite IH.
Qed.

Lemma process_lines_spec fuel input s rs ok s' :
  (length input <= fuel)%nat → handle_lines (fst (lines input)) s = (rs, ok, s') →
  ∃ rest, process_lines fuel input s = (rs, ok, rest, s') ∧ (ok = true → rest = snd (lines input)).
Proof.
  revert input s rs ok s'. induction fuel as [|fuel IH]; intros input s rs ok s' Hlen Hh.
  - destruct input as [|c input]; [|cbn in Hlen; lia]. cbn in Hh. injection Hh as <- <- <-.
    by eexists.
  - cbn [process_lines]. pose proof (split_line_lines input) as Hs.
    destruct (split_line input) as [[l rest]|].
    + destruct Hs as [Hs Hlt]. rewrite Hs in Hh |- *. cbn [fst snd handle_lines] in Hh |- *.
      destruct (handle_line l s) as [[rs1 [|]] s1].
      * destruct (handle_lines (fst (lines rest)) s1) as [[rs2 ok2] s2] eqn:E.
        injection Hh as <- <- <-.
        destruct (IH rest s1 rs2 ok2 s2) as (rest' & -> & Hr); [lia|done|]. by exists rest'.
      * injection Hh as <- <- <-. by exists rest.
    + rewrite Hs in Hh |- *. cbn in Hh. injection Hh as <- <- <-. by exists input.
Qed.

Lemma lines_app x y :
  lines (x ++ y) = (fst (lines x) ++ fst (lines (snd (lines x) ++ y)), snd (lines (snd (lines x) ++ y))).
Proof.
  induction x as [|c x IH]; [cbn [lines fst snd app]; by destruct (lines y)|]. cbn [app lines]. rewrite IH.
  destruct (lines x) as [ls rest] eqn:E. cbn [fst snd] in *. destruct (c =? newline) eqn:Hc; [done|].
  destruct ls as [|l ls]; [|done]. cbn [app fst snd lines]. rewrite Hc.
  by destruct (lines (rest ++ y)) as [[|l ls] r].
Qed.

(** The unfinished line holds no line feed. *)
Lemma lines_rest x : lines (snd (lines x)) = ([], snd (lines x)).
Proof.
  induction x as [|c x IH]; [done|]. cbn [lines]. destruct (lines x) as [ls rest]. cbn [snd] in *.
  destruct (c =? newline) eqn:Hc; [done|]. destruct ls; [|done]. cbn [snd lines]. by rewrite IH, Hc.
Qed.

Lemma handle_lines_app ls ls' s :
  handle_lines (ls ++ ls') s =
  match handle_lines ls s with
  | (rs, true, s1) => let '(rs', ok, s2) := handle_lines ls' s1 in (rs ++ rs', ok, s2)
  | stopped => stopped
  end.
Proof.
  revert s. induction ls as [|l ls IH]; intros s; cbn [app handle_lines].
  - by destruct (handle_lines ls' s) as [[rs ok] s2].
  - destruct (handle_line l s) as [[rs [|]] s1]; [|done]. rewrite IH.
    destruct (handle_lines ls s1) as [[rs1 [|]] s2]; [|done].
    destruct (handle_lines ls' s2) as [[rs2 ok] s3]. by rewrite app_assoc.
Qed.

Lemma TcpClient_spec accum chunks s :
  lines accum = ([], accum) →
  TcpClient accum chunks s = handle_lines (fst (lines (accum ++ concat chunks))) s.
Proof.
  revert accum s. induction chunks as [|c chunks IH]; intros accum s Ha; cbn [TcpClient concat].
  - by rewrite app_nil_r, Ha.
  - rewrite app_assoc, lines_app. cbn [fst]. rewrite handle_lines_app.
    destruct (handle_lines (fst (lines (accum ++ c))) s) as [[rs ok] s'] eqn:E.
    destruct (process_lines_spec (length (accum ++ c)) (accum ++ c) s rs ok s') as (rest & -> & Hr);
      [done|done|].
    destruct ok; [|done]. rewrite Hr by done. by rewrite IH by apply lines_rest.
Qed.

(** the answers of the line server depend only on the bytes it receives.
    However the network cuts a client's input into pieces, the server handles
    the same lines in the same order, with the same replies and the same effect
    on the service as handling the lines of the whole input one by one; an
    unfinished last line has no effect. *)
Theorem tcp_framing_is_chunk_independent chunks s :
  TcpClient [] chunks s = handle_lines (fst (lines (concat chunks))) s.
Proof. by apply TcpClient_spec. Qed.

(** * One reply per message *)

Definition fits (m : text) : Prop := (0 < length m < IPC_READ)%nat.

(** The reply to a message that the buffer holds. *)
Definition pipe_reply (m : text) s : text :=
  match fst (respond m s) with
  | Done response => response
  | _ => raw "{'status':'error','error':'parse_error'}"
  end.

Fixpoint pipe_replies (messages : list text) s : list text :=
  match messages with
  | [] => []
  | m :: messages' => pipe_reply m s :: pipe_replies messages' (snd (respond m s))
  end.

Definition defined_on (P : S → Prop) : Prop :=
  ∀ m s, P s → fst (respond m s) ≠ Undefined ∧ P (snd (respond m s)).

(** the pipe server answers every message that fits its buffer with
    exactly one reply, in order, whether the message parses, the callback
    answers or throws.  A message that fills the buffer is refused although it
    was read whole, and a longer one, which a refusal was meant for, ends the
    session without a reply: the messages after it are not read. *)
Theorem pipe_answers_each_message (P : S → Prop) messages m after s :
  defined_on P → P s → Forall fits messages →
  (∃ s', PipeClient messages s = (pipe_replies messages s, true, s') ∧ P s') ∧
  (length m = IPC_READ → fst (fst (PipeClient (messages ++ [m]) s)) =
     pipe_replies messages s ++ [raw "{'status':'error','error':'message_too_large'}"]) ∧
  ((IPC_READ < length m)%nat → PipeClient (messages ++ m :: after) s = PipeClient messages s).
Proof.
  intros Hdef HP Hfit. revert s HP. induction Hfit as [|m0 messages Hm _ IH]; intros s HP.
  - cbn [app pipe_replies]. split_and!.
    + by exists s.
    + intros Hl. cbn [PipeClient]. rewrite Hl. cbn [Nat.eqb]. by rewrite Nat.ltb_irrefl, Nat.leb_refl.
    + intros Hl. cbn [PipeClient]. rewrite (proj2 (Nat.ltb_lt _ _) Hl). by rewrite orb_true_r.
  - destruct (Hdef m0 s HP) as [Hu HP']. destruct (IH _ HP') as ((s' & IH1 & Hs') & IH2 & IH3).
    destruct Hm as [Hm1 Hm2]. cbn [app PipeClient pipe_replies]. unfold pipe_reply.
    rewrite (proj2 (Nat.eqb_neq _ 0%nat)), (proj2 (Nat.ltb_ge IPC_READ _)), (proj2 (Nat.leb_gt IPC_READ _)) by lia.
    cbn [orb]. destruct (respond m0 s) as [[r|e|] s1]; cbn [fst snd] in *; [..|done];
      (split_and!; [exists s'; by rewrite IH1 | |intros Hl; by rewrite IH3]);
      intros Hl; specialize (IH2 Hl); by destruct (PipeClient (messages ++ [m]) s1) as [[rs ok] s2];
        cbn in *; rewrite IH2.
Qed.
End servers.

(** * Push messages *)

(** [std::string(w.begin(), w.end())] of a wide string. *)
Definition bytes_of_wide (w : text) : text := wrap 8 <$> w.

Definition connection_push (c : ConnectionRecord) : json :=
  obj [("id", JInt (cr_id c)); ("pid", JInt (cr_pid c));
       ("process_name", JStr (bytes_of_wide (cr_process_name c)));
       ("destination_host", JStr (bytes_of_wide (cr_destination_host c)));
       ("destination_ip", JStr (cr_destination_ip c)); ("destination_port", JInt (cr_destination_port c));
       ("rx_bytes", JInt (cr_rx_bytes c)); ("tx_bytes", JInt (cr_tx_bytes c));
       ("state", JInt (ConnectionState_to_int (cr_state c))); ("duration_ms", JInt (cr_duration c))]%string.

Definition log_push (e : LogEntry) : json :=
  obj [("timestamp", JInt (le_timestamp e)); ("level", JInt (LogLevel_to_int (le_level e)));
       ("logger", JStr (le_logger e)); ("message", JStr (le_message e))]%string.

Definition stats_push (s : ServiceStats) : json :=
  obj [("active_connections", JInt (ss_active_connections s)); ("total_rx_bytes", JInt (ss_total_rx_bytes s));
       ("total_tx_bytes", JInt (ss_total_tx_bytes s)); ("proxy_errors", JInt (ss_proxy_errors s))]%string.

Section push.
Context (dump : json → exec text) (parse : text → exec json).

(** The text of [SendMessage], whose data is printed and parsed once more. *)
Definition push_message (event : String.string) (data : json) : exec text :=
  data <-? dump data;;
  j <-? parse data;;
  dump (obj [("type", JStr (lit "push")); ("event", JStr (lit event)); ("data", j)])%string.

Definition SendConnections (connections : list ConnectionRecord) : exec text :=
  push_message "connections"%string (JArr (map connection_push connections)).
Definition SendLog (entry : LogEntry) : exec text := push_message "log"%string (log_push entry).
Definition SendStats (stats : ServiceStats) : exec text := push_message "stats"%string (stats_push stats).
End push.

(** * Concrete runs *)

Definition echo_parse (m : text) : exec json :=
  if text_eqb m (lit "bad") then Raised (lit "parse error") else Done (obj [("method", JStr m)]%string).

Definition echo : RequestCallback Z := λ method params n, (Done method, n + 1).

Lemma pipe_answers_each_message_witness :
  ∃ n, PipeClient echo_parse (Some echo) [lit "ping"; lit "bad"; lit "status"] 0 =
       (pipe_replies echo_parse (Some echo) [lit "ping"; lit "bad"; lit "status"] 0, true, n).
Proof.
  destruct (pipe_answers_each_message echo_parse (Some echo) (λ _, True)
              [lit "ping"; lit "bad"; lit "status"] [] [] 0) as ((n & H & _) & _).
  - intros m s _. split; [|done]. unfold respond, read_request, echo_parse.
    by destruct (text_eqb m (lit "bad")).
  - done.
  - assert (H : ∀ m, 0 < Z.of_nat (length m) < 65535 → fits m) by (unfold fits, IPC_READ; lia).
    repeat apply List.Forall_cons; try apply Forall_nil; try (apply H; split; reflexivity). done.
  - by exists n.
Defined.

Example tcp_framing_run :
  fst (TcpClient echo_parse (Some echo) [] [lit "pi"; lit "ng" ++ [13; 10; 10] ++ lit "b"; lit "ad" ++ [10] ++ lit "x"] 0) =
  ([lit "ping" ++ [10]; raw "{'status':'error','error':'parse_error','detail':'parse error'}" ++ [10]], true).
Proof. vm_compute. reflexivity. Qed.
