(* ===== verification/PipeServer.v ===== *)
(** The life of the named pipe of [infrastructure/ipc/PipeServer.h]: the thread
    that creates a pipe for each client ([PipeThread]), [Start], [Stop] and the
    push messages ([SendMessage]), which other threads send.  What the requests
    of a client mean is in Ipc.

    A step is one action of one thread: a test of an atomic flag, a section
    under [m_pipeMutex], or a system call.  The calls that block (waiting for a
    client, reading, and writing under the mutex) are two steps, between which
    other threads run.  The kernel's part is the set of open handles, the
    outcome of each call, and that a new handle is not an open one: it may be
    the value of a closed one. *)

From stdpp Require Import relations.
From S2P Require Import Prelude.

(** * State *)

Inductive PipePc :=
| NoThread
| AtLoop                                 (* while (m_running) *)
| AtCreate
| AtSwap (h : Z)
| AtRetire (h : Z) (old : option Z)
| AtConnect (h : Z)
| Connecting (h : Z)                     (* ConnectNamedPipe is pending *)
| AtSession (h : Z)                      (* while (m_running), with a client *)
| AtRead (h : Z)
| Reading (h : Z)                        (* ReadFile is pending *)
| AtReply (h : Z) (parsed : bool)
| Replying (h : Z)                       (* writing and flushing, under the mutex *)
| AtLeave (h : Z)
| AtClear (h : Z) (served : bool)          (* of a client that was connected *)
| AtDrop (h : Z) (served : bool)
| Ended.

Inductive StopPc :=
| NotStopping
| StopRead
| StopCancel (h : option Z)
| StopJoin
| StopClose.

(** Who holds [m_pipeMutex] across steps. *)
Inductive Holder := Free | ByThread | ByPush (h : Z).

Inductive PipeCall := CancelIo (h : Z) | UseHandle (h : Z) | Closing (h : Z).

Record PipeState := mkPipe {
  m_running : bool;
  m_connected : bool;
  m_pipeReady : bool;
  m_hPipe : option Z;                    (* None: INVALID_HANDLE_VALUE *)
  m_pipeMutex : Holder;
  isFirstInstance : bool;
  pipe_pc : PipePc;
  stop_pc : StopPc;
  pushes : nat;                          (* calls of SendMessage past their first test *)
  open_handles : list Z;                 (* of the kernel *)
  faults : list PipeCall                 (* calls on handles that were not open *)
}.

Definition PipeServer_new : PipeState :=
  mkPipe false false false None Free true NoThread NotStopping 0 [] [].

Definition set_pc (pc : PipePc) (s : PipeState) : PipeState :=
  mkPipe (m_running s) (m_connected s) (m_pipeReady s) (m_hPipe s) (m_pipeMutex s) (isFirstInstance s) pc
    (stop_pc s) (pushes s) (open_handles s) (faults s).
Definition set_stop (pc : StopPc) (s : PipeState) : PipeState :=
  mkPipe (m_running s) (m_connected s) (m_pipeReady s) (m_hPipe s) (m_pipeMutex s) (isFirstInstance s)
    (pipe_pc s) pc (pushes s) (open_handles s) (faults s).
Definition set_running (b : bool) (s : PipeState) : PipeState :=
  mkPipe b (m_connected s) (m_pipeReady s) (m_hPipe s) (m_pipeMutex s) (isFirstInstance s) (pipe_pc s)
    (stop_pc s) (pushes s) (open_handles s) (faults s).
Definition set_connected (b : bool) (s : PipeState) : PipeState :=
  mkPipe (m_running s) b (m_pipeReady s) (m_hPipe s) (m_pipeMutex s) (isFirstInstance s) (pipe_pc s)
    (stop_pc s) (pushes s) (open_handles s) (faults s).
Definition set_ready (b : bool) (s : PipeState) : PipeState :=
  mkPipe (m_running s) (m_connected s) b (m_hPipe s) (m_pipeMutex s) (isFirstInstance s) (pipe_pc s)
    (stop_pc s) (pushes s) (open_handles s) (faults s).
Definition set_hPipe (h : option Z) (s : PipeState) : PipeState :=
  mkPipe (m_running s) (m_connected s) (m_pipeReady s) h (m_pipeMutex s) (isFirstInstance s) (pipe_pc s)
    (stop_pc s) (pushes s) (open_handles s) (faults s).
Definition set_mutex (m : Holder) (s : PipeState) : PipeState :=
  mkPipe (m_running s) (m_connected s) (m_pipeReady s) (m_hPipe s) m (isFirstInstance s) (pipe_pc s)
    (stop_pc s) (pushes s) (open_handles s) (faults s).
Definition set_first (b : bool) (s : PipeState) : PipeState :=
  mkPipe (m_running s) (m_connected s) (m_pipeReady s) (m_hPipe s) (m_pipeMutex s) b (pipe_pc s)
    (stop_pc s) (pushes s) (open_handles s) (faults s).
Definition set_pushes (n : nat) (s : PipeState) : PipeState :=
  mkPipe (m_running s) (m_connected s) (m_pipeReady s) (m_hPipe s) (m_pipeMutex s) (isFirstInstance s)
    (pipe_pc s) (stop_pc s) n (open_handles s) (faults s).
Definition set_open (l : list Z) (s : PipeState) : PipeState :=
  mkPipe (m_running s) (m_connected s) (m_pipeReady s) (m_hPipe s) (m_pipeMutex s) (isFirstInstance s)
    (pipe_pc s) (stop_pc s) (pushes s) l (faults s).

Definition is_open (h : Z) (s : PipeState) : bool := existsb (Z.eqb h) (open_handles s).

(** A system call on a handle is recorded when the handle is not open. *)
Definition on_handle (h : Z) (c : PipeCall) (s : PipeState) : PipeState :=
  if is_open h s then s
  else mkPipe (m_running s) (m_connected s) (m_pipeReady s) (m_hPipe s) (m_pipeMutex s) (isFirstInstance s)
         (pipe_pc s) (stop_pc s) (pushes s) (open_handles s) (c :: faults s).

Definition CloseHandle (h : Z) (s : PipeState) : PipeState :=
  let s := on_handle h (Closing h) s in
  set_open (remove_first (Z.eqb h) (open_handles s)) s.

(** * Steps *)

(** What the kernel answers a call of the pipe thread. *)
Inductive PipeAnswer :=
| Created (h : Z)
| Failed
| Pending
| Connected                              (* a client has connected *)
| Message (parsed : bool)                (* a message, which the callback answered or refused *)
| Written.                               (* the client has read everything, or is gone *)

Definition mutex_free (s : PipeState) : bool := match m_pipeMutex s with Free => true | _ => false end.

Definition holds (h : Z) (s : PipeState) : bool :=
  match m_hPipe s with Some h' => h' =? h | None => false end.

Definition to_session (h : Z) (s : PipeState) : PipeState := set_pc (AtSession h) (set_connected true s).

(** One step of [PipeThread]; [None] where the answer is not one of the call,
    or the mutex is taken. *)
Definition thread_turn (a : PipeAnswer) (s : PipeState) : option PipeState :=
  match pipe_pc s, a with
  | AtLoop, _ => Some (set_pc (if m_running s then AtCreate else Ended) s)
  | AtCreate, Created h =>
      if is_open h s then None else Some (set_pc (AtSwap h) (set_open (h :: open_handles s) s))
  | AtCreate, Failed => Some (set_pc AtLoop (set_first false s))
  | AtSwap h, _ =>
      if mutex_free s then Some (set_pc (AtRetire h (m_hPipe s)) (set_hPipe (Some h) s)) else None
  | AtRetire h old, _ =>
      let s := match old with
               | Some o => CloseHandle o (on_handle o (UseHandle o) s)
               | None => s
               end in
      Some (set_pc (AtConnect h) (set_ready true (set_first false s)))
  | AtConnect h, Pending => Some (set_pc (Connecting h) (on_handle h (UseHandle h) s))
  | AtConnect h, Connected => Some (to_session h (on_handle h (UseHandle h) s))
  | AtConnect h, Failed => Some (set_pc (AtClear h false) (on_handle h (UseHandle h) s))
  | Connecting h, Connected => Some (to_session h s)
  | AtSession h, _ => Some (set_pc (if m_running s then AtRead h else AtLeave h) s)
  | AtRead h, Pending => Some (set_pc (Reading h) (on_handle h (UseHandle h) s))
  | AtRead h, Message ok => Some (set_pc (AtReply h ok) (on_handle h (UseHandle h) s))
  | AtRead h, Failed => Some (set_pc (AtLeave h) (on_handle h (UseHandle h) s))
  | Reading h, Message ok => Some (set_pc (AtReply h ok) s)
  | Reading h, Failed => Some (set_pc (AtLeave h) s)
  | AtReply h true, _ =>
      if mutex_free s then
        if holds h s then Some (set_pc (Replying h) (set_mutex ByThread (on_handle h (UseHandle h) s)))
        else Some (set_pc (AtSession h) s)
      else None
  | AtReply h false, _ => Some (set_pc (AtSession h) (on_handle h (UseHandle h) s))
  | Replying h, Written => Some (set_pc (AtSession h) (set_mutex Free s))
  | AtLeave h, _ => Some (set_pc (AtClear h true) (set_connected false s))
  | AtClear h served, _ =>
      if mutex_free s
      then Some (set_pc (AtDrop h served) (if holds h s then set_hPipe None s else s))
      else None
  | AtDrop h served, _ =>
      let s := CloseHandle h (on_handle h (UseHandle h) s) in
      Some (set_pc AtLoop (if served then set_first true s else set_connected false s))
  | _, _ => None
  end.

(** [CancelIoEx] ends the pending call on the handle. *)
Definition CancelIoEx (h : Z) (s : PipeState) : PipeState :=
  let s := on_handle h (CancelIo h) s in
  match pipe_pc s with
  | Connecting h' => if h' =? h then set_pc (AtClear h' false) s else s
  | Reading h' => if h' =? h then set_pc (AtLeave h') s else s
  | _ => s
  end.

(** One step of [Stop]. *)
Definition stop_turn (s : PipeState) : option PipeState :=
  match stop_pc s with
  | NotStopping => Some (set_stop StopRead (set_running false s))
  | StopRead => if mutex_free s then Some (set_stop (StopCancel (m_hPipe s)) s) else None
  | StopCancel o =>
      Some (set_stop StopJoin (match o with Some h => CancelIoEx h s | None => s end))
  | StopJoin =>
      match pipe_pc s with
      | Ended | NoThread => Some (set_stop StopClose (set_pc NoThread s))
      | _ => None
      end
  | StopClose =>
      if mutex_free s then
        Some (set_stop NotStopping
                (match m_hPipe s with Some h => set_hPipe None (CloseHandle h s) | None => s end))
      else None
  end.

(** [Start] is not called while a thread exists. *)
Definition Start (s : PipeState) : option PipeState :=
  match pipe_pc s, stop_pc s with
  | NoThread, NotStopping => Some (set_pc AtLoop (set_first true (set_ready false (set_running true s))))
  | _, _ => None
  end.

(** [SendMessage]: the test, the locked section up to the write, and its end. *)
Definition push_call (s : PipeState) : PipeState :=
  if m_connected s then set_pushes (S (pushes s)) s else s.

Definition push_lock (s : PipeState) : option PipeState :=
  match pushes s with
  | O => None
  | S n =>
      if mutex_free s then
        match m_hPipe s with
        | None => Some (set_pushes n s)
        | Some h => Some (set_pushes n (set_mutex (ByPush h) (on_handle h (UseHandle h) s)))
        end
      else None
  end.

Definition push_done (s : PipeState) : option PipeState :=
  match m_pipeMutex s with ByPush _ => Some (set_mutex Free s) | _ => None end.

Inductive PipeAct := ActStart | ActThread (a : PipeAnswer) | ActStop | ActPush | ActLock | ActPushed.

Definition pipe_act (a : PipeAct) (s : PipeState) : option PipeState :=
  match a with
  | ActStart => Start s
  | ActThread b => thread_turn b s
  | ActStop => stop_turn s
  | ActPush => Some (push_call s)
  | ActLock => push_lock s
  | ActPushed => push_done s
  end.

Fixpoint pipe_run (acts : list PipeAct) (s : PipeState) : option PipeState :=
  match acts with
  | [] => Some s
  | a :: acts' => match pipe_act a s with Some s' => pipe_run acts' s' | None => None end
  end.

Definition pipe_step (s s' : PipeState) : Prop := ∃ a, pipe_act a s = Some s'.
Definition pipe_reachable (s : PipeState) : Prop := rtc pipe_step PipeServer_new s.

(** * The handles *)

(** The handle the pipe thread holds, and the one it has published. *)
Definition owned (pc : PipePc) : option Z :=
  match pc with
  | NoThread | AtLoop | AtCreate | Ended => None
  | AtSwap h | AtRetire h _ | AtConnect h | Connecting h | AtSession h | AtRead h | Reading h
  | AtReply h _ | Replying h | AtLeave h | AtClear h _ | AtDrop h _ => Some h
  end.

Definition published (pc : PipePc) : option Z :=
  match pc with AtSwap _ | AtDrop _ _ => None | _ => owned pc end.

Definition is_cancel (c : PipeCall) : Prop := match c with CancelIo _ => True | _ => False end.

Record pipe_inv (s : PipeState) : Prop := {
  pi_faults : Forall is_cancel (faults s);
  pi_open : open_handles s = option_list (owned (pipe_pc s));
  pi_pipe : m_hPipe s = published (pipe_pc s);
  pi_old : match pipe_pc s with AtRetire _ old => old = None | _ => True end;
  pi_thread : match pipe_pc s with
              | Replying _ => m_pipeMutex s = ByThread
              | _ => m_pipeMutex s ≠ ByThread
              end;
  pi_push : ∀ h, m_pipeMutex s = ByPush h → m_hPipe s = Some h;
  pi_join : match pipe_pc s with NoThread => True | _ => stop_pc s ≠ StopClose end;
  pi_run : match stop_pc s with NotStopping => True | _ => m_running s = false end
}.

Lemma on_open h c s l : open_handles s = h :: l → on_handle h c s = s.
Proof. intros H. unfold on_handle, is_open. rewrite H. cbn. by rewrite Z.eqb_refl. Qed.

Lemma close_open h c s l :
  open_handles s = h :: l → CloseHandle h (on_handle h c s) = set_open l s.
Proof.
  intros H. rewrite (on_open h c s l H). unfold CloseHandle. rewrite (on_open h _ s l H), H.
  cbn [remove_first]. by rewrite Z.eqb_refl.
Qed.

Lemma mutex_free_spec s : mutex_free s = true ↔ m_pipeMutex s = Free.
Proof. unfold mutex_free. by destruct (m_pipeMutex s). Qed.

Lemma pipe_new_inv : pipe_inv PipeServer_new.
Proof. by constructor. Qed.

(** Take a step apart. *)
Ltac pipe_cases :=
  repeat match goal with
  | H : Some _ = Some _ |- _ => injection H as <-
  | H : None = Some _ |- _ => discriminate H
  | H : context [if ?b then _ else _] |- _ => destruct b eqn:?
  | H : (match ?a with _ => _ end) = Some _ |- _ => destruct a eqn:?
  end.

(** A call on the only open handle is not a fault. *)
Ltac pipe_calls :=
  repeat first
    [ rewrite (close_open _ _ (mkPipe _ _ _ _ _ _ _ _ _ (_ :: _) _) _ eq_refl)
    | rewrite (on_open _ _ (mkPipe _ _ _ _ _ _ _ _ _ (_ :: _) _) _ eq_refl) ].

Ltac pipe_inv_done :=
  cbn in *; subst; rewrite ?Z.eqb_refl in *; pipe_calls; cbn;
  repeat match goal with |- context [if ?b then _ else _] => destruct b end;
  constructor; cbn; intros; try done; try (by auto);
  try match goal with H : ∀ h, ?mu = ByPush h → _, E : ?mu = ByPush _ |- _ => by destruct (H _ E) end.

Lemma thread_turn_inv a s s' : thread_turn a s = Some s' → pipe_inv s → pipe_inv s'.
Proof.
  intros Ht [Hf Ho Hp Hold Hm Hpush Hj Hrun]. destruct s as [r k rd hp mu fi pc sp n oh fl]. cbn in *. subst.
  destruct pc; cbn [owned published option_list] in *; unfold thread_turn in Ht; cbn [pipe_pc m_running] in Ht;
    pipe_cases; rewrite ?mutex_free_spec in *; pipe_inv_done.
Qed.

Lemma on_handle_inv h c s : is_cancel c → pipe_inv s → pipe_inv (on_handle h c s).
Proof.
  intros Hc [Hf Ho Hp Hold Hm Hpush Hj Hrun]. unfold on_handle. destruct (is_open h s); constructor; try done.
  by constructor.
Qed.

Lemma set_stop_inv pc s :
  pc ≠ StopClose → m_running s = false → pipe_inv s → pipe_inv (set_stop pc s).
Proof.
  intros Hc Hr [Hf Ho Hp Hold Hm Hpush Hj Hrun]. constructor; try done; cbn; [by destruct (pipe_pc s)|by destruct pc].
Qed.

Lemma stopping s : pipe_inv s → stop_pc s ≠ NotStopping → m_running s = false.
Proof. intros [_ _ _ _ _ _ _ Hrun] Hs. by destruct (stop_pc s). Qed.

Lemma CancelIoEx_inv h s : pipe_inv s → pipe_inv (CancelIoEx h s).
Proof.
  intros H. unfold CancelIoEx. assert (H1 : pipe_inv (on_handle h (CancelIo h) s)) by by apply on_handle_inv.
  revert H1. generalize (on_handle h (CancelIo h) s). clear. intros [r k rd hp mu fi pc sp n oh fl].
  intros [Hf Ho Hp Hold Hm Hpush Hj Hrun]. cbn in *. subst.
  destruct pc; cbn in *; try (by constructor);
    match goal with |- context [if ?b then _ else _] => destruct b end; by constructor.
Qed.

Lemma CancelIoEx_stop h s : stop_pc (CancelIoEx h s) = stop_pc s.
Proof.
  unfold CancelIoEx, on_handle. destruct (is_open h s), (pipe_pc s) eqn:E; cbn; rewrite ?E; try done;
    by match goal with |- context [if ?b then _ else _] => destruct b end.
Qed.

Lemma stop_turn_inv s s' : stop_turn s = Some s' → pipe_inv s → pipe_inv s'.
Proof.
  unfold stop_turn. destruct (stop_pc s) as [| |[h|]| |] eqn:Es; intros Ht HI.
  - injection Ht as <-. apply set_stop_inv; [done..|]. destruct HI. constructor; try done. cbn. by rewrite Es.
  - pipe_cases. apply set_stop_inv; [done| |done]. apply stopping; [done|]. by rewrite Es.
  - injection Ht as <-. apply CancelIoEx_inv with (h := h) in HI as HC.
    assert (Hs : stop_pc (CancelIoEx h s) = stop_pc s) by apply CancelIoEx_stop.
    apply set_stop_inv; [done| |done]. apply stopping; [done|]. by rewrite Hs, Es.
  - injection Ht as <-. apply set_stop_inv; [done| |done]. apply stopping; [done|]. by rewrite Es.
  - destruct HI as [Hf Ho Hp Hold Hm Hpush Hj Hrun], s as [r k rd hp mu fi pc sp n oh fl]. cbn in *. subst.
    destruct pc; try done; injection Ht as <-; pipe_inv_done.
  - destruct HI as [Hf Ho Hp Hold Hm Hpush Hj Hrun], s as [r k rd hp mu fi pc sp n oh fl]. cbn in *. subst.
    destruct pc; try done. cbn in *. pipe_cases. pipe_inv_done.
Qed.

Lemma pipe_act_inv a s s' : pipe_act a s = Some s' → pipe_inv s → pipe_inv s'.
Proof.
  destruct a as [|b| | | |]; cbn [pipe_act].
  - intros Ht [Hf Ho Hp Hold Hm Hpush Hj Hrun]. destruct s as [r k rd hp mu fi pc sp n oh fl]. unfold Start in Ht.
    cbn in *. subst. destruct pc; try done. destruct sp; try done. injection Ht as <-. pipe_inv_done.
  - apply thread_turn_inv.
  - apply stop_turn_inv.
  - intros [= <-] HI. unfold push_call. destruct (m_connected s); [|done]. by destruct HI.
  - intros Ht [Hf Ho Hp Hold Hm Hpush Hj Hrun]. destruct s as [r k rd hp mu fi pc sp n oh fl]. unfold push_lock in Ht.
    cbn in *. subst. destruct n; [done|]. pipe_cases; rewrite ?mutex_free_spec in *; cbn in *; subst;
      destruct pc; cbn in *; simplify_eq; pipe_inv_done; congruence.
  - intros Ht [Hf Ho Hp Hold Hm Hpush Hj Hrun]. destruct s as [r k rd hp mu fi pc sp n oh fl]. unfold push_done in Ht.
    cbn in *. destruct mu; try done. injection Ht as <-. destruct pc; by constructor.
Qed.

Lemma pipe_reachable_inv s : pipe_reachable s → pipe_inv s.
Proof.
  apply (rtc_ind_r pipe_inv); [exact pipe_new_inv|].
  intros s1 s2 _ [a Ha] IH. by eapply pipe_act_inv.
Qed.

Lemma pipe_run_reachable acts s s' :
  pipe_reachable s → pipe_run acts s = Some s' → pipe_reachable s'.
Proof.
  revert s. induction acts as [|a acts IH]; intros s Hs; cbn; [by intros [= <-]|].
  destruct (pipe_act a s) as [s1|] eqn:E; [|done]. apply IH. eapply rtc_r; [exact Hs|]. by exists a.
Qed.

Lemma pipe_run_app acts acts' s :
  pipe_run (acts ++ acts') s = s1 ← pipe_run acts s; pipe_run acts' s1.
Proof. revert s. induction acts as [|a acts IH]; intros s; cbn; [done|]. by destruct (pipe_act a s). Qed.

(** C39: whatever the clients, the senders and [Stop] do, the pipe server owns
    its handles.  At every moment the open handles are exactly the one the
    thread holds, if any; [m_hPipe] is that handle or none; a push message
    under way uses an open handle, and no handle is ever used or closed after
    it was closed, except by the cancellation of [Stop]; and once the thread
    has been joined no handle is left. *)
Theorem pipe_handles_are_owned s :
  pipe_reachable s →
  open_handles s = option_list (owned (pipe_pc s)) ∧
  (m_hPipe s = None ∨ m_hPipe s = owned (pipe_pc s)) ∧
  (∀ h, m_pipeMutex s = ByPush h → h ∈ open_handles s) ∧
  Forall is_cancel (faults s) ∧
  (pipe_pc s = NoThread → open_handles s = [] ∧ m_hPipe s = None).
Proof.
  intros [Hf Ho Hp Hold Hm Hpush Hj Hrun]%pipe_reachable_inv. rewrite Ho, Hp. split_and!; try done.
  - destruct (pipe_pc s); cbn; auto.
  - intros h Hh. specialize (Hpush h Hh). rewrite Hp in Hpush.
    destruct (pipe_pc s); cbn in *; simplify_eq; by apply list_elem_of_singleton.
  - by intros ->.
Qed.

(** * Stopping *)

(** What is left to do before the thread ends, once it may not go on. *)
Definition thread_rank (pc : PipePc) : nat :=
  match pc with
  | NoThread | Ended => 0
  | AtLoop => 1
  | AtCreate | AtDrop _ _ => 2
  | AtClear _ _ => 3
  | AtLeave _ => 4
  | AtSession _ => 5
  | Replying _ | Connecting _ => 6
  | AtConnect _ | AtReply _ _ => 7
  | AtRetire _ _ | Reading _ => 8
  | AtSwap _ | AtRead _ => 9
  end.

Definition not_pushing (s : PipeState) : Prop := ∀ h, m_pipeMutex s ≠ ByPush h.

(** The kernel's obliging answer at each call. *)
Definition obliging (pc : PipePc) : PipeAnswer :=
  match pc with
  | AtConnect _ | AtCreate | AtRead _ | Reading _ => Failed
  | Connecting _ => Connected
  | _ => Written
  end.

Lemma thread_progress s :
  pipe_inv s → m_running s = false → not_pushing s → thread_rank (pipe_pc s) ≠ 0%nat →
  ∃ s', thread_turn (obliging (pipe_pc s)) s = Some s' ∧
        (thread_rank (pipe_pc s') < thread_rank (pipe_pc s))%nat ∧
        not_pushing s' ∧ stop_pc s' = stop_pc s.
Proof.
  intros [Hf Ho Hp Hold Hm Hpush Hj Hrun] Hr Hn. destruct s as [r k rd hp mu fi pc sp n oh fl]. cbn in *. subst.
  unfold not_pushing in *. cbn in *. destruct mu as [| |h']; [| |by destruct (Hn h')];
    destruct pc as [| | | | | | | | | |h [] | | | | |]; try done; intros _; cbn in *; subst; rewrite ?Z.eqb_refl; cbn; pipe_calls;
    (eexists; split; [reflexivity|cbn; split_and!; try done; try lia]);
    repeat match goal with |- context [if ?b then _ else _] => destruct b end; cbn; try done; lia.
Qed.

(** An action of the thread, of [Stop], or the end of a push message; the
    answers are those a call can get without new requests. *)
Definition patient (a : PipeAct) : Prop :=
  match a with
  | ActThread b => b = Failed ∨ b = Connected ∨ b = Written
  | ActStop | ActPushed => True
  | _ => False
  end.

Definition can_finish (s : PipeState) : Prop :=
  ∃ acts s', pipe_run acts s = Some s' ∧ Forall patient acts ∧
    stop_pc s' = NotStopping ∧ pipe_pc s' = NoThread ∧ open_handles s' = [].

Lemma can_finish_step a s s' :
  pipe_act a s = Some s' → patient a → can_finish s' → can_finish s.
Proof.
  intros Ha Hp (acts & s2 & Hrun & Hall & H). exists (a :: acts), s2. cbn. rewrite Ha.
  split; [done|]. split; [by constructor|done].
Qed.

Lemma obliging_patient pc : patient (ActThread (obliging pc)).
Proof. destruct pc; cbn; auto. Qed.

Lemma mutex_cases s : pipe_inv s → not_pushing s → m_pipeMutex s = Free ∨ ∃ h, pipe_pc s = Replying h.
Proof.
  intros HI Hn. destruct (m_pipeMutex s) as [| |h] eqn:E; [by left| |by destruct (Hn h)].
  right. pose proof (pi_thread _ HI) as Hm. rewrite E in Hm. destruct (pipe_pc s); try done. by eexists.
Qed.

Lemma finish_close s : pipe_inv s → not_pushing s → stop_pc s = StopClose → can_finish s.
Proof.
  intros HI Hn Hs. pose proof (pi_join _ HI) as Hj. destruct (pipe_pc s) eqn:E; try done.
  destruct (mutex_cases s HI Hn) as [Hm|[h Hh]]; [|congruence].
  pose proof (pi_pipe _ HI) as Hp. pose proof (pi_open _ HI) as Ho. rewrite E in Hp, Ho. cbn in Hp, Ho.
  exists [ActStop], (set_stop NotStopping s). unfold pipe_run, pipe_act, stop_turn, mutex_free. rewrite Hs, Hm, Hp.
  split; [done|]. split; [by repeat constructor|]. by cbn.
Qed.

Lemma finish_join s : pipe_inv s → not_pushing s → stop_pc s = StopJoin → can_finish s.
Proof.
  remember (thread_rank (pipe_pc s)) as n eqn:En. revert s En.
  induction (lt_wf n) as [n _ IH]. intros s -> HI Hn Hs.
  destruct (decide (thread_rank (pipe_pc s) = 0%nat)) as [E|E].
  - assert (Hact : pipe_act ActStop s = Some (set_stop StopClose (set_pc NoThread s))).
    { cbn. unfold stop_turn. rewrite Hs. by destruct (pipe_pc s). }
    eapply can_finish_step; [exact Hact|done|]. apply finish_close; [|done..]. by eapply pipe_act_inv.
  - destruct (thread_progress s HI) as (s' & Ht & Hlt & Hn' & Hs'); [|done..|].
    { apply stopping; [done|]. by rewrite Hs. }
    apply (can_finish_step (ActThread (obliging (pipe_pc s))) s s'); [exact Ht|apply obliging_patient|].
    eapply IH; [exact Hlt|done|by eapply thread_turn_inv|done|by rewrite Hs'].
Qed.

Lemma finish_cancel s o : pipe_inv s → not_pushing s → stop_pc s = StopCancel o → can_finish s.
Proof.
  intros HI Hn Hs. destruct (pipe_act ActStop s) as [s'|] eqn:Ha;
    [|cbn in Ha; unfold stop_turn in Ha; by rewrite Hs in Ha].
  eapply can_finish_step; [exact Ha|done|]. assert (HI' : pipe_inv s') by by eapply pipe_act_inv.
  cbn in Ha. unfold stop_turn in Ha. rewrite Hs in Ha. injection Ha as <-. apply finish_join; [done| |done].
  unfold not_pushing in *. destruct o as [h|]; cbn; [|done].
  unfold CancelIoEx, on_handle. destruct (is_open h s); destruct (pipe_pc s) eqn:E; cbn; rewrite ?E; cbn; try done;
    by match goal with |- context [if ?b then _ else _] => destruct b end.
Qed.

Lemma finish_read s : pipe_inv s → not_pushing s → stop_pc s = StopRead → can_finish s.
Proof.
  assert (Hfree : ∀ s, pipe_inv s → m_pipeMutex s = Free → stop_pc s = StopRead → can_finish s).
  { intros t HI Hm Hs. assert (Ha : pipe_act ActStop t = Some (set_stop (StopCancel (m_hPipe t)) t)).
    { cbn. unfold stop_turn, mutex_free. by rewrite Hs, Hm. }
    eapply can_finish_step; [exact Ha|done|]. eapply finish_cancel; [by eapply pipe_act_inv| |done].
    intros h. cbn. by rewrite Hm. }
  intros HI Hn Hs. destruct (mutex_cases s HI Hn) as [Hm|[h Hh]]; [by apply Hfree|].
  assert (Ha : pipe_act (ActThread Written) s = Some (set_pc (AtSession h) (set_mutex Free s))).
  { cbn. unfold thread_turn. by rewrite Hh. }
  eapply can_finish_step; [exact Ha|cbn; auto|]. apply Hfree; [by eapply pipe_act_inv|done..].
Qed.

Lemma finish s : pipe_inv s → stop_pc s ≠ NotStopping → can_finish s.
Proof.
  assert (Hn : ∀ s, pipe_inv s → not_pushing s → stop_pc s ≠ NotStopping → can_finish s).
  { intros t HI Hn Hs. destruct (stop_pc t) eqn:E; [done|by apply finish_read|by eapply finish_cancel
      |by apply finish_join|by apply finish_close]. }
  intros HI Hs. destruct (m_pipeMutex s) as [| |h] eqn:E; [apply Hn; try done; intros h; by rewrite E..|].
  assert (Ha : pipe_act ActPushed s = Some (set_mutex Free s)) by (cbn; unfold push_done; by rewrite E).
  eapply can_finish_step; [exact Ha|done|]. apply Hn; [by eapply pipe_act_inv|done|done].
Qed.

(** Runs in which an action never happens. *)
Definition without (p : PipeAct → Prop) (s s' : PipeState) : Prop := ∃ a, ¬ p a ∧ pipe_act a s = Some s'.

Definition client_connects (a : PipeAct) : Prop := a = ActThread Connected.
Definition client_reads (a : PipeAct) : Prop := a = ActThread Written.

Lemma without_connecting s s' h :
  pipe_pc s = Connecting h → stop_pc s = StopJoin → rtc (without client_connects) s s' →
  pipe_pc s' = Connecting h ∧ stop_pc s' = StopJoin.
Proof.
  intros Hp Hs Hr. revert s' Hr. apply (rtc_ind_r (λ s', pipe_pc s' = Connecting h ∧ stop_pc s' = StopJoin)); [done|].
  intros s1 s2 _ (a & Hna & Ha) [Hp1 Hs1]. destruct a as [|b| | | |]; cbn in Ha.
  - unfold Start in Ha. by rewrite Hp1 in Ha.
  - unfold thread_turn in Ha. rewrite Hp1 in Ha. by destruct b.
  - unfold stop_turn in Ha. by rewrite Hs1, Hp1 in Ha.
  - injection Ha as <-. unfold push_call. by destruct (m_connected s1).
  - unfold push_lock in Ha. destruct (pushes s1); [done|]. pipe_cases; cbn; unfold on_handle; try done;
      by destruct (is_open _ _).
  - unfold push_done in Ha. destruct (m_pipeMutex s1); try done. by injection Ha as <-.
Qed.

Lemma without_reading s s' h :
  pipe_pc s = Replying h → stop_pc s = StopRead → m_pipeMutex s = ByThread → rtc (without client_reads) s s' →
  pipe_pc s' = Replying h ∧ stop_pc s' = StopRead ∧ m_pipeMutex s' = ByThread.
Proof.
  intros Hp Hs Hm Hr. revert s' Hr.
  apply (rtc_ind_r (λ s', pipe_pc s' = Replying h ∧ stop_pc s' = StopRead ∧ m_pipeMutex s' = ByThread)); [done|].
  intros s1 s2 _ (a & Hna & Ha) (Hp1 & Hs1 & Hm1). destruct a as [|b| | | |]; cbn in Ha.
  - unfold Start in Ha. by rewrite Hp1 in Ha.
  - unfold thread_turn in Ha. rewrite Hp1 in Ha. by destruct b.
  - unfold stop_turn, mutex_free in Ha. by rewrite Hs1, Hm1 in Ha.
  - injection Ha as <-. unfold push_call. by destruct (m_connected s1).
  - unfold push_lock, mutex_free in Ha. rewrite Hm1 in Ha. by destruct (pushes s1).
  - unfold push_done in Ha. by rewrite Hm1 in Ha.
Qed.

(** The pipe has been created and the thread is about to wait for a client
    when [Stop] cancels what is not yet pending. *)
Definition missed_cancel : list PipeAct :=
  [ActStart; ActThread Failed; ActThread (Created 1); ActThread Failed; ActThread Failed;
   ActStop; ActStop; ActStop; ActThread Pending].

(** A client has sent a request and does not read the reply. *)
Definition silent_client : list PipeAct :=
  [ActStart; ActThread Failed; ActThread (Created 1); ActThread Failed; ActThread Failed;
   ActThread Connected; ActThread Failed; ActThread (Message true); ActThread Failed; ActStop].

(** The client leaves between the reading of [m_hPipe] and its cancellation. *)
Definition late_cancel : list PipeAct :=
  [ActStart; ActThread Failed; ActThread (Created 1); ActThread Failed; ActThread Failed;
   ActThread Connected; ActThread Failed; ActThread Failed; ActStop; ActStop;
   ActThread Failed; ActThread Failed; ActThread Failed; ActStop].

Lemma reached acts :
  ∀ s, pipe_run acts PipeServer_new = Some s → pipe_reachable s.
Proof. intros s. apply pipe_run_reachable. by apply rtc_refl. Qed.

(** [Stop] depends on the client.  It can always be brought to its end: from
    every reachable state it can finish, with the thread joined and no handle
    left, if pending calls are answered.  But three races spoil it.  When the
    cancellation comes before the thread waits for a client, [Stop] waits until
    some client connects; when a client does not read its reply, the thread
    holds the mutex and [Stop] waits until it does; and when the thread closes
    the pipe in between, a handle that is not open, or is another object by
    then, is cancelled. *)
Theorem stop_depends_on_the_client :
  (∀ s, pipe_reachable s → stop_pc s ≠ NotStopping → can_finish s) ∧
  (∃ s, pipe_reachable s ∧ stop_pc s = StopJoin ∧ m_running s = false ∧
     ∀ s', rtc (without client_connects) s s' → stop_pc s' = StopJoin) ∧
  (∃ s, pipe_reachable s ∧ stop_pc s = StopRead ∧ m_running s = false ∧
     ∀ s', rtc (without client_reads) s s' → stop_pc s' = StopRead) ∧
  (∃ s h, pipe_reachable s ∧ faults s = [CancelIo h]).
Proof.
  split; [intros s Hr; apply finish; by apply pipe_reachable_inv|]. split; [|split].
  - destruct (pipe_run missed_cancel PipeServer_new) as [s|] eqn:E; [|done]. exists s.
    split; [by apply (reached missed_cancel)|]. vm_compute in E. injection E as <-. split_and!; [done..|].
    intros s' Hr. apply without_connecting with (h := 1) in Hr; [by destruct Hr|done..].
  - destruct (pipe_run silent_client PipeServer_new) as [s|] eqn:E; [|done]. exists s.
    split; [by apply (reached silent_client)|]. vm_compute in E. injection E as <-. split_and!; [done..|].
    intros s' Hr. apply without_reading with (h := 1) in Hr; [by destruct Hr as (_ & ? & _)|done..].
  - destruct (pipe_run late_cancel PipeServer_new) as [s|] eqn:E; [|done]. exists s, 1.
    split; [by apply (reached late_cancel)|]. vm_compute in E. by injection E as <-.
Qed.

(** * Concrete runs *)

Definition sample_session : list PipeAct :=
  [ActStart; ActThread Failed; ActThread (Created 7); ActThread Failed; ActThread Failed;
   ActThread Connected; ActPush; ActLock].

Definition sample_pipe : PipeState := default PipeServer_new (pipe_run sample_session PipeServer_new).

Lemma pipe_handles_are_owned_witness :
  m_pipeMutex sample_pipe = ByPush 7 ∧ 7 ∈ open_handles sample_pipe.
Proof.
  split; [vm_compute; reflexivity|].
  apply (pipe_handles_are_owned sample_pipe); [|vm_compute; reflexivity].
  apply (reached sample_session). vm_compute. reflexivity.
Defined.

Lemma stop_depends_on_the_client_witness : can_finish (set_stop StopRead (set_running false sample_pipe)).
Proof.
  apply stop_depends_on_the_client; [|discriminate].
  apply (reached (sample_session ++ [ActStop])). vm_compute. reflexivity.
Defined.
