(* ===== verification/TcpServer.v ===== *)
(** The life of the TCP server of [infrastructure/ipc/TcpIpcServer.h]: its
    listening socket, the thread that serves one client after another
    ([ServerThread]), [Start] and [Stop].  What the requests of a client mean,
    and how its bytes are cut into lines, is in Ipc.

    A step is one action of one thread: a test of an atomic flag, a section
    under [m_socketMutex], or a socket call.  The calls that block (accepting,
    receiving, sending) are two steps, between which other threads run; closing
    a socket ends the call that is pending on it.  The system's part is the set
    of open sockets, the outcome of each call, and that a new socket is not an
    open one: it may be the value of a closed one. *)

From stdpp Require Import relations.
From S2P Require Import Prelude.

(** * State *)

Inductive TcpPc :=
| NoThread
| AtLoop                                 (* while (m_running) *)
| AtAccept
| Accepting (l : Z)                      (* accept is pending *)
| Accepted (c : Z)
| AtConnected (c : Z)                    (* m_clientSocket holds the client *)
| AtSession (c : Z)                      (* while (m_running), with a client *)
| AtRecv (c : Z)
| Receiving (c : Z)                      (* recv is pending *)
| AtReply (c : Z) (n : nat)              (* n lines left to answer *)
| Sending (c : Z) (n : nat)              (* send is pending, n lines after it *)
| AtLeave (c : Z)
| AtClear (c : Z)
| AtClose (c : Z)
| Ended.

Inductive TcpStop := NotStopping | StopListen | StopForget | StopClient | StopJoin | StopCleanup.

#[export] Instance TcpStop_eq_dec : EqDecision TcpStop.
Proof. solve_decision. Defined.

Inductive SocketCall := UseSocket (h : Z) | Closing (h : Z).

Record TcpState := mkTcp {
  m_running : bool;
  m_connected : bool;
  m_listenSocket : option Z;             (* None: INVALID_SOCKET *)
  m_clientSocket : option Z;
  tcp_pc : TcpPc;
  tcp_stop : TcpStop;
  startups : nat;                        (* calls of WSAStartup not yet undone *)
  open_sockets : list Z;
  socket_faults : list SocketCall        (* calls on sockets that were not open *)
}.

Definition TcpIpcServer_new : TcpState := mkTcp false false None None NoThread NotStopping 0 [] [].

Definition set_tcp_pc (pc : TcpPc) (s : TcpState) : TcpState :=
  mkTcp (m_running s) (m_connected s) (m_listenSocket s) (m_clientSocket s) pc (tcp_stop s) (startups s)
    (open_sockets s) (socket_faults s).
Definition set_tcp_stop (pc : TcpStop) (s : TcpState) : TcpState :=
  mkTcp (m_running s) (m_connected s) (m_listenSocket s) (m_clientSocket s) (tcp_pc s) pc (startups s)
    (open_sockets s) (socket_faults s).
Definition set_tcp_running (b : bool) (s : TcpState) : TcpState :=
  mkTcp b (m_connected s) (m_listenSocket s) (m_clientSocket s) (tcp_pc s) (tcp_stop s) (startups s)
    (open_sockets s) (socket_faults s).
Definition set_tcp_connected (b : bool) (s : TcpState) : TcpState :=
  mkTcp (m_running s) b (m_listenSocket s) (m_clientSocket s) (tcp_pc s) (tcp_stop s) (startups s)
    (open_sockets s) (socket_faults s).
Definition set_listen (l : option Z) (s : TcpState) : TcpState :=
  mkTcp (m_running s) (m_connected s) l (m_clientSocket s) (tcp_pc s) (tcp_stop s) (startups s)
    (open_sockets s) (socket_faults s).
Definition set_client (c : option Z) (s : TcpState) : TcpState :=
  mkTcp (m_running s) (m_connected s) (m_listenSocket s) c (tcp_pc s) (tcp_stop s) (startups s)
    (open_sockets s) (socket_faults s).
Definition set_startups (n : nat) (s : TcpState) : TcpState :=
  mkTcp (m_running s) (m_connected s) (m_listenSocket s) (m_clientSocket s) (tcp_pc s) (tcp_stop s) n
    (open_sockets s) (socket_faults s).
Definition set_open_sockets (l : list Z) (s : TcpState) : TcpState :=
  mkTcp (m_running s) (m_connected s) (m_listenSocket s) (m_clientSocket s) (tcp_pc s) (tcp_stop s) (startups s)
    l (socket_faults s).
Definition add_fault (f : SocketCall) (s : TcpState) : TcpState :=
  mkTcp (m_running s) (m_connected s) (m_listenSocket s) (m_clientSocket s) (tcp_pc s) (tcp_stop s) (startups s)
    (open_sockets s) (f :: socket_faults s).

Definition socket_open (h : Z) (s : TcpState) : bool := existsb (Z.eqb h) (open_sockets s).

Definition open_socket (h : Z) (s : TcpState) : TcpState := set_open_sockets (h :: open_sockets s) s.

(** The call pending on a socket fails when it is closed. *)
Definition wake (h : Z) (pc : TcpPc) : TcpPc :=
  match pc with
  | Accepting l => if l =? h then Ended else pc
  | Receiving c => if c =? h then AtLeave c else pc
  | Sending c n => if c =? h then AtReply c n else pc
  | _ => pc
  end.

Definition closesocket (h : Z) (s : TcpState) : TcpState :=
  if socket_open h s
  then set_tcp_pc (wake h (tcp_pc s)) (set_open_sockets (remove_first (Z.eqb h) (open_sockets s)) s)
  else add_fault (Closing h) s.

(** * Steps *)

(** What the system answers a call of the server thread. *)
Inductive TcpAnswer :=
| Pending
| Client (c : Z)                         (* a client has connected *)
| Received (n : nat)                     (* bytes that complete n lines to answer *)
| Sent                                   (* the result of send is not looked at *)
| Failed.                                (* or, for recv: disconnected, or silent for 5 seconds *)

(** One step of [ServerThread]; [None] where the answer is not one of the call. *)
Definition server_turn (a : TcpAnswer) (s : TcpState) : option TcpState :=
  match tcp_pc s, a with
  | AtLoop, _ => Some (set_tcp_pc (if m_running s then AtAccept else Ended) s)
  | AtAccept, _ =>
      match m_listenSocket s with
      | None => Some (set_tcp_pc Ended s)
      | Some l =>
          if socket_open l s then
            match a with
            | Pending => Some (set_tcp_pc (Accepting l) s)
            | Client c => if socket_open c s then None else Some (set_tcp_pc (Accepted c) (open_socket c s))
            | Failed => Some (set_tcp_pc Ended s)
            | _ => None
            end
          else Some (set_tcp_pc Ended (add_fault (UseSocket l) s))
      end
  | Accepting l, Client c =>
      if socket_open c s then None else Some (set_tcp_pc (Accepted c) (open_socket c s))
  | Accepting l, Failed => Some (set_tcp_pc Ended s)
  | Accepted c, _ => Some (set_tcp_pc (AtConnected c) (set_client (Some c) s))
  | AtConnected c, _ => Some (set_tcp_pc (AtSession c) (set_tcp_connected true s))
  | AtSession c, _ => Some (set_tcp_pc (if m_running s then AtRecv c else AtLeave c) s)
  | AtRecv c, _ =>
      if socket_open c s then
        match a with
        | Pending => Some (set_tcp_pc (Receiving c) s)
        | Received n => Some (set_tcp_pc (AtReply c n) s)
        | Failed => Some (set_tcp_pc (AtLeave c) s)
        | _ => None
        end
      else Some (set_tcp_pc (AtLeave c) (add_fault (UseSocket c) s))
  | Receiving c, Received n => Some (set_tcp_pc (AtReply c n) s)
  | Receiving c, Failed => Some (set_tcp_pc (AtLeave c) s)
  | AtReply c O, _ => Some (set_tcp_pc (AtSession c) s)
  | AtReply c (S n), _ =>
      if socket_open c s then
        match a with
        | Pending => Some (set_tcp_pc (Sending c n) s)
        | Sent => Some (set_tcp_pc (AtReply c n) s)
        | _ => None
        end
      else Some (set_tcp_pc (AtReply c n) (add_fault (UseSocket c) s))
  | Sending c n, Sent => Some (set_tcp_pc (AtReply c n) s)
  | AtLeave c, _ => Some (set_tcp_pc (AtClear c) (set_tcp_connected false s))
  | AtClear c, _ =>
      Some (set_tcp_pc (AtClose c)
              (match m_clientSocket s with
               | Some c' => if c' =? c then set_client None s else s
               | None => s
               end))
  | AtClose c, _ => Some (set_tcp_pc AtLoop (closesocket c s))
  | _, _ => None
  end.

(** One step of [Stop]. *)
Definition stop_tcp (s : TcpState) : option TcpState :=
  match tcp_stop s with
  | NotStopping => if m_running s then Some (set_tcp_stop StopListen (set_tcp_running false s)) else None
  | StopListen =>
      Some (set_tcp_stop StopForget (match m_listenSocket s with Some l => closesocket l s | None => s end))
  | StopForget => Some (set_tcp_stop StopClient (set_listen None s))
  | StopClient =>
      Some (set_tcp_stop StopJoin
              (match m_clientSocket s with Some c => set_client None (closesocket c s) | None => s end))
  | StopJoin =>
      match tcp_pc s with
      | Ended | NoThread => Some (set_tcp_stop StopCleanup (set_tcp_pc NoThread s))
      | _ => None
      end
  | StopCleanup => Some (set_tcp_stop NotStopping (set_startups (startups s - 1) s))
  end.

(** What the system answers [Start]. *)
Record StartAnswers := mkStartAnswers {
  an_wsa : bool;
  an_socket : option Z;
  an_bind : bool;
  an_listen : bool
}.

(** [Start] is not called while a thread exists: assigning [m_thread] would
    end the process. *)
Definition Start (a : StartAnswers) (s : TcpState) : option (bool * TcpState) :=
  match tcp_pc s, tcp_stop s with
  | NoThread, NotStopping =>
      if negb (an_wsa a) then Some (false, s)
      else
        let s := set_startups (S (startups s)) s in
        match an_socket a with
        | None => Some (false, set_startups (startups s - 1) (set_listen None s))
        | Some l =>
            if socket_open l s then None
            else
              let s := set_listen (Some l) (open_socket l s) in
              if negb (an_bind a && an_listen a)
              then let s := closesocket l s in Some (false, set_startups (startups s - 1) s)
              else Some (true, set_tcp_pc AtLoop (set_tcp_running true s))
        end
  | _, _ => None
  end.

Definition IsConnected (s : TcpState) : bool := m_connected s.

Inductive TcpAct := ActStart (a : StartAnswers) | ActServe (a : TcpAnswer) | ActStop.

Definition tcp_act (a : TcpAct) (s : TcpState) : option TcpState :=
  match a with
  | ActStart b => match Start b s with Some (_, s) => Some s | None => None end
  | ActServe b => server_turn b s
  | ActStop => stop_tcp s
  end.

Fixpoint tcp_run (acts : list TcpAct) (s : TcpState) : option TcpState :=
  match acts with
  | [] => Some s
  | a :: acts' => match tcp_act a s with Some s' => tcp_run acts' s' | None => None end
  end.

Definition tcp_step (s s' : TcpState) : Prop := ∃ a, tcp_act a s = Some s'.
Definition tcp_reachable (s : TcpState) : Prop := rtc tcp_step TcpIpcServer_new s.

(** * The sockets *)

(** The client the thread serves, the one it has published, and the listening
    socket while it is open. *)
Definition client_of (pc : TcpPc) : option Z :=
  match pc with
  | NoThread | AtLoop | AtAccept | Accepting _ | Ended => None
  | Accepted c | AtConnected c | AtSession c | AtRecv c | Receiving c | AtReply c _ | Sending c _
  | AtLeave c | AtClear c | AtClose c => Some c
  end.

Definition published_client (pc : TcpPc) : option Z :=
  match pc with Accepted _ | AtClose _ => None | _ => client_of pc end.

Definition was_published (pc : TcpPc) : bool :=
  match pc with
  | AtConnected _ | AtSession _ | AtRecv _ | Receiving _ | AtReply _ _ | Sending _ _ | AtLeave _
  | AtClear _ | AtClose _ => true
  | _ => false
  end.

Definition listening (s : TcpState) : option Z :=
  match tcp_pc s, tcp_stop s with
  | NoThread, _ => None
  | _, (NotStopping | StopListen) => m_listenSocket s
  | _, _ => None
  end.

Definition in_session (pc : TcpPc) : bool :=
  match pc with
  | AtSession _ | AtRecv _ | Receiving _ | AtReply _ _ | Sending _ _ | AtLeave _ => true
  | _ => false
  end.

(** [b]: [Stop] has closed the client that the thread serves. *)
Record tcp_inv (b : bool) (s : TcpState) : Prop := {
  ti_open : open_sockets s =
              (if b then [] else option_list (client_of (tcp_pc s))) ++ option_list (listening s);
  ti_distinct : ∀ c l, client_of (tcp_pc s) = Some c → listening s = Some l → c ≠ l;
  ti_client : m_clientSocket s = if b then None else published_client (tcp_pc s);
  ti_closed : b = true → tcp_stop s = StopJoin ∧ was_published (tcp_pc s) = true;
  ti_listen : match tcp_pc s, tcp_stop s with
              | NoThread, _ => True
              | _, (NotStopping | StopListen | StopForget) => is_Some (m_listenSocket s)
              | _, _ => m_listenSocket s = None
              end;
  ti_pending : match tcp_pc s with
               | Accepting l => listening s = Some l
               | AtRecv _ | AtReply _ _ => b = false → tcp_stop s ≠ StopJoin
               | Receiving _ | Sending _ _ => tcp_stop s ≠ StopJoin
               | _ => True
               end;
  ti_running : match tcp_stop s with NotStopping => True | _ => m_running s = false end;
  ti_thread : match tcp_pc s with
              | NoThread => m_running s = false ∧ (tcp_stop s = NotStopping ∨ tcp_stop s = StopCleanup)
              | _ => tcp_stop s ≠ StopCleanup
              end;
  ti_startups : startups s = match tcp_pc s, tcp_stop s with
                             | NoThread, StopCleanup => 1
                             | NoThread, _ => 0
                             | _, _ => 1
                             end%nat;
  ti_connected : m_connected s = in_session (tcp_pc s)
}.

Lemma tcp_new_inv : tcp_inv false TcpIpcServer_new.
Proof. constructor; cbn; auto. discriminate. Qed.

(** Take a step apart. *)
Ltac tcp_cases :=
  repeat match goal with
  | H : Some _ = Some _ |- _ => injection H as <-
  | H : None = Some _ |- _ => discriminate H
  | H : context [if ?b then _ else _] |- _ => destruct b eqn:?
  | H : (match ?a with _ => _ end) = Some _ |- _ => destruct a eqn:?
  end.

Lemma existsb_eqb h l : existsb (Z.eqb h) l = true ↔ h ∈ l.
Proof.
  rewrite existsb_exists. setoid_rewrite list_elem_of_In. split.
  - by intros (x & Hx & ->%Z.eqb_eq).
  - intros Hh. exists h. by rewrite Z.eqb_refl.
Qed.

(** Whether a socket is open, and what closing one leaves, in a list of known
    sockets. *)
Ltac tcp_open :=
  unfold closesocket, socket_open in *; cbn in *;
  repeat match goal with
  | H : ∀ c l, Some ?a = Some c → Some ?b = Some l → c ≠ l |- _ =>
      pose proof (H a b eq_refl eq_refl); clear H
  | H : is_Some (Some _) |- _ => clear H
  | H : is_Some None |- _ => by destruct H
  | H : is_Some ?o |- _ => is_var o; destruct H as [? ->]; cbn in *
  | H : Some _ = Some _ |- _ => injection H as H; subst
  | H : Some _ = None |- _ => discriminate H
  | H : None = Some _ |- _ => discriminate H
  | H : context [?x =? ?x] |- _ => rewrite Z.eqb_refl in H; cbn in H
  | |- context [?x =? ?x] => rewrite Z.eqb_refl; cbn
  | N : ?x ≠ ?y |- context [?x =? ?y] => rewrite (proj2 (Z.eqb_neq x y) N); cbn
  | N : ?x ≠ ?y |- context [?y =? ?x] => rewrite (proj2 (Z.eqb_neq y x) (not_eq_sym N)); cbn
  | H : (?x =? ?y) || _ = false |- _ => apply orb_false_iff in H as [H ?]
  | H : (?x =? ?y) = false |- _ => apply Z.eqb_neq in H
  end.

Ltac tcp_done :=
  tcp_open; try done;
  try (constructor; cbn in *; intros; subst; try done; tcp_open; try done; try (by auto); try congruence;
       try (by split_and!; auto; congruence)).

Lemma server_turn_inv b a s s' :
  server_turn a s = Some s' → tcp_inv b s → ∃ b', tcp_inv b' s'.
Proof.
  intros Ht [Ho Hd Hc Hb Hl Hp Hr Hj Hs Hk].
  destruct s as [r k ls cs pc sp n oh fl]. unfold listening in *. cbn in *. subst.
  destruct b; [destruct (Hb eq_refl) as [-> Hb']|];
  destruct pc; try done; (try destruct sp); cbn in *; try done;
  unfold server_turn in Ht; cbn [tcp_pc m_running m_listenSocket m_clientSocket] in Ht; tcp_cases;
  (try (exists true; by tcp_done)); (try (exists false; by tcp_done)).
  all: exists false; destruct r; by tcp_done.
Qed.

Lemma stop_tcp_inv b s s' : stop_tcp s = Some s' → tcp_inv b s → ∃ b', tcp_inv b' s'.
Proof.
  intros Ht [Ho Hd Hc Hb Hl Hp Hr Hj Hs Hk].
  destruct s as [r k ls cs pc sp n oh fl]. unfold listening in *. cbn in *. subst.
  destruct b; [destruct (Hb eq_refl) as [-> Hb']|];
  destruct pc; try done; (try destruct sp); cbn in *; try done; (try by destruct Hj as [? [? | ?]]);
  unfold stop_tcp in Ht; cbn [tcp_stop tcp_pc m_running m_listenSocket m_clientSocket] in Ht; tcp_cases;
  (try (exists false; by tcp_done)); (try (exists true; by tcp_done)); by destruct Hj.
Qed.

Lemma Start_inv b a s r s' : Start a s = Some (r, s') → tcp_inv b s → tcp_inv false s'.
Proof.
  intros Ht [Ho Hd Hc Hb Hl Hp Hr Hj Hs Hk].
  destruct s as [rn k ls cs pc sp n oh fl]. unfold listening in *. cbn in *. subst.
  unfold Start in Ht. cbn [tcp_pc tcp_stop] in Ht. destruct pc, sp; try done.
  destruct b; [by destruct (Hb eq_refl)|]. destruct a as [[] [l|] bi li]; cbn in Ht; tcp_cases;
    cbn in *; by tcp_done.
Qed.

Lemma tcp_act_inv b a s s' : tcp_act a s = Some s' → tcp_inv b s → ∃ b', tcp_inv b' s'.
Proof.
  destruct a as [a|a|]; cbn; [|apply server_turn_inv|apply stop_tcp_inv].
  destruct (Start a s) as [[r s1]|] eqn:E; [|done]. intros [= <-] HI. exists false. by eapply Start_inv.
Qed.

Lemma tcp_reachable_inv s : tcp_reachable s → ∃ b, tcp_inv b s.
Proof.
  intros Hr. revert s Hr. apply (rtc_ind_r (λ s, ∃ b, tcp_inv b s)); [exists false; exact tcp_new_inv|].
  intros s s' _ (a & Ha) (b & HI). by eapply tcp_act_inv.
Qed.

(** * Faults *)

Lemma closesocket_faults h s : socket_open h s = true → socket_faults (closesocket h s) = socket_faults s.
Proof. unfold closesocket. by intros ->. Qed.

(** A call on a socket that is not open happens only while [Stop] forgets the
    listening socket or waits for the thread. *)
Lemma faults_while_stopping b a s s' :
  tcp_inv b s → tcp_act a s = Some s' → socket_faults s' ≠ socket_faults s →
  tcp_stop s = StopForget ∨ tcp_stop s = StopJoin.
Proof.
  intros [Ho Hd Hc Hb Hl Hp Hr Hj Hs Hk] Ha Hf.
  destruct s as [r k ls cs pc sp n oh fl]. unfold listening in *. cbn in *. subst.
  destruct b; [destruct (Hb eq_refl) as [-> Hb']; by right|].
  destruct sp; auto; exfalso; apply Hf; clear Hf; destruct pc; try done; cbn in *;
    (try by destruct Hj as [? [? | ?]]); destruct a as [[[] [l'|] bi li]|a|]; cbn in Ha;
    unfold server_turn, stop_tcp, Start in Ha; cbn in Ha; tcp_cases; by tcp_open.
Qed.

(** the TCP server neither loses nor misuses sockets while it runs.  In
    every reachable state, whatever Start, Stop, the thread and the clients do:
    a stopped server, and one whose start failed, holds no socket and no use of
    the socket library; a running one holds its listening socket and that of the
    client its thread serves, and nothing else; it is connected exactly
    during a client's session; and a call on a socket that is not open is made
    only while [Stop] is under way. *)
Theorem tcp_sockets_are_balanced s :
  tcp_reachable s →
  (tcp_pc s = NoThread → tcp_stop s = NotStopping →
     m_running s = false ∧ open_sockets s = [] ∧ startups s = 0%nat) ∧
  (m_running s = true →
     ∃ l, m_listenSocket s = Some l ∧ startups s = 1%nat ∧
          open_sockets s = option_list (client_of (tcp_pc s)) ++ [l]) ∧
  IsConnected s = in_session (tcp_pc s) ∧
  (∀ a s', tcp_act a s = Some s' → socket_faults s' ≠ socket_faults s →
     tcp_stop s = StopForget ∨ tcp_stop s = StopJoin).
Proof.
  intros [b HI]%tcp_reachable_inv. pose proof HI as [Ho _ _ Hb Hl _ Hr Hj Hs Hk]. split_and!; [..|exact Hk|].
  - intros Hp Hn. rewrite Hp, Hn in *. destruct Hj as [Hj _].
    split; [done|]. split; [|done]. rewrite Ho. unfold listening. rewrite Hp. by destruct b.
  - intros Hrun. destruct (tcp_stop s) eqn:Es; try congruence.
    destruct b; [by destruct (Hb eq_refl)|].
    destruct (tcp_pc s) eqn:Ep; [by destruct Hj; congruence|..]; destruct Hl as [sock Hl];
      exists sock; (split; [done|]); (split; [done|]); rewrite Ho; unfold listening; by rewrite Ep, Es, Hl.
  - intros a s' Ha Hf. by eapply faults_while_stopping.
Qed.

(** * Stopping *)

(** Every run from the state brings [Stop] to its end: none blocks, and none
    goes on for ever. *)
Inductive stops (s : TcpState) : Prop :=
| stopped : tcp_stop s = NotStopping → stops s
| stopping : (∃ s', tcp_step s s') → (∀ s', tcp_step s s' → stops s') → stops s.

Definition phase (pc : TcpPc) : nat :=
  match pc with
  | NoThread | Ended => 0
  | AtLoop => 1
  | AtClose _ => 2
  | AtClear _ => 3
  | AtLeave _ => 4
  | AtSession _ => 5
  | AtReply _ _ | Sending _ _ => 6
  | Receiving _ => 7
  | AtRecv _ => 8
  | AtConnected _ => 9
  | Accepted _ => 10
  | Accepting _ => 11
  | AtAccept => 12
  end.

Definition lines_left (pc : TcpPc) : nat :=
  match pc with AtReply _ n => 2 * n | Sending _ n => 2 * n + 1 | _ => 0 end.

Definition stop_rank (pc : TcpStop) : nat :=
  match pc with
  | NotStopping => 0 | StopCleanup => 1 | StopJoin => 2 | StopClient => 3 | StopForget => 4 | StopListen => 5
  end.

Definition work (s : TcpState) : nat := lines_left (tcp_pc s) + stop_rank (tcp_stop s).

Definition less_work (s' s : TcpState) : Prop :=
  (phase (tcp_pc s') < phase (tcp_pc s))%nat ∨
  (phase (tcp_pc s') = phase (tcp_pc s) ∧ (work s' < work s)%nat).

Lemma wake_less h pc :
  (phase (wake h pc) < phase pc)%nat ∨
  (phase (wake h pc) = phase pc ∧ (lines_left (wake h pc) <= lines_left pc)%nat).
Proof. destruct pc; cbn; try (destruct (_ =? _); cbn); lia. Qed.

Lemma closesocket_less h s :
  ((phase (tcp_pc (closesocket h s)) < phase (tcp_pc s))%nat ∨
   (phase (tcp_pc (closesocket h s)) = phase (tcp_pc s) ∧
    (lines_left (tcp_pc (closesocket h s)) <= lines_left (tcp_pc s))%nat)) ∧
  m_clientSocket (closesocket h s) = m_clientSocket s.
Proof.
  unfold closesocket. destruct (socket_open h s); (split; [|done]); [apply wake_less|by right].
Qed.

Lemma stop_tcp_less s s' : tcp_stop s ≠ NotStopping → stop_tcp s = Some s' → less_work s' s.
Proof.
  intros Hs Ht. unfold stop_tcp in Ht. unfold less_work, work. destruct (tcp_stop s) eqn:E; try done.
  - injection Ht as <-. destruct (m_listenSocket s) as [l|]; cbn; [|lia].
    destruct (closesocket_less l s) as [[?|[? ?]] _]; lia.
  - injection Ht as <-. cbn. lia.
  - injection Ht as <-. destruct (m_clientSocket s) as [c|]; cbn; [|lia].
    destruct (closesocket_less c s) as [[?|[? ?]] _]; lia.
  - destruct (tcp_pc s); try done; injection Ht as <-; cbn; lia.
  - injection Ht as <-. cbn. lia.
Qed.

Lemma server_turn_stop a s s' : server_turn a s = Some s' → tcp_stop s' = tcp_stop s.
Proof.
  intros Ht. unfold server_turn in Ht. tcp_cases; try done; cbn; unfold closesocket; by repeat case_match.
Qed.

Lemma server_turn_less a s s' : m_running s = false → server_turn a s = Some s' → less_work s' s.
Proof.
  intros Hr Ht. pose proof (server_turn_stop a s s' Ht) as Hs. unfold less_work, work. rewrite Hs.
  clear Hs. unfold server_turn in Ht. rewrite Hr in Ht.
  destruct (tcp_pc s) eqn:Ep; tcp_cases; cbn; try lia.
Qed.

(** While [Stop] is under way some step is possible. *)
Lemma stop_progress b s : tcp_inv b s → tcp_stop s ≠ NotStopping → ∃ s', tcp_step s s'.
Proof.
  intros [Ho Hd Hc Hb Hl Hp Hr Hj Hs Hk] Hn.
  destruct s as [r k ls cs pc sp n oh fl]. unfold listening, tcp_step in *. cbn in *. subst.
  destruct sp; try done; try (by eexists; exists ActStop).
  destruct pc; (try by destruct Hj as [? [? | ?]]); try (by eexists; exists ActStop);
    try (by eexists; exists (ActServe Failed)); cbn in *; try done.
  all: subst; try (by eexists; exists (ActServe Failed)).
  all: destruct b; [|by destruct Hp]; try destruct n; by eexists; exists (ActServe Failed).
  Unshelve. all: exact TcpIpcServer_new.
Qed.

Lemma stops_always b s : tcp_inv b s → stops s.
Proof.
  remember (phase (tcp_pc s)) as p eqn:Ep. revert b s Ep. induction (lt_wf p) as [p _ IHp]. intros b s ->.
  remember (work s) as w eqn:Ew. revert b s IHp Ew. induction (lt_wf w) as [w _ IHw]. intros b s IHp -> HI.
  destruct (decide (tcp_stop s = NotStopping)) as [E|E]; [by left|]. right; [by eapply stop_progress|].
  intros s' [a Ha]. destruct (tcp_act_inv b a s s' Ha HI) as [b' HI'].
  assert (Hr : m_running s = false) by (pose proof (ti_running _ _ HI) as H; by destruct (tcp_stop s)).
  assert (Hl : less_work s' s).
  { destruct a as [a|a|]; cbn in Ha.
    - unfold Start in Ha. destruct (tcp_pc s), (tcp_stop s); done.
    - by eapply server_turn_less.
    - by eapply stop_tcp_less. }
  destruct Hl as [Hl|[Hp Hw]]; [eapply IHp; [exact Hl|reflexivity|exact HI']|].
  eapply IHw; [exact Hw| |reflexivity|exact HI']. intros y Hy. rewrite Hp in Hy. intros b2 s2 ->.
  exact (IHp _ Hy b2 s2 eq_refl).
Qed.

(** [Stop] of the TCP server waits for nobody.  From every reachable state
    in which it is under way, whatever the thread was doing and however the
    client behaves, every run ends it after finitely many steps, and no run
    blocks: closing the two sockets ends whatever call the thread waits in. *)
Theorem tcp_stop_is_sure s : tcp_reachable s → stops s.
Proof. intros [b HI]%tcp_reachable_inv. by eapply stops_always. Qed.

(** * What goes wrong *)

(** [Stop] has closed the client of the thread, which will close it again. *)
Definition closed_again (c : Z) (s : TcpState) : Prop :=
  Closing c ∈ socket_faults s ∨
  (tcp_stop s = StopJoin ∧ client_of (tcp_pc s) = Some c ∧ (c ∉ open_sockets s) ∧ m_running s = false).

Lemma closesocket_keeps_faults h s f : f ∈ socket_faults s → f ∈ socket_faults (closesocket h s).
Proof. intros H. unfold closesocket. destruct (socket_open h s); [done|]. cbn. by right. Qed.

Lemma tcp_act_keeps_faults a s s' f :
  tcp_act a s = Some s' → f ∈ socket_faults s → f ∈ socket_faults s'.
Proof.
  intros Ha Hf. destruct a as [a|a|]; cbn in Ha.
  - destruct (Start a s) as [[r s1]|] eqn:E; [|done]. injection Ha as <-.
    unfold Start in E. repeat case_match; simplify_eq/=; try apply closesocket_keeps_faults; done.
  - unfold server_turn in Ha.
    tcp_cases; cbn; try apply closesocket_keeps_faults; try done; repeat case_match; try done; by right.
  - unfold stop_tcp in Ha. tcp_cases; cbn; repeat case_match; cbn; try apply closesocket_keeps_faults; done.
Qed.

Lemma not_open h s : socket_open h s = false ↔ h ∉ open_sockets s.
Proof. unfold socket_open. rewrite <- existsb_eqb. by destruct (existsb _ _). Qed.

Lemma closed_again_step c s s' : closed_again c s → tcp_step s s' → closed_again c s'.
Proof.
  intros [Hf|(Hs & Hc & Ho & Hr)] (a & Ha); [left; by eapply tcp_act_keeps_faults|].
  pose proof (proj2 (not_open c s) Ho) as Hno. destruct a as [a|a|]; cbn in Ha.
  - unfold Start in Ha. by rewrite Hs in Ha; destruct (tcp_pc s).
  - pose proof (server_turn_stop a s s' Ha) as Hs'. rewrite Hs in Hs'.
    unfold server_turn in Ha. rewrite Hr in Ha.
    destruct (tcp_pc s) eqn:Ep; try done; cbn in Hc; injection Hc as ->;
      rewrite ?Hno in Ha; tcp_cases; (try (right; by split_and!)).
    { right. destruct (m_clientSocket s) as [c'|]; [destruct (c' =? c)|]; by split_and!. }
    left. unfold closesocket. rewrite Hno. by left.
  - unfold stop_tcp in Ha. rewrite Hs in Ha. by destruct (tcp_pc s).
Qed.

Lemma client_is_closed_twice s s1 s' c :
  tcp_reachable s → tcp_stop s = StopClient → m_clientSocket s = Some c → stop_tcp s = Some s1 →
  rtc tcp_step s1 s' → tcp_stop s' ≠ StopJoin → Closing c ∈ socket_faults s'.
Proof.
  intros [b HI]%tcp_reachable_inv Hs Hc Hstop Hr Hn.
  assert (H1 : closed_again c s1).
  { right. pose proof HI as [Ho _ Hcl Hb _ _ Hrun _ _ _]. rewrite Hs in Hrun.
    destruct b; [destruct (Hb eq_refl); congruence|]. unfold stop_tcp in Hstop. rewrite Hs, Hc in Hstop.
    injection Hstop as <-. rewrite Hc in Hcl.
    assert (Hown : client_of (tcp_pc s) = Some c) by (by destruct (tcp_pc s)).
    unfold listening in Ho. rewrite Hown, Hs in Ho.
    unfold closesocket, socket_open. destruct (tcp_pc s) eqn:Ep; try done; rewrite Ho; cbn in *;
      injection Hown as ->; rewrite ?Z.eqb_refl; cbn; rewrite ?Ep; cbn; rewrite ?Z.eqb_refl;
      split_and!; try done; apply not_elem_of_nil. }
  assert (H2 : closed_again c s').
  { revert s' Hr Hn. intros s' Hr _. revert s' Hr. apply (rtc_ind_r (closed_again c)); [done|].
    intros x y _ Hxy Hx. by eapply closed_again_step. }
  destruct H2 as [?|(? & _)]; done.
Qed.

(** Runs in which [Stop] is not called. *)
Definition unstopped (s s' : TcpState) : Prop := ∃ a, a ≠ ActStop ∧ tcp_act a s = Some s'.

Definition start_on (l : Z) : StartAnswers := mkStartAnswers true (Some l) true true.

(** One call of accept fails. *)
Definition failed_accept : list TcpAct := [ActStart (start_on 1); ActServe Failed; ActServe Failed].

(** A client is connected and silent, and [Stop] has closed the listening socket. *)
Definition stopped_with_a_client : list TcpAct :=
  [ActStart (start_on 1); ActServe Failed; ActServe (Client 2); ActServe Failed; ActServe Failed;
   ActServe Failed; ActServe Pending; ActStop; ActStop; ActStop].

(** [Stop] closes the listening socket between the test of [m_running] and accept. *)
Definition late_accept : list TcpAct :=
  [ActStart (start_on 1); ActServe Failed; ActStop; ActStop; ActServe Failed].

Lemma tcp_run_steps acts s s' : tcp_run acts s = Some s' → rtc tcp_step s s'.
Proof.
  revert s. induction acts as [|a acts IH]; intros s; cbn; [intros [= <-]; apply rtc_refl|].
  destruct (tcp_act a s) as [s1|] eqn:E; [|done]. intros H. eapply rtc_l; [by exists a|by apply IH].
Qed.

Lemma tcp_reached acts s : tcp_run acts TcpIpcServer_new = Some s → tcp_reachable s.
Proof. apply tcp_run_steps. Qed.

Lemma ended_stays s s' :
  m_running s = true → tcp_pc s = Ended → tcp_stop s = NotStopping → rtc unstopped s s' → s' = s.
Proof.
  intros Hr Hp Hs H. revert s' H. apply (rtc_ind_r (λ s', s' = s)); [done|].
  intros x y _ (a & Hna & Ha) ->. destruct a as [a|a|]; [| |done]; cbn in Ha.
  - unfold Start in Ha. by rewrite Hp in Ha.
  - unfold server_turn in Ha. by rewrite Hp in Ha.
Qed.

(** three things go wrong.  A client that is being served when
    [Stop] closes its socket is closed again by the thread, in every run in
    which [Stop] ends, when the socket's value may belong to another one; the
    thread may accept on the listening socket after [Stop] has closed it; and
    one failure of accept ends the thread for good: the server counts as
    running, keeps its listening socket and never serves a client again,
    unless it is stopped. *)
Theorem tcp_server_misbehaves :
  (∀ s s1 s' c, tcp_reachable s → tcp_stop s = StopClient → m_clientSocket s = Some c →
     stop_tcp s = Some s1 → rtc tcp_step s1 s' → tcp_stop s' = NotStopping →
     Closing c ∈ socket_faults s') ∧
  (∃ s l, tcp_reachable s ∧ socket_faults s = [UseSocket l]) ∧
  (∃ s l, tcp_reachable s ∧ m_running s = true ∧ open_sockets s = [l] ∧
     ∀ s', rtc unstopped s s' → tcp_pc s' = Ended ∧ m_running s' = true ∧ IsConnected s' = false).
Proof.
  split; [|split].
  - intros s s1 s' c Hr Hs Hc H1 H2 Hn. eapply client_is_closed_twice; try done. by rewrite Hn.
  - destruct (tcp_run late_accept TcpIpcServer_new) as [s|] eqn:E; [|done]. exists s, 1.
    split; [by apply (tcp_reached late_accept)|]. vm_compute in E. by injection E as <-.
  - destruct (tcp_run failed_accept TcpIpcServer_new) as [s|] eqn:E; [|done]. exists s, 1.
    split; [by apply (tcp_reached failed_accept)|]. vm_compute in E. injection E as <-.
    split; [done|]. split; [done|]. intros s' H. by apply ended_stays in H as ->.
Qed.

(** * Concrete runs *)

Definition stopped_state : TcpState := default TcpIpcServer_new (tcp_run stopped_with_a_client TcpIpcServer_new).

(** The thread leaves its session, closes its client and ends; [Stop] joins it. *)
Definition stop_finishes : list TcpAct :=
  [ActServe Failed; ActServe Failed; ActServe Failed; ActServe Failed; ActStop; ActStop].

Definition after_client : TcpState := default TcpIpcServer_new (tcp_act ActStop stopped_state).
Definition after_stop : TcpState := default TcpIpcServer_new (tcp_run stop_finishes after_client).

Example stop_closes_the_client_twice :
  socket_faults after_stop = [Closing 2] ∧ open_sockets after_stop = [] ∧ tcp_stop after_stop = NotStopping.
Proof. by vm_compute. Qed.

Lemma stopped_state_reachable : tcp_reachable stopped_state.
Proof. apply (tcp_reached stopped_with_a_client). vm_compute. reflexivity. Qed.

Lemma tcp_sockets_are_balanced_witness :
  tcp_pc after_stop = NoThread ∧ open_sockets after_stop = [] ∧ startups after_stop = 0%nat.
Proof.
  split; [vm_compute; reflexivity|]. apply (tcp_sockets_are_balanced after_stop).
  - apply (tcp_reached (stopped_with_a_client ++ [ActStop] ++ stop_finishes)). vm_compute. reflexivity.
  - vm_compute. reflexivity.
  - vm_compute. reflexivity.
Defined.

Lemma tcp_stop_is_sure_witness : tcp_stop stopped_state = StopClient ∧ stops stopped_state.
Proof.
  split; [vm_compute; reflexivity|]. apply (tcp_stop_is_sure stopped_state stopped_state_reachable).
Defined.

Lemma tcp_server_misbehaves_witness : Closing 2 ∈ socket_faults after_stop.
Proof.
  apply (proj1 tcp_server_misbehaves stopped_state after_client after_stop 2 stopped_state_reachable).
  - vm_compute. reflexivity.
  - vm_compute. reflexivity.
  - vm_compute. reflexivity.
  - apply (tcp_run_steps stop_finishes). vm_compute. reflexivity.
  - vm_compute. reflexivity.
Defined.
