(* ===== verification/Logger.v ===== *)
(** [infrastructure/logging/Logger.h/.cpp]: the asynchronous logger.

    [Log] appends to a queue; the writer thread takes the whole queue at a
    time, prints each entry, writes it to the file, passes it to the callback
    and to the listeners and stores it in a ring buffer from which the user
    interface reads the latest entries.  What the outputs have received is part
    of the state.  The threads are interleaved by a step function over the
    actions of each; the outputs of one entry are one action of the writer.  The
    clock and the colours of the console are left out; times are in
    milliseconds; the text of an entry's time, and what the file operations
    answer, are parameters. *)

From S2P Require Import Prelude.
From S2P Require Import Text.
From S2P Require Import Entities.

(** * The ring buffer *)

Definition RING_BUFFER_SIZE : Z := 2000.

Record Ring := mkRing { m_ringBuffer : list LogEntry; m_ringIndex : Z }.

Definition Ring_new : Ring :=
  mkRing (replicate (Z.to_nat RING_BUFFER_SIZE) LogEntry_default) 0.

(** [m_ringIndex.fetch_add(1)], and the store under the lock. *)
Definition ring_reserve (r : Ring) : Z * Ring :=
  (m_ringIndex r mod RING_BUFFER_SIZE, mkRing (m_ringBuffer r) (m_ringIndex r +u64 1)).
Definition ring_store (idx : Z) (e : LogEntry) (r : Ring) : Ring :=
  mkRing (<[Z.to_nat idx := e]> (m_ringBuffer r)) (m_ringIndex r).

Definition AddToRingBuffer (e : LogEntry) (r : Ring) : Ring :=
  let '(idx, r) := ring_reserve r in ring_store idx e r.

Definition ring_at (r : Ring) (i : Z) : LogEntry := nth (Z.to_nat i) (m_ringBuffer r) LogEntry_default.

(** [for (count = 0; count < max_count; count++) { ...; i = (i + 1) % N; }] *)
Fixpoint collect (count : nat) (i : Z) (r : Ring) : list LogEntry :=
  match count with
  | O => []
  | S count' => ring_at r i :: collect count' ((i + 1) mod RING_BUFFER_SIZE) r
  end.

Definition GetRecentEntries (max_count : Z) (r : Ring) : list LogEntry :=
  let idx := m_ringIndex r in
  let total := if idx <? RING_BUFFER_SIZE then idx else RING_BUFFER_SIZE in
  if total =? 0 then []
  else if idx <? RING_BUFFER_SIZE then
    let start := if max_count <? total then total - max_count else 0 in
    ring_at r <$> seqZ start (total - start)
  else
    let wrap := idx mod RING_BUFFER_SIZE in
    if total <=? max_count then
      (ring_at r <$> seqZ wrap (RING_BUFFER_SIZE - wrap)) ++ (ring_at r <$> seqZ 0 wrap)
    else
      let skip := total - max_count in
      collect (Z.to_nat max_count) ((wrap + skip) mod RING_BUFFER_SIZE) r.

(** * Lines *)

Definition level_text (l : LogLevel) : text :=
  match l with
  | LTrace => lit "TRACE" | LDebug => lit "DEBUG" | LInfo => lit "INFO "
  | LWarn => lit "WARN " | LError => lit "ERROR" | _ => lit "?????"
  end.

(** [%-12s] and [%03d]. *)
Definition pad_right (n : nat) (s : text) : text := s ++ repeat 32 (n - length s).
Definition pad_zero (n : nat) (s : text) : text := repeat 48 (n - length s) ++ s.

(** [snprintf] into 4096 bytes. *)
Definition FormatLogMessage (localtime : Z → text) (e : LogEntry) : text :=
  let head := lit "[" ++ cstr (localtime (le_timestamp e)) ++ lit "."
              ++ pad_zero 3 (to_string (Z.rem (le_timestamp e) 1000)) ++ lit "] [" ++ level_text (le_level e)
              ++ lit "] [" ++ pad_right 12 (cstr (le_logger e)) ++ lit "] " ++ cstr (le_message e) in
  let tail := match le_file e with
              | [] => []
              | f => lit "  (" ++ cstr f ++ lit ":" ++ to_string (le_line e) ++ lit ")"
              end in
  firstn (Z.to_nat 4095) (head ++ tail).

(** * Log files *)

Record LogFiles := mkLogFiles {
  m_file : bool;                         (* a FILE is open *)
  lf_current : option (list text);       (* tcp_redirector.log *)
  lf_numbered : gmap Z (list text)       (* tcp_redirector.<i>.log *)
}.

(** The file operations of one rotation. *)
Record RotateOs := mkRotateOs {
  ro_remove : bool;
  ro_rename : Z → bool;                  (* to the file of that number *)
  ro_open : bool
}.

Definition OpenLogFile (ok : bool) (f : LogFiles) : LogFiles :=
  if ok then mkLogFiles true (Some (default [] (lf_current f))) (lf_numbered f)
  else mkLogFiles false (lf_current f) (lf_numbered f).

(** [for (i = m_maxFiles - 1; i > 0; --i)] *)
Fixpoint shift_files (i : nat) (os : RotateOs) (m : gmap Z (list text)) : gmap Z (list text) :=
  match i with
  | O => m
  | S i' =>
      shift_files i' os
        (match m !! Z.of_nat i' with
         | Some l => if ro_rename os (Z.of_nat i) then <[Z.of_nat i := l]> (delete (Z.of_nat i') m) else m
         | None => m
         end)
  end.

Definition RotateLogFile (maxFiles : Z) (os : RotateOs) (f : LogFiles) : LogFiles :=
  let last := maxFiles -u64 1 in
  let m := if ro_remove os then delete last (lf_numbered f) else lf_numbered f in
  let m := shift_files (Z.to_nat last) os m in
  let '(current, m) :=
    match lf_current f with
    | Some l => if ro_rename os 1 then (None, <[1 := l]> m) else (Some l, m)
    | None => (None, m)
    end in
  OpenLogFile (ro_open os) (mkLogFiles false current m).

(** What [ftell] says of the open file: in text mode a line feed is two bytes. *)
Definition file_size (ls : list text) : Z :=
  fold_right (λ l n, Z.of_nat (length l + length (filterb (Z.eqb 10) l)) + 2 + n) 0 ls.

Definition write_line (maxFileSize maxFiles : Z) (os : RotateOs) (line : text) (f : LogFiles) : LogFiles :=
  if m_file f then
    let ls := default [] (lf_current f) ++ [line] in
    let f := mkLogFiles true (Some ls) (lf_numbered f) in
    if (0 <? file_size ls) && (maxFileSize <=? file_size ls) then RotateLogFile maxFiles os f else f
  else f.

(** * The outputs that are functions *)

Record Sinks := mkSinks {
  lo_console : list text;                (* the lines printed *)
  m_logCallback : bool;                  (* a callback is set *)
  lo_pushed : list LogEntry;             (* what callbacks were called with *)
  m_listeners : gmap Z (option (list LogEntry));   (* none for an empty function *)
  m_nextListenerId : Z
}.

Definition Sinks_new : Sinks := mkSinks [] false [] ∅ 1.

(** [console]: there is a console handle. *)
Definition WriteColorConsole (localtime : Z → text) (console : bool) (e : LogEntry) (k : Sinks) : Sinks :=
  if console then
    mkSinks (lo_console k ++ [FormatLogMessage localtime e]) (m_logCallback k) (lo_pushed k) (m_listeners k)
      (m_nextListenerId k)
  else k.

Definition call_back (e : LogEntry) (k : Sinks) : Sinks :=
  if m_logCallback k then
    mkSinks (lo_console k) true (lo_pushed k ++ [e]) (m_listeners k) (m_nextListenerId k)
  else k.

Definition NotifyListeners (e : LogEntry) (k : Sinks) : Sinks :=
  mkSinks (lo_console k) (m_logCallback k) (lo_pushed k)
    (option_map (λ l, l ++ [e]) <$> m_listeners k) (m_nextListenerId k).

Definition SetOnLogEntry (set : bool) (k : Sinks) : Sinks :=
  mkSinks (lo_console k) set (lo_pushed k) (m_listeners k) (m_nextListenerId k).

Definition RegisterListener (callable : bool) (k : Sinks) : Z * Sinks :=
  (m_nextListenerId k,
   mkSinks (lo_console k) (m_logCallback k) (lo_pushed k)
     (<[m_nextListenerId k := if callable then Some [] else None]> (m_listeners k)) (m_nextListenerId k +u64 1)).

Definition UnregisterListener (id : Z) (k : Sinks) : Sinks :=
  mkSinks (lo_console k) (m_logCallback k) (lo_pushed k) (delete id (m_listeners k)) (m_nextListenerId k).

(** * The logger and its threads *)

(** Where the writer thread stands. *)
Inductive WriterPc :=
| AtLoop                              (* while (m_running) *)
| AtWait                              (* m_asyncQueue.cv.wait *)
| AtBatch (batch : list LogEntry)
| AtFlush
| Finished.

Record Logger := mkLogger {
  m_running : bool;
  m_currentLevel : LogLevel;
  m_queue : list LogEntry;
  m_writer : WriterPc;
  m_files : LogFiles;
  m_maxFileSize : Z;
  m_maxFiles : Z;
  m_ring : Ring;
  m_sinks : Sinks;
  lo_accepted : list LogEntry         (* every entry Log has queued *)
}.

Definition set_writer (pc : WriterPc) (s : Logger) : Logger :=
  mkLogger (m_running s) (m_currentLevel s) (m_queue s) pc (m_files s) (m_maxFileSize s) (m_maxFiles s)
    (m_ring s) (m_sinks s) (lo_accepted s).
Definition set_running (b : bool) (s : Logger) : Logger :=
  mkLogger b (m_currentLevel s) (m_queue s) (m_writer s) (m_files s) (m_maxFileSize s) (m_maxFiles s)
    (m_ring s) (m_sinks s) (lo_accepted s).
Definition set_files (f : LogFiles) (s : Logger) : Logger :=
  mkLogger (m_running s) (m_currentLevel s) (m_queue s) (m_writer s) f (m_maxFileSize s) (m_maxFiles s)
    (m_ring s) (m_sinks s) (lo_accepted s).
Definition set_queue (q : list LogEntry) (s : Logger) : Logger :=
  mkLogger (m_running s) (m_currentLevel s) q (m_writer s) (m_files s) (m_maxFileSize s) (m_maxFiles s)
    (m_ring s) (m_sinks s) (lo_accepted s).
Definition set_ring (r : Ring) (s : Logger) : Logger :=
  mkLogger (m_running s) (m_currentLevel s) (m_queue s) (m_writer s) (m_files s) (m_maxFileSize s)
    (m_maxFiles s) r (m_sinks s) (lo_accepted s).
Definition set_sinks (k : Sinks) (s : Logger) : Logger :=
  mkLogger (m_running s) (m_currentLevel s) (m_queue s) (m_writer s) (m_files s) (m_maxFileSize s)
    (m_maxFiles s) (m_ring s) k (lo_accepted s).

Definition SetLevel (level : LogLevel) (s : Logger) : Logger :=
  mkLogger (m_running s) level (m_queue s) (m_writer s) (m_files s) (m_maxFileSize s) (m_maxFiles s)
    (m_ring s) (m_sinks s) (lo_accepted s).

Definition GetLevel (s : Logger) : LogLevel := m_currentLevel s.

(** The writer thread starts at once; no file is not an error. *)
Definition Initialize (mkdir open : bool) (level : LogLevel) (max_file_size_mb max_files : Z) (files : LogFiles) : Logger :=
  mkLogger true level [] AtLoop (if mkdir then OpenLogFile open files else files)
    (wrap 64 (max_file_size_mb * 1048576)) max_files Ring_new Sinks_new [].

Definition Log (e : LogEntry) (s : Logger) : Logger :=
  if LogLevel_to_int (le_level e) <? LogLevel_to_int (m_currentLevel s) then s
  else
    mkLogger (m_running s) (m_currentLevel s) (m_queue s ++ [e]) (m_writer s) (m_files s) (m_maxFileSize s)
      (m_maxFiles s) (m_ring s) (m_sinks s) (lo_accepted s ++ [e]).

(** One entry of a batch: console, file, callback, listeners, ring buffer. *)
Definition write_entry (localtime : Z → text) (console : bool) (os : RotateOs) (e : LogEntry) (s : Logger) : Logger :=
  let s := set_sinks (WriteColorConsole localtime console e (m_sinks s)) s in
  let s := set_files (write_line (m_maxFileSize s) (m_maxFiles s) os (FormatLogMessage localtime e) (m_files s)) s in
  let s := set_sinks (call_back e (m_sinks s)) s in
  let s := set_sinks (NotifyListeners e (m_sinks s)) s in
  set_ring (AddToRingBuffer e (m_ring s)) s.

(** The log callback of the rotator: no file and no callback. *)
Definition rotator_log (localtime : Z → text) (console : bool) (e : LogEntry) (s : Logger) : Logger :=
  let s := set_sinks (WriteColorConsole localtime console e (m_sinks s)) s in
  let s := set_ring (AddToRingBuffer e (m_ring s)) s in
  set_sinks (NotifyListeners e (m_sinks s)) s.

(** The next action of [WriterThread]; [None] where it is blocked or over. *)
Definition writer_turn (localtime : Z → text) (console : bool) (os : RotateOs) (s : Logger) : option Logger :=
  match m_writer s with
  | AtLoop => Some (set_writer (if m_running s then AtWait else AtFlush) s)
  | AtWait =>
      match m_queue s, m_running s with
      | [], true => None
      | [], false => Some (set_writer AtFlush s)
      | q, _ => Some (set_queue [] (set_writer (AtBatch q) s))
      end
  | AtBatch [] => Some (set_writer AtLoop s)
  | AtBatch (e :: batch) => Some (set_writer (AtBatch batch) (write_entry localtime console os e s))
  | AtFlush => Some (set_writer Finished s)
  | Finished => None
  end.

Definition writer_done (pc : WriterPc) : bool := match pc with Finished => true | _ => false end.

Definition close_file (f : LogFiles) : LogFiles := mkLogFiles false (lf_current f) (lf_numbered f).

(** What the threads around the logger do.  [Shutdown] clears the flag, and
    closes the file after it joined the writer; the rotator, which [Shutdown]
    does not stop, closes and reopens the file and logs its own entries. *)
Inductive LogAction :=
| ActLog (e : LogEntry)
| ActSetLevel (l : LogLevel)
| ActSetOnLogEntry (set : bool)
| ActRegister (callable : bool)
| ActUnregister (id : Z)
| ActWriter (console : bool) (os : RotateOs)
| ActStop
| ActJoined
| ActCloseFile
| ActOpenFile (ok : bool)
| ActRotatorLog (console : bool) (e : LogEntry).

Definition log_step (localtime : Z → text) (a : LogAction) (s : Logger) : option Logger :=
  match a with
  | ActLog e => Some (Log e s)
  | ActSetLevel l => Some (SetLevel l s)
  | ActSetOnLogEntry set => Some (set_sinks (SetOnLogEntry set (m_sinks s)) s)
  | ActRegister callable => Some (set_sinks (snd (RegisterListener callable (m_sinks s))) s)
  | ActUnregister id => Some (set_sinks (UnregisterListener id (m_sinks s)) s)
  | ActWriter console os => writer_turn localtime console os s
  | ActStop => Some (set_running false s)
  | ActJoined =>
      if writer_done (m_writer s) && negb (m_running s) then Some (set_files (close_file (m_files s)) s) else None
  | ActCloseFile => Some (set_files (close_file (m_files s)) s)
  | ActOpenFile ok => Some (set_files (OpenLogFile ok (m_files s)) s)
  | ActRotatorLog console e => Some (rotator_log localtime console e s)
  end.

Fixpoint log_run (localtime : Z → text) (acts : list LogAction) (s : Logger) : option Logger :=
  match acts with
  | [] => Some s
  | a :: acts' => match log_step localtime a s with Some s' => log_run localtime acts' s' | None => None end
  end.

(** [Shutdown] as its caller sees it: the writer has ended and the file is
    closed.  What the writer does until it ends is in [log_step]. *)
Definition Shutdown (s : Logger) : Logger :=
  set_files (close_file (m_files s)) (set_writer Finished (set_running false s)).

Lemma joined_is_shut_down localtime s s' :
  log_step localtime ActJoined s = Some s' → s' = Shutdown s.
Proof.
  unfold Shutdown. destruct s as [[] lv q [] f sz n r k a]; cbn; try done. by intros [= <-].
Qed.

(** * The latest entries *)

Definition add_entries (l : list LogEntry) (r : Ring) : Ring := foldl (λ r e, AddToRingBuffer e r) r l.

Record ring_holds (l : list LogEntry) (r : Ring) : Prop := {
  rh_length : length (m_ringBuffer r) = Z.to_nat RING_BUFFER_SIZE;
  rh_index : m_ringIndex r = Z.of_nat (length l);
  rh_window : ∀ k, 0 <= k < Z.of_nat (length l) → Z.of_nat (length l) <= k + RING_BUFFER_SIZE →
    ring_at r (k mod RING_BUFFER_SIZE) = nth (Z.to_nat k) l LogEntry_default
}.

Lemma ring_at_store idx e r i :
  0 <= idx < RING_BUFFER_SIZE → 0 <= i → length (m_ringBuffer r) = Z.to_nat RING_BUFFER_SIZE →
  ring_at (ring_store idx e r) i = if i =? idx then e else ring_at r i.
Proof.
  intros Hidx Hi Hlen. unfold ring_at, ring_store. cbn [m_ringBuffer]. rewrite !nth_lookup.
  destruct (Z.eqb_spec i idx) as [->|Hne].
  - rewrite list_lookup_insert_eq; [done|]. rewrite Hlen. lia.
  - rewrite list_lookup_insert_ne; [done|]. lia.
Qed.

(** Two positions less than a period apart have different remainders. *)
Lemma mod_apart a b n : 0 < n → a < b → b < a + n → a mod n ≠ b mod n.
Proof.
  intros Hn H1 H2 E. pose proof (Z_div_mod_eq_full a n) as Ha. pose proof (Z_div_mod_eq_full b n) as Hb.
  rewrite E in Ha. revert Ha Hb. generalize (a / n), (b / n), (b mod n). intros x y m -> ->.
  clear E. assert (0 < y - x) by nia. nia.
Qed.

Lemma ring_holds_add l e r :
  ring_holds l r → Z.of_nat (length l) < 2 ^ 64 - 1 → ring_holds (l ++ [e]) (AddToRingBuffer e r).
Proof.
  intros [Hlen Hidx Hw] Hmax.
  assert (HN : 0 < RING_BUFFER_SIZE) by done.
  pose proof (Z.mod_pos_bound (Z.of_nat (length l)) _ HN) as Hmod.
  constructor.
  - cbn. by rewrite length_insert.
  - cbn. rewrite Hidx, length_app. cbn [length]. rewrite wrap_small by (unfold in_u; lia). lia.
  - intros k Hk Hk2. rewrite length_app in Hk, Hk2. cbn [length] in Hk, Hk2.
    unfold AddToRingBuffer, ring_reserve. rewrite ring_at_store by (cbn; rewrite ?Hidx; first [done | apply Z.mod_pos_bound; lia]).
    rewrite Hidx. destruct (decide (k = Z.of_nat (length l))) as [->|Hne].
    + rewrite Z.eqb_refl, Nat2Z.id, app_nth2, Nat.sub_diag by lia. done.
    + rewrite (proj2 (Z.eqb_neq _ _)) by (apply mod_apart; lia).
      rewrite app_nth1 by lia. apply Hw; lia.
Qed.

Lemma ring_holds_all l : Z.of_nat (length l) < 2 ^ 64 → ring_holds l (add_entries l Ring_new).
Proof.
  unfold add_entries. induction l as [|e l IH] using rev_ind; intros Hmax.
  - constructor; [|done|cbn; lia]. cbn [m_ringBuffer Ring_new foldl]. apply length_replicate.
  - rewrite length_app in Hmax. cbn [length] in Hmax. rewrite foldl_snoc.
    apply ring_holds_add; [apply IH|]; lia.
Qed.

Lemma seqZ_shift {A} (f g : Z → A) a b n :
  (∀ i, 0 <= i < n → f (a + i) = g (b + i)) → f <$> seqZ a n = g <$> seqZ b n.
Proof.
  intros H. apply list_eq. intros i. rewrite !list_lookup_fmap.
  destruct (decide (Z.of_nat i < n)) as [Hi|Hi].
  - rewrite !lookup_seqZ_lt by done. cbn. f_equal. apply H. lia.
  - by rewrite !lookup_seqZ_ge by lia.
Qed.

(** The entries with the numbers from [a] on. *)
Lemma seqZ_nth l a :
  0 <= a → (λ k, nth (Z.to_nat k) l LogEntry_default) <$> seqZ a (Z.of_nat (length l) - a) = drop (Z.to_nat a) l.
Proof.
  intros Ha. apply list_eq. intros i. rewrite list_lookup_fmap, lookup_drop.
  destruct (decide (Z.of_nat i < Z.of_nat (length l) - a)) as [Hi|Hi].
  - rewrite lookup_seqZ_lt by done. cbn. rewrite nth_lookup.
    replace (Z.to_nat (a + Z.of_nat i)) with (Z.to_nat a + i)%nat by lia.
    destruct (lookup_lt_is_Some_2 l (Z.to_nat a + i)) as [x Hx]; [lia|]. by rewrite Hx.
  - rewrite lookup_seqZ_ge by lia. symmetry. apply lookup_ge_None. lia.
Qed.

Lemma collect_seqZ r c i :
  collect c (i mod RING_BUFFER_SIZE) r =
  (λ k, ring_at r (k mod RING_BUFFER_SIZE)) <$> seqZ i (Z.of_nat c).
Proof.
  revert i. induction c as [|c IH]; intros i; [done|].
  cbn [collect]. rewrite Zplus_mod_idemp_l, IH, (seqZ_cons i) by lia. cbn [fmap list_fmap].
  by replace (Z.pred (Z.of_nat (S c))) with (Z.of_nat c) by lia.
Qed.

(** the user interface reads the latest entries.  After any sequence of
    fewer than 2^64 entries, a request for [n] gets the last [n] of them, or
    the last 2000 if fewer are kept, oldest first. *)
Theorem recent_entries_are_the_latest l n :
  Z.of_nat (length l) < 2 ^ 64 → 0 <= n →
  GetRecentEntries n (add_entries l Ring_new) =
    drop (length l - Z.to_nat (n `min` RING_BUFFER_SIZE)) l.
Proof.
  intros Hmax Hn. destruct (ring_holds_all l Hmax) as [_ Hidx Hw].
  set (r := add_entries l Ring_new) in *. clearbody r.
  assert (Hwin : ∀ a, 0 <= a <= Z.of_nat (length l) → Z.of_nat (length l) <= a + RING_BUFFER_SIZE →
    (λ k, ring_at r (k mod RING_BUFFER_SIZE)) <$> seqZ a (Z.of_nat (length l) - a) = drop (Z.to_nat a) l).
  { intros a Ha1 Ha2. rewrite <- seqZ_nth by lia. apply seqZ_shift. intros i Hi. apply Hw; lia. }
  unfold GetRecentEntries. rewrite Hidx.
  assert (HN : RING_BUFFER_SIZE = 2000) by done.
  destruct (Z.ltb_spec (Z.of_nat (length l)) RING_BUFFER_SIZE) as [Hlt|Hge].
  - destruct (Z.eqb_spec (Z.of_nat (length l)) 0) as [H0|H0].
    { destruct l; [|done]. by rewrite drop_nil. }
    replace (length l - Z.to_nat (n `min` RING_BUFFER_SIZE))%nat
      with (Z.to_nat (if n <? Z.of_nat (length l) then Z.of_nat (length l) - n else 0))
      by (destruct (Z.ltb_spec n (Z.of_nat (length l))); lia).
    rewrite <- Hwin by (destruct (Z.ltb_spec n (Z.of_nat (length l))); lia).
    apply seqZ_shift. intros i Hi. f_equal. symmetry. apply Z.mod_small.
    destruct (Z.ltb_spec n (Z.of_nat (length l))); lia.
  - rewrite (proj2 (Z.eqb_neq RING_BUFFER_SIZE 0)) by done.
    destruct (Z.leb_spec RING_BUFFER_SIZE n) as [Hall|Hsome].
    + replace (length l - Z.to_nat (n `min` RING_BUFFER_SIZE))%nat
        with (Z.to_nat (Z.of_nat (length l) - RING_BUFFER_SIZE)) by lia.
      rewrite <- Hwin by lia.
      set (w := Z.of_nat (length l) mod RING_BUFFER_SIZE).
      assert (Hw' : 0 <= w < RING_BUFFER_SIZE) by (apply Z.mod_pos_bound; done).
      assert (Hd : Z.of_nat (length l) = RING_BUFFER_SIZE * (Z.of_nat (length l) / RING_BUFFER_SIZE) + w)
        by (apply Z.div_mod; done).
      set (q := Z.of_nat (length l) / RING_BUFFER_SIZE) in *.
      replace (Z.of_nat (length l) - (Z.of_nat (length l) - RING_BUFFER_SIZE))
        with ((RING_BUFFER_SIZE - w) + w) by lia.
      rewrite seqZ_app, fmap_app by lia. f_equal; apply seqZ_shift; intros i Hi; f_equal.
      * apply Z.mod_unique_pos with (q - 1); lia.
      * apply Z.mod_unique_pos with q; lia.
    + replace (length l - Z.to_nat (n `min` RING_BUFFER_SIZE))%nat
        with (Z.to_nat (Z.of_nat (length l) - n)) by lia.
      rewrite <- Hwin by lia. rewrite Zplus_mod_idemp_l.
      replace (Z.of_nat (length l) + (RING_BUFFER_SIZE - n))
        with (Z.of_nat (length l) - n + 1 * RING_BUFFER_SIZE) by lia.
      rewrite Z.mod_add by done. rewrite collect_seqZ.
      by replace (Z.of_nat (Z.to_nat n)) with (Z.of_nat (length l) - (Z.of_nat (length l) - n)) by lia.
Qed.

(** * Rotation *)

Definition rotate_ok : RotateOs := mkRotateOs true (λ _, true) true.

Lemma shift_lookup n m j :
  m !! Z.of_nat n = None →
  shift_files n rotate_ok m !! j =
    if (1 <=? j) && (j <=? Z.of_nat n) then m !! (j - 1)
    else if (j =? 0) && (0 <? Z.of_nat n) then None else m !! j.
Proof.
  revert m. induction n as [|n IH]; intros m Hn.
  - cbn [shift_files]. by repeat case_match_goal; bool_to_prop; try lia.
  - cbn [shift_files rotate_ok ro_rename].
    set (m' := match m !! Z.of_nat n with Some l => _ | None => m end).
    assert (Hm' : ∀ k, m' !! k = if k =? Z.of_nat n then None
                                 else if k =? Z.of_nat (S n) then m !! Z.of_nat n else m !! k).
    { intros k. subst m'. destruct (m !! Z.of_nat n) as [l|] eqn:E.
      - destruct (Z.eqb_spec k (Z.of_nat n)) as [->|H1].
        { rewrite lookup_insert_ne by lia. apply lookup_delete_eq. }
        destruct (Z.eqb_spec k (Z.of_nat (S n))) as [->|H2]; [apply lookup_insert_eq|].
        by rewrite lookup_insert_ne, lookup_delete_ne by done.
      - destruct (Z.eqb_spec k (Z.of_nat n)) as [->|H1]; [done|].
        by destruct (Z.eqb_spec k (Z.of_nat (S n))) as [->|H2]. }
    rewrite IH by (rewrite Hm', Z.eqb_refl; done). rewrite !Hm'.
    destruct (Z.leb_spec 1 j), (Z.leb_spec j (Z.of_nat n)), (Z.leb_spec j (Z.of_nat (S n))),
      (Z.eqb_spec j 0), (Z.ltb_spec 0 (Z.of_nat n)), (Z.ltb_spec 0 (Z.of_nat (S n)));
      cbn [andb]; try lia;
      repeat (match goal with |- context [?x =? ?y] => destruct (Z.eqb_spec x y) end; try lia);
      try done; f_equal; lia.
Qed.

(** Rotation keeps the latest logs: when its file operations succeed, the log
    becomes number 1, every numbered log moves up by one, the last is dropped,
    and an empty log is open. *)
Lemma rotation_keeps_the_latest maxFiles f l :
  2 <= maxFiles < 2 ^ 64 → lf_current f = Some l → lf_numbered f !! 0 = None →
  let f' := RotateLogFile maxFiles rotate_ok f in
  m_file f' = true ∧ lf_current f' = Some [] ∧ lf_numbered f' !! 1 = Some l ∧
  lf_numbered f' !! 0 = None ∧
  ∀ i, 1 < i <= maxFiles - 1 → lf_numbered f' !! i = lf_numbered f !! (i - 1).
Proof.
  intros Hmax Hl H0. cbv zeta. unfold RotateLogFile. rewrite Hl. cbn [rotate_ok ro_remove ro_rename ro_open].
  rewrite wrap_small by (unfold in_u; lia). cbn -[Z.to_nat]. split_and!; try done.
  - apply lookup_insert_eq.
  - rewrite lookup_insert_ne by done. rewrite shift_lookup by (rewrite Z2Nat.id by lia; apply lookup_delete_eq).
    repeat case_match_goal; bool_to_prop; try lia; try done.
    rewrite lookup_delete_ne by lia. done.
  - intros i Hi. rewrite lookup_insert_ne by lia.
    rewrite shift_lookup by (rewrite Z2Nat.id by lia; apply lookup_delete_eq).
    rewrite (proj2 (Z.leb_le 1 i)), (proj2 (Z.leb_le i _)) by lia. cbn [andb].
    by rewrite lookup_delete_ne by lia.
Qed.

(** ** The text of the log files

    The numbered files from the oldest on, then the current one. *)
Fixpoint older (n : nat) (m : gmap Z (list text)) : list text :=
  match n with
  | O => []
  | S n' => default [] (m !! Z.of_nat n) ++ older n' m
  end.

Definition current_lines (f : LogFiles) : list text := default [] (lf_current f).

Definition all_lines (maxFiles : Z) (f : LogFiles) : list text :=
  older (Z.to_nat (maxFiles - 1)) (lf_numbered f) ++ current_lines f.

Definition file_ready (f : LogFiles) : Prop := m_file f = true ∧ is_Some (lf_current f) ∧ lf_numbered f !! 0 = None.

Lemma older_shifted n m m' l :
  m' !! 1 = Some l → (∀ i, 1 < i <= Z.of_nat (S n) → m' !! i = m !! (i - 1)) → older (S n) m' = older n m ++ l.
Proof.
  intros H1 Hi. induction n as [|n IH].
  - cbn [older]. change (Z.of_nat 1) with 1. rewrite H1. cbn. by rewrite app_nil_r.
  - change (older (S (S n)) m') with (default [] (m' !! Z.of_nat (S (S n))) ++ older (S n) m').
    rewrite IH by (intros; apply Hi; lia). rewrite Hi by lia.
    replace (Z.of_nat (S (S n)) - 1) with (Z.of_nat (S n)) by lia. cbn [older]. by rewrite app_assoc.
Qed.

(** A rotation drops the oldest file, and that only. *)
Lemma rotate_all_lines maxFiles os f :
  2 <= maxFiles < 2 ^ 64 → os = rotate_ok → file_ready f →
  file_ready (RotateLogFile maxFiles os f) ∧
  all_lines maxFiles (RotateLogFile maxFiles os f) =
    drop (length (default [] (lf_numbered f !! (maxFiles - 1)))) (all_lines maxFiles f).
Proof.
  intros Hm -> (Ho & [l Hl] & H0).
  destruct (rotation_keeps_the_latest maxFiles f l Hm Hl H0) as (R1 & R2 & R3 & R4 & R5).
  split; [by split_and!|]. unfold all_lines, current_lines. rewrite R2, Hl. cbn [default].
  destruct (Z.to_nat (maxFiles - 1)) as [|n] eqn:En; [lia|].
  rewrite (older_shifted n (lf_numbered f) _ l R3) by (intros; apply R5; lia).
  change (older (S n) (lf_numbered f)) with
    (default [] (lf_numbered f !! Z.of_nat (S n)) ++ older n (lf_numbered f)).
  replace (maxFiles - 1) with (Z.of_nat (S n)) by lia. by rewrite app_nil_r, <- app_assoc, drop_app_length.
Qed.

Lemma file_size_app a b : file_size (a ++ b) = file_size a + file_size b.
Proof. unfold file_size. induction a as [|x a IH]; [done|]. cbn [app fold_right]. rewrite IH. lia. Qed.

Lemma file_size_pos a : 0 <= file_size a.
Proof. unfold file_size. induction a as [|x a IH]; cbn [fold_right]; lia. Qed.

(** One line is appended to what is there; the files rotate when the current
    one has reached its size. *)
Lemma write_line_all size maxFiles os line f :
  2 <= maxFiles < 2 ^ 64 → os = rotate_ok → file_ready f →
  file_ready (write_line size maxFiles os line f) ∧
  (∃ k, all_lines maxFiles (write_line size maxFiles os line f) = drop k (all_lines maxFiles f ++ [line])) ∧
  (file_size (current_lines f ++ [line]) < size →
   current_lines (write_line size maxFiles os line f) = current_lines f ++ [line] ∧
   lf_numbered (write_line size maxFiles os line f) = lf_numbered f).
Proof.
  intros Hm Hos (Ho & Hc & H0). unfold write_line. rewrite Ho.
  set (ls := default [] (lf_current f) ++ [line]). set (f1 := mkLogFiles true (Some ls) (lf_numbered f)).
  assert (Hf1 : file_ready f1) by (by split_and!).
  assert (Ha : all_lines maxFiles f1 = all_lines maxFiles f ++ [line]).
  { unfold all_lines, current_lines, f1, ls. cbn [lf_numbered lf_current from_option id]. by rewrite app_assoc. }
  destruct (Z.ltb_spec 0 (file_size ls)); [destruct (Z.leb_spec size (file_size ls))|]; cbn [andb].
  - destruct (rotate_all_lines maxFiles os f1 Hm Hos Hf1) as [R1 R2]. split; [done|]. split.
    + eexists. rewrite R2, Ha. done.
    + intros Hlt. unfold current_lines in Hlt. subst ls. lia.
  - split; [done|]. split; [exists 0%nat; by rewrite Ha|done].
  - split; [done|]. split; [exists 0%nat; by rewrite Ha|done].
Qed.

(** * Order and progress *)

Section threads.
Context (localtime : Z → text).
Implicit Types s : Logger.
Abbreviation line := (FormatLogMessage localtime).

Definition in_flight s : list LogEntry := match m_writer s with AtBatch b => b | _ => [] end.

(** What the writer is done with: the accepted entries before those. *)
Definition delivered s : list LogEntry :=
  firstn (length (lo_accepted s) - length (in_flight s ++ m_queue s)) (lo_accepted s).

Lemma delivered_is d s : lo_accepted s = d ++ in_flight s ++ m_queue s → delivered s = d.
Proof.
  intros E. unfold delivered. rewrite E, !length_app.
  replace (_ - _)%nat with (length d) by lia. apply take_app_length.
Qed.

Record log_inv s : Prop := {
  li_order : lo_accepted s = delivered s ++ in_flight s ++ m_queue s;
  li_alive : m_running s = true → m_writer s ≠ AtFlush ∧ m_writer s ≠ Finished
}.

Lemma mk_log_inv d s :
  lo_accepted s = d ++ in_flight s ++ m_queue s →
  (m_running s = true → m_writer s ≠ AtFlush ∧ m_writer s ≠ Finished) → log_inv s ∧ delivered s = d.
Proof. intros E Ha. pose proof (delivered_is d s E) as Hd. split; [split; [by rewrite Hd|done]|done]. Qed.

(** ** Outputs

    What was put out from [s] to [s'], in order: the entries of the writer, which
    are marked, and those of the rotator. *)
Definition marked (st : list (bool * LogEntry)) : list LogEntry := map snd (filterb fst st).

Definition keeps_callback (a : LogAction) : bool := match a with ActSetOnLogEntry _ => false | _ => true end.
Definition keeps_listeners (a : LogAction) : bool :=
  match a with ActRegister _ | ActUnregister _ => false | _ => true end.
Definition has_console (a : LogAction) : bool :=
  match a with ActWriter c _ | ActRotatorLog c _ => c | _ => true end.

(** Nobody closes the file, and rotating it succeeds. *)
Definition keeps_file (a : LogAction) : Prop :=
  match a with
  | ActJoined | ActCloseFile | ActOpenFile _ => False
  | ActWriter _ os => os = rotate_ok
  | _ => True
  end.

Record put_out (acts : list LogAction) s s' (st : list (bool * LogEntry)) : Prop := {
  po_delivered : delivered s' = delivered s ++ marked st;
  po_ring : m_ring s' = add_entries (map snd st) (m_ring s);
  po_console : forallb has_console acts = true →
    lo_console (m_sinks s') = lo_console (m_sinks s) ++ map line (map snd st);
  po_callback : forallb keeps_callback acts = true → m_logCallback (m_sinks s) = true →
    m_logCallback (m_sinks s') = true ∧ lo_pushed (m_sinks s') = lo_pushed (m_sinks s) ++ marked st;
  po_listeners : forallb keeps_listeners acts = true → ∀ id l, m_listeners (m_sinks s) !! id = Some (Some l) →
    m_listeners (m_sinks s') !! id = Some (Some (l ++ map snd st));
  po_sizes : m_maxFiles s' = m_maxFiles s ∧ m_maxFileSize s' = m_maxFileSize s;
  po_file : Forall keeps_file acts → 2 <= m_maxFiles s < 2 ^ 64 → file_ready (m_files s) →
    file_ready (m_files s') ∧
    (∃ k, all_lines (m_maxFiles s) (m_files s') = drop k (all_lines (m_maxFiles s) (m_files s) ++ map line (marked st))) ∧
    (file_size (current_lines (m_files s) ++ map line (marked st)) < m_maxFileSize s →
     current_lines (m_files s') = current_lines (m_files s) ++ map line (marked st) ∧
     lf_numbered (m_files s') = lf_numbered (m_files s))
}.

Lemma filterb_app {A} (p : A → bool) a b : filterb p (a ++ b) = filterb p a ++ filterb p b.
Proof. apply List.filter_app. Qed.

Lemma marked_app a b : marked (a ++ b) = marked a ++ marked b.
Proof. unfold marked. by rewrite filterb_app, map_app. Qed.

Lemma put_out_quiet acts s s' :
  delivered s' = delivered s → m_ring s' = m_ring s → m_sinks s' = m_sinks s → m_files s' = m_files s →
  m_maxFiles s' = m_maxFiles s → m_maxFileSize s' = m_maxFileSize s → put_out acts s s' [].
Proof.
  intros H1 H2 H3 H4 H5 H6. constructor; rewrite ?H1, ?H2, ?H3, ?H4; cbn; rewrite ?app_nil_r; try done.
  - intros _ id l Hl. by rewrite app_nil_r.
  - intros _ _ Hf. split; [done|]. split; [exists 0%nat|]; by rewrite ?app_nil_r.
Qed.

Lemma drop_drop_app k k' (a b c : list text) : ∃ k'', drop k' (drop k (a ++ b) ++ c) = drop k'' (a ++ b ++ c).
Proof.
  destruct (decide (k <= length (a ++ b))%nat).
  - exists (k + k')%nat. by rewrite <- drop_app_le, drop_drop, app_assoc by done.
  - exists (length (a ++ b) + k')%nat. rewrite (drop_ge (a ++ b)) by lia. cbn [app].
    by rewrite app_assoc, <- drop_drop, drop_app_length.
Qed.

Lemma put_out_trans acts acts' s s1 s' st st' :
  put_out acts s s1 st → put_out acts' s1 s' st' → put_out (acts ++ acts') s s' (st ++ st').
Proof.
  intros [D R C B L [Z1 Z2] F] [D' R' C' B' L' [Z1' Z2'] F'].
  constructor; rewrite ?marked_app, ?map_app, ?forallb_app; [| | | | |by rewrite Z1', Z2'|].
  - by rewrite D', D, app_assoc.
  - unfold add_entries in *. by rewrite R', R, foldl_app.
  - intros [H H']%andb_prop. by rewrite C', C, ?map_app, app_assoc.
  - intros [H H']%andb_prop Hc. destruct (B H Hc) as [B1 B2]. destruct (B' H' B1) as [B3 B4].
    split; [done|]. by rewrite B4, B2, app_assoc.
  - intros [H H']%andb_prop id l Hl. rewrite app_assoc. apply L'; [done|]. by apply L.
  - intros [H H']%Forall_app Hm Hf. rewrite Z1, Z2 in F'.
    destruct (F H Hm Hf) as (Hf1 & [k Hk] & Hs). destruct (F' H' Hm Hf1) as (Hf2 & [k' Hk'] & Hs').
    rewrite ?map_app. split; [done|]. split.
    + destruct (drop_drop_app k k' (all_lines (m_maxFiles s) (m_files s)) (map line (marked st))
        (map line (marked st'))) as [k'' Hk''].
      exists k''. by rewrite Hk', Hk, Hk''.
    + intros Hlt. rewrite app_assoc in Hlt |- *. rewrite file_size_app in Hlt.
      pose proof (file_size_pos (map line (marked st'))). destruct Hs as [E1 E2]; [lia|].
      rewrite <- E1, <- E2. apply Hs'. rewrite E1, file_size_app. lia.
Qed.

(** One entry of the writer. *)
Lemma put_out_write console os e b s :
  m_writer s = AtBatch (e :: b) → log_inv s →
  let s' := set_writer (AtBatch b) (write_entry localtime console os e s) in
  log_inv s' ∧ put_out [ActWriter console os] s s' [(true, e)].
Proof.
  intros Hw [Ho Ha] s'. unfold in_flight in Ho. rewrite Hw in Ho.
  destruct (mk_log_inv (delivered s ++ [e]) s') as [Hi Hd].
  { unfold in_flight. cbn. by rewrite Ho, <- app_assoc. }
  { done. }
  split; [done|]. constructor; [by rewrite Hd|done|..|done|].
  - intros [Hc _]%andb_prop. cbn in Hc. subst console. cbn. unfold call_back. by case_match_goal.
  - intros _ Hc. cbn. unfold call_back, WriteColorConsole. destruct console; cbn; by rewrite Hc.
  - intros _ id l Hl. cbn. rewrite lookup_fmap.
    assert (E : m_listeners (call_back e (WriteColorConsole localtime console e (m_sinks s))) = m_listeners (m_sinks s)).
    { unfold call_back, WriteColorConsole. destruct console; cbn; by case_match_goal. }
    by rewrite E, Hl.
  - intros Hk Hm Hf. apply List.Forall_inv in Hk. cbn [map marked filterb List.filter fst snd].
    exact (write_line_all (m_maxFileSize s) (m_maxFiles s) os (line e) (m_files s) Hm Hk Hf).
Qed.

(** One entry of the rotator. *)
Lemma put_out_rotator console e s :
  log_inv s → put_out [ActRotatorLog console e] s (rotator_log localtime console e s) [(false, e)].
Proof.
  intros _. constructor; [by rewrite app_nil_r|done|..|done|].
  - intros [Hc _]%andb_prop. cbn in Hc. by subst console.
  - intros _ Hc. cbn. rewrite app_nil_r. unfold WriteColorConsole. destruct console; cbn; by rewrite Hc.
  - intros _ id l Hl. cbn. rewrite lookup_fmap.
    assert (E : m_listeners (WriteColorConsole localtime console e (m_sinks s)) = m_listeners (m_sinks s))
      by (by destruct console).
    by rewrite E, Hl.
  - intros _ _ Hf. cbn. rewrite !app_nil_r. split; [done|]. split; [by exists 0%nat|done].
Qed.

(** An action that puts nothing out; it may be one that sets the outputs. *)
Lemma put_out_nothing a s s' :
  delivered s' = delivered s → m_ring s' = m_ring s → lo_console (m_sinks s') = lo_console (m_sinks s) →
  (keeps_callback a = true → m_logCallback (m_sinks s') = m_logCallback (m_sinks s) ∧
                             lo_pushed (m_sinks s') = lo_pushed (m_sinks s)) →
  (keeps_listeners a = true → m_listeners (m_sinks s') = m_listeners (m_sinks s)) →
  (keeps_file a → m_files s' = m_files s) →
  m_maxFiles s' = m_maxFiles s → m_maxFileSize s' = m_maxFileSize s → put_out [a] s s' [].
Proof.
  intros H1 H2 H3 H4 H5 H6 H7 H8.
  constructor; [by rewrite app_nil_r|done|by rewrite app_nil_r| | |done|].
  - intros [Hk _]%andb_prop Hc. destruct (H4 Hk) as [E1 E2]. rewrite E1, E2. by rewrite app_nil_r.
  - intros [Hk _]%andb_prop id l Hl. by rewrite H5, app_nil_r.
  - intros Hk _ Hf. apply List.Forall_inv in Hk. rewrite (H6 Hk). cbn. rewrite !app_nil_r.
    split; [done|]. split; [by exists 0%nat|done].
Qed.

Lemma step_nothing a s s' :
  lo_accepted s' = delivered s ++ in_flight s' ++ m_queue s' →
  (m_running s' = true → m_writer s' ≠ AtFlush ∧ m_writer s' ≠ Finished) →
  (delivered s' = delivered s → put_out [a] s s' []) →
  log_inv s' ∧ ∃ st, put_out [a] s s' st.
Proof.
  intros E Ha Hp. destruct (mk_log_inv (delivered s) s' E Ha) as [Hi Hd]. split; [done|].
  exists []. by apply Hp.
Qed.

Lemma writer_turn_out console os s s' :
  log_inv s → writer_turn localtime console os s = Some s' →
  log_inv s' ∧ ∃ st, put_out [ActWriter console os] s s' st.
Proof.
  intros HI. pose proof HI as [Ho Ha]. unfold writer_turn, in_flight in Ho |- *.
  destruct (m_writer s) as [| |[|e b]| |] eqn:Ew; [..|done].
  4: { intros [= <-]. destruct (put_out_write console os e b s Ew HI) as [H1 H2]. split; [done|]. by eexists. }
  - intros [= <-]. destruct (m_running s) eqn:Er;
      (apply step_nothing; [exact Ho|cbn; intros; split; congruence|intros; by apply put_out_nothing]).
  - destruct (m_queue s) eqn:Eq, (m_running s) eqn:Er; [done|intros [= <-]..];
      (apply step_nothing; [|cbn; intros; split; congruence|intros; by apply put_out_nothing]);
      unfold in_flight; cbn; by rewrite Ho, ?Eq, ?app_nil_r.
  - intros [= <-]. apply step_nothing; [exact Ho|done|intros; by apply put_out_nothing].
  - intros [= <-]. apply step_nothing; [exact Ho| |intros; by apply put_out_nothing].
    intros H. by destruct (Ha H).
Qed.

Lemma log_step_out a s s' :
  log_inv s → log_step localtime a s = Some s' → log_inv s' ∧ ∃ st, put_out [a] s s' st.
Proof.
  intros HI. pose proof HI as [Ho Ha]. destruct a as [e|l|b|b|id|c os| | | |ok|c e]; cbn [log_step];
    try (intros [= <-]; apply step_nothing; [exact Ho|done|intros; by apply put_out_nothing]).
  - intros [= <-]. unfold Log. case_match_goal; apply step_nothing; try done; try (intros; by apply put_out_nothing).
    cbn. rewrite Ho. unfold in_flight. cbn. by rewrite <- !app_assoc.
  - by apply writer_turn_out.
  - case_match_goal; [|done]. intros [= <-]. apply step_nothing; [exact Ho|done|intros; by apply put_out_nothing].
  - intros [= <-]. split; [by destruct HI|]. eexists. by apply put_out_rotator.
Qed.

Lemma log_run_out acts s s' :
  log_inv s → log_run localtime acts s = Some s' → log_inv s' ∧ ∃ st, put_out acts s s' st.
Proof.
  revert s. induction acts as [|a acts IH]; intros s HI; cbn [log_run].
  - intros [= <-]. split; [done|]. exists []. by apply put_out_quiet.
  - destruct (log_step localtime a s) as [s1|] eqn:E; [|done]. intros Hr.
    destruct (log_step_out a s s1 HI E) as [HI1 [st Hst]]. destruct (IH s1 HI1 Hr) as [HI' [st' Hst']].
    split; [done|]. exists (st ++ st'). by apply (put_out_trans [a] acts s s1 s').
Qed.

(** ** Progress *)

Lemma log_run_app acts acts' s :
  log_run localtime (acts ++ acts') s =
  match log_run localtime acts s with Some s' => log_run localtime acts' s' | None => None end.
Proof.
  revert s. induction acts as [|a acts IH]; intros s; [done|]. cbn [app log_run].
  by destruct (log_step localtime a s).
Qed.

(** The writer alone. *)
Definition writes (console : bool) (os : RotateOs) (n : nat) : list LogAction := repeat (ActWriter console os) n.

Lemma run_batch c os b s :
  m_writer s = AtBatch b →
  ∃ s', log_run localtime (writes c os (length b)) s = Some s' ∧ m_writer s' = AtBatch [] ∧
        m_queue s' = m_queue s ∧ m_running s' = m_running s ∧ lo_accepted s' = lo_accepted s.
Proof.
  revert s. induction b as [|e b IH]; intros s Hw; [by exists s|].
  cbn [length writes repeat log_run log_step]. unfold writer_turn. rewrite Hw.
  by destruct (IH (set_writer (AtBatch b) (write_entry localtime c os e s))) as (s' & Hr & H1 & H2 & H3 & H4);
    [|exists s'].
Qed.

(** The writer holds nothing, and nothing is queued. *)
Definition idle s : Prop := in_flight s = [] ∧ m_queue s = [].

Lemma run_from_wait c os s :
  m_writer s = AtWait → m_running s = true →
  ∃ n s', log_run localtime (writes c os n) s = Some s' ∧ idle s' ∧ lo_accepted s' = lo_accepted s.
Proof.
  intros Hw Hr. unfold idle, in_flight. destruct (m_queue s) as [|e q] eqn:Eq.
  - exists 0%nat, s. by rewrite Hw.
  - destruct (run_batch c os (e :: q) (set_queue [] (set_writer (AtBatch (e :: q)) s)))
      as (s' & Hrun & Hw' & Hq' & _ & Ha); [done|].
    exists (S (length (e :: q))), s'. split; [|by rewrite Hw'].
    change (writes c os (S (length (e :: q)))) with (ActWriter c os :: writes c os (length (e :: q))).
    cbn [log_run log_step]. unfold writer_turn. by rewrite Hw, Eq.
Qed.

Lemma run_from_loop c os s :
  m_writer s = AtLoop → m_running s = true →
  ∃ n s', log_run localtime (writes c os n) s = Some s' ∧ idle s' ∧ lo_accepted s' = lo_accepted s.
Proof.
  intros Hw Hr. destruct (run_from_wait c os (set_writer AtWait s)) as (n & s' & H & Hd); [done..|].
  exists (S n), s'. split; [|done]. cbn [writes repeat log_run log_step]. unfold writer_turn.
  by rewrite Hw, Hr.
Qed.

Lemma run_to_idle c os s :
  log_inv s → m_running s = true →
  ∃ n s', log_run localtime (writes c os n) s = Some s' ∧ idle s' ∧ lo_accepted s' = lo_accepted s.
Proof.
  intros [_ Ha] Hr. destruct (Ha Hr) as [H1 H2].
  destruct (m_writer s) as [| |b| |] eqn:Hw; try done.
  - by apply run_from_loop.
  - by apply run_from_wait.
  - destruct (run_batch c os b s Hw) as (s1 & Hrun & Hw1 & Hq1 & Hr1 & Ha1).
    destruct (run_from_loop c os (set_writer AtLoop s1)) as (n & s' & Hrun' & Hi & Ha');
      [done|by rewrite <- Hr, <- Hr1|].
    exists (length b + S n)%nat, s'. split; [|by rewrite Ha'].
    unfold writes in *. rewrite repeat_app, log_run_app, Hrun. cbn [repeat log_run log_step].
    unfold writer_turn. by rewrite Hw1.
Qed.

Lemma run_to_end c os s :
  log_inv s → m_running s = true →
  ∃ n s', log_run localtime (writes c os n) s = Some s' ∧ delivered s' = lo_accepted s.
Proof.
  intros HI Hr. destruct (run_to_idle c os s HI Hr) as (n & s' & Hrun & [Hf Hq] & Ha).
  exists n, s'. split; [done|]. apply delivered_is. by rewrite Hf, Hq, Ha, !app_nil_r.
Qed.

Lemma Initialize_inv mkdir open level mb max files : log_inv (Initialize mkdir open level mb max files).
Proof. by split. Qed.


(** ** Shutdown *)

Definition over s : Prop := m_running s = false ∧ (m_writer s = AtFlush ∨ m_writer s = Finished).

(** The callback and the files get nothing more. *)
Definition written_off s s' : Prop :=
  lo_pushed (m_sinks s') = lo_pushed (m_sinks s) ∧ current_lines (m_files s') = current_lines (m_files s) ∧
  lf_numbered (m_files s') = lf_numbered (m_files s) ∧ ∃ new, m_queue s' = m_queue s ++ new.

Lemma written_off_queue s s' new :
  m_sinks s' = m_sinks s → m_files s' = m_files s → m_queue s' = m_queue s ++ new → written_off s s'.
Proof. unfold written_off. intros -> -> ->. split_and!; eauto. Qed.

Lemma over_step a s s' : over s → log_step localtime a s = Some s' → over s' ∧ written_off s s'.
Proof.
  intros [Hr Hw]. unfold written_off. destruct a as [e|l|b|b|id|c os| | | |ok|c e]; cbn [log_step];
    try (intros [= <-]; split; [done|]; split_and!; try done; exists []; by rewrite app_nil_r).
  - intros [= <-]. unfold Log. case_match_goal; (split; [done|]); split_and!; try done; [exists []|by exists [e]].
    by rewrite app_nil_r.
  - unfold writer_turn. destruct Hw as [-> | ->]; [|done]. intros [= <-].
    split; [by split; [|right]|]. by apply (written_off_queue _ _ []); rewrite ?app_nil_r.
  - case_match_goal; [|done]. intros [= <-]. split; [done|]. split_and!; try done. exists []. by rewrite app_nil_r.
  - intros [= <-]. split; [by destruct ok|]. cbn. destruct ok; cbn; split_and!; try done; exists []; by rewrite app_nil_r.
  - intros [= <-]. split; [done|]. cbn. split_and!; [by destruct c|done..|]. exists []. by rewrite app_nil_r.
Qed.

Lemma over_run acts s s' : over s → log_run localtime acts s = Some s' → written_off s s'.
Proof.
  revert s. induction acts as [|a acts IH]; intros s Ho; cbn [log_run].
  - intros [= <-]. by apply (written_off_queue _ _ []); rewrite ?app_nil_r.
  - destruct (log_step localtime a s) as [s1|] eqn:E; [|done]. intros Hrun.
    destruct (over_step _ _ _ Ho E) as (Ho1 & P & C & N & new & Hq).
    destruct (IH s1 Ho1 Hrun) as (P' & C' & N' & new' & Hq').
    split_and!; [by rewrite P', P|by rewrite C', C|by rewrite N', N|].
    exists (new ++ new'). by rewrite Hq', Hq, app_assoc.
Qed.

(** [Shutdown] can lose the last entries.  When the writer has just
    finished a batch, an entry that is logged and queued before [Shutdown]
    clears the flag is abandoned: the writer leaves its loop without looking
    at the queue, [Shutdown] joins it and closes the file, and whatever happens
    afterwards the entry stays in the queue and neither the files nor the
    callback get anything more. *)
Theorem shutdown_loses_queued_entries s e c os acts s' :
  m_writer s = AtBatch [] →
  LogLevel_to_int (m_currentLevel s) <= LogLevel_to_int (le_level e) →
  log_run localtime
    ([ActLog e; ActStop; ActWriter c os; ActWriter c os; ActWriter c os; ActJoined] ++ acts) s = Some s' →
  In e (m_queue s') ∧ lo_pushed (m_sinks s') = lo_pushed (m_sinks s) ∧
  current_lines (m_files s') = current_lines (m_files s) ∧ lf_numbered (m_files s') = lf_numbered (m_files s).
Proof.
  intros Hw Hl. rewrite log_run_app. cbn [log_run log_step]. unfold Log.
  rewrite (proj2 (Z.ltb_ge _ _) Hl). unfold writer_turn. cbn. rewrite Hw. cbn.
  set (s1 := set_files _ _). intros Hrun.
  destruct (over_run acts s1 s') as (P & C & N & new & Hq); [split; [done|by right]|done|].
  rewrite P, C, N, Hq. split; [|done]. cbn. rewrite !in_app_iff. left. right. by left.
Qed.
End threads.

(** * Concrete runs *)

Definition entry (n : Z) (l : LogLevel) : LogEntry := mkLogEntry n l (lit "service") (lit "message") [] 0 [].

Lemma recent_entries_are_the_latest_witness :
  GetRecentEntries 2 (add_entries [entry 1 LInfo; entry 2 LInfo; entry 3 LWarn] Ring_new) =
  [entry 2 LInfo; entry 3 LWarn].
Proof.
  rewrite (recent_entries_are_the_latest [entry 1 LInfo; entry 2 LInfo; entry 3 LWarn] 2);
    [reflexivity|reflexivity|discriminate].
Defined.

Definition no_files : LogFiles := mkLogFiles false None ∅.

(** A callback and a listener; a debug entry is dropped, the writer has written
    the first of two others, and the rotator has logged one. *)
Definition sample_setup : list LogAction :=
  [ActSetOnLogEntry true; ActRegister true; ActWriter true rotate_ok].
Definition sample_acts : list LogAction :=
  [ActLog (entry 1 LInfo); ActLog (entry 2 LDebug); ActWriter true rotate_ok;
   ActLog (entry 3 LError); ActRotatorLog true (entry 4 LInfo); ActWriter true rotate_ok; ActWriter true rotate_ok].

Definition sample_time : Z → text := λ _, lit "2024-01-01 00:00:00".

Definition run_or_stay (acts : list LogAction) (s : Logger) : Logger :=
  default s (log_run sample_time acts s).
Definition sample_ready : Logger := run_or_stay sample_setup (Initialize true true LInfo 10 5 no_files).
Definition sample_log : Logger := run_or_stay sample_acts sample_ready.

Lemma run_or_stay_runs acts s :
  (match log_run sample_time acts s with Some _ => true | None => false end) = true →
  log_run sample_time acts s = Some (run_or_stay acts s).
Proof. unfold run_or_stay. by destruct (log_run sample_time acts s). Qed.


Definition idle_logger : Logger := set_writer (AtBatch []) (Initialize true true LInfo 10 5 no_files).

Lemma shutdown_loses_queued_entries_witness :
  ∃ s', log_run (λ _, []) ([ActLog (entry 1 LInfo); ActStop; ActWriter true rotate_ok; ActWriter true rotate_ok;
                            ActWriter true rotate_ok; ActJoined] ++ [ActLog (entry 2 LError)]) idle_logger = Some s' ∧
        In (entry 1 LInfo) (m_queue s') ∧ current_lines (m_files s') = [].
Proof.
  destruct (log_run (λ _, []) ([ActLog (entry 1 LInfo); ActStop; ActWriter true rotate_ok; ActWriter true rotate_ok;
    ActWriter true rotate_ok; ActJoined] ++ [ActLog (entry 2 LError)]) idle_logger) as [s'|] eqn:E; [|discriminate E].
  exists s'. split; [reflexivity|].
  destruct (shutdown_loses_queued_entries (λ _, []) idle_logger (entry 1 LInfo) true rotate_ok [ActLog (entry 2 LError)] s')
    as (Hq & _ & Hc & _); [reflexivity|discriminate|exact E|]. by rewrite Hc.
Defined.
