(* ===== verification/LogRotator.v ===== *)
(** [infrastructure/logging/LogRotator.h/.cpp]: rotation by schedule, and the
    deletion of old archives.

    Times are in the 100 ns ticks of [system_clock], from 1970; the time that
    the file system reports for a file counts from 1601.  The file system maps a
    path, a directory and a name in it, to a file; a directory is taken to be
    spelled in one way.  The scheduler thread is a sequence of its wake-ups.
    Local time, the archiving process and what the file operations answer are
    parameters; the messages that the rotator logs are left out. *)

From Stdlib Require Import Sorted.
From S2P Require Import Prelude.
From S2P Require Import Text.
From S2P Require Import Entities.

Definition second : Z := 10000000.

(** A directory, and a name in it. *)
Abbreviation Path := (text * text)%type.

(** * State *)

Record LogRotator := mkRotator {
  m_settings : LogRotationSettings;
  m_logDir : text;
  m_logPath : option Path;               (* none where the logger never made its path *)
  m_running : bool;
  m_lastRotate : Z
}.

Definition set_lastRotate (t : Z) (r : LogRotator) : LogRotator :=
  mkRotator (m_settings r) (m_logDir r) (m_logPath r) (m_running r) t.

Definition LogRotator_new (s : LogRotationSettings) : LogRotator := mkRotator s [] None false 0.

(** The archive directory defaults to one below the log directory. *)
Definition with_archive (logDir : text) (s : LogRotationSettings) : LogRotationSettings :=
  match lr_archive_dir s with
  | [] => mkLogRotationSettings (lr_enabled s) (lr_schedule s) (lr_hour s) (lr_minute s)
            (lr_max_age_days s) (logDir ++ lit "\archive") (lr_compress s)
  | _ => s
  end.

Definition Start (now : Z) (logDir : text) (logPath : option Path) (settings : LogRotationSettings)
    (r : LogRotator) : bool * LogRotator :=
  if m_running r then (false, r)
  else if negb (lr_enabled settings)
       then (true, mkRotator settings logDir logPath (m_running r) (m_lastRotate r))
  else (true, mkRotator (with_archive logDir settings) logDir logPath true now).

Definition Stop (r : LogRotator) : LogRotator :=
  if m_running r then mkRotator (m_settings r) (m_logDir r) (m_logPath r) false (m_lastRotate r) else r.

(** * The schedule *)

(** Hour and minute of the local time. *)
Definition NeedRotate (local : Z → Z * Z) (now : Z) (r : LogRotator) : bool :=
  let s := m_settings r in
  if negb (lr_enabled s) then false
  else if Z.quot (now - m_lastRotate r) second <? 60 then false
  else
    let '(h, m) := local now in
    if text_eqb (lr_schedule s) (lit "hourly") then m =? lr_minute s
    else (h =? lr_hour s) && (m =? lr_minute s).

(** * Files *)

(** [C] is the content of a file. *)
Record File (C : Type) := mkFile {
  f_content : C;
  f_regular : bool;
  f_written : option Z                   (* last_write_time, in ticks from 1601 *)
}.
Arguments mkFile {C}.
Arguments f_content {C}.
Arguments f_regular {C}.
Arguments f_written {C}.

Record Disk (C : Type) := mkDisk {
  dk_open : bool;                        (* the logger has its file open *)
  dk_files : gmap Path (File C)
}.
Arguments mkDisk {C}.
Arguments dk_open {C}.
Arguments dk_files {C}.

(** PowerShell is not launched; or, when it has ended or its 30 seconds are
    over, the file of the archive is as given: whole, in part, an older one,
    or not there. *)
Inductive ZipOutcome (C : Type) :=
| ZipNotLaunched
| ZipLeaves (z : option (File C)).
Arguments ZipNotLaunched {C}.
Arguments ZipLeaves {C}.

(** The scan of one directory.  It reaches some of the entries: none where the
    directory is not there or cannot be read, and not all where the iterator
    throws, or the name of a file removed does not convert to a [string]. *)
Record ScanOs := mkScanOs {
  sc_now : Z;
  sc_reaches : Path → bool;
  sc_removes : Path → bool;              (* remove succeeds *)
  sc_throws : bool
}.

Record ArchiveOs (C : Type) := mkArchiveOs {
  ao_name : text;                        (* the local minute of this rotation *)
  ao_rename : bool;
  ao_zip : ZipOutcome C;
  ao_remove : bool;
  ao_move : bool;
  ao_archive_scan : ScanOs;
  ao_log_scan : ScanOs;
  ao_open : bool;
  ao_created : File C                    (* a log that is created *)
}.
Arguments mkArchiveOs {C}.
Arguments ao_name {C}.
Arguments ao_rename {C}.
Arguments ao_zip {C}.
Arguments ao_remove {C}.
Arguments ao_move {C}.
Arguments ao_archive_scan {C}.
Arguments ao_log_scan {C}.
Arguments ao_open {C}.
Arguments ao_created {C}.

(** ** Names *)

Definition log_name : text := lit "tcp_redirector.log".
Definition rotated_name (minute : text) : text := lit "tcp_redirector_" ++ minute ++ lit ".log".
Definition zip_name (minute : text) : text := lit "logs_" ++ minute ++ lit ".zip".

Definition rotated_path (minute : text) (r : LogRotator) : Path := (m_logDir r, rotated_name minute).
Definition zip_path (minute : text) (r : LogRotator) : Path := (lr_archive_dir (m_settings r), zip_name minute).
Definition moved_path (minute : text) (r : LogRotator) : Path :=
  (lr_archive_dir (m_settings r), rotated_name minute).

(** [path::extension] of a file name. *)
Definition extension (name : text) : text :=
  match after_last_of [46] name with
  | Some ext => if (length name =? S (length ext))%nat then [] else 46 :: ext
  | None => []
  end.

(** [now - hours(24 * max_age_days)]: 24 times an [int], then 64-bit ticks. *)
Definition cutoff (now max_age_days : Z) : Z :=
  swrap 64 (now - swrap 64 (swrap 32 (24 * max_age_days) * (3600 * second))).

Section rotate.
Context {C : Type}.
Implicit Types (m : gmap Path (File C)) (d : Disk C) (f : File C) (os : ArchiveOs C).

(** ** Old archives *)

(** The ticks of the file time are taken for ticks of the system clock. *)
Definition is_old (now max_age_days : Z) (name : text) f : bool :=
  f_regular f &&
  (text_eqb (extension name) (lit ".zip") || text_eqb (extension name) (lit ".log")) &&
  negb (text_eqb name log_name) &&
  match f_written f with Some t => t <? cutoff now max_age_days | None => false end.

Definition scan_deletes (max_age_days : Z) (sc : ScanOs) (dir : text) (p : Path) f : bool :=
  text_eqb (fst p) dir && sc_reaches sc p && is_old (sc_now sc) max_age_days (snd p) f && sc_removes sc p.

(** [scan_dir]: what stays. *)
Definition scan_dir (max_age_days : Z) (sc : ScanOs) (dir : text) m : gmap Path (File C) :=
  filter (λ pf : Path * File C, scan_deletes max_age_days sc dir (fst pf) (snd pf) = false) m.

(** [DeleteOldArchives]; [true] where it throws. *)
Definition DeleteOldArchives os (r : LogRotator) m : bool * gmap Path (File C) :=
  let days := lr_max_age_days (m_settings r) in
  let m := scan_dir days (ao_archive_scan os) (lr_archive_dir (m_settings r)) m in
  if sc_throws (ao_archive_scan os) then (true, m)
  else (sc_throws (ao_log_scan os), scan_dir days (ao_log_scan os) (m_logDir r) m).

(** ** Rotation *)

Definition close_log d : Disk C := mkDisk false (dk_files d).

(** Appending: the file is created where it is not there. *)
Definition open_log os (r : LogRotator) d : Disk C :=
  if ao_open os then
    let p := (m_logDir r, log_name) in
    mkDisk true (<[p := default (ao_created os) (dk_files d !! p)]> (dk_files d))
  else mkDisk false (dk_files d).

(** [rename]: over a file of the new name. *)
Definition rename_file (ok : bool) (p q : Path) m : gmap Path (File C) :=
  match m !! p with
  | Some f => if ok then <[q := f]> (delete p m) else m
  | None => m
  end.

(** Step 3: the log is renamed to its minute. *)
Definition rename_log os (r : LogRotator) m : gmap Path (File C) :=
  match m_logPath r with
  | Some p => rename_file (ao_rename os) p (rotated_path (ao_name os) r) m
  | None => m
  end.

(** [if (exists(zip_path)) remove(rotated_path)] *)
Definition remove_archived os (r : LogRotator) m : gmap Path (File C) :=
  match m !! zip_path (ao_name os) r with
  | Some _ => if ao_remove os then delete (rotated_path (ao_name os) r) m else m
  | None => m
  end.

(** Step 4. *)
Definition archive_log os (r : LogRotator) m : gmap Path (File C) :=
  if lr_compress (m_settings r) then
    match m !! rotated_path (ao_name os) r with
    | None => m
    | Some _ =>
        match ao_zip os with
        | ZipNotLaunched => m
        | ZipLeaves z => remove_archived os r (partial_alter (λ _, z) (zip_path (ao_name os) r) m)
        end
    end
  else rename_file (ao_move os) (rotated_path (ao_name os) r) (moved_path (ao_name os) r) m.

(** [RotateAndArchive].  Only the scans can throw: every other call takes an
    error code. *)
Definition RotateAndArchive (now : Z) os (r : LogRotator) d : LogRotator * Disk C :=
  let d := close_log d in
  let m := rename_log os r (dk_files d) in
  let m := archive_log os r m in
  let '(threw, m) := DeleteOldArchives os r m in
  let d := open_log os r (mkDisk (dk_open d) m) in
  if threw then (r, d) else (set_lastRotate now r, d).

Definition ForceRotate (now : Z) os (r : LogRotator) d : LogRotator * Disk C :=
  if lr_enabled (m_settings r) then RotateAndArchive now os r d else (r, d).

(** One wake-up of [SchedulerThread]. *)
Definition scheduler_turn (local : Z → Z * Z) (now : Z) os (r : LogRotator) d : bool * LogRotator * Disk C :=
  if negb (m_running r) then (false, r, d)
  else if NeedRotate local now r then
    let '(r, d) := RotateAndArchive now os r d in (true, r, d)
  else (false, r, d).

Fixpoint scheduler (local : Z → Z * Z) (wakes : list (Z * ArchiveOs C)) (r : LogRotator) d
    : list Z * LogRotator * Disk C :=
  match wakes with
  | [] => ([], r, d)
  | (now, os) :: wakes' =>
      let '(rotated, r, d) := scheduler_turn local now os r d in
      let '(ts, r, d) := scheduler local wakes' r d in
      ((if rotated : bool then [now] else []) ++ ts, r, d)
  end.
End rotate.

(** * What the scans delete *)

(** From 1601 to 1970. *)
Definition epoch_ticks : Z := 116444736000000000.

Section swept.
Context {C : Type}.
Implicit Types (m : gmap Path (File C)) (d : Disk C) (f : File C) (os : ArchiveOs C) (r : LogRotator).

(** The scans of a rotation delete this file. *)
Definition swept os r (p : Path) f : bool :=
  let days := lr_max_age_days (m_settings r) in
  scan_deletes days (ao_archive_scan os) (lr_archive_dir (m_settings r)) p f ||
  (negb (sc_throws (ao_archive_scan os)) && scan_deletes days (ao_log_scan os) (m_logDir r) p f).

Definition unless_swept os r (p : Path) (o : option (File C)) : option (File C) :=
  match o with Some f => if swept os r p f then None else Some f | None => None end.

Lemma scan_dir_lookup days sc dir m p :
  scan_dir days sc dir m !! p =
  match m !! p with Some f => if scan_deletes days sc dir p f then None else Some f | None => None end.
Proof.
  unfold scan_dir. destruct (m !! p) as [f|] eqn:E.
  - destruct (scan_deletes days sc dir p f) eqn:Hd.
    + apply map_lookup_filter_None. right. intros f' Hf'. cbn. congruence.
    + by apply map_lookup_filter_Some.
  - apply map_lookup_filter_None. by left.
Qed.

Lemma DeleteOldArchives_lookup os r m p :
  snd (DeleteOldArchives os r m) !! p = unless_swept os r p (m !! p).
Proof.
  unfold DeleteOldArchives, unless_swept, swept. destruct (sc_throws (ao_archive_scan os)); cbn [snd negb andb].
  - rewrite scan_dir_lookup. destruct (m !! p); [|done]. by rewrite orb_false_r.
  - rewrite !scan_dir_lookup. destruct (m !! p) as [f|]; [|done]. by destruct (scan_deletes _ _ (lr_archive_dir _) p f).
Qed.

(** The log itself is never deleted. *)
Lemma log_not_swept os r dir f : swept os r (dir, log_name) f = false.
Proof.
  unfold swept, scan_deletes, is_old. cbn [fst snd].
  rewrite (proj2 (text_eqb_spec log_name log_name) eq_refl). cbn [negb].
  by rewrite !andb_false_r, ?andb_false_l, ?andb_false_r.
Qed.

(** Clock, age and files of today: the clock before the year 2339, the age
    one that is no overflow, the file written since 1970. *)
Definition present_day os r : Prop :=
  0 <= sc_now (ao_archive_scan os) < epoch_ticks ∧ 0 <= sc_now (ao_log_scan os) < epoch_ticks ∧
  0 <= lr_max_age_days (m_settings r) <= 10000000.

Definition since_1970 f : Prop := ∀ t, f_written f = Some t → epoch_ticks <= t.

Lemma cutoff_bound now days :
  0 <= now < epoch_ticks → 0 <= days <= 10000000 → cutoff now days <= now.
Proof.
  intros Hn Hd. unfold cutoff, epoch_ticks, second in *.
  rewrite (swrap_small 32 (24 * days)) by (unfold in_s; lia).
  rewrite (swrap_small 64 (24 * days * _)) by (unfold in_s; lia).
  rewrite (swrap_small 64) by (unfold in_s; lia). lia.
Qed.

Lemma not_old now days name f :
  0 <= now < epoch_ticks → 0 <= days <= 10000000 → since_1970 f → is_old now days name f = false.
Proof.
  intros Hn Hd Hf. unfold is_old. destruct (f_written f) as [t|] eqn:E; [|by rewrite andb_false_r].
  pose proof (cutoff_bound now days Hn Hd). specialize (Hf t E).
  rewrite (proj2 (Z.ltb_ge t _)) by lia. by rewrite andb_false_r.
Qed.

Lemma not_swept os r p f : present_day os r → since_1970 f → swept os r p f = false.
Proof.
  intros (H1 & H2 & Hd) Hf. unfold swept, scan_deletes.
  by rewrite !not_old, !andb_false_r, !andb_false_l, ?andb_false_r.
Qed.

(** Until the year 2339 no archive is deleted, however old.  Every file
    written after 1970 stays, because its time counts from 1601 and is compared
    as if it counted from 1970, so it lies centuries in the future. *)
Theorem old_archives_are_never_deleted os r m :
  present_day os r → map_Forall (λ _, since_1970) m → snd (DeleteOldArchives os r m) = m.
Proof.
  intros Hp Hm. apply map_eq. intros p. rewrite DeleteOldArchives_lookup. unfold unless_swept.
  destruct (m !! p) as [f|] eqn:E; [|done]. by rewrite not_swept by (done || by eapply Hm).
Qed.

(** * What a rotation keeps *)

(** The four files that a rotation of this minute moves the log between. *)
Definition rotation_paths os r : list Path :=
  [(m_logDir r, log_name); rotated_path (ao_name os) r; zip_path (ao_name os) r; moved_path (ao_name os) r].

(** The whole text [c] is in one of them. *)
Definition held os r (c : C) m : Prop :=
  ∃ p f, In p (rotation_paths os r) ∧ m !! p = Some f ∧ f_content f = c.

(** The archive that PowerShell leaves, if it leaves one, holds the log. *)
Definition whole_archive os (c : C) : Prop := ∀ z, ao_zip os = ZipLeaves (Some z) → f_content z = c.

Lemma names_differ minute :
  log_name ≠ rotated_name minute ∧ log_name ≠ zip_name minute ∧ rotated_name minute ≠ zip_name minute.
Proof. split_and!; discriminate. Qed.

Lemma rename_file_lookup (ok : bool) (p q k : Path) m f :
  m !! p = Some f → k = (if ok then q else p : Path) → rename_file ok p q m !! k = Some f.
Proof. intros E ->. unfold rename_file. rewrite E. destruct ok; [apply lookup_insert_eq|done]. Qed.

Lemma rename_file_elsewhere ok (p q k : Path) m : k ≠ p → k ≠ q → rename_file ok p q m !! k = m !! k.
Proof.
  intros Hp Hq. unfold rename_file. destruct (m !! p), ok; try done.
  by rewrite lookup_insert_ne, lookup_delete_ne.
Qed.

Lemma archive_log_elsewhere os r (k : Path) m :
  k ≠ rotated_path (ao_name os) r → k ≠ zip_path (ao_name os) r → k ≠ moved_path (ao_name os) r →
  archive_log os r m !! k = m !! k.
Proof.
  intros H1 H2 H3. unfold archive_log, remove_archived. destruct (lr_compress _).
  - repeat case_match_goal; rewrite ?lookup_delete_ne, ?lookup_partial_alter_ne by congruence; done.
  - by apply rename_file_elsewhere.
Qed.

Lemma zip_not_rotated os r : zip_path (ao_name os) r ≠ rotated_path (ao_name os) r.
Proof. discriminate. Qed.

(** Where archiving leaves the renamed log. *)
Lemma archive_log_held os r m f :
  m !! rotated_path (ao_name os) r = Some f → whole_archive os (f_content f) →
  held os r (f_content f) (archive_log os r m).
Proof.
  intros E Hw. pose proof (zip_not_rotated os r) as Hne.
  assert (Hstay : ∀ m', m' !! rotated_path (ao_name os) r = Some f → held os r (f_content f) m').
  { intros m' H. exists (rotated_path (ao_name os) r), f. split_and!; [right; by left|done..]. }
  unfold archive_log. destruct (lr_compress (m_settings r)).
  - rewrite E. destruct (ao_zip os) as [|z] eqn:Ez; [by apply Hstay|].
    unfold remove_archived. rewrite lookup_partial_alter_eq.
    destruct z as [z|]; [|apply Hstay; by rewrite lookup_partial_alter_ne].
    destruct (ao_remove os); [|apply Hstay; by rewrite lookup_partial_alter_ne].
    exists (zip_path (ao_name os) r), z. split_and!; [do 2 right; by left| |by apply Hw].
    by rewrite lookup_delete_ne, lookup_partial_alter_eq.
  - exists (if ao_move os then moved_path (ao_name os) r else rotated_path (ao_name os) r), f.
    split_and!; [destruct (ao_move os); cbn; tauto|by apply rename_file_lookup|done].
Qed.

(** The files after the archiving, before the scans. *)
Definition archived os r d : gmap Path (File C) := archive_log os r (rename_log os r (dk_files d)).

Lemma rotated_files now os r d p :
  dk_files (snd (RotateAndArchive now os r d)) !! p =
  if decide (ao_open os = true ∧ p = (m_logDir r, log_name))
  then Some (default (ao_created os) (unless_swept os r p (archived os r d !! p)))
  else unless_swept os r p (archived os r d !! p).
Proof.
  unfold RotateAndArchive, archived. cbn [dk_files close_log].
  pose proof (DeleteOldArchives_lookup os r (archive_log os r (rename_log os r (dk_files d)))) as Hl.
  destruct (DeleteOldArchives _ _ _) as [threw m]. cbn [snd] in Hl.
  assert (E : ∀ (X : bool), snd (if X then (r, open_log os r (mkDisk (dk_open (close_log d)) m))
      else (set_lastRotate now r, open_log os r (mkDisk (dk_open (close_log d)) m))) =
      open_log os r (mkDisk (dk_open (close_log d)) m)) by (by intros []).
  rewrite E. unfold open_log. cbn [dk_files]. destruct (ao_open os); cbn [dk_files].
  - destruct (decide _) as [[_ ->]|Hp].
    + by rewrite lookup_insert_eq, Hl.
    + rewrite lookup_insert_ne, Hl by (intros <-; by apply Hp). done.
  - destruct (decide _) as [[? _]|_]; [done|]. apply Hl.
Qed.

Lemma archived_elsewhere os r d p :
  m_logPath r = Some (m_logDir r, log_name) → ~ In p (rotation_paths os r) →
  archived os r d !! p = dk_files d !! p.
Proof.
  intros Hp Hin. cbn in Hin. unfold archived. rewrite archive_log_elsewhere by (intros ->; tauto).
  unfold rename_log. rewrite Hp. apply rename_file_elsewhere; intros ->; tauto.
Qed.

Lemma archived_held os r d f :
  m_logPath r = Some (m_logDir r, log_name) → dk_files d !! (m_logDir r, log_name) = Some f →
  whole_archive os (f_content f) → held os r (f_content f) (archived os r d).
Proof.
  intros Hp Hf Hw. unfold archived, rename_log. rewrite Hp.
  pose proof (rename_file_lookup (ao_rename os) _ (rotated_path (ao_name os) r) _ _ _ Hf eq_refl) as H.
  destruct (ao_rename os); [by apply archive_log_held|].
  exists (m_logDir r, log_name), f. split_and!; [by left| |done].
  destruct (names_differ (ao_name os)) as (H1 & H2 & _).
  rewrite archive_log_elsewhere by (intros [=]; congruence). done.
Qed.

(** C38: a rotation loses the log only to its archive or to the deletion of
    old files.  Unless the archive that PowerShell leaves is not whole, the text
    of the log is found afterwards in the log, in the log renamed to its minute
    or in the archive, or the file with it was deleted as old.  An archive that
    is there but not whole replaces the log: it is trusted for existing.  Every
    other file stays exactly where the scans do not delete it; for the files and
    the clock of today they delete none; and the log is open again if it can be
    opened. *)
Theorem rotation_keeps_the_log now os r d f :
  m_logPath r = Some (m_logDir r, log_name) → dk_files d !! (m_logDir r, log_name) = Some f →
  let d' := snd (RotateAndArchive now os r d) in
  (whole_archive os (f_content f) →
   held os r (f_content f) (dk_files d') ∨
   ∃ p g, In p (rotation_paths os r) ∧ archived os r d !! p = Some g ∧ f_content g = f_content f ∧
          swept os r p g = true) ∧
  (∀ z, lr_compress (m_settings r) = true → ao_rename os = true → ao_remove os = true →
   ao_zip os = ZipLeaves (Some z) →
   dk_files d' !! rotated_path (ao_name os) r = None ∧
   dk_files d' !! zip_path (ao_name os) r = unless_swept os r (zip_path (ao_name os) r) (Some z) ∧
   dk_files d' !! (m_logDir r, log_name) = if ao_open os then Some (ao_created os) else None) ∧
  (∀ p, ~ In p (rotation_paths os r) → dk_files d' !! p = unless_swept os r p (dk_files d !! p)) ∧
  (present_day os r → ∀ p g, since_1970 g → swept os r p g = false) ∧
  dk_open d' = ao_open os.
Proof.
  intros Hp Hf. cbv zeta.
  split_and!.
  - intros Hw. destruct (archived_held os r d f Hp Hf Hw) as (p & g & Hin & Hg & Hc).
    destruct (swept os r p g) eqn:Hs; [right; by exists p, g|left]. exists p, g. split_and!; try done.
    rewrite rotated_files, Hg. cbn [unless_swept]. rewrite Hs. by destruct (decide _).
  - intros z Hco Hren Hrem Hz. pose proof (zip_not_rotated os r) as Hne.
    assert (E : archived os r d = delete (rotated_path (ao_name os) r)
      (<[zip_path (ao_name os) r := z]> (<[rotated_path (ao_name os) r := f]> (delete (m_logDir r, log_name) (dk_files d))))).
    { unfold archived, rename_log, archive_log, rename_file. rewrite Hp, Hf, Hco, Hren, Hz, lookup_insert_eq.
      unfold remove_archived. by rewrite lookup_partial_alter_eq, Hrem. }
    rewrite !rotated_files, E. split_and!.
    + rewrite lookup_delete_eq. by destruct (decide _) as [[_ H]|_].
    + rewrite lookup_delete_ne, lookup_insert_eq by done. by destruct (decide _) as [[_ H]|_].
    + rewrite lookup_delete_ne, lookup_insert_ne, lookup_insert_ne, lookup_delete_eq by discriminate.
      destruct (ao_open os) eqn:Eo; destruct (decide _) as [|H]; cbn; try done; intuition congruence.
  - intros p Hin. rewrite rotated_files, (archived_elsewhere os r d p Hp Hin).
    destruct (decide _) as [[_ ->]|_]; [|done]. by destruct Hin; left.
  - intros Hd p g Hg. by apply not_swept.
  - unfold RotateAndArchive. destruct (DeleteOldArchives _ _ _) as [[] m]; unfold open_log; by destruct (ao_open os).
Qed.
End swept.

(** * The schedule kept *)

(** The local minute for which rotation is set. *)
Definition due (local : Z → Z * Z) (s : LogRotationSettings) (now : Z) : Prop :=
  (lr_schedule s = lit "hourly" ∨ fst (local now) = lr_hour s) ∧ snd (local now) = lr_minute s.

Lemma NeedRotate_due local now r :
  NeedRotate local now r = true → due local (m_settings r) now ∧ m_lastRotate r + 60 * second <= now.
Proof.
  unfold NeedRotate, due. destruct (lr_enabled _); cbn [negb]; [|done].
  destruct (Z.ltb_spec (Z.quot (now - m_lastRotate r) second) 60) as [|Hq]; [done|].
  intros H. split.
  - destruct (local now) as [h m]. cbn [fst snd]. destruct (text_eqb _ _) eqn:E.
    + apply text_eqb_spec in E. apply Z.eqb_eq in H. auto.
    + apply andb_prop in H as [H1%Z.eqb_eq H2%Z.eqb_eq]. auto.
  - assert (0 <= now - m_lastRotate r).
    { destruct (Z.le_gt_cases 0 (now - m_lastRotate r)); [done|].
      assert (Z.quot (now - m_lastRotate r) second <= 0); [|lia].
      rewrite <- (Z.opp_involutive (now - _)), Z.quot_opp_l by done.
      pose proof (Z.quot_pos (- (now - m_lastRotate r)) second). unfold second in *. lia. }
    rewrite Z.quot_div_nonneg in Hq by done. unfold second in *. Z.div_mod_to_equations. lia.
Qed.

(** Rotations happen in due minutes only and are at least 60 seconds apart,
    unless a directory scan throws. *)
Theorem rotations_are_a_minute_apart {C} local (wakes : list (Z * ArchiveOs C)) r d :
  Forall (λ w : Z * ArchiveOs C, sc_throws (ao_archive_scan (snd w)) = false ∧ sc_throws (ao_log_scan (snd w)) = false) wakes →
  let '(ts, _, _) := scheduler local wakes r d in
  Forall (due local (m_settings r)) ts ∧
  Sorted (λ a b, a + 60 * second <= b) (m_lastRotate r :: ts).
Proof.
  intros H. revert r d. induction H as [|[now os] wakes Hos _ IH]; intros r d; cbn [scheduler].
  - split; repeat constructor.
  - unfold scheduler_turn. destruct (m_running r); cbn [negb].
    2: { specialize (IH r d). by destruct (scheduler _ wakes r d) as [[ts r'] d']. }
    destruct (NeedRotate local now r) eqn:E.
    2: { specialize (IH r d). by destruct (scheduler _ wakes r d) as [[ts r'] d']. }
    apply NeedRotate_due in E as [Hdue Hgap].
    unfold RotateAndArchive, DeleteOldArchives. cbn [snd] in Hos. destruct Hos as [-> ->].
    match goal with |- context [scheduler _ wakes (set_lastRotate now r) ?d1] =>
      specialize (IH (set_lastRotate now r) d1);
      destruct (scheduler local wakes (set_lastRotate now r) d1) as [[ts r'] d'] end.
    destruct IH as [Hd Hs]. split; [by constructor|]. by constructor; [|constructor].
Qed.

(** A wake-up comes every 60 sleeps of at least one second: when each takes
    1016 ms, a due minute can pass between two of them. *)
Definition clock_local (now : Z) : Z * Z := (now / (3600 * second) mod 24, now / (60 * second) mod 60).

Definition daily : LogRotationSettings := mkLogRotationSettings true (lit "daily") 3 0 30 (lit "a") true.

Definition scan_all (now : Z) : ScanOs := mkScanOs now (λ _, true) (λ _, true) false.

Definition plain_os (now : Z) : ArchiveOs Z :=
  mkArchiveOs (lit "m") true (ZipLeaves (Some (mkFile 7 true (Some (epoch_ticks + now))))) true true
    (scan_all now) (scan_all now) true (mkFile 0 true (Some (epoch_ticks + now))).

Definition daily_rotator : LogRotator :=
  mkRotator daily (lit "logs") (Some (lit "logs", log_name)) true 0.

Example due_minute_is_skipped :
  fst (fst (scheduler clock_local
         (map (λ i, let now := 3600 * 3 * second - 9000000 + 609600000 * i in (now, plain_os now)) (seqZ 0 200))
         daily_rotator (mkDisk true ∅))) = [].
Proof. vm_compute. reflexivity. Qed.

(** * Concrete runs *)

(** An archive of 2001, and the log. *)
Definition sample_files : gmap Path (File Z) :=
  {[ (lit "a", lit "logs_2001-01-01_0300.zip") := mkFile 1 true (Some (epoch_ticks + 9783000000000000));
     (lit "logs", log_name) := mkFile 7 true (Some (epoch_ticks + 17000000000000000)) ]}.

Lemma old_archives_are_never_deleted_witness :
  snd (DeleteOldArchives (plain_os 17000000000000000) daily_rotator sample_files) = sample_files.
Proof.
  apply old_archives_are_never_deleted.
  - unfold present_day, epoch_ticks. cbn. lia.
  - apply map_Forall_lookup. intros p f Hf t Ht. unfold sample_files in Hf.
    apply lookup_insert_Some in Hf as [[_ <-]|[_ Hf]].
    + injection Ht as <-. unfold epoch_ticks. lia.
    + apply lookup_singleton_Some in Hf as [_ <-]. injection Ht as <-. unfold epoch_ticks. lia.
Defined.

(** A file of before 1970 is deleted, its name and age being those asked for. *)
Example file_of_1960_is_deleted :
  snd (DeleteOldArchives (plain_os 17000000000000000) daily_rotator
    {[ (lit "logs", lit "old.log") := mkFile 1 true (Some 9783000000000000) ]}) = ∅.
Proof. vm_compute. reflexivity. Qed.

Lemma rotation_keeps_the_log_witness :
  held (plain_os 17000000000000000) daily_rotator 7
    (dk_files (snd (RotateAndArchive 17000000000000000 (plain_os 17000000000000000) daily_rotator
      (mkDisk true sample_files)))).
Proof.
  destruct (rotation_keeps_the_log 17000000000000000 (plain_os 17000000000000000) daily_rotator
    (mkDisk true sample_files) (mkFile 7 true (Some (epoch_ticks + 17000000000000000))))
    as [H _]; [reflexivity|vm_compute; reflexivity|].
  destruct H as [H|(p & g & Hin & Hg & _ & Hs)].
  - intros z [= <-]. reflexivity.
  - exact H.
  - exfalso. destruct Hin as [<-|[<-|[<-|[<-|[]]]]]; vm_compute in Hg; try discriminate Hg;
      injection Hg as <-; discriminate Hs.
Defined.
