(* ===== verification/IpcHandler.v ===== *)
(** [adapters/driving/IpcHandler.h]: the requests of the user interface, over
    the rule engine, the tracker, the configuration manager and the logger.

    The rest of the service is reached through callbacks only, which are the
    record [Callbacks] over an arbitrary state [X].  What the file operations
    of the saves of one request answer is the argument [os]. *)

From Stdlib Require Import SpecFloat.
From stdpp Require Import sorting.
From S2P Require Import Prelude.
From S2P Require Import Text.
From S2P Require Import Entities.
From S2P Require Import RuleEngine.
From S2P Require Import ConnectionTracker.
From S2P Require Import Json.
From S2P Require Import ConfigManager.
From S2P Require Import Logger.
From S2P Require Import Ipc.

Section handler.
Context {M X : Type}.
Context (sort : list Rule → list Rule).
Context (MultiByteToWideChar WideCharToMultiByte : text → option text).
Context (CryptProtectData CryptUnprotectData : text → option text).
(** The printer of the configuration file, the printer of replies, the parser. *)
Context (dump4 : json → option M) (dump : json → exec text) (parse : text → exec json).
Abbreviation Utf8ToWide := (Utf8ToWide MultiByteToWideChar).
Abbreviation WideToUtf8 := (WideToUtf8 WideCharToMultiByte).

(** * State *)

(** The parts the handler points to, and the rest of the service. *)
Record Parts := mkParts {
  h_ruleEngine : RuleEngine;
  h_connectionTracker : ConnectionTracker;
  h_configManager : Manager M;
  h_logger : Logger;
  h_running : bool;
  h_initialized : bool;
  h_rest : X
}.

Definition put_engine (e : RuleEngine) (s : Parts) : Parts :=
  mkParts e (h_connectionTracker s) (h_configManager s) (h_logger s) (h_running s) (h_initialized s) (h_rest s).
Definition put_tracker (t : ConnectionTracker) (s : Parts) : Parts :=
  mkParts (h_ruleEngine s) t (h_configManager s) (h_logger s) (h_running s) (h_initialized s) (h_rest s).
Definition put_config (c : Manager M) (s : Parts) : Parts :=
  mkParts (h_ruleEngine s) (h_connectionTracker s) c (h_logger s) (h_running s) (h_initialized s) (h_rest s).
Definition put_logger (l : Logger) (s : Parts) : Parts :=
  mkParts (h_ruleEngine s) (h_connectionTracker s) (h_configManager s) l (h_running s) (h_initialized s) (h_rest s).

(** The callbacks of the constructor, each possibly null. *)
Record Callbacks := mkCallbacks {
  m_getRelayBytes : option (Parts → Z * Z);
  m_getActiveCount : option (Parts → Z);
  m_getUptime : option (Parts → Z);
  m_captureControl : option (bool → Parts → bool * Parts);
  m_reloadConfig : option (Parts → exec bool * Parts)
}.

Context (cb : Callbacks).

(** A handler method: what it leaves in [result], or its exception. *)
Definition Method : Type := Parts → exec (list (String.string * json)) * Parts.

Definition succeed (data : list (String.string * json)) : exec (list (String.string * json)) :=
  Done (("status", JStr (lit "success")) :: data)%string.
Definition fail_with (what : String.string) : exec (list (String.string * json)) :=
  Done [("status", JStr (lit "error")); ("error", JStr (lit what))]%string.
Arguments fail_with what%_string_scope.

Definition GetConfig : Method := λ s,
  let config := GetProxyConfig MultiByteToWideChar CryptUnprotectData (h_configManager s) in
  (succeed [("data", obj [("proxy", obj
     [("host", JStr (WideToUtf8 (pc_host config))); ("port", JInt (pc_port config));
      ("auth_required", JBool (pc_auth_required config));
      ("has_password", JBool (pc_has_password config))])])]%string, s).

Definition read_proxy_config (j : json) : exec ProxyConfig :=
  host <-? (v <-? at_mut "host" j;; get_string v);;
  port <-? (v <-? at_mut "port" j;; get_uint16 v);;
  auth_required <-? value_or get_bool "auth_required" false j;;
  kerberos <-? value_or get_bool "kerberos" false j;;
  login <-? value_or get_string "login" [] j;;
  set_password <-? value_or get_bool "set_password" false j;;
  password <-? (if set_password : bool then value_or get_string "password" [] j else Done []);;
  Done (mkProxyConfig (Utf8ToWide host) port (auth_required || kerberos) kerberos (Utf8ToWide login)
          [] set_password (Utf8ToWide password)).

Definition SetConfig (os : nat → FileOs) (params : text) : Method := λ s,
  match (j <-? parse params;; read_proxy_config j) with
  | Raised e => (Raised e, s)
  | Undefined => (Undefined, s)
  | Done config =>
      let '(ok, c) := SetProxyConfig WideCharToMultiByte CryptProtectData dump4 (os 0%nat) config (h_configManager s) in
      if negb ok then (fail_with "failed to save proxy config", put_config c s)
      else
        let '(ok, c) := SaveImpl WideCharToMultiByte dump4 (os 1%nat) c in
        ((if ok then succeed [] else fail_with "failed to persist config"), put_config c s)
  end.

Definition rule_reply (r : Rule) : json :=
  obj [("id", JStr (r_id r)); ("pattern", JStr (WideToUtf8 (r_pattern r)));
       ("description", JStr (WideToUtf8 (r_description r))); ("priority", JInt (r_priority r));
       ("enabled", JBool (r_enabled r)); ("type", JInt (RuleType_to_int (r_type r)));
       ("action", JInt (RuleAction_to_int (r_action r)))]%string.

Definition GetRules : Method := λ s,
  (succeed [("data", obj [("rules", JArr (map rule_reply (RuleEngine.GetRules (h_ruleEngine s))))])]%string, s).

Definition read_rule (r : json) : exec Rule :=
  id <-? value_or get_string "id" [] r;;
  pattern <-? (p <-? at_const "pattern" r;; get_string p);;
  description <-? value_or get_string "description" [] r;;
  priority <-? value_or get_int "priority" 0 r;;
  enabled <-? value_or get_bool "enabled" true r;;
  type <-? value_or get_int "type" 0 r;;
  action <-? value_or get_int "action" 0 r;;
  Done (mkRule id (RuleType_of_int type) (RuleAction_of_int action) (Utf8ToWide pattern)
          (Utf8ToWide description) priority enabled 0 0).

Fixpoint read_rules (l : list json) : exec (list Rule) :=
  match l with
  | [] => Done []
  | r :: l' => rule <-? read_rule r;; rules <-? read_rules l';; Done (rule :: rules)
  end.

Definition rules_of_params (params : text) : exec (list Rule) :=
  j <-? parse params;; rs <-? at_mut "rules" j;; read_rules (elements rs).

Definition SetRules (os : nat → FileOs) (params : text) : Method := λ s,
  match rules_of_params params with
  | Raised e => (Raised e, s)
  | Undefined => (Undefined, s)
  | Done rules =>
      let s := put_engine (RuleEngine.SetRules sort rules (h_ruleEngine s)) s in
      let '(_, c) := ConfigManager.SetRules rules (h_configManager s) in
      let '(_, c) := SaveImpl WideCharToMultiByte dump4 (os 0%nat) c in
      (succeed [], put_config c s)
  end.

Definition connection_reply (c : ConnectionRecord) : json :=
  obj [("id", JInt (cr_id c)); ("pid", JInt (cr_pid c));
       ("process_name", JStr (WideToUtf8 (cr_process_name c)));
       ("destination_host", JStr (WideToUtf8 (cr_destination_host c)));
       ("destination_ip", JStr (cr_destination_ip c)); ("destination_port", JInt (cr_destination_port c));
       ("rx_bytes", JInt (cr_rx_bytes c)); ("tx_bytes", JInt (cr_tx_bytes c));
       ("duration_ms", JInt (cr_duration c)); ("state", JInt (ConnectionState_to_int (cr_state c)));
       ("proxy_enabled", JBool (cr_proxy_enabled c))]%string.

Definition GetConnections (now : Z) : Method := λ s,
  (succeed [("data", obj [("connections",
     JArr (map connection_reply (GetActiveConnections now (h_connectionTracker s))))])]%string, s).

Definition log_reply (e : LogEntry) : json :=
  obj [("timestamp", JInt (le_timestamp e)); ("level", JInt (LogLevel_to_int (le_level e)));
       ("logger", JStr (le_logger e)); ("message", JStr (le_message e))]%string.

Definition GetLogs : Method := λ s,
  (succeed [("data", obj [("logs", JArr (map log_reply (GetRecentEntries 500 (m_ring (h_logger s)))))])]%string, s).

(** The statistics are read before the uptime is pushed. *)
Definition GetStats : Method := λ s,
  let stats := GetAggregatedStats (h_connectionTracker s) in
  let '(rx, tx) :=
    match m_getRelayBytes cb with
    | Some f =>
        let '(brx, btx) := f s in
        (if ss_total_rx_bytes stats <? brx then brx else ss_total_rx_bytes stats,
         if ss_total_tx_bytes stats <? btx then btx else ss_total_tx_bytes stats)
    | None => (ss_total_rx_bytes stats, ss_total_tx_bytes stats)
    end in
  let active := match m_getActiveCount cb with Some f => f s | None => ss_active_connections stats end in
  let s := match m_getUptime cb with
           | Some f => put_tracker (SetUptimeSeconds (f s) (h_connectionTracker s)) s
           | None => s
           end in
  (succeed [("data", obj
     [("active_connections", JInt active); ("total_rx_bytes", JInt rx); ("total_tx_bytes", JInt tx);
      ("proxy_errors", JInt (ss_proxy_errors stats)); ("avg_latency_ms", JFloat (ss_avg_latency_ms stats));
      ("uptime_seconds", JInt (ss_uptime_seconds stats))])]%string, s).

Definition GetStatus : Method := λ s,
  (succeed [("data", obj [("running", JBool (h_running s)); ("initialized", JBool (h_initialized s))])]%string, s).

Definition read_level (params : text) : exec LogLevel :=
  j <-? parse params;; v <-? at_mut "level" j;; n <-? get_int v;; Done (LogLevel_of_int n).

Definition SetLogLevel (os : nat → FileOs) (params : text) : Method := λ s,
  match read_level params with
  | Raised e => (Raised e, s)
  | Undefined => (Undefined, s)
  | Done level =>
      let s := put_logger (SetLevel level (h_logger s)) s in
      let '(_, c) := ConfigManager.SetLogLevel WideCharToMultiByte dump4 (os 0%nat) level (h_configManager s) in
      let '(_, c) := SaveImpl WideCharToMultiByte dump4 (os 1%nat) c in
      (succeed [], put_config c s)
  end.

Definition capture_reply (ok active : bool) (what : String.string) : exec (list (String.string * json)) :=
  Done ([("status", JStr (if ok then lit "success" else lit "error"));
         ("data", obj [("capture_active", JBool active)])]
        ++ if ok then [] else [("error", JStr (lit what))])%string.
Arguments capture_reply ok active what%_string_scope.

Definition CaptureStart : Method := λ s,
  match m_captureControl cb with
  | Some f => let '(ok, s) := f true s in (capture_reply ok ok "capture_start_failed", s)
  | None => (fail_with "capture_control_not_available", s)
  end.

Definition CaptureStop : Method := λ s,
  match m_captureControl cb with
  | Some f => let '(ok, s) := f false s in (capture_reply ok (negb ok) "capture_stop_failed", s)
  | None => (fail_with "capture_control_not_available", s)
  end.

Definition ReloadConfig : Method := λ s,
  match m_reloadConfig cb with
  | Some f =>
      match f s with
      | (Done ok, s) => ((if ok : bool then succeed [] else fail_with "reload_failed"), s)
      | (Raised e, s) => (Raised e, s)
      | (Undefined, s) => (Undefined, s)
      end
  | None => (fail_with "reload_not_available", s)
  end.

(** * Handle *)

Definition dispatch (now : Z) (os : nat → FileOs) (method params : text) : Method :=
  if text_eqb method (lit "get_config") then GetConfig
  else if text_eqb method (lit "set_config") then SetConfig os params
  else if text_eqb method (lit "get_rules") then GetRules
  else if text_eqb method (lit "set_rules") then SetRules os params
  else if text_eqb method (lit "get_connections") then GetConnections now
  else if text_eqb method (lit "get_logs") then GetLogs
  else if text_eqb method (lit "get_stats") then GetStats
  else if text_eqb method (lit "service_status") then GetStatus
  else if text_eqb method (lit "set_log_level") then SetLogLevel os params
  else if text_eqb method (lit "capture_start") then CaptureStart
  else if text_eqb method (lit "capture_stop") then CaptureStop
  else if text_eqb method (lit "reload_config") then ReloadConfig
  else λ s, (fail_with "unknown_method", s).

Definition MAX_IPC_MESSAGE_SIZE : Z := 1048576.

(** The value of [result] before it is printed. *)
Definition result_of (now : Z) (os : nat → FileOs) (method params : text) (s : Parts) : exec json * Parts :=
  match dispatch now os method params s with
  | (Done fields, s) => (Done (obj fields), s)
  | (Raised what, s) => (Done (obj [("status", JStr (lit "error")); ("error", JStr what)]%string), s)
  | (Undefined, s) => (Undefined, s)
  end.

(** Printing is outside the [try]. *)
Definition Handle (now : Z) (os : nat → FileOs) : RequestCallback Parts := λ method params s,
  if MAX_IPC_MESSAGE_SIZE <? Z.of_nat (length params) then
    (Done (raw "{'status':'error','error':'message_too_large'}"), s)
  else
    match result_of now os method params s with
    | (Done result, s) => (dump result, s)
    | (Raised e, s) => (Raised e, s)
    | (Undefined, s) => (Undefined, s)
    end.
End handler.

Arguments Parts : clear implicits.
Arguments Callbacks : clear implicits.
Arguments fail_with what%_string_scope.

(** * Refused requests *)

Section theorems.
Context {M X : Type}.
Context (sort : list Rule → list Rule).
Context (MultiByteToWideChar WideCharToMultiByte : text → option text).
Context (CryptProtectData CryptUnprotectData : text → option text).
Context (dump4 : json → option M) (parse4 : M → option json).
Context (dump : json → exec text) (parse : text → exec json).
Context (cb : Callbacks M X).
Implicit Types s : Parts M X.

Abbreviation Dispatch := (dispatch sort MultiByteToWideChar WideCharToMultiByte CryptProtectData
                            CryptUnprotectData dump4 parse cb).
Abbreviation Answer := (Handle sort MultiByteToWideChar WideCharToMultiByte CryptProtectData
                          CryptUnprotectData dump4 dump parse cb).
Abbreviation SetRulesRequest := (SetRules sort MultiByteToWideChar WideCharToMultiByte dump4 parse).
Abbreviation RulesOf := (rules_of_params MultiByteToWideChar parse).

(** A reload that throws leaves the service as it was. *)
Definition reload_is_atomic : Prop :=
  ∀ f s e s', m_reloadConfig cb = Some f → f s = (Raised e, s') → s' = s.

Definition known_methods : list text :=
  map lit ["get_config"; "set_config"; "get_rules"; "set_rules"; "get_connections"; "get_logs";
           "get_stats"; "service_status"; "set_log_level"; "capture_start"; "capture_stop";
           "reload_config"]%string.

(** a request that is refused changes nothing.  When a method throws, on
    parameters that do not parse or whose fields have the wrong type, and when
    the method is unknown, the reply is an error and the rules, settings,
    files, logger, tracker and capture are as before the request. *)
Theorem refused_requests_change_nothing now os method params s :
  reload_is_atomic →
  (∀ e s', Dispatch now os method params s = (Raised e, s') →
     s' = s ∧ result_of sort MultiByteToWideChar WideCharToMultiByte CryptProtectData CryptUnprotectData
                dump4 parse cb now os method params s =
              (Done (obj [("status", JStr (lit "error")); ("error", JStr e)]%string), s)) ∧
  (¬ In method known_methods →
   Dispatch now os method params s = (fail_with "unknown_method", s)).
Proof.
  intros Hr. split.
  - intros e s' H. assert (s' = s) as ->; [|unfold result_of; by rewrite H]. revert H. unfold dispatch.
    repeat match goal with |- context [if text_eqb method ?t then _ else _] => destruct (text_eqb method t) end;
      intros H; try (by injection H as ? <-);
      unfold GetConfig, SetConfig, GetRules, SetRules, GetConnections, GetLogs, GetStats, GetStatus,
        SetLogLevel, CaptureStart, CaptureStop, ReloadConfig in H;
      repeat case_match; simplify_eq; try done; by eapply Hr.
  - intros Hn. unfold dispatch.
    assert (H : ∀ t, In t known_methods → text_eqb method t = false).
    { intros t Ht. destruct (text_eqb method t) eqn:E; [|done]. apply text_eqb_spec in E. by subst. }
    rewrite !H by (cbn [known_methods map In]; auto 20). done.
Qed.

(** * Rules *)

(** A kind that the configuration file can name. *)
Definition named (r : Rule) : Prop :=
  (r_type r = ProcessName ∨ r_type r = ProcessPath ∨ r_type r = Global) ∧
  (r_action r = Proxy ∨ r_action r = Direct ∨ r_action r = Block).

Lemma read_rule_dates j r : read_rule MultiByteToWideChar j = Done r →
  r_created r = 0 ∧ r_modified r = 0 ∧ in_s 32 (r_priority r).
Proof.
  unfold read_rule. intros H.
  repeat match type of H with ebind ?x _ = _ => destruct x as [?|?|] eqn:?; cbn [ebind] in H; try done end.
  injection H as <-. cbn. split_and!; [done..|].
  eapply value_or_int_range; [|eassumption]. done.
Qed.

Lemma read_rules_dates l rs : read_rules MultiByteToWideChar l = Done rs →
  Forall (λ r, r_created r = 0 ∧ r_modified r = 0 ∧ in_s 32 (r_priority r)) rs.
Proof.
  revert rs. induction l as [|j l IH]; intros rs; cbn [read_rules].
  - intros [= <-]. constructor.
  - destruct (read_rule _ j) as [r|e|] eqn:E; [|done..]. destruct (read_rules _ l) as [rs'|e|]; [|done..].
    cbn. intros [= <-]. constructor; [by eapply read_rule_dates|by apply IH].
Qed.

Lemma rules_of_dates params rs : RulesOf params = Done rs →
  Forall (λ r, r_created r = 0 ∧ r_modified r = 0 ∧ in_s 32 (r_priority r)) rs.
Proof.
  unfold rules_of_params. intros H.
  destruct (parse params) as [j|e|]; [|done..]. cbn [ebind] in H.
  destruct (at_mut "rules" j) as [l|e|]; [|done..]. by apply read_rules_dates in H.
Qed.

Lemma reloaded_named r :
  named r → r_created r = 0 → r_modified r = 0 → reloaded_rule r = r.
Proof.
  destruct r as [id ty ac pat desc prio en cr mo]. unfold named, reloaded_rule. cbn.
  intros [Ht Ha] -> ->. f_equal; [by destruct Ht as [->|[->| ->]]|by destruct Ha as [->|[->| ->]]].
Qed.

(** What a [set_rules] request does, whether or not its save succeeds. *)
Lemma SetRules_effect os params s rs :
  RulesOf params = Done rs →
  SetRulesRequest os params s =
  (succeed [], put_config (snd (SaveImpl WideCharToMultiByte dump4 (os 0%nat)
                            (ConfigManager.set_rules rs (h_configManager s))))
                 (put_engine (RuleEngine.SetRules sort rs (h_ruleEngine s)) s)).
Proof.
  intros H. unfold SetRules. rewrite H. cbn.
  by destruct (SaveImpl WideCharToMultiByte dump4 (os 0%nat) _) as [ok c].
Qed.

(** A service started on a file that holds named rules has the same engine. *)
Lemma saved_rules_reload os os' m rs :
  let cold := ConfigManager_new (cm_file (snd (SaveImpl WideCharToMultiByte dump4 os (ConfigManager.set_rules rs m)))) in
  parses_back dump4 parse4 →
  settings_ok MultiByteToWideChar WideCharToMultiByte (m_config m) →
  Forall (λ r, named r ∧ convertible MultiByteToWideChar WideCharToMultiByte (r_pattern r) ∧
               convertible MultiByteToWideChar WideCharToMultiByte (r_description r)) rs →
  fst (SaveImpl WideCharToMultiByte dump4 os (ConfigManager.set_rules rs m)) = true →
  fs_write os = Written → fs_exists os' = true → fs_read os' = true →
  Forall (λ r, r_created r = 0 ∧ r_modified r = 0 ∧ in_s 32 (r_priority r)) rs →
  ∃ c, LoadImpl MultiByteToWideChar WideCharToMultiByte dump4 parse4 os' cold = (Done true, c) ∧
       (∀ e, RuleEngine.SetRules sort (ConfigManager.GetRules c) (mkRuleEngine []) = RuleEngine.SetRules sort rs e) ∧
       m_config c = with_mode KerberosPreferred (m_config m).
Proof.
  intros cold Hpb Hset Hall Hok Hw He Hr Hd. subst cold.
  rewrite (load_saved MultiByteToWideChar WideCharToMultiByte dump4 parse4 os os' (ConfigManager.set_rules rs m));
    [|done..| |done|done|done|done|done].
  - eexists. split; [reflexivity|]. split; [|done]. intros e. cbn.
    unfold RuleEngine.SetRules. do 2 f_equal. clear -Hall Hd. induction Hall as [|r rs [Hn _] _ IH]; [done|].
    inversion Hd as [|? ? (H1 & H2 & _) Hd']; subst. cbn [map].
    rewrite reloaded_named by done. by rewrite IH.
  - cbn. clear -Hall Hd. induction Hall as [|r rs (Hn & Hp & Hds) _ IH]; [constructor|].
    inversion Hd as [|? ? (H1 & H2 & H3) Hd']; subst. constructor; [done|by apply IH].
Qed.

(** rules that the user interface sets are in force at once and survive a
    restart.  For a request that decodes, whose rules the configuration file
    can name and whose text converts, the engine decides by the new rules; the
    request succeeds even if the file could not be written; and if it was, a
    service started on that file gets an engine with exactly these rules, in
    the same order, and the same settings up to the authentication mode. *)
Theorem rules_survive_restart now os os' params s rs :
  Z.of_nat (length params) <= MAX_IPC_MESSAGE_SIZE → RulesOf params = Done rs →
  let req := result_of sort MultiByteToWideChar WideCharToMultiByte CryptProtectData CryptUnprotectData
               dump4 parse cb now os (lit "set_rules") params s in
  let manager := h_configManager (snd req) in
  let cold := ConfigManager_new (cm_file manager) in
  fst req = Done (obj [("status", JStr (lit "success"))]%string) ∧
  h_ruleEngine (snd req) = RuleEngine.SetRules sort rs (h_ruleEngine s) ∧
  (parses_back dump4 parse4 →
   settings_ok MultiByteToWideChar WideCharToMultiByte (m_config (h_configManager s)) →
   Forall (λ r, named r ∧ convertible MultiByteToWideChar WideCharToMultiByte (r_pattern r) ∧
                convertible MultiByteToWideChar WideCharToMultiByte (r_description r)) rs →
   fst (SaveImpl WideCharToMultiByte dump4 (os 0%nat) (ConfigManager.set_rules rs (h_configManager s))) = true →
   fs_write (os 0%nat) = Written → fs_exists os' = true → fs_read os' = true →
   ∃ c, LoadImpl MultiByteToWideChar WideCharToMultiByte dump4 parse4 os' cold = (Done true, c) ∧
        RuleEngine.SetRules sort (ConfigManager.GetRules c) (mkRuleEngine []) = h_ruleEngine (snd req) ∧
        m_config c = with_mode KerberosPreferred (m_config (h_configManager s))).
Proof.
  intros Hlen Hrs. cbv zeta. unfold result_of, dispatch.
  change (text_eqb (lit "set_rules") (lit "get_config")) with false.
  change (text_eqb (lit "set_rules") (lit "set_config")) with false.
  change (text_eqb (lit "set_rules") (lit "get_rules")) with false.
  change (text_eqb (lit "set_rules") (lit "set_rules")) with true. cbn iota.
  rewrite (SetRules_effect os params s rs Hrs). cbn [succeed fst snd put_config put_engine
    h_ruleEngine h_configManager]. split; [done|]. split; [done|].
  intros Hpb Hset Hall Hok Hw He Hr.
  destruct (saved_rules_reload (os 0%nat) os' (h_configManager s) rs) as (c & Hc & Hrules & Hm);
    [done..|by eapply rules_of_dates|]. exists c. split; [done|]. split; [apply Hrules|done].
Qed.
End theorems.

(** * Concrete runs *)

Definition no_callbacks : Callbacks json unit := mkCallbacks None None None None None.

Definition sample_logger : Logger :=
  Initialize true true LInfo 10 5 (mkLogFiles false None ∅).

Definition sample_parts : Parts json unit :=
  mkParts (mkRuleEngine []) ConnectionTracker_new (set_config default_config (ConfigManager_new None))
    sample_logger true true tt.

(** Two rules, the first of lower precedence. *)
Definition sample_request : json :=
  obj [("rules", JArr
    [obj [("id", JStr (lit "a")); ("pattern", JStr (lit "*")); ("priority", JInt 9); ("action", JInt 1)];
     obj [("id", JStr (lit "b")); ("pattern", JStr (lit "app.exe")); ("priority", JInt 1)]])]%string.

Definition sample_params_parse (t : text) : exec json :=
  if text_eqb t (lit "rules") then Done sample_request else Raised (lit "parse error").

Definition rule_a : Rule := mkRule (lit "a") ProcessName Direct (lit "*") [] 9 true 0 0.
Definition rule_b : Rule := mkRule (lit "b") ProcessName Proxy (lit "app.exe") [] 1 true 0 0.

Lemma refused_requests_change_nothing_witness :
  dispatch (merge_sort prio_le) Some Some Some Some Some sample_params_parse no_callbacks
    0 (λ _, sample_os) (lit "set_rules") (lit "garbage") sample_parts =
  (Raised (lit "parse error"), sample_parts).
Proof.
  destruct (refused_requests_change_nothing (merge_sort prio_le) Some Some Some Some Some sample_params_parse
              no_callbacks 0 (λ _, sample_os) (lit "set_rules") (lit "garbage") sample_parts) as [H _].
  - intros f s e s' Hf. discriminate Hf.
  - destruct (dispatch _ _ _ _ _ _ _ _ _ _ _ _ sample_parts) as [r s'] eqn:E.
    assert (Hr : r = Raised (lit "parse error")).
    { replace r with (fst (r, s')) by reflexivity. rewrite <- E. vm_compute. reflexivity. }
    rewrite Hr in H |- *. by destruct (H _ _ eq_refl) as [-> _].
Defined.

Lemma rules_survive_restart_witness :
  ∃ c, LoadImpl Some Some Some Some sample_os
         (ConfigManager_new (cm_file (h_configManager (snd
            (result_of (merge_sort prio_le) Some Some Some Some Some sample_params_parse no_callbacks
               0 (λ _, sample_os) (lit "set_rules") (lit "rules") sample_parts))))) = (Done true, c) ∧
       RuleEngine.SetRules (merge_sort prio_le) (ConfigManager.GetRules c) (mkRuleEngine []) =
       mkRuleEngine [rule_b; rule_a].
Proof.
  destruct (rules_survive_restart (merge_sort prio_le) Some Some Some Some Some Some sample_params_parse
              no_callbacks 0 (λ _, sample_os) sample_os (lit "rules") sample_parts [rule_a; rule_b])
    as (_ & He & H); [discriminate|reflexivity|].
  destruct H as (c & Hl & Hs & _).
  - intros j m _ Hm. injection Hm as <-. reflexivity.
  - vm_compute. repeat split; discriminate.
  - apply List.Forall_cons; [|apply List.Forall_cons; [|apply List.Forall_nil]];
      (split; [split; cbn; auto|split; reflexivity]).
  - reflexivity.
  - reflexivity.
  - reflexivity.
  - reflexivity.
  - exists c. split; [exact Hl|]. rewrite Hs, He. vm_compute. reflexivity.
Defined.
