(* ===== verification/WinDivertDriver.v ===== *)
(** What [WinDivertCapture::Open] does before it opens a handle
    ([infrastructure/capture/WinDivertCapture.cpp]): loading WinDivert.dll with
    its functions ([WinDivertApi::Load], [Unload]) and starting the kernel
    driver through the service manager ([EnsureDriverRunning]).

    The answers of the system come with the call; a trace records the handles
    that are opened and closed, and the waits. *)

From S2P Require Import Prelude.
From S2P Require Import Text.

(** * The library *)

Record WinDivertApi := mkApi {
  dll : option Z;
  api_functions : list (text * Z);       (* the pointers that are set *)
  dll_refs : Z                           (* loads less frees *)
}.

Definition WinDivertApi_new : WinDivertApi := mkApi None [] 0.

Definition api_names : list text :=
  [lit "WinDivertOpen"; lit "WinDivertRecv"; lit "WinDivertSend"; lit "WinDivertClose";
   lit "WinDivertShutdown"; lit "WinDivertSetParam"; lit "WinDivertGetParam";
   lit "WinDivertHelperParsePacket"; lit "WinDivertHelperCalcChecksums"].

Definition Unload (a : WinDivertApi) : WinDivertApi :=
  mkApi None [] (match dll a with Some _ => dll_refs a - 1 | None => dll_refs a end).

(** The LOAD macro for one name after the other. *)
Fixpoint load_functions (address : text → option Z) (names : list text) (a : WinDivertApi) : bool * WinDivertApi :=
  match names with
  | [] => (true, a)
  | n :: names' =>
      match address n with
      | None => (false, Unload a)
      | Some f => load_functions address names' (mkApi (dll a) (api_functions a ++ [(n, f)]) (dll_refs a))
      end
  end.

Definition Load (library : option Z) (address : text → option Z) (a : WinDivertApi) : bool * WinDivertApi :=
  match dll a, library with
  | Some _, _ => (true, a)
  | None, None => (false, a)
  | None, Some h => load_functions address api_names (mkApi (Some h) [] (dll_refs a + 1))
  end.

(** Loaded with all its functions, or not at all. *)
Definition api_wf (a : WinDivertApi) : Prop :=
  match dll a with
  | Some _ => map fst (api_functions a) = api_names ∧ dll_refs a = 1
  | None => api_functions a = [] ∧ dll_refs a = 0
  end.

Lemma load_functions_wf address names done a ok a' :
  load_functions address names a = (ok, a') → is_Some (dll a) → dll_refs a = 1 →
  map fst (api_functions a) = done → done ++ names = api_names →
  api_wf a' ∧ (ok = true ↔ is_Some (dll a')).
Proof.
  revert done a. induction names as [|n names IH]; intros done a; cbn [load_functions].
  - intros [= <- <-] [h Hh] Hr Hf Hn. rewrite app_nil_r in Hn. unfold api_wf. rewrite Hh.
    split; [by rewrite Hf|]. split; [by eexists|done].
  - destruct (address n) as [f|]; [|intros [= <- <-] [h Hh] Hr Hf Hn].
    + intros Hl Hd Hr Hf Hn. apply (IH (done ++ [n]) _ Hl Hd Hr); [|by rewrite <- app_assoc].
      cbn. by rewrite map_app, Hf.
    + unfold api_wf, Unload. cbn. rewrite Hh, Hr. split; [done|]. split; [done|]. by intros [].
Qed.

(** Loading and unloading keep the library whole: its functions are all there
    exactly when it is, and it is loaded once. *)
Theorem library_is_whole library address a :
  api_wf a →
  let '(ok, a') := Load library address a in
  api_wf a' ∧ (ok = true ↔ is_Some (dll a')) ∧ api_wf (Unload a').
Proof.
  intros Hwf. assert (Hun : ∀ b, api_wf b → api_wf (Unload b)).
  { intros b Hb. unfold api_wf, Unload in *. cbn. split; [done|]. destruct (dll b); [|by destruct Hb].
    destruct Hb as [_ ->]. done. }
  destruct (Load library address a) as [ok a'] eqn:E.
  assert (H : api_wf a' ∧ (ok = true ↔ is_Some (dll a'))); [|destruct H; auto].
  unfold Load in E. destruct (dll a) as [h|] eqn:Hd.
  - injection E as <- <-. rewrite Hd. split; [done|]. by split.
  - destruct library as [h|]; [|injection E as <- <-; rewrite Hd; split; [done|]; split; [done|by intros []]].
    apply (load_functions_wf address api_names [] _ ok a') in E; try done; cbn.
    unfold api_wf in Hwf. rewrite Hd in Hwf. destruct Hwf as [_ ->]. done.
Qed.

(** * The kernel driver *)

Definition ERROR_SERVICE_DOES_NOT_EXIST : Z := 1060.
Definition ERROR_SERVICE_ALREADY_RUNNING : Z := 1056.
Definition SERVICE_STOPPED : Z := 1.
Definition SERVICE_RUNNING : Z := 4.

Record ScmOs := mkScm {
  sm_manager : option Z;
  sm_service : Z + Z;                    (* a handle, or the error *)
  sm_create : option Z;
  sm_query : option Z;                   (* the state *)
  sm_start : option Z;                   (* the error, if any *)
  sm_poll : nat → option Z
}.

Inductive ScmEvent := ScOpened (h : Z) | ScClosed (h : Z) | ScCreated | ScStarted | ScSlept.

(** Up to [n] polls, 100 ms apart. *)
Fixpoint wait_running (n : nat) (poll : nat → option Z) (i : nat) : bool * list ScmEvent :=
  match n with
  | O => (false, [])
  | S n' =>
      match poll i with
      | Some s =>
          if s =? SERVICE_RUNNING then (true, [ScSlept])
          else let '(ok, es) := wait_running n' poll (S i) in (ok, ScSlept :: es)
      | None => let '(ok, es) := wait_running n' poll (S i) in (ok, ScSlept :: es)
      end
  end.

Definition open_service (os : ScmOs) : option Z * list ScmEvent :=
  match sm_service os with
  | inl h => (Some h, [ScOpened h])
  | inr err =>
      if err =? ERROR_SERVICE_DOES_NOT_EXIST then
        match sm_create os with Some h => (Some h, [ScCreated; ScOpened h]) | None => (None, []) end
      else (None, [])
  end.

Definition start_driver (os : ScmOs) : bool * list ScmEvent :=
  match sm_query os with
  | None => (false, [])
  | Some state =>
      if state =? SERVICE_RUNNING then (true, [])
      else if state =? SERVICE_STOPPED then
        match sm_start os with
        | None => let '(ok, es) := wait_running 30 (sm_poll os) 0 in (ok, ScStarted :: es)
        | Some err => (err =? ERROR_SERVICE_ALREADY_RUNNING, [])
        end
      else (false, [])
  end.

Definition EnsureDriverRunning (os : ScmOs) : bool * list ScmEvent :=
  match sm_manager os with
  | None => (false, [])
  | Some scm =>
      let '(svc, es) := open_service os in
      match svc with
      | None => (false, ScOpened scm :: es ++ [ScClosed scm])
      | Some h =>
          let '(ready, es') := start_driver os in
          (ready, ScOpened scm :: es ++ es' ++ [ScClosed h; ScClosed scm])
      end
  end.

Definition opened (tr : list ScmEvent) : list Z := omap (λ e, match e with ScOpened h => Some h | _ => None end) tr.
Definition closed (tr : list ScmEvent) : list Z := omap (λ e, match e with ScClosed h => Some h | _ => None end) tr.
Definition waits (tr : list ScmEvent) : nat := length (filterb (λ e, match e with ScSlept => true | _ => false end) tr).

Lemma wait_running_spec n poll i :
  let '(ok, es) := wait_running n poll i in
  (ok = true ↔ ∃ k, (i <= k < i + n)%nat ∧ poll k = Some SERVICE_RUNNING) ∧
  opened es = [] ∧ closed es = [] ∧ (waits es <= n)%nat.
Proof.
  revert i. induction n as [|n IH]; intros i; cbn [wait_running].
  - split; [split; [done|intros (k & Hk & _); lia]|]. by split_and!.
  - assert (Hskip : poll i ≠ Some SERVICE_RUNNING →
      let '(ok, es) := (let '(ok, es) := wait_running n poll (S i) in (ok, ScSlept :: es)) in
      (ok = true ↔ ∃ k, (i <= k < i + S n)%nat ∧ poll k = Some SERVICE_RUNNING) ∧
      opened es = [] ∧ closed es = [] ∧ (waits es <= S n)%nat).
    { intros Hne. specialize (IH (S i)). destruct (wait_running n poll (S i)) as [ok es].
      destruct IH as (H1 & H2 & H3 & H4). split.
      - rewrite H1. split; intros (k & Hk & Hp); exists k; (split; [|done]); [lia|].
        destruct (decide (k = i)) as [->|]; [congruence|lia].
      - split_and!; [done..|]. change (waits (ScSlept :: es)) with (S (waits es)). lia. }
    destruct (poll i) as [s|] eqn:E; [|by apply Hskip].
    destruct (Z.eqb_spec s SERVICE_RUNNING) as [->|Hs]; [|apply Hskip; congruence].
    split; [split; [intros _; exists i; split; [lia|done]|done]|]. split_and!; [done..|]. unfold waits. cbn. lia.
Qed.

(** When the driver counts as ready. *)
Definition becomes_ready (os : ScmOs) : Prop :=
  is_Some (fst (open_service os)) ∧
  (sm_query os = Some SERVICE_RUNNING ∨
   sm_query os = Some SERVICE_STOPPED ∧
     (sm_start os = Some ERROR_SERVICE_ALREADY_RUNNING ∨
      sm_start os = None ∧ ∃ k, (k < 30)%nat ∧ sm_poll os k = Some SERVICE_RUNNING)).

Lemma start_driver_spec os :
  let '(ok, es) := start_driver os in
  (ok = true ↔ sm_query os = Some SERVICE_RUNNING ∨ sm_query os = Some SERVICE_STOPPED ∧
     (sm_start os = Some ERROR_SERVICE_ALREADY_RUNNING ∨
      sm_start os = None ∧ ∃ k, (k < 30)%nat ∧ sm_poll os k = Some SERVICE_RUNNING)) ∧
  opened es = [] ∧ closed es = [] ∧ (waits es <= 30)%nat.
Proof.
  unfold start_driver. assert (Hnone : opened [] = [] ∧ closed [] = [] ∧ (waits [] <= 30)%nat).
  { split_and!; [done..|]. unfold waits. cbn. lia. }
  destruct (sm_query os) as [s|]; [|split; [|done]; split; [done|by intros [|[? _]]]].
  destruct (Z.eqb_spec s SERVICE_RUNNING) as [->|H1]; [split; [|done]; by split; [left|]|].
  destruct (Z.eqb_spec s SERVICE_STOPPED) as [->|H2].
  - destruct (sm_start os) as [err|].
    + split; [|done]. rewrite Z.eqb_eq. split; [intros ->; right; auto|].
      intros [?|[_ [[=]|[? _]]]]; done.
    + pose proof (wait_running_spec 30 (sm_poll os) 0) as H. destruct (wait_running 30 (sm_poll os) 0) as [ok es].
      destruct H as (G1 & G2). split; [|exact G2]. rewrite G1. split.
      * intros (k & Hk & Hp). right. split; [done|]. right. split; [done|]. exists k. split; [lia|done].
      * intros [?|[_ [?|[_ (k & Hk & Hp)]]]]; try done. exists k. split; [lia|done].
  - split; [|done]. split; [done|]. intros [[=]|[[=] _]]; done.
Qed.

(** Starting the driver closes every handle it opens, in reverse order, waits at
    most three seconds, and reports success exactly when the driver runs, was
    running, or reached the running state while it waited. *)
Theorem driver_start_is_balanced os :
  let '(ready, tr) := EnsureDriverRunning os in
  closed tr = rev (opened tr) ∧ (waits tr <= 30)%nat ∧
  (ready = true ↔ is_Some (sm_manager os) ∧ becomes_ready os).
Proof.
  unfold EnsureDriverRunning, becomes_ready. destruct (sm_manager os) as [scm|];
    [|split; [done|]; split; [unfold waits; cbn; lia|]; by split; [|intros [[] _]]].
  assert (Ho : ∃ es, snd (open_service os) = es ∧ opened es = option_list (fst (open_service os)) ∧ closed es = [] ∧ waits es = 0%nat).
  { unfold open_service. destruct (sm_service os) as [h|err]; [by eexists|].
    destruct (err =? _); [destruct (sm_create os)|]; by eexists. }
  destruct (open_service os) as [svc es]. cbn [fst snd] in Ho. destruct Ho as (es0 & <- & Ho & Hc & Hw).
  destruct svc as [h|]; cbn [fst].
  - pose proof (start_driver_spec os) as H. destruct (start_driver os) as [ready es']. destruct H as (G1 & G2 & G3 & G4).
    unfold opened, closed, waits, filterb in *. cbn [omap list_omap rev List.filter option_list] in *.
    rewrite !List.filter_app, !length_app. (split; [|split]).
    + cbn. rewrite !omap_app, Hc, G3, Ho, G2. done.
    + cbn. rewrite Hw. lia.
    + rewrite G1. split; [intros H; split; [by eexists|split; [by eexists|done]]|by intros (_ & _ & H)].
  - unfold opened, closed, waits, filterb in *. cbn [omap list_omap rev List.filter option_list] in *.
    rewrite !List.filter_app, !length_app. (split; [|split]).
    + cbn. rewrite !omap_app, Hc, Ho. done.
    + cbn. rewrite Hw. lia.
    + split; [done|]. by intros (_ & [] & _).
Qed.
