(* ===== verification/Service.v ===== *)
(** The service as a whole: [adapters/driving/ServiceMain.h] over the parts of
    the other files, the opening and closing of the packet capture
    ([WinDivertCapture.cpp]: Open, Close), and the control handler and entry
    point of [main.cpp].

    The threads of the parts run in their own files; here a part is the state
    its owner sees.  A request is one step of the pipe thread, but a reload is
    taken apart into the settings it makes one after the other.  The clock and what the system calls of each part answer
    come with the call. *)

From stdpp Require Import sorting relations.
From S2P Require Import Prelude.
From S2P Require Import Text.
From S2P Require Import Entities.
From S2P Require Import RuleEngine.
From S2P Require Import ConnectionTable.
From S2P Require Import ConnectionTracker.
From S2P Require Import PortBitmap.
From S2P Require Import Auth.
From S2P Require Import Relay.
From S2P Require Import RelayServer.
From S2P Require Import Json.
From S2P Require Import JsonDump.
From S2P Require Import ConfigManager.
From S2P Require Import Logger.
From S2P Require Import LogRotator.
From S2P Require Import Ipc.
From S2P Require Import IpcHandler.

(** * The packet capture, opened and closed *)

Record CaptureControl := mkControl {
  cp_dll : bool;                         (* WinDivert.dll is loaded *)
  cp_handle : option Z;
  cp_thread : bool;                      (* m_captureThread is joinable *)
  cp_running : bool;
  cp_initialized : bool;
  cp_bitmap : Bitmap;
  cp_proxyHost : text;
  cp_proxyPort : Z;
  cp_relayPort : Z;
  cp_rxBytes : Z;
  cp_txBytes : Z
}.

Record OpenOs := mkOpenOs {
  oo_load : bool;                        (* the library and all its functions *)
  oo_filter : option Z;                  (* WinDivertOpen with the filter *)
  oo_all : option Z                      (* and with "true" *)
}.

Definition CaptureControl_new : CaptureControl :=
  mkControl false None false false false Bitmap_zero (lit "127.0.0.1") 3128 0 0 0.

(** The handle is kept where both attempts fail; it is the invalid one. *)
Definition Open (os : OpenOs) (c : CaptureControl) : bool * CaptureControl :=
  if cp_running c then (true, c)
  else if negb (cp_dll c || oo_load os) then (false, c)
  else
    match (match oo_filter os with Some h => Some h | None => oo_all os end) with
    | None =>
        (false, mkControl false None (cp_thread c) false (cp_initialized c) (cp_bitmap c) (cp_proxyHost c)
                  (cp_proxyPort c) (cp_relayPort c) (cp_rxBytes c) (cp_txBytes c))
    | Some h =>
        (true, mkControl true (Some h) true true true Bitmap_zero (cp_proxyHost c) (cp_proxyPort c)
                 (cp_relayPort c) (cp_rxBytes c) (cp_txBytes c))
    end.

Definition Close (c : CaptureControl) : CaptureControl :=
  mkControl false None false false false (cp_bitmap c) (cp_proxyHost c) (cp_proxyPort c) (cp_relayPort c)
    (cp_rxBytes c) (cp_txBytes c).

Definition IsOpen (c : CaptureControl) : bool := cp_initialized c && cp_running c.

Definition set_capture_proxy (host : text) (port : Z) (c : CaptureControl) : CaptureControl :=
  mkControl (cp_dll c) (cp_handle c) (cp_thread c) (cp_running c) (cp_initialized c) (cp_bitmap c) host port
    (cp_relayPort c) (cp_rxBytes c) (cp_txBytes c).
Definition set_capture_relay (port : Z) (c : CaptureControl) : CaptureControl :=
  mkControl (cp_dll c) (cp_handle c) (cp_thread c) (cp_running c) (cp_initialized c) (cp_bitmap c)
    (cp_proxyHost c) (cp_proxyPort c) port (cp_rxBytes c) (cp_txBytes c).

(** * The rest of the service, beyond what the request handler points to *)

Record Rest := mkRest {
  sv_capture : CaptureControl;
  sv_relay : RelayServer;
  sv_relayConfig : RelayConfig;
  sv_authProvider : option AuthProviderType;      (* m_authProvider *)
  sv_relayProvider : option AuthProviderType;     (* the one the relay was given *)
  sv_table : ConnectionTable;
  sv_rotator : option LogRotator;
  sv_pipe : bool;                                 (* the pipe thread runs *)
  sv_startTime : Z                                (* nanoseconds *)
}.

Definition put_capture (c : CaptureControl) (r : Rest) : Rest :=
  mkRest c (sv_relay r) (sv_relayConfig r) (sv_authProvider r) (sv_relayProvider r) (sv_table r) (sv_rotator r)
    (sv_pipe r) (sv_startTime r).
Definition put_relayConfig (c : RelayConfig) (r : Rest) : Rest :=
  mkRest (sv_capture r) (sv_relay r) c (sv_authProvider r) (sv_relayProvider r) (sv_table r) (sv_rotator r)
    (sv_pipe r) (sv_startTime r).
Definition put_authProvider (p : option AuthProviderType) (r : Rest) : Rest :=
  mkRest (sv_capture r) (sv_relay r) (sv_relayConfig r) p (sv_relayProvider r) (sv_table r) (sv_rotator r)
    (sv_pipe r) (sv_startTime r).
Definition put_relayProvider (p : option AuthProviderType) (r : Rest) : Rest :=
  mkRest (sv_capture r) (sv_relay r) (sv_relayConfig r) (sv_authProvider r) p (sv_table r) (sv_rotator r)
    (sv_pipe r) (sv_startTime r).

Section service.
Context {M : Type} (sort : list Rule → list Rule).
Context (MultiByteToWideChar WideCharToMultiByte : text → option text).
Context (CryptProtectData CryptUnprotectData : text → option text).
Context (dump4 : json → option M) (parse4 : M → option json).
Context (dump : json → exec text) (parse : text → exec json).
Abbreviation parts := (Parts M Rest).
Abbreviation Load := (LoadImpl MultiByteToWideChar WideCharToMultiByte dump4 parse4).
Abbreviation ProxyOf := (GetProxyConfig MultiByteToWideChar CryptUnprotectData).

Definition put_rest (r : Rest) (s : parts) : parts :=
  mkParts (h_ruleEngine s) (h_connectionTracker s) (h_configManager s) (h_logger s) (h_running s)
    (h_initialized s) r.

(** ** Choosing the provider *)

Definition wants_kerberos (m : AuthenticationMode) : bool :=
  match m with KerberosOnly | KerberosPreferred => true | BasicOnly => false end.

(** At start no provider is set: the fallback is chosen only in mode Basic. *)
Definition initial_provider (a : AuthSettings) : option AuthProviderType :=
  if au_enabled a then
    let p := if wants_kerberos (au_authMode a) then Some KerberosAgent else None in
    match au_authMode a, p with
    | BasicOnly, None => Some Basic
    | KerberosPreferred, None => Some Basic
    | _, _ => p
    end
  else None.

(** On a reload a Kerberos provider replaces any other one; nothing else
    changes, whatever the new settings say. *)
Definition needs_kerberos (a : AuthSettings) (r : Rest) : bool :=
  au_enabled a && wants_kerberos (au_authMode a) &&
  match sv_authProvider r with Some KerberosAgent => false | _ => true end.

(** ** Initialize *)

Record InitOs := mkInitOs {
  io_log_mkdir : bool;
  io_log_open : bool;
  io_files : FileOs;                     (* of the configuration *)
  io_relay : StartOs;
  io_open : OpenOs;
  io_now : Z;                            (* steady clock, nanoseconds *)
  io_ticks : Z                           (* system clock *)
}.

Definition relay_port : Z := 34010.

(** [if (proxyCfg.host.empty())]: taken again from the same settings. *)
Definition initial_proxy (c : Manager M) : ProxyConfig :=
  let pc := ProxyOf c in
  let cfg := m_config c in
  if text_eqb (pc_host pc) [] then
    mkProxyConfig (Utf8ToWide MultiByteToWideChar (px_host (c_proxy cfg))) (px_port (c_proxy cfg))
      (au_enabled (c_auth cfg)) (au_kerberos (c_auth cfg))
      (Utf8ToWide MultiByteToWideChar (au_username (c_auth cfg))) (pc_encrypted_password pc)
      (pc_has_password pc) (pc_plain_password pc)
  else pc.

(** [file] and [logs] are the files found at start.  The proxy engine, which
    nothing uses, is left out. *)
Definition Initialize (os : InitOs) (file : option (FileText M)) (logs : LogFiles) : exec bool * parts :=
  let logger := Logger.Initialize (io_log_mkdir os) (io_log_open os) LInfo 10 5 logs in
  let '(loaded, c) := Load (io_files os) (ConfigManager_new file) in
  let proxyCfg := initial_proxy c in
  let '(_, c) := UpdateConfigNoSave (m_config c) c in
  let engine := RuleEngine.SetRules sort (ConfigManager.GetRules c) (mkRuleEngine []) in
  let provider := initial_provider (c_auth (m_config c)) in
  let '(relay, _) := RelayServer.Start (io_relay os) (TcpRelayServer_new relay_port) in
  let '(opened, capture) :=
    Open (io_open os) (set_capture_proxy (WideToUtf8 WideCharToMultiByte (pc_host proxyCfg)) (pc_port proxyCfg)
                         (set_capture_relay relay_port CaptureControl_new)) in
  let rest := mkRest capture relay (RelayServer.SetProxyConfig WideCharToMultiByte proxyCfg 1) provider provider
                ConnectionTable_new None false 0 in
  let s := mkParts engine ConnectionTracker_new c logger false false rest in
  match loaded with
  | Undefined => (Undefined, s)
  | _ =>
      if negb opened then (Done false, put_logger (Logger.Shutdown logger) s)
      else
        let rotation := c_log_rotation (m_config c) in
        let rotator :=
          if lr_enabled rotation
          then Some (snd (LogRotator.Start (io_ticks os) (lit "logs")
                              (if io_log_mkdir os then Some (lit "logs", log_name) else None) rotation
                              (LogRotator_new rotation)))
          else None in
        let rest := mkRest capture relay (sv_relayConfig rest) provider provider ConnectionTable_new rotator true
                      (io_now os) in
        (Done true, mkParts engine ConnectionTracker_new c logger false true rest)
  end.

(** ** The callbacks of the request handler *)

Definition capture_control (os : OpenOs) (start : bool) (s : parts) : bool * parts :=
  let r := h_rest s in
  if start then
    if IsOpen (sv_capture r) then (true, s)
    else let '(ok, c) := Open os (sv_capture r) in (ok, put_rest (put_capture c r) s)
  else if IsOpen (sv_capture r) then (true, put_rest (put_capture (Close (sv_capture r)) r) s)
  else (true, s).

(** The reload callback, call by call: the rules, the proxy of the capture, that
    of the relay, the provider of the service, and that of the relay. *)
Definition reload_rules (s : parts) : parts :=
  put_engine (RuleEngine.SetRules sort (ConfigManager.GetRules (h_configManager s)) (h_ruleEngine s)) s.

Definition reload_capture (proxyCfg : ProxyConfig) (s : parts) : parts :=
  put_rest (put_capture (set_capture_proxy (WideToUtf8 WideCharToMultiByte (pc_host proxyCfg))
                           (pc_port proxyCfg) (sv_capture (h_rest s))) (h_rest s)) s.

Definition reload_relay (proxyCfg : ProxyConfig) (s : parts) : parts :=
  put_rest (put_relayConfig (RelayServer.SetProxyConfig WideCharToMultiByte proxyCfg 1) (h_rest s)) s.

Definition reload_auth (s : parts) : bool * parts :=
  if needs_kerberos (c_auth (m_config (h_configManager s))) (h_rest s)
  then (true, put_rest (put_authProvider (Some KerberosAgent) (h_rest s)) s)
  else (false, s).

Definition reload_give (s : parts) : parts :=
  put_rest (put_relayProvider (sv_authProvider (h_rest s)) (h_rest s)) s.

(** A failed load has already changed what it reached of the settings. *)
Definition reload_config (os : FileOs) (s : parts) : exec bool * parts :=
  let '(loaded, c) := Load os (h_configManager s) in
  let s := put_config c s in
  match loaded with
  | Done true =>
      let s := reload_rules s in
      let proxyCfg := ProxyOf (h_configManager s) in
      let s := reload_capture proxyCfg s in
      let s := reload_relay proxyCfg s in
      let '(replaced, s) := reload_auth s in
      (Done true, if replaced then reload_give s else s)
  | Done false => (Done false, s)
  | Raised e => (Raised e, s)
  | Undefined => (Undefined, s)
  end.

Definition service_callbacks (now : Z) (open_os : OpenOs) (load_os : FileOs) : Callbacks M Rest :=
  mkCallbacks
    (Some (λ s, (cp_rxBytes (sv_capture (h_rest s)), cp_txBytes (sv_capture (h_rest s)))))
    (Some (λ s, wrap 32 (GetTrackedCount (sv_table (h_rest s)))))
    (Some (λ s, wrap 64 ((now - sv_startTime (h_rest s)) / 1000000000)))
    (Some (capture_control open_os))
    (Some (reload_config load_os)).

(** ** Requests *)

Record RequestOs := mkRequestOs {
  rq_now : Z;                            (* nanoseconds *)
  rq_saves : nat → FileOs;
  rq_open : OpenOs;
  rq_load : FileOs
}.

Definition envelope (fields : list (String.string * json)) : json :=
  obj ([("jsonrpc", JStr (lit "2.0")); ("id", JNull)] ++ fields)%string.

Definition status_reply (s : parts) : json :=
  let capture := sv_capture (h_rest s) in
  envelope [("result", obj
    [("service_state", JStr (if h_running s then lit "running" else lit "stopped"));
     ("driver_loaded", JBool (IsOpen capture)); ("capture_enabled", JBool (IsOpen capture));
     ("active_connections", JInt (wrap 32 (GetTrackedCount (sv_table (h_rest s)))));
     ("relay_connections", JInt 0); ("version", JStr (lit "1.1.0"))])]%string.

(** The callback of [SetupIpcHandlers]. *)
Definition OnRequest (os : RequestOs) : RequestCallback parts := λ method params s,
  if text_eqb method (lit "ping") then
    (Done (raw "{'jsonrpc':'2.0','result':{'pong':true},'id':null}"), s)
  else if text_eqb method (lit "get_version") then
    (Done (raw "{'jsonrpc':'2.0','result':{'version':'1.1.0'},'id':null}"), s)
  else if text_eqb method (lit "get_status") then
    (dump (status_reply s), s)
  else
    Handle sort MultiByteToWideChar WideCharToMultiByte CryptProtectData CryptUnprotectData dump4 dump parse
      (service_callbacks (rq_now os) (rq_open os) (rq_load os)) (rq_now os) (rq_saves os) method params s.

(** ** Stop

    Three stages: the capture, the pipe server, whose thread is joined, and the
    rest.  A request that is being served runs between the first two. *)

Definition put_flags (running initialized : bool) (s : parts) : parts :=
  mkParts (h_ruleEngine s) (h_connectionTracker s) (h_configManager s) (h_logger s) running initialized (h_rest s).

Definition stop_capture (s : parts) : parts :=
  put_flags false (h_initialized s) (put_rest (put_capture (Close (sv_capture (h_rest s))) (h_rest s)) s).

Definition stop_pipe (s : parts) : parts :=
  let r := h_rest s in
  put_rest (mkRest (sv_capture r) (sv_relay r) (sv_relayConfig r) (sv_authProvider r) (sv_relayProvider r)
              (sv_table r) (sv_rotator r) false (sv_startTime r)) s.

Definition stop_rest (active : nat → Z) (s : parts) : parts :=
  let r := h_rest s in
  put_flags (h_running s) false
    (put_logger (Logger.Shutdown (h_logger s))
      (put_rest (mkRest (sv_capture r) (RelayServer.Stop active (sv_relay r)) (sv_relayConfig r)
                   (sv_authProvider r) (sv_relayProvider r) (Clear (sv_table r)) (sv_rotator r) (sv_pipe r)
                   (sv_startTime r)) s)).

(** [Stop] undisturbed. *)
Definition Stop (active : nat → Z) (s : parts) : parts :=
  if negb (h_running s) then s else stop_rest active (stop_pipe (stop_capture s)).

(** * The process

    The service thread initializes, reports that it runs and then polls the
    running flag; the control thread may be asked for a stop at any moment, and
    reports it; the pipe thread serves requests while it runs.  A request is one
    step, except that of a reload: each of its calls is a step, and a stop joins
    the pipe thread, so it waits for the end of the reload. *)

Inductive ServicePc := AtStart | Initialized | Ready | Polling | Returned (ok : bool).
Inductive ControlPc := Idle | AtPipe | AtRest.

(** The call that a reload makes next. *)
Inductive ReloadPc :=
| ReloadRules
| ReloadCapture
| ReloadRelay (proxyCfg : ProxyConfig)
| ReloadAuth
| ReloadGive.

(** What the service manager is told. *)
Inductive ServiceStatus := StatusStartPending | StatusRunning | StatusStopPending | StatusStopped.

Record Process := mkProcess {
  ps_service : ServicePc;
  ps_control : ControlPc;
  ps_status : list ServiceStatus;
  ps_parts : option parts;
  ps_reload : option ReloadPc
}.

(** The request comes to the reload callback. *)
Definition reaches_reload (method params : text) : bool :=
  text_eqb method (lit "reload_config") && negb (MAX_IPC_MESSAGE_SIZE <? Z.of_nat (length params)).

(** The reload after a load that succeeded. *)
Definition reload_turn (pc : ReloadPc) (s : parts) : parts * option ReloadPc :=
  match pc with
  | ReloadRules => (reload_rules s, Some ReloadCapture)
  | ReloadCapture =>
      let proxyCfg := ProxyOf (h_configManager s) in (reload_capture proxyCfg s, Some (ReloadRelay proxyCfg))
  | ReloadRelay proxyCfg => (reload_relay proxyCfg s, Some ReloadAuth)
  | ReloadAuth => let '(replaced, s) := reload_auth s in (s, if replaced : bool then Some ReloadGive else None)
  | ReloadGive => (reload_give s, None)
  end.

Inductive ProcessStep : Process → Process → Prop :=
| StepInit ctl st os file logs ok s r :
    Initialize os file logs = (Done ok, s) →
    ProcessStep (mkProcess AtStart ctl st None r)
      (mkProcess (if ok : bool then Initialized else Returned false) ctl
         (if ok then st else st ++ [StatusStopped]) (Some s) r)
| StepReport ctl st s r :
    ProcessStep (mkProcess Initialized ctl st s r) (mkProcess Ready ctl (st ++ [StatusRunning]) s r)
| StepRun ctl st s r :
    ProcessStep (mkProcess Ready ctl st (Some s) r)
      (mkProcess Polling ctl st (Some (put_flags true (h_initialized s) s)) r)
| StepPoll ctl st s r :
    ProcessStep (mkProcess Polling ctl st (Some s) r)
      (if h_running s then mkProcess Polling ctl st (Some s) r
       else mkProcess (Returned true) ctl (st ++ [StatusStopped]) (Some s) r)
| StepStopIgnored pc st o r :            (* not running: Stop returns *)
    match o with Some s => h_running s = false | None => True end →
    ProcessStep (mkProcess pc Idle st o r) (mkProcess pc Idle (st ++ [StatusStopPending; StatusStopped]) o r)
| StepStopCapture pc st s r :
    h_running s = true →
    ProcessStep (mkProcess pc Idle st (Some s) r)
      (mkProcess pc AtPipe (st ++ [StatusStopPending]) (Some (stop_capture s)) r)
| StepStopPipe pc st s :
    ProcessStep (mkProcess pc AtPipe st (Some s) None) (mkProcess pc AtRest st (Some (stop_pipe s)) None)
| StepStopRest pc st active s r :
    ProcessStep (mkProcess pc AtRest st (Some s) r)
      (mkProcess pc Idle (st ++ [StatusStopped]) (Some (stop_rest active s)) r)
| StepRequest pc ctl st os method params s r s' :
    reaches_reload method params = false →
    sv_pipe (h_rest s) = true → OnRequest os method params s = (r, s') → r ≠ Undefined →
    ProcessStep (mkProcess pc ctl st (Some s) None) (mkProcess pc ctl st (Some s') None)
| StepLoad pc ctl st os s r c :
    sv_pipe (h_rest s) = true → Load os (h_configManager s) = (r, c) → r ≠ Undefined →
    ProcessStep (mkProcess pc ctl st (Some s) None)
      (mkProcess pc ctl st (Some (put_config c s)) (match r with Done true => Some ReloadRules | _ => None end))
| StepReload pc ctl st s r :
    ProcessStep (mkProcess pc ctl st (Some s) (Some r))
      (mkProcess pc ctl st (Some (fst (reload_turn r s))) (snd (reload_turn r s))).

Definition process_start : Process := mkProcess AtStart Idle [StatusStartPending] None None.

Definition process_reachable (p : Process) : Prop := rtc ProcessStep process_start p.
End service.

Arguments Process : clear implicits.
Arguments ProcessStep {M} _ _ _ _ _ _ _ _ _ _ _.

(** * Invariant *)

Section theorems.
Context {M : Type} (sort : list Rule → list Rule).
Context (MultiByteToWideChar WideCharToMultiByte : text → option text).
Context (CryptProtectData CryptUnprotectData : text → option text).
Context (dump4 : json → option M) (parse4 : M → option json).
Context (dump : json → exec text) (parse : text → exec json).
Abbreviation parts := (Parts M Rest).
Implicit Types s : parts.

Abbreviation Step := (ProcessStep sort MultiByteToWideChar WideCharToMultiByte CryptProtectData
                        CryptUnprotectData dump4 parse4 dump parse).
Abbreviation Reachable := (process_reachable sort MultiByteToWideChar WideCharToMultiByte CryptProtectData
                             CryptUnprotectData dump4 parse4 dump parse).
Abbreviation Request := (OnRequest sort MultiByteToWideChar WideCharToMultiByte CryptProtectData
                           CryptUnprotectData dump4 parse4 dump parse).
Abbreviation Reload := (reload_config sort MultiByteToWideChar WideCharToMultiByte CryptUnprotectData
                          dump4 parse4).
Abbreviation Turn := (reload_turn sort MultiByteToWideChar WideCharToMultiByte CryptUnprotectData).
Abbreviation Init := (Initialize sort MultiByteToWideChar WideCharToMultiByte CryptUnprotectData
                        dump4 parse4).

(** The library, the handle and the thread of the capture come and go
    together. *)
Definition control_wf (c : CaptureControl) : Prop :=
  cp_dll c = cp_running c ∧ cp_thread c = cp_running c ∧ cp_initialized c = cp_running c ∧
  (cp_running c = true ↔ is_Some (cp_handle c)).

Lemma Open_wf os c : control_wf c → control_wf (snd (Open os c)).
Proof.
  unfold control_wf, Open. intros (H1 & H2 & H3 & H4). destruct (cp_running c) eqn:Er; [cbn [snd]; by rewrite Er|].
  rewrite H1. cbn [orb]. destruct (oo_load os); cbn [negb]; [|cbn [snd]; by rewrite Er].
  destruct (match oo_filter os with Some h => Some h | None => oo_all os end) as [h|]; cbn; rewrite ?H2, ?H3;
    (split_and!; [done..|]); split; try done; by intros [].
Qed.

Lemma Close_wf c : control_wf (Close c).
Proof. unfold control_wf, Close. cbn. by split_and!. Qed.

Lemma Open_proxy os c :
  cp_proxyHost (snd (Open os c)) = cp_proxyHost c ∧ cp_proxyPort (snd (Open os c)) = cp_proxyPort c.
Proof. unfold Open. by repeat case_match_goal. Qed.

(** The rest of the service: the capture is whole, and the provider of the
    service is the Kerberos one or none. *)
Record rest_inv (r : Rest) : Prop := {
  ri_capture : control_wf (sv_capture r);
  ri_kerberos : sv_authProvider r = None ∨ sv_authProvider r = Some KerberosAgent
}.

Definition same_proxy (r : Rest) : Prop :=
  cp_proxyHost (sv_capture r) = m_proxyHost (sv_relayConfig r) ∧
  cp_proxyPort (sv_capture r) = m_proxyPort (sv_relayConfig r).

(** Capture and relay use one proxy, and the relay the provider of the service,
    but for the two moments of a reload in which only the first was set. *)
Definition in_step (reload : option ReloadPc) (r : Rest) : Prop :=
  match reload with
  | Some (ReloadRelay proxyCfg) =>
      cp_proxyHost (sv_capture r) = WideToUtf8 WideCharToMultiByte (pc_host proxyCfg) ∧
      cp_proxyPort (sv_capture r) = pc_port proxyCfg ∧ sv_relayProvider r = sv_authProvider r
  | Some ReloadGive =>
      same_proxy r ∧ sv_authProvider r = Some KerberosAgent ∧ sv_relayProvider r = None
  | _ => same_proxy r ∧ sv_relayProvider r = sv_authProvider r
  end.

Record service_inv (reload : option ReloadPc) s : Prop := {
  si_mode : mode_of (m_config (h_configManager s)) = KerberosPreferred;
  si_rest : rest_inv (h_rest s);
  si_step : in_step reload (h_rest s)
}.

Lemma initial_kerberos a :
  au_authMode a = KerberosPreferred → initial_provider a = None ∨ initial_provider a = Some KerberosAgent.
Proof. unfold initial_provider. intros ->. destruct (au_enabled a); auto. Qed.

Lemma Init_inv os file logs r s : Init os file logs = (r, s) → service_inv None s.
Proof.
  unfold Initialize.
  pose proof (LoadImpl_mode MultiByteToWideChar WideCharToMultiByte dump4 parse4 (io_files os)
                (ConfigManager_new file) eq_refl) as Hm.
  destruct (LoadImpl _ _ _ _ (io_files os) (ConfigManager_new file)) as [loaded c]. cbn [snd] in Hm.
  set (proxy := initial_proxy _ _ c). unfold UpdateConfigNoSave.
  set (c' := ConfigManager.NotifyListeners _ _ _).
  assert (Hm' : mode_of (m_config c') = KerberosPreferred) by exact Hm. clearbody c'.
  destruct (RelayServer.Start _ _) as [relay started].
  match goal with |- context [Open ?o ?c0] =>
    pose proof (Open_wf o c0) as Hwf; pose proof (Open_proxy o c0) as [Hh Hp];
    destruct (Open o c0) as [opened capture] end.
  cbn in Hh, Hp. assert (Hc : control_wf capture).
  { apply Hwf. unfold control_wf. cbn. by split_and!. }
  set (rest := λ t rot pipe start, mkRest capture relay
    (RelayServer.SetProxyConfig WideCharToMultiByte proxy 1) (initial_provider (c_auth (m_config c')))
    (initial_provider (c_auth (m_config c'))) t rot pipe start).
  assert (Hr : ∀ t rot pipe start, rest_inv (rest t rot pipe start)).
  { intros. constructor; cbn; [done|]. by apply initial_kerberos. }
  assert (Hs : ∀ t rot pipe start, in_step None (rest t rot pipe start)) by (intros; by split).
  destruct loaded; [destruct opened; cbn [negb]..|]; intros [= _ <-]; constructor; cbn; try done; first [apply Hr|apply Hs].
Qed.

Lemma Turn_inv pc s : service_inv (Some pc) s → service_inv (snd (Turn pc s)) (fst (Turn pc s)).
Proof.
  intros [Hm [Hc Hk] Hs]. destruct pc; cbn [reload_turn fst snd].
  - by constructor.
  - destruct Hs as [_ Hs]. by constructor; [|constructor|].
  - destruct Hs as (H1 & H2 & H3). by constructor; [|constructor|].
  - pose proof Hm as Hm'. unfold mode_of in Hm'. unfold reload_auth, needs_kerberos. rewrite Hm'. cbn [wants_kerberos]. destruct Hs as [Hs Hp].
    destruct (au_enabled _); cbn [andb]; [|by constructor; [|constructor|]].
    destruct Hk as [E|E]; rewrite E; [|by constructor; [|constructor; auto|]].
    constructor; [done|constructor; [done|by right]|]. cbn. by rewrite Hp.
  - destruct Hs as (H1 & H2 & H3). constructor; [done|constructor; [done|by right]|]. by split.
Qed.

Lemma loaded_inv os s :
  service_inv None s →
  let '(r, c) := LoadImpl MultiByteToWideChar WideCharToMultiByte dump4 parse4 os (h_configManager s) in
  service_inv None (put_config c s).
Proof.
  intros [Hm Hr Hs].
  pose proof (LoadImpl_mode MultiByteToWideChar WideCharToMultiByte dump4 parse4 os (h_configManager s) Hm) as Hm'.
  by destruct (LoadImpl _ _ _ _ os (h_configManager s)) as [r c].
Qed.

(** The whole reload is its calls one after the other. *)
Lemma Reload_turns os s :
  let '(r, c) := LoadImpl MultiByteToWideChar WideCharToMultiByte dump4 parse4 os (h_configManager s) in
  match r with
  | Done true =>
      let s1 := fst (Turn ReloadRules (put_config c s)) in
      let proxy := GetProxyConfig MultiByteToWideChar CryptUnprotectData c in
      let s2 := fst (Turn ReloadCapture s1) in
      let s3 := fst (Turn (ReloadRelay proxy) s2) in
      let t := Turn ReloadAuth s3 in
      Reload os s = (Done true, match snd t with Some pc => fst (Turn pc (fst t)) | None => fst t end)
  | _ => Reload os s = (r, put_config c s)
  end.
Proof.
  unfold reload_config. destruct (LoadImpl _ _ _ _ os (h_configManager s)) as [[[]|e|] c]; try done.
  cbn [reload_turn fst snd]. change (h_configManager (reload_rules sort (put_config c s))) with c.
  by destruct (reload_auth _) as [[] s4].
Qed.

Lemma Reload_inv os s : service_inv None s → service_inv None (snd (Reload os s)).
Proof.
  intros HI. pose proof (loaded_inv os s HI) as H1. pose proof (Reload_turns os s) as HR.
  destruct (LoadImpl _ _ _ _ os (h_configManager s)) as [[[]|e|] c]; rewrite HR; try done. cbn [snd].
  assert (H2 : service_inv (Some ReloadRules) (put_config c s)) by (by destruct H1).
  apply Turn_inv, Turn_inv, Turn_inv, Turn_inv in H2. revert H2.
  set (t := Turn ReloadAuth _). change (fst (Turn ReloadAuth _)) with (fst t). intros H2.
  destruct (snd t) as [pc|] eqn:E; [|done].
  assert (Hpc : pc = ReloadGive).
  { revert E. unfold t. cbn [reload_turn]. unfold reload_auth. by case_match_goal; intros [= <-]. }
  subst pc. by apply Turn_inv in H2.
Qed.

Lemma control_inv os b s : service_inv None s → service_inv None (snd (capture_control os b s)).
Proof.
  intros [Hm [Hc Hk] [[Hh Hp] Hs]]. unfold capture_control.
  destruct b; destruct (IsOpen (sv_capture (h_rest s))); try (by constructor).
  - pose proof (Open_wf os (sv_capture (h_rest s)) Hc) as Hwf.
    pose proof (Open_proxy os (sv_capture (h_rest s))) as [Eh Ep].
    destruct (Open os (sv_capture (h_rest s))) as [ok c]. constructor; [done|by constructor|].
    unfold in_step, same_proxy in *; cbn in *; by rewrite ?Eh, ?Ep.
  - constructor; [done| |done]. constructor; cbn; [apply Close_wf|done].
Qed.

Lemma put_config_inv c s :
  mode_of (m_config c) = KerberosPreferred → service_inv None s → service_inv None (put_config c s).
Proof. intros Hc [_ Hr Hs]. by constructor. Qed.

Lemma SaveImpl_inv os c ok c' :
  SaveImpl WideCharToMultiByte dump4 os c = (ok, c') → mode_of (m_config c) = KerberosPreferred →
  mode_of (m_config c') = KerberosPreferred.
Proof. intros E Hc. pose proof (SaveImpl_config WideCharToMultiByte dump4 os c) as H. rewrite E in H. cbn in H. by rewrite H. Qed.
(** What a request cannot change. *)
Definition unstopped s s' : Prop :=
  h_running s' = h_running s ∧ h_initialized s' = h_initialized s ∧
  sv_pipe (h_rest s') = sv_pipe (h_rest s) ∧ sv_relay (h_rest s') = sv_relay (h_rest s).

Lemma Turn_unstopped pc s : unstopped s (fst (Turn pc s)).
Proof. unfold unstopped. destruct pc; cbn; try done. unfold reload_auth. by case_match_goal. Qed.

Lemma Reload_unstopped os s : unstopped s (snd (Reload os s)).
Proof.
  unfold unstopped, reload_config. destruct (LoadImpl _ _ _ _ os (h_configManager s)) as [[[]|e|] c]; cbn;
    unfold reload_auth; repeat case_match_goal; done.
Qed.

Lemma control_unstopped os b s : unstopped s (snd (capture_control os b s)).
Proof.
  unfold unstopped, capture_control. destruct b, (IsOpen _); try done.
  by destruct (Open os (sv_capture (h_rest s))).
Qed.

Abbreviation Dispatch now open_os load_os :=
  (IpcHandler.dispatch sort MultiByteToWideChar WideCharToMultiByte CryptProtectData CryptUnprotectData dump4 parse
     (service_callbacks sort MultiByteToWideChar WideCharToMultiByte CryptUnprotectData dump4 parse4 now open_os load_os)
     now).

Lemma Dispatch_inv now open_os load_os saves method params s r s' :
  service_inv None s → Dispatch now open_os load_os saves method params s = (r, s') →
  service_inv None s'.
Proof.
  intros HI. unfold IpcHandler.dispatch.
  repeat match goal with |- context [if text_eqb method ?t then _ else _] => destruct (text_eqb method t) end;
    try (intros [= _ <-]; by destruct HI).
  - unfold SetConfig. case_match_goal; [|intros [= _ <-]; by destruct HI..].
    pose proof (SetProxyConfig_mode WideCharToMultiByte CryptProtectData dump4 (saves 0%nat) a (h_configManager s)) as H1.
    destruct (ConfigManager.SetProxyConfig _ _ _ _ a _) as [ok c]. cbn [snd] in H1.
    rewrite (si_mode _ _ HI) in H1. destruct ok; cbn [negb].
    + destruct (SaveImpl _ _ _ c) as [ok c'] eqn:E. intros [= _ <-].
      apply put_config_inv; [by eapply SaveImpl_inv|done].
    + intros [= _ <-]. by apply put_config_inv.
  - unfold IpcHandler.SetRules. case_match_goal; [|intros [= _ <-]; by destruct HI..]. cbn.
    destruct (SaveImpl _ _ _ _) as [ok c'] eqn:E. intros [= _ <-].
    apply SaveImpl_inv in E; [|exact (si_mode _ _ HI)]. by destruct HI.
  - unfold IpcHandler.SetLogLevel. case_match_goal; [|intros [= _ <-]; by destruct HI..]. cbn [h_configManager put_logger].
    pose proof (SetLogLevel_mode WideCharToMultiByte dump4 (saves 0%nat) a (h_configManager s)) as H1.
    destruct (ConfigManager.SetLogLevel _ _ _ a _) as [ok c]. cbn [snd] in H1. rewrite (si_mode _ _ HI) in H1.
    destruct (SaveImpl _ _ _ c) as [ok' c'] eqn:E. intros [= _ <-].
    apply SaveImpl_inv in E; [|done]. by destruct HI.
  - unfold CaptureStart. cbn [m_captureControl service_callbacks].
    pose proof (control_inv open_os true s HI) as H1.
    destruct (capture_control open_os true s) as [ok s1]. by intros [= _ <-].
  - unfold CaptureStop. cbn [m_captureControl service_callbacks].
    pose proof (control_inv open_os false s HI) as H1.
    destruct (capture_control open_os false s) as [ok s1]. by intros [= _ <-].
  - unfold ReloadConfig. cbn [m_reloadConfig service_callbacks].
    pose proof (Reload_inv load_os s HI) as H1.
    destruct (Reload load_os s) as [[ok|e|] s1]; by intros [= _ <-].
Qed.

Lemma Request_inv os method params s r s' :
  service_inv None s → Request os method params s = (r, s') → service_inv None s'.
Proof.
  intros HI. unfold OnRequest.
  repeat match goal with |- context [if text_eqb method ?t then _ else _] => destruct (text_eqb method t) end;
    try (by intros [= _ <-]).
  unfold Handle. case_match_goal; [by intros [= _ <-]|]. unfold result_of.
  destruct (Dispatch (rq_now os) (rq_open os) (rq_load os) (rq_saves os) method params s) as [d s1] eqn:E.
  apply Dispatch_inv in E; [|done]. destruct d; by intros [= _ <-].
Qed.

Lemma stop_inv r s active :
  service_inv r s →
  service_inv r (stop_capture s) ∧ service_inv r (stop_pipe s) ∧ service_inv r (stop_rest active s).
Proof.
  intros [Hm [Hc Hk] Hs]. split_and!; (constructor; [done|by constructor; [first [apply Close_wf|exact Hc]|]|]).
  all: by destruct r as [[]|].
Qed.

Definition process_inv (p : Process M) : Prop := ∀ s, ps_parts p = Some s → service_inv (ps_reload p) s.

Lemma Step_inv p q :
  Step p q → (ps_service p = AtStart → ps_reload p = None) → process_inv p → process_inv q.
Proof.
  intros Hs H0 HI s' Hq.
  destruct Hs as [ctl st os file logs ok s r Hinit|ctl st o r|ctl st s r|ctl st s r|pc st o r Hno|pc st s r Hr|pc st s
    |pc st active s r|pc ctl st os m ps s r s1 Hm Hp Hreq Hu|pc ctl st os s r c Hp Hload Hu|pc ctl st s r];
    cbn in Hq; simplify_eq; try (specialize (HI _ eq_refl)); cbn [ps_reload] in *.
  - rewrite (H0 eq_refl). by eapply Init_inv.
  - by apply HI.
  - by destruct HI.
  - by destruct (h_running s); cbn in Hq; simplify_eq.
  - by apply HI.
  - by apply (stop_inv r s (λ _, 0)).
  - by apply (stop_inv None s (λ _, 0)).
  - by apply stop_inv.
  - by eapply Request_inv.
  - pose proof (loaded_inv os s HI) as H. rewrite Hload in H. destruct r as [[]|e|]; try done; by destruct H.
  - by apply Turn_inv.
Qed.

Lemma Step_at_start p q :
  Step p q → (ps_service p = AtStart → ps_parts p = None ∧ ps_reload p = None) →
  ps_service q = AtStart → ps_parts q = None ∧ ps_reload q = None.
Proof.
  intros Hs H. destruct Hs as [ctl st os file logs [] s r Hinit|ctl st o r|ctl st s r|ctl st s r|pc st o r Hno|pc st s r Hr
    |pc st s|pc st active s r|pc ctl st os m ps s r s1 Hm Hp Hreq Hu|pc ctl st os s r c Hp Hload Hu|pc ctl st s r];
    cbn in *; try done; try (intros E; by destruct (H E)).
  by destruct (h_running s).
Qed.

(** C33: in every reachable state of the process, whatever the configuration
    file holds, whatever requests are served and whenever it is stopped: the
    capture and the relay use the same proxy, and the relay the service's
    provider, except in the two moments of a reload that has set the proxy of
    the capture and not yet that of the relay, or the provider of the service
    and not yet that of the relay, which then has none; the capture's library,
    handle and thread are there together or not at all; and, against the
    documentation, the provider is the Kerberos one or none, never Basic,
    because loading does not read the authentication mode, so that it is always
    the default. *)
Theorem service_stays_consistent p s :
  Reachable p → ps_parts p = Some s →
  in_step (ps_reload p) (h_rest s) ∧
  (ps_reload p = None →
   cp_proxyHost (sv_capture (h_rest s)) = m_proxyHost (sv_relayConfig (h_rest s)) ∧
   cp_proxyPort (sv_capture (h_rest s)) = m_proxyPort (sv_relayConfig (h_rest s)) ∧
   sv_relayProvider (h_rest s) = sv_authProvider (h_rest s)) ∧
  control_wf (sv_capture (h_rest s)) ∧
  (sv_authProvider (h_rest s) = None ∨ sv_authProvider (h_rest s) = Some KerberosAgent) ∧
  mode_of (m_config (h_configManager s)) = KerberosPreferred.
Proof.
  intros Hr Hp. assert (HI : process_inv p ∧ (ps_service p = AtStart → ps_parts p = None ∧ ps_reload p = None)).
  { unfold process_reachable in Hr. revert Hr. clear Hp s.
    apply (rtc_ind_r (λ q, process_inv q ∧ (ps_service q = AtStart → ps_parts q = None ∧ ps_reload q = None)));
      [by split; [intros s|]|].
    intros q q' _ Hs [IH H0]. split; [apply (Step_inv q q'); [done| |done]; intros; by apply H0|].
    by apply (Step_at_start q q'). }
  destruct (proj1 HI s Hp) as [Hm [Hw Hk] Hs]. split_and!; try done.
  all: intros E; rewrite E in Hs; by destruct Hs as [[] ?].
Qed.
(** * Reloading *)

(** a reload that succeeds puts the settings in the file in force: the
    engine decides by its rules, and the capture and the relay both use the
    proxy the manager now answers.  One that fails, on a file that cannot be
    read or has a field of the wrong type, leaves engine, capture, relay and
    provider as they were; but the manager keeps the settings it read before
    the fault. *)
Theorem reload_applies_the_file os s ok s' :
  Reload os s = (Done ok, s') →
  if ok then
    let c := h_configManager s' in
    let proxy := GetProxyConfig MultiByteToWideChar CryptUnprotectData c in
    h_ruleEngine s' = RuleEngine.SetRules sort (ConfigManager.GetRules c) (h_ruleEngine s) ∧
    sv_relayConfig (h_rest s') = RelayServer.SetProxyConfig WideCharToMultiByte proxy 1 ∧
    cp_proxyHost (sv_capture (h_rest s')) = m_proxyHost (sv_relayConfig (h_rest s')) ∧
    cp_proxyPort (sv_capture (h_rest s')) = m_proxyPort (sv_relayConfig (h_rest s')) ∧
    (au_enabled (c_auth (m_config c)) = false → sv_relayProvider (h_rest s') = sv_relayProvider (h_rest s))
  else
    h_ruleEngine s' = h_ruleEngine s ∧ h_rest s' = h_rest s ∧
    fst (LoadImpl MultiByteToWideChar WideCharToMultiByte dump4 parse4 os (h_configManager s)) = Done false ∧
    h_configManager s' = snd (LoadImpl MultiByteToWideChar WideCharToMultiByte dump4 parse4 os (h_configManager s)).
Proof.
  unfold reload_config. destruct (LoadImpl _ _ _ _ os (h_configManager s)) as [[[]|e|] c];
    [|intros [= <- <-]; by split_and!|done..].
  unfold reload_auth. destruct (needs_kerberos _ _) eqn:En; intros [= <- <-]; cbn [negb]; split_and!; try done.
  apply andb_prop in En as [[Ha _]%andb_prop _]. intros E. cbn in Ha, E. congruence.
Qed.

(** * Stopping *)

(** What a stop releases: the capture, the pipe thread, the listening sockets of
    the relay and its thread, the tracked connections, and the log file and its
    writer. *)
Definition released s : Prop :=
  h_running s = false ∧ h_initialized s = false ∧ IsOpen (sv_capture (h_rest s)) = false ∧
  cp_handle (sv_capture (h_rest s)) = None ∧ cp_dll (sv_capture (h_rest s)) = false ∧
  cp_thread (sv_capture (h_rest s)) = false ∧ sv_pipe (h_rest s) = false ∧
  RelayServer.IsRunning (sv_relay (h_rest s)) = false ∧
  GetTrackedCount (sv_table (h_rest s)) = 0 ∧ Logger.m_running (h_logger s) = false ∧
  m_writer (h_logger s) = Finished ∧ m_file (m_files (h_logger s)) = false.

(** What it does not: the rotation thread, which stays as it is; and if bridges
    of the relay are active for five seconds, [WSACleanup] is called over them. *)
Definition left_behind (active : nat → Z) s s' : Prop :=
  sv_rotator (h_rest s') = sv_rotator (h_rest s) ∧
  (RelayServer.IsRunning (sv_relay (h_rest s)) = true → (∀ i, (i < 50)%nat → 0 < active i) →
   srv_trace (sv_relay (h_rest s')) =
     srv_trace (sv_relay (h_rest s)) ++ close_listen (m_listenSock (sv_relay (h_rest s)))
       ++ close_listen (m_listenSock6 (sv_relay (h_rest s))) ++ repeat (EvSleep 100) 50 ++ [EvWsaCleanup]).

Lemma drain_all n active i :
  (∀ k, (k < i + n)%nat → 0 < active k) → drain n active i = repeat (EvSleep 100) n.
Proof.
  revert i. induction n as [|n IH]; intros i H; [done|]. cbn [drain repeat].
  rewrite (proj2 (Z.ltb_lt 0 _)) by (apply H; lia). f_equal. apply IH. intros k Hk. apply H. lia.
Qed.

Lemma Stop_left active s : h_running s = true → left_behind active s (Stop active s).
Proof.
  unfold left_behind, Stop. intros ->. cbn [negb]. split; [done|]. cbn -[drain repeat]. unfold RelayServer.Stop, RelayServer.IsRunning. intros Hr Ha.
  rewrite Hr. cbn [negb srv_trace]. by rewrite drain_all.
Qed.

Lemma relay_stopped active r : RelayServer.IsRunning (RelayServer.Stop active r) = false.
Proof. unfold RelayServer.Stop, RelayServer.IsRunning. by destruct (RelayServer.m_running r) eqn:E. Qed.

Lemma Stop_released active s : h_running s = true → released (Stop active s).
Proof.
  intros Hr. unfold Stop, released. rewrite Hr. cbn -[RelayServer.Stop RelayServer.IsRunning Clear].
  by rewrite relay_stopped.
Qed.

(** The stages of a stop that no request disturbs. *)
Lemma stop_steps pc st s active :
  h_running s = true →
  rtc Step (mkProcess pc Idle st (Some s) None)
    (mkProcess pc Idle (st ++ [StatusStopPending; StatusStopped]) (Some (Stop active s)) None).
Proof.
  intros Hr. unfold Stop. rewrite Hr. cbn [negb].
  eapply rtc_l; [by apply StepStopCapture|]. eapply rtc_l; [apply StepStopPipe|].
  eapply rtc_l; [apply (StepStopRest _ _ _ _ _ _ _ _ _ pc _ active _ None)|]. by rewrite <- app_assoc.
Qed.

(** A request to start the capture, served between the first two stages. *)
Definition start_request (os : OpenOs) : RequestOs := mkRequestOs 0 (λ _, mkFileOs true true true true Written true) os
  (mkFileOs true true true true Written true).

(** Printing a value that the library can hold is defined; file Library shows it
    of the library. *)
Context (dump_defined : ∀ j, representable j = true → dump j ≠ Undefined).

Lemma capture_start_reopens os h s :
  oo_load os = true → oo_filter os = Some h → IsOpen (sv_capture (h_rest s)) = false →
  cp_running (sv_capture (h_rest s)) = false → cp_dll (sv_capture (h_rest s)) = false →
  ∃ r s', Request (start_request os) (lit "capture_start") [] s = (r, s') ∧ r ≠ Undefined ∧
    cp_handle (sv_capture (h_rest s')) = Some h ∧ IsOpen (sv_capture (h_rest s')) = true ∧
    unstopped s s'.
Proof.
  intros Hl Hf Ho Hrun Hd. unfold OnRequest, Handle, result_of, IpcHandler.dispatch.
  repeat match goal with |- context [if text_eqb (lit "capture_start") ?t then _ else _] =>
    let b := eval vm_compute in (text_eqb (lit "capture_start") t) in
    change (text_eqb (lit "capture_start") t) with b; cbn iota end.
  change (MAX_IPC_MESSAGE_SIZE <? Z.of_nat (length [])) with false. cbn iota.
  unfold CaptureStart. cbn [m_captureControl service_callbacks start_request rq_open].
  unfold capture_control. rewrite Ho. unfold Open. rewrite Hrun, Hd, Hl, Hf. cbn [orb negb].
  cbn [capture_reply]. eexists _, _. split; [reflexivity|]. split; [by apply dump_defined|]. by split_and!.
Qed.


(** A step that does not begin a stop. *)
Definition quiet_step (p q : Process M) : Prop := Step p q ∧ ps_control q = Idle.

(** Dispatching touches neither the flags nor the pipe nor the relay. *)
Lemma Dispatch_unstopped now open_os load_os saves method params s :
  unstopped s (snd (Dispatch now open_os load_os saves method params s)).
Proof.
  unfold IpcHandler.dispatch.
  repeat match goal with |- context [if text_eqb method ?t then _ else _] => destruct (text_eqb method t) end;
    try done.
  - unfold SetConfig. case_match_goal; [|done..].
    destruct (ConfigManager.SetProxyConfig _ _ _ _ a _) as [ok c]. destruct ok; cbn [negb]; [|done].
    by destruct (SaveImpl _ _ _ c).
  - unfold IpcHandler.SetRules. case_match_goal; [|done..]. cbn. by destruct (SaveImpl _ _ _ _).
  - unfold IpcHandler.SetLogLevel. case_match_goal; [|done..]. cbn [h_configManager put_logger].
    destruct (ConfigManager.SetLogLevel _ _ _ a _) as [ok c]. by destruct (SaveImpl _ _ _ c).
  - unfold CaptureStart. cbn [m_captureControl service_callbacks].
    pose proof (control_unstopped open_os true s) as H. by destruct (capture_control open_os true s).
  - unfold CaptureStop. cbn [m_captureControl service_callbacks].
    pose proof (control_unstopped open_os false s) as H. by destruct (capture_control open_os false s).
  - unfold ReloadConfig. cbn [m_reloadConfig service_callbacks].
    pose proof (Reload_unstopped load_os s) as H. by destruct (Reload load_os s) as [[[]|e|] s1].
Qed.

Lemma Request_unstopped os method params s r s' :
  Request os method params s = (r, s') → unstopped s s'.
Proof.
  unfold OnRequest.
  repeat match goal with |- context [if text_eqb method ?t then _ else _] => destruct (text_eqb method t) end;
    try (by intros [= _ <-]).
  unfold Handle. case_match_goal; [by intros [= _ <-]|]. unfold result_of.
  pose proof (Dispatch_unstopped (rq_now os) (rq_open os) (rq_load os) (rq_saves os) method params s) as H.
  destruct (Dispatch (rq_now os) (rq_open os) (rq_load os) (rq_saves os) method params s) as [d s1].
  destruct d; by intros [= _ <-].
Qed.

(** While no stop begins, the flag of the service is what it was, and nothing
    is reported. *)
Definition polls (st : list ServiceStatus) (q : Process M) : Prop :=
  ∃ s r, q = mkProcess Polling Idle st (Some s) r ∧ h_running s = true.

Lemma quiet_polling st p q : polls st p → quiet_step p q → polls st q.
Proof.
  intros (s & r & -> & Hr) [Hs Hq].
  inversion Hs as [| | |ctl st0 s0 r0|pc st0 o r0 Hno|pc st0 s0 r0 Hr0| | |pc ctl st0 os m ps s0 r0 s1 Hm Hp Hreq Hu
    |pc ctl st0 os s0 r0 c Hp Hload Hu|pc ctl st0 s0 r0]; subst.
  - rewrite Hr. by exists s, r.
  - congruence.
  - done.
  - exists s1, None. split; [done|]. rewrite <- Hr. by apply (Request_unstopped _ _ _ _ _ _ Hreq).
  - by eexists _, _.
  - eexists _, _. split; [done|]. rewrite <- Hr. apply Turn_unstopped.
Qed.

Lemma quiet_forever st p q : polls st p → rtc quiet_step p q → polls st q.
Proof.
  intros Hp Hq. revert Hq. apply (rtc_ind_r (polls st)); [done|].
  intros p1 p2 _ Hst IH. by eapply quiet_polling.
Qed.

Lemma Init_not_running os file logs r s : Init os file logs = (r, s) → h_running s = false.
Proof.
  unfold Initialize. destruct (LoadImpl _ _ _ _ (io_files os) (ConfigManager_new file)) as [loaded c].
  unfold UpdateConfigNoSave. destruct (RelayServer.Start _ _) as [relay started].
  destruct (Open _ _) as [opened capture].
  destruct loaded; [destruct opened; cbn [negb]..|]; by intros [= _ <-].
Qed.


(** A start that finds no capture driver fails with the relay running, and the
    stop that follows does not stop it, because the service does not count as
    running. *)
Lemma failed_start_keeps_the_relay os file logs s active :
  Init os file logs = (Done false, s) →
  Stop active s = s ∧ IsOpen (sv_capture (h_rest s)) = false ∧
  sv_relay (h_rest s) = fst (RelayServer.Start (io_relay os) (TcpRelayServer_new relay_port)).
Proof.
  intros Hi. apply Init_not_running in Hi as Hr. split; [unfold Stop; by rewrite Hr|].
  revert Hi. unfold Initialize.
  destruct (LoadImpl _ _ _ _ (io_files os) (ConfigManager_new file)) as [loaded c].
  unfold UpdateConfigNoSave. destruct (RelayServer.Start _ _) as [relay started].
  unfold Open. cbn [set_capture_proxy set_capture_relay CaptureControl_new cp_running cp_dll orb].
  destruct (oo_load (io_open os)); cbn [negb]; [|destruct loaded; by intros [= <-]].
  destruct (match oo_filter (io_open os) with Some h => Some h | None => oo_all (io_open os) end);
    destruct loaded; by intros [= <-].
Qed.
End theorems.

(** * Concrete runs *)

Definition sample_open (filter : option Z) : OpenOs := mkOpenOs true filter None.

Definition sample_init (filter : option Z) : InitOs :=
  mkInitOs true true sample_os (mkStartOs true (Some 3) true true None false false) (sample_open filter) 1000 2000.

Definition no_logs : LogFiles := mkLogFiles false None ∅.

(** The file of a service whose proxy was set. *)
Definition sample_file : option (FileText json) :=
  cm_file (snd (SaveImpl Some Some sample_os
    (set_config (put_proxy (mkProxySettings (lit "proxy.corp") 8080 true) default_config) (ConfigManager_new None)))).

Abbreviation sample_Initialize :=
  (Initialize (M := json) (merge_sort prio_le) Some Some Some Some Some).

(** Started without a configuration file. *)
Definition sample_started : Parts json Rest := snd (sample_Initialize (sample_init (Some 9)) None no_logs).

Lemma service_stays_consistent_witness :
  (cp_proxyHost (sv_capture (h_rest sample_started)), cp_proxyPort (sv_capture (h_rest sample_started)),
   sv_authProvider (h_rest sample_started)) = (lit "127.0.0.1", 8888, None) ∧
  m_proxyHost (sv_relayConfig (h_rest sample_started)) = lit "127.0.0.1".
Proof.
  destruct (service_stays_consistent (M := json) (merge_sort prio_le) Some Some Some Some Some Some (λ _, Done []) (λ _, Raised [])
              (mkProcess Initialized Idle [StatusStartPending] (Some sample_started) None) sample_started)
    as (_ & He & _).
  - eapply rtc_l; [|reflexivity]. apply (StepInit _ _ _ _ _ _ _ _ _ Idle _ (sample_init (Some 9)) None no_logs true _ None).
    unfold sample_started. reflexivity.
  - reflexivity.
  - split; vm_compute; reflexivity.
Defined.

(** A service that could not read its file at start and reads it on a reload:
    between the two calls the capture has the new proxy and the relay the old
    one. *)
Definition unread_os : FileOs := mkFileOs true false true true Written true.
Definition unread_init : InitOs :=
  mkInitOs true true unread_os (mkStartOs true (Some 3) true true None false false) (sample_open (Some 9)) 1000 2000.
Definition unread_started : Parts json Rest := snd (sample_Initialize unread_init sample_file no_logs).
Definition unread_loaded : Parts json Rest :=
  put_config (snd (LoadImpl Some Some Some Some sample_os (h_configManager unread_started))) unread_started.

Abbreviation sample_Turn := (reload_turn (M := json) (merge_sort prio_le) Some Some Some).

Example proxies_differ_during_a_reload :
  ∃ p s, process_reachable (M := json) (merge_sort prio_le) Some Some Some Some Some Some (λ _, Done []) (λ _, Raised []) p ∧
    ps_parts p = Some s ∧ cp_proxyHost (sv_capture (h_rest s)) = lit "proxy.corp" ∧
    m_proxyHost (sv_relayConfig (h_rest s)) = lit "127.0.0.1".
Proof.
  set (s2 := fst (sample_Turn ReloadRules unread_loaded)).
  exists (mkProcess Initialized Idle [StatusStartPending] (Some (fst (sample_Turn ReloadCapture s2))) (snd (sample_Turn ReloadCapture s2))).
  eexists. split; [|split; [reflexivity|split; vm_compute; reflexivity]].
  eapply rtc_l; [apply (StepInit _ _ _ _ _ _ _ _ _ Idle _ unread_init sample_file no_logs true unread_started None); reflexivity|].
  eapply rtc_l; [apply (StepLoad _ _ _ _ _ _ _ _ _ Initialized Idle _ sample_os unread_started (Done true)
    (snd (LoadImpl Some Some Some Some sample_os (h_configManager unread_started)))); [reflexivity| |done]; vm_compute; reflexivity|].
  eapply rtc_l; [apply (StepReload _ _ _ _ _ _ _ _ _ Initialized Idle _ unread_loaded ReloadRules)|].
  eapply rtc_l; [apply (StepReload _ _ _ _ _ _ _ _ _ Initialized Idle _ s2 ReloadCapture)|]. reflexivity.
Qed.

Lemma reload_applies_the_file_witness :
  let s' := snd (reload_config (merge_sort prio_le) Some Some Some Some Some sample_os
                   (put_config (ConfigManager_new sample_file) sample_started)) in
  cp_proxyHost (sv_capture (h_rest s')) = lit "proxy.corp" ∧ m_proxyHost (sv_relayConfig (h_rest s')) = lit "proxy.corp".
Proof.
  cbv zeta. destruct (reload_config _ _ _ _ _ _ _ _) as [r s'] eqn:E.
  assert (Hr : r = Done true).
  { replace r with (fst (r, s')) by reflexivity. rewrite <- E. vm_compute. reflexivity. }
  rewrite Hr in E.
  destruct (reload_applies_the_file (M := json) (merge_sort prio_le) Some Some Some Some Some sample_os
              (put_config (ConfigManager_new sample_file) sample_started) true s' E) as (_ & Hc & Hh & _).
  cbn [snd]. rewrite Hh, Hc. assert (Hs : s' = snd (r, s')) by reflexivity. rewrite Hr, <- E in Hs. rewrite Hs.
  vm_compute. split; reflexivity.
Defined.

(** The service once it polls. *)
Definition sample_running : Parts json Rest := put_flags true true sample_started.


