(* ===== verification/EntryPoint.v ===== *)
(** The command line of the service, [main] of [main.cpp]: installing and
    removing the service, and running it on a console or under the service
    manager.

    What the service manager and the service itself answer are parameters; file
    Service models Initialize and Run. *)

From S2P Require Import Prelude.
From S2P Require Import Text.

(** What a call of the service may do: return, or throw a [std::exception] or
    anything else. *)
Inductive CallOutcome := Returns (ok : bool) | Throws | ThrowsOther.

Record MainOs := mkMainOs {
  mo_manager : option Z;                 (* OpenSCManagerW *)
  mo_module : text;                      (* the path of the program *)
  mo_create : option Z;                  (* CreateServiceW *)
  mo_open : option Z;                    (* OpenServiceW *)
  mo_dispatcher : bool;                  (* StartServiceCtrlDispatcherW *)
  mo_initialize : CallOutcome;               (* g_Service.Initialize *)
  mo_run : CallOutcome                       (* g_Service.Run *)
}.

Inductive MainEvent :=
| EvOpened (h : Z)
| EvClosed (h : Z)                       (* CloseServiceHandle *)
| EvCreated (path : text)
| EvControlStop (h : Z)
| EvDeleted (h : Z)
| EvDispatched
| EvInitialized
| EvRan.

(** [GetModuleFileNameW] with [MAX_PATH], which truncates, with room for the NUL. *)
Definition GetModuleFileName (os : MainOs) : text := take 259 (mo_module os).

Definition install (os : MainOs) : list MainEvent :=
  match mo_manager os with
  | None => []
  | Some scm =>
      let path := GetModuleFileName os in
      [EvOpened scm]
      ++ match mo_create os with
         | Some service => [EvCreated path; EvOpened service; EvClosed service]
         | None => []
         end
      ++ [EvClosed scm]
  end.

Definition uninstall (os : MainOs) : list MainEvent :=
  match mo_manager os with
  | None => []
  | Some scm =>
      [EvOpened scm]
      ++ match mo_open os with
         | Some service => [EvOpened service; EvControlStop service; EvDeleted service; EvClosed service]
         | None => []
         end
      ++ [EvClosed scm]
  end.

(** [if (g_Service.Initialize()) g_Service.Run();] and whether it throws. *)
Definition run_console (os : MainOs) : list MainEvent * bool :=
  match mo_initialize os with
  | Returns true =>
      ([EvInitialized; EvRan], match mo_run os with Returns _ => false | _ => true end)
  | Returns false => ([EvInitialized], false)
  | _ => ([EvInitialized], true)
  end.

(** The exit code and what was done; [argv] without the name of the program. *)
Definition main (argv : list text) (os : MainOs) : Z * list MainEvent :=
  let console :=
    let '(evs, thrown) := run_console os in (if thrown then 1 else 0, evs) in
  let dispatch :=
    if mo_dispatcher os then (0, [EvDispatched])
    else let '(code, evs) := console in (code, EvDispatched :: evs) in
  match argv with
  | arg :: _ =>
      if text_eqb arg (lit "--install") then (0, install os)
      else if text_eqb arg (lit "--uninstall") then (0, uninstall os)
      else if text_eqb arg (lit "--console") then console
      else dispatch
  | [] => dispatch
  end.

(** * Handles *)

(** The handles held after the events, the latest first; [None] if one is used
    or closed that is not the latest held. *)
Fixpoint held (evs : list MainEvent) (hs : list Z) : option (list Z) :=
  match evs with
  | [] => Some hs
  | EvOpened h :: evs' => held evs' (h :: hs)
  | EvClosed h :: evs' =>
      match hs with h' :: hs' => if h =? h' then held evs' hs' else None | [] => None end
  | (EvControlStop h | EvDeleted h) :: evs' => if bool_decide (h ∈ hs) then held evs' hs else None
  | _ :: evs' => held evs' hs
  end.

(** Whatever the command line and the answers of the system, the handles of the
    service manager are closed in the reverse order of their opening, none is
    used after it was closed, and none is left. *)
Theorem main_closes_its_handles argv os : held (snd (main argv os)) [] = Some [].
Proof.
  assert (Hi : held (install os) [] = Some []).
  { unfold install. destruct (mo_manager os) as [scm|]; [|done]. destruct (mo_create os) as [h|]; cbn; by rewrite !Z.eqb_refl. }
  assert (Hu : held (uninstall os) [] = Some []).
  { unfold uninstall. destruct (mo_manager os) as [scm|]; [|done].
    destruct (mo_open os) as [h|]; cbn; [|by rewrite Z.eqb_refl].
    rewrite !bool_decide_true by set_solver. by rewrite !Z.eqb_refl. }
  assert (Hc : held (fst (run_console os)) [] = Some []) by (unfold run_console; by repeat case_match).
  unfold main. destruct (run_console os) as [evs thrown]. cbn [fst] in Hc.
  destruct argv as [|arg argv]; [|destruct (text_eqb arg _); [done|]; destruct (text_eqb arg _); [done|];
    destruct (text_eqb arg _); [done|]]; destruct (mo_dispatcher os); done.
Qed.

Definition throws (os : MainOs) : bool :=
  match mo_initialize os with
  | Returns true => match mo_run os with Returns _ => false | _ => true end
  | Returns false => false
  | _ => true
  end.

Lemma run_console_throws os : snd (run_console os) = throws os ∧ EvInitialized ∈ fst (run_console os).
Proof. unfold run_console, throws. destruct (mo_initialize os) as [[]| |]; split; try done; by left. Qed.

Lemma setup_not_initialized os : (EvInitialized ∉ install os) ∧ (EvInitialized ∉ uninstall os).
Proof.
  unfold install, uninstall. destruct (mo_manager os); [|split; apply not_elem_of_nil].
  split; [destruct (mo_create os)|destruct (mo_open os)]; cbn; rewrite !not_elem_of_cons; (split_and!; try done); apply not_elem_of_nil.
Qed.

(** The exit code tells an exception only: a service that could not be installed
    or initialized exits like one that was. *)
Theorem exit_code_tells_exceptions argv os :
  fst (main argv os) = 1 ↔ EvInitialized ∈ snd (main argv os) ∧ throws os = true.
Proof.
  destruct (run_console_throws os) as [Ht Hin], (setup_not_initialized os) as [Hi Hu].
  unfold main. destruct (run_console os) as [evs thrown]. cbn [fst snd] in Ht, Hin. rewrite <- Ht. clear Ht.
  destruct argv as [|arg argv]; [|destruct (text_eqb arg _); [cbn; naive_solver|]; destruct (text_eqb arg _); [cbn; naive_solver|];
    destruct (text_eqb arg _); [destruct thrown; cbn; naive_solver|]]; destruct (mo_dispatcher os), thrown; cbn; set_solver.
Qed.

(** The path is given to the service manager as it is, without quotes, and cut
    off where it is long. *)
Lemma install_does_not_quote scm service path :
  let os := mkMainOs (Some scm) path (Some service) None false (Returns true) (Returns true) in
  EvCreated (take 259 path) ∈ snd (main [lit "--install"] os).
Proof. cbn. right. left. Qed.
