(* ===== verification/ProxyEngine.v ===== *)
(** The proxy engine of [adapters/driven/ProxyEngine.h]: a session that connects
    to the proxy, asks for a tunnel and bridges two sockets on its own thread,
    and the engine that creates sessions and shuts them down.  The service
    creates and shuts down an engine; no caller creates a session at this
    commit.

    What the calls to the network answer comes with the call.  A trace records
    the calls that create or release something and those that send. *)

From stdpp Require Import gmap relations.
From S2P Require Import Prelude.
From S2P Require Import Text.
From S2P Require Import Base64.
From S2P Require Import Entities.
From S2P Require Import Relay.

(** * A session *)

Inductive NetEvent :=
| NetStartup | NetCleanup                (* of Winsock *)
| NetSocket (s : Z)
| NetResolved | NetFreed                 (* an address list *)
| NetSend (s : Z) (bytes : text)
| NetShutdown (s : Z) (both : bool)      (* SD_BOTH or SD_SEND *)
| NetClose (s : Z)
| NetThread | NetJoined
| NetCallback (ok : bool) (message : text).

(** The bridge thread, which tests the state, waits in [select] and handles
    what is ready. *)
Inductive BridgePc :=
| NoBridge
| Looping (localDone proxyDone : bool)
| Selecting (localDone proxyDone : bool)
| BridgeEnded.

Record ProxySession := mkSession {
  m_localSocket : option Z;
  m_proxySocket : option Z;
  m_bridge : BridgePc;
  m_config : ProxyConfig;
  m_redirect : RedirectEvent;
  m_sessionId : Z;
  m_rxBytes : Z;
  m_txBytes : Z;
  m_errorMessage : text;
  m_state : ConnectionState;
  m_callback : bool;                     (* a callback is set *)
  net_trace : list NetEvent
}.

Definition no_redirect : RedirectEvent := mkRedirectEvent 0 0 [] 0 0 0 false.

Definition ProxySession_new (config : ProxyConfig) (session_id : Z) : ProxySession :=
  mkSession None None NoBridge config no_redirect session_id 0 0 [] Redirecting false [].

Definition net (e : NetEvent) (s : ProxySession) : ProxySession :=
  mkSession (m_localSocket s) (m_proxySocket s) (m_bridge s) (m_config s) (m_redirect s) (m_sessionId s)
    (m_rxBytes s) (m_txBytes s) (m_errorMessage s) (m_state s) (m_callback s) (net_trace s ++ [e]).
Definition set_state (st : ConnectionState) (s : ProxySession) : ProxySession :=
  mkSession (m_localSocket s) (m_proxySocket s) (m_bridge s) (m_config s) (m_redirect s) (m_sessionId s)
    (m_rxBytes s) (m_txBytes s) (m_errorMessage s) st (m_callback s) (net_trace s).
Definition set_bridge (b : BridgePc) (s : ProxySession) : ProxySession :=
  mkSession (m_localSocket s) (m_proxySocket s) b (m_config s) (m_redirect s) (m_sessionId s)
    (m_rxBytes s) (m_txBytes s) (m_errorMessage s) (m_state s) (m_callback s) (net_trace s).
Definition set_sockets (l p : option Z) (s : ProxySession) : ProxySession :=
  mkSession l p (m_bridge s) (m_config s) (m_redirect s) (m_sessionId s)
    (m_rxBytes s) (m_txBytes s) (m_errorMessage s) (m_state s) (m_callback s) (net_trace s).
Definition set_counts (rx tx : Z) (s : ProxySession) : ProxySession :=
  mkSession (m_localSocket s) (m_proxySocket s) (m_bridge s) (m_config s) (m_redirect s) (m_sessionId s)
    rx tx (m_errorMessage s) (m_state s) (m_callback s) (net_trace s).
Definition set_error (m : text) (s : ProxySession) : ProxySession :=
  mkSession (m_localSocket s) (m_proxySocket s) (m_bridge s) (m_config s) (m_redirect s) (m_sessionId s)
    (m_rxBytes s) (m_txBytes s) m (m_state s) (m_callback s) (net_trace s).
Definition set_redirect (r : RedirectEvent) (s : ProxySession) : ProxySession :=
  mkSession (m_localSocket s) (m_proxySocket s) (m_bridge s) (m_config s) r (m_sessionId s)
    (m_rxBytes s) (m_txBytes s) (m_errorMessage s) (m_state s) (m_callback s) (net_trace s).

Definition SetLocalSocket (h : Z) (s : ProxySession) : ProxySession := set_sockets (Some h) (m_proxySocket s) s.

Definition SetCompletionCallback (s : ProxySession) : ProxySession :=
  mkSession (m_localSocket s) (m_proxySocket s) (m_bridge s) (m_config s) (m_redirect s) (m_sessionId s)
    (m_rxBytes s) (m_txBytes s) (m_errorMessage s) (m_state s) true (net_trace s).

Definition on_socket (f : Z → NetEvent) (h : option Z) (s : ProxySession) : ProxySession :=
  match h with Some h => net (f h) s | None => s end.

(** ** The bridge thread *)

(** What [select] reports, and what [recv] then returns for each socket that
    is ready: bytes, or nothing at the end or on an error. *)
Inductive Selected :=
| SelectError
| SelectTimeout
| SelectReady (local proxy : option (option text)).

Definition is_established (s : ProxySession) : bool :=
  match m_state s with TunnelEstablished => true | _ => false end.

Definition relay_local (ready : option (option text)) (localDone : bool) (s : ProxySession)
  : bool * ProxySession :=
  match localDone, m_localSocket s, ready with
  | false, Some _, Some (Some bytes) =>
      let s := set_counts (m_rxBytes s) (wrap 64 (m_txBytes s + Z.of_nat (length bytes))) s in
      (false, on_socket (λ h, NetSend h bytes) (m_proxySocket s) s)
  | false, Some _, Some None => (true, on_socket (λ h, NetShutdown h false) (m_proxySocket s) s)
  | _, _, _ => (localDone, s)
  end.

Definition relay_proxy (ready : option (option text)) (proxyDone : bool) (s : ProxySession)
  : bool * ProxySession :=
  match proxyDone, m_proxySocket s, ready with
  | false, Some _, Some (Some bytes) =>
      let s := set_counts (wrap 64 (m_rxBytes s + Z.of_nat (length bytes))) (m_txBytes s) s in
      (false, on_socket (λ h, NetSend h bytes) (m_localSocket s) s)
  | false, Some _, Some None => (true, on_socket (λ h, NetShutdown h false) (m_localSocket s) s)
  | _, _, _ => (proxyDone, s)
  end.

Definition end_bridge (s : ProxySession) : ProxySession := set_bridge BridgeEnded (set_state Closing s).

(** One step of [BridgeLoop]: the test of the loop, or the body. *)
Definition bridge_turn (sel : Selected) (s : ProxySession) : ProxySession :=
  match m_bridge s with
  | Looping l p =>
      if is_established s && negb (l && p) then set_bridge (Selecting l p) s else end_bridge s
  | Selecting l p =>
      match sel with
      | SelectError => end_bridge s
      | SelectTimeout => set_bridge (Looping l p) s
      | SelectReady local proxy =>
          let '(l, s) := relay_local local l s in
          let '(p, s) := relay_proxy proxy p s in
          set_bridge (Looping l p) s
      end
  | NoBridge | BridgeEnded => s
  end.

Definition bridge_turns (sels : list Selected) (s : ProxySession) : ProxySession :=
  foldl (λ s sel, bridge_turn sel s) s sels.

(** ** Closing *)

Definition joinable (s : ProxySession) : bool := match m_bridge s with NoBridge => false | _ => true end.

(** [Close] up to the join, which waits for [BridgeEnded], and after it. *)
Definition begin_close (s : ProxySession) : ProxySession :=
  let s := set_state Closing s in
  if joinable s then
    on_socket (λ h, NetShutdown h true) (m_proxySocket s)
      (on_socket (λ h, NetShutdown h true) (m_localSocket s) s)
  else s.

Definition end_close (s : ProxySession) : ProxySession :=
  let s := if joinable s then set_bridge NoBridge (net NetJoined s) else s in
  let s := on_socket NetClose (m_proxySocket s) (on_socket NetClose (m_localSocket s) s) in
  set_state Closed (set_sockets None None s).

(** [Close], with what the thread still sees while it is waited for. *)
Definition Close (sel : Selected) (s : ProxySession) : ProxySession :=
  end_close (bridge_turn sel (bridge_turn sel (begin_close s))).

Definition HandleError (context message : text) (s : ProxySession) : ProxySession :=
  let s := set_error (context ++ lit ": " ++ message) s in
  let s := Close SelectError (set_state CSError s) in
  if m_callback s then net (NetCallback false (m_errorMessage s)) s else s.

(** ** Setting up *)

Record SessionOs := mkSessionOs {
  ss_startup : bool;
  ss_socket : option Z;
  ss_resolve : option Z;                 (* the first address *)
  ss_connect : bool;
  ss_send : bool;
  ss_recv : option text                  (* the bytes received, if any *)
}.

(** [std::string(w.begin(), w.end())] of a wide string. *)
Definition narrow (w : text) : text := wrap 8 <$> w.

Definition credentials_of (c : ProxyConfig) : option text :=
  if pc_auth_required c && pc_has_password c && negb (text_eqb (pc_plain_password c) [])
  then Some (narrow (pc_login c) ++ lit ":" ++ narrow (pc_plain_password c))
  else if pc_auth_required c && pc_has_password c then Some (narrow (pc_login c) ++ lit ":")
  else None.

Definition connect_request (c : ProxyConfig) (r : RedirectEvent) : text :=
  connect_line (inet_ntop (re_original_address_v4 r)) (re_original_port r)
  ++ match credentials_of c with
     | Some t => lit "Proxy-Authorization: Basic " ++ ProxyBase64Encode t ++ crlf
     | None => []
     end
  ++ lit "User-Agent: TcpRedirector/1.0" ++ crlf ++ lit "Proxy-Connection: Keep-Alive" ++ crlf ++ crlf.

(** M2. *)
Definition established (response : text) : bool :=
  contains (lit "200 Connection established") response
  || contains (lit "200 Connection Established") response
  || contains (lit "200 OK") response.

Definition ReadConnectResponse (os : SessionOs) (s : ProxySession) : bool * ProxySession :=
  match ss_recv os with
  | None => (false, HandleError (lit "read_response") (lit "No response from proxy") s)
  | Some bytes =>
      let response := cstr bytes in
      if established response then
        let s := net NetThread (set_bridge (Looping false false) (set_state TunnelEstablished s)) in
        (true, if m_callback s then net (NetCallback true []) s else s)
      else (false, HandleError (lit "bad_response") (lit "Proxy returned: " ++ take 100 response) s)
  end.

Definition SendConnectRequest (os : SessionOs) (h : Z) (s : ProxySession) : bool * ProxySession :=
  if ss_send os
  then ReadConnectResponse os (net (NetSend h (connect_request (m_config s) (m_redirect s))) s)
  else (false, HandleError (lit "send_connect") (lit "Failed to send CONNECT request") s).

Definition ConnectToProxy (os : SessionOs) (s : ProxySession) : bool * ProxySession :=
  if negb (ss_startup os)
  then (false, HandleError (lit "wsa_startup") (lit "Failed to initialize Winsock") s)
  else
    let s := net NetStartup s in
    match ss_socket os with
    | None => (false, HandleError (lit "socket") (lit "Failed to create socket") s)
    | Some h =>
        let s := net (NetSocket h) (set_sockets (m_localSocket s) (Some h) s) in
        match ss_resolve os with
        | None =>
            (false, HandleError (lit "resolve")
                      (lit "Failed to resolve proxy host: " ++ narrow (pc_host (m_config s))) s)
        | Some _ =>
            let s := net NetFreed (net NetResolved s) in
            if ss_connect os then SendConnectRequest os h s
            else (false, HandleError (lit "connect") (lit "Failed to connect to proxy") s)
        end
    end.

Definition Start (os : SessionOs) (redirect : RedirectEvent) (s : ProxySession) : bool * ProxySession :=
  ConnectToProxy os (set_state ConnectingToProxy (set_redirect redirect s)).

(** ** Queries *)

Record ProxySessionStats := mkSessionStats {
  st_rx_bytes : Z; st_tx_bytes : Z; st_connected : bool; st_error_message : text
}.

Definition IsActive (s : ProxySession) : bool := is_established s.

Definition Session_GetStats (s : ProxySession) : ProxySessionStats :=
  mkSessionStats (m_rxBytes s) (m_txBytes s) (is_established s) (m_errorMessage s).

(** * The engine *)

Record ProxyEngine := mkEngine {
  en_config : ProxyConfig;
  m_sessions : gmap Z ProxySession;
  m_nextSessionId : Z;
  m_initialized : bool;
  en_trace : list NetEvent                (* of the engine and of its sessions so far *)
}.

Definition ProxyEngine_new : ProxyEngine := mkEngine ProxyConfig_default ∅ 1 false [].

Definition Initialize (startup : bool) (config : ProxyConfig) (e : ProxyEngine) : bool * ProxyEngine :=
  if startup
  then (true, mkEngine config (m_sessions e) (m_nextSessionId e) true (en_trace e ++ [NetStartup]))
  else (false, mkEngine config (m_sessions e) (m_nextSessionId e) (m_initialized e) (en_trace e)).

(** A session that does not start is kept as well. *)
Definition CreateSession (os : SessionOs) (redirect : RedirectEvent) (e : ProxyEngine) : ProxyEngine :=
  let '(_, s) := Start os redirect
                   (SetCompletionCallback (ProxySession_new (en_config e) (m_nextSessionId e))) in
  mkEngine (en_config e) (<[m_sessionId s := s]> (m_sessions e)) (wrap 64 (m_nextSessionId e + 1))
    (m_initialized e) (en_trace e ++ net_trace s).

(** What an operation adds to the trace of a session. *)
Definition new_events (f : ProxySession → ProxySession) (s : ProxySession) : list NetEvent :=
  drop (length (net_trace s)) (net_trace (f s)).

(** A step of a session's thread, or a [Close] by whoever holds the session. *)
Definition on_session (id : Z) (f : ProxySession → ProxySession) (e : ProxyEngine) : ProxyEngine :=
  match m_sessions e !! id with
  | Some s =>
      mkEngine (en_config e) (<[id := f s]> (m_sessions e)) (m_nextSessionId e) (m_initialized e)
        (en_trace e ++ new_events f s)
  | None => e
  end.

Definition Shutdown (sel : Z → Selected) (e : ProxyEngine) : ProxyEngine :=
  mkEngine (en_config e) ∅ (m_nextSessionId e) false
    (en_trace e ++ concat (map (λ ks, new_events (Close (sel (fst ks))) (snd ks)) (map_to_list (m_sessions e)))
     ++ [NetCleanup]).

Definition GetAggregatedStats (e : ProxyEngine) : ServiceStats :=
  mkServiceStats (wrap 32 (Z.of_nat (size (m_sessions e)))) 0 0 0 double_0 0.

(** * Sessions *)

Definition created_sockets (tr : list NetEvent) : list Z := omap (λ e, match e with NetSocket h => Some h | _ => None end) tr.
Definition closed_sockets (tr : list NetEvent) : list Z := omap (λ e, match e with NetClose h => Some h | _ => None end) tr.
Definition callbacks (tr : list NetEvent) : list (bool * text) :=
  omap (λ e, match e with NetCallback ok m => Some (ok, m) | _ => None end) tr.
Definition count (p : NetEvent → bool) (tr : list NetEvent) : nat := length (filterb p tr).
Definition is_thread (e : NetEvent) : bool := match e with NetThread => true | _ => false end.
Definition is_joined (e : NetEvent) : bool := match e with NetJoined => true | _ => false end.
Definition is_resolved (e : NetEvent) : bool := match e with NetResolved => true | _ => false end.
Definition is_freed (e : NetEvent) : bool := match e with NetFreed => true | _ => false end.
Definition is_startup (e : NetEvent) : bool := match e with NetStartup => true | _ => false end.
Definition is_cleanup (e : NetEvent) : bool := match e with NetCleanup => true | _ => false end.

(** Only sends and shutdowns, which the bridge does. *)
Definition traffic (e : NetEvent) : bool := match e with NetSend _ _ | NetShutdown _ _ => true | _ => false end.
Definition resources (tr : list NetEvent) : list NetEvent := filterb (negb ∘ traffic) tr.

Lemma resources_app a b : resources (a ++ b) = resources a ++ resources b.
Proof. apply List.filter_app. Qed.

Lemma created_resources tr : created_sockets (resources tr) = created_sockets tr.
Proof. induction tr as [|e tr IH]; [done|]. destruct e; simpl; by rewrite ?IH. Qed.
Lemma closed_resources tr : closed_sockets (resources tr) = closed_sockets tr.
Proof. induction tr as [|e tr IH]; [done|]. destruct e; simpl; by rewrite ?IH. Qed.
Lemma callbacks_resources tr : callbacks (resources tr) = callbacks tr.
Proof. induction tr as [|e tr IH]; [done|]. destruct e; simpl; by rewrite ?IH. Qed.
Lemma count_resources p tr : (∀ e, traffic e = true → p e = false) → count p (resources tr) = count p tr.
Proof.
  intros Hp. unfold count. induction tr as [|e tr IH]; [done|]. unfold resources, filterb in *. simpl.
  destruct (traffic e) eqn:E; simpl; [by rewrite (Hp e)|]. destruct (p e); simpl; by rewrite IH.
Qed.

(** What the bridge leaves alone. *)
Definition same_resources (s s' : ProxySession) : Prop :=
  resources (net_trace s') = resources (net_trace s) ∧ m_localSocket s' = m_localSocket s ∧
  m_proxySocket s' = m_proxySocket s ∧ m_callback s' = m_callback s ∧ joinable s' = joinable s ∧
  m_errorMessage s' = m_errorMessage s.

#[export] Instance same_resources_refl : Reflexive same_resources.
Proof. by intros s. Qed.
#[export] Instance same_resources_trans : Transitive same_resources.
Proof.
  intros a b c (H1 & H2 & H3 & H4 & H5 & H6) (G1 & G2 & G3 & G4 & G5 & G6). unfold same_resources.
  by rewrite G1, G2, G3, G4, G5, G6.
Qed.

Lemma net_traffic e s : traffic e = true → same_resources s (net e s).
Proof. intros He. unfold same_resources. cbn. rewrite resources_app. cbn. rewrite He. cbn. by rewrite app_nil_r. Qed.

Lemma on_socket_traffic f h s : (∀ x, traffic (f x) = true) → same_resources s (on_socket f h s).
Proof. intros Hf. destruct h; [by apply net_traffic|done]. Qed.

Lemma relay_local_resources r l s : same_resources s (snd (relay_local r l s)).
Proof.
  unfold relay_local. destruct l, (m_localSocket s), r as [[]|]; try done; cbn [snd];
    (etransitivity; [|by apply on_socket_traffic]); by split_and!.
Qed.
Lemma relay_proxy_resources r l s : same_resources s (snd (relay_proxy r l s)).
Proof.
  unfold relay_proxy. destruct l, (m_proxySocket s), r as [[]|]; try done; cbn [snd];
    (etransitivity; [|by apply on_socket_traffic]); by split_and!.
Qed.

Lemma bridge_turn_resources sel s : same_resources s (bridge_turn sel s).
Proof.
  unfold bridge_turn. destruct (m_bridge s) as [|l p|l p|] eqn:E; try done.
  - destruct (_ && _); unfold same_resources, joinable; cbn; by rewrite E.
  - destruct sel as [| |a b]; try (unfold same_resources, joinable; cbn; by rewrite E).
    pose proof (relay_local_resources a l s) as H1. destruct (relay_local a l s) as [l' s1]. cbn in H1.
    pose proof (relay_proxy_resources b p s1) as H2. destruct (relay_proxy b p s1) as [p' s2]. cbn in H2.
    etransitivity; [exact H1|]. etransitivity; [exact H2|].
    destruct (transitivity H1 H2) as (_ & _ & _ & _ & Hj & _). unfold same_resources. cbn. split_and!; try done.
    rewrite Hj. unfold joinable. cbn. by rewrite E.
Qed.

Lemma bridge_turns_resources sels s : same_resources s (bridge_turns sels s).
Proof.
  revert s. induction sels as [|sel sels IH]; intros s; cbn; [done|].
  etransitivity; [apply bridge_turn_resources|apply IH].
Qed.

Lemma begin_close_resources s : same_resources s (begin_close s).
Proof.
  unfold begin_close. change (joinable (set_state Closing s)) with (joinable s). destruct (joinable s); [|by split_and!].
  etransitivity; [|by apply on_socket_traffic]. etransitivity; [|by apply on_socket_traffic]. by split_and!.
Qed.

(** Closing joins the thread, if there is one, and closes both sockets. *)
Definition closing_events (s : ProxySession) : list NetEvent :=
  (if joinable s then [NetJoined] else []) ++ (NetClose <$> option_list (m_localSocket s))
  ++ (NetClose <$> option_list (m_proxySocket s)).

Lemma Close_resources sel s :
  resources (net_trace (Close sel s)) = resources (net_trace s) ++ closing_events s ∧
  m_localSocket (Close sel s) = None ∧ m_proxySocket (Close sel s) = None ∧
  m_callback (Close sel s) = m_callback s ∧ m_bridge (Close sel s) = NoBridge ∧ m_state (Close sel s) = Closed ∧
  m_errorMessage (Close sel s) = m_errorMessage s.
Proof.
  unfold Close. assert (H : same_resources s (bridge_turn sel (bridge_turn sel (begin_close s)))).
  { etransitivity; [apply begin_close_resources|]. etransitivity; apply bridge_turn_resources. }
  destruct H as (H1 & H2 & H3 & H4 & H5 & H6). revert H1 H2 H3 H4 H5 H6.
  generalize (bridge_turn sel (bridge_turn sel (begin_close s))). intros t H1 H2 H3 H4 H5 H6.
  unfold end_close, closing_events. rewrite <- H1, <- H2, <- H3, <- H4, <- H5, <- H6.
  unfold joinable. destruct (m_bridge t) eqn:E, (m_localSocket t) eqn:El, (m_proxySocket t) eqn:Ep; cbn;
    rewrite ?El, ?Ep; cbn; rewrite ?resources_app; cbn; rewrite <- ?app_assoc, ?app_nil_r; by split_and!.
Qed.

Lemma HandleError_resources context message s :
  let s' := HandleError context message s in
  let what := context ++ lit ": " ++ message in
  resources (net_trace s') = resources (net_trace s) ++ closing_events s
    ++ (if m_callback s then [NetCallback false what] else []) ∧
  m_localSocket s' = None ∧ m_proxySocket s' = None ∧ m_bridge s' = NoBridge ∧ m_state s' = Closed ∧
  m_errorMessage s' = what.
Proof.
  cbv zeta. unfold HandleError. set (t := set_state CSError (set_error _ s)).
  destruct (Close_resources SelectError t) as (H1 & H2 & H3 & H4 & H5 & H6 & H7).
  change (closing_events t) with (closing_events s) in H1. change (net_trace t) with (net_trace s) in H1.
  change (m_callback t) with (m_callback s) in H4.
  change (m_errorMessage t) with (context ++ lit ": " ++ message) in H7.
  clearbody t. revert H1 H2 H3 H4 H5 H6 H7. generalize (Close SelectError t). intros u H1 H2 H3 H4 H5 H6 H7.
  rewrite H4. destruct (m_callback s); cbn; rewrite ?resources_app, H1, ?H7; cbn; rewrite ?app_nil_r, <- ?app_assoc; by split_and!.
Qed.

(** A session before [Start], with the local socket it may have been given. *)
Definition fresh (s : ProxySession) : Prop :=
  net_trace s = [] ∧ m_proxySocket s = None ∧ m_bridge s = NoBridge.

(** Each socket is closed once, each thread joined and each address list freed;
    Winsock, which a session starts and never cleans up, is apart. *)
Definition balanced (local : option Z) (tr : list NetEvent) : Prop :=
  closed_sockets tr = option_list local ++ created_sockets tr ∧
  count is_thread tr = count is_joined tr ∧ count is_resolved tr = count is_freed tr.

(** While a session is being set up: what it holds is what it created. *)
Definition setting_up (s0 s : ProxySession) : Prop :=
  m_localSocket s = m_localSocket s0 ∧ m_callback s = m_callback s0 ∧ m_bridge s = NoBridge ∧
  closed_sockets (net_trace s) = [] ∧ created_sockets (net_trace s) = option_list (m_proxySocket s) ∧
  callbacks (net_trace s) = [] ∧ count is_thread (net_trace s) = 0%nat ∧ count is_joined (net_trace s) = 0%nat ∧
  count is_resolved (net_trace s) = count is_freed (net_trace s).

Definition start_failed (s0 s : ProxySession) : Prop :=
  m_state s = Closed ∧ m_bridge s = NoBridge ∧ m_localSocket s = None ∧ m_proxySocket s = None ∧
  balanced (m_localSocket s0) (net_trace s) ∧ m_errorMessage s ≠ [] ∧
  callbacks (net_trace s) = if m_callback s0 then [(false, m_errorMessage s)] else [].

Definition start_succeeded (s0 s : ProxySession) : Prop :=
  m_state s = TunnelEstablished ∧ m_bridge s = Looping false false ∧ m_localSocket s = m_localSocket s0 ∧
  is_Some (m_proxySocket s) ∧ closed_sockets (net_trace s) = [] ∧
  created_sockets (net_trace s) = option_list (m_proxySocket s) ∧
  count is_thread (net_trace s) = 1%nat ∧ count is_joined (net_trace s) = 0%nat ∧
  count is_resolved (net_trace s) = count is_freed (net_trace s) ∧
  callbacks (net_trace s) = if m_callback s0 then [(true, [])] else [].

(** The resources of a trace decide all these. *)
Lemma resources_facts tr r :
  resources tr = r →
  created_sockets tr = created_sockets r ∧ closed_sockets tr = closed_sockets r ∧ callbacks tr = callbacks r ∧
  count is_thread tr = count is_thread r ∧ count is_joined tr = count is_joined r ∧
  count is_resolved tr = count is_resolved r ∧ count is_freed tr = count is_freed r.
Proof.
  intros <-. rewrite created_resources, closed_resources, callbacks_resources, !count_resources;
    [by split_and!|by intros []..].
Qed.

Lemma net_count_app p a b : count p (a ++ b) = (count p a + count p b)%nat.
Proof. unfold count, filterb. by rewrite List.filter_app, length_app. Qed.

Lemma created_app a b : created_sockets (a ++ b) = created_sockets a ++ created_sockets b.
Proof. apply omap_app. Qed.
Lemma closed_app a b : closed_sockets (a ++ b) = closed_sockets a ++ closed_sockets b.
Proof. apply omap_app. Qed.
Lemma callbacks_app a b : callbacks (a ++ b) = callbacks a ++ callbacks b.
Proof. apply omap_app. Qed.

Lemma HandleError_fails context message s0 s :
  context ≠ [] → setting_up s0 s → start_failed s0 (HandleError context message s).
Proof.
  intros Hc (Hl & Hcb & Hb & Hcl & Hcr & Hca & Ht & Hj & Hf).
  destruct (HandleError_resources context message s) as (H1 & H2 & H3 & H4 & H5 & H6).
  assert (Hce : closing_events s = (NetClose <$> option_list (m_localSocket s))
                                   ++ (NetClose <$> option_list (m_proxySocket s))).
  { unfold closing_events, joinable. by rewrite Hb. }
  rewrite Hce in H1. apply resources_facts in H1 as (F1 & F2 & F3 & F4 & F5 & F6 & F7).
  rewrite !net_count_app, !count_resources in F4, F5, F6, F7 by (by intros []).
  rewrite !created_app in F1. rewrite !closed_app in F2. rewrite !callbacks_app in F3.
  rewrite created_resources, Hcr in F1. rewrite closed_resources, Hcl in F2. rewrite callbacks_resources, Hca in F3.
  rewrite Hl, Hcb in *. unfold start_failed, balanced.
  rewrite F1, F2, F3, F4, F5, F6, F7, H6.
  split_and!; try done; try (by destruct context);
    destruct (m_localSocket s0), (m_proxySocket s), (m_callback s0); cbn; try done; lia.
Qed.

Lemma Start_result os r s0 ok s :
  fresh s0 → Start os r s0 = (ok, s) → if ok then start_succeeded s0 s else start_failed s0 s.
Proof.
  destruct s0 as [l p b c rd i rx tx e st cb tr]. intros (Htr & Hp & Hb). cbn in Htr, Hp, Hb. subst.
  unfold Start, ConnectToProxy. cbn [set_state set_redirect].
  assert (Herr : ∀ context message t, context ≠ [] →
    setting_up (mkSession l None NoBridge c rd i rx tx e st cb []) t → (false, HandleError context message t) = (ok, s) →
    if ok then start_succeeded (mkSession l None NoBridge c rd i rx tx e st cb []) s
    else start_failed (mkSession l None NoBridge c rd i rx tx e st cb []) s).
  { intros context message t Hne Hup [= <- <-]. by apply HandleError_fails. }
  destruct (ss_startup os); cbn [negb]; [|apply Herr; [done|by split_and!]].
  destruct (ss_socket os) as [h|]; [|apply Herr; [done|by split_and!]].
  destruct (ss_resolve os); [|apply Herr; [done|by split_and!]].
  destruct (ss_connect os); [|apply Herr; [done|by split_and!]].
  unfold SendConnectRequest. destruct (ss_send os); [|apply Herr; [done|by split_and!]].
  unfold ReadConnectResponse. destruct (ss_recv os) as [bytes|]; [|apply Herr; [done|by split_and!]].
  destruct (established (cstr bytes)); [|apply Herr; [done|by split_and!]].
  intros [= <- <-]. unfold start_succeeded. destruct cb; cbn; by split_and!.
Qed.

(** ** Winsock *)

(** A predicate of the calls that start Winsock or clean it up. *)
Definition of_winsock (p : NetEvent → bool) : Prop :=
  (∀ e, traffic e = true → p e = false) ∧ p NetJoined = false ∧ (∀ h, p (NetClose h) = false) ∧
  ∀ ok m, p (NetCallback ok m) = false.

Lemma closing_winsock p s : of_winsock p → count p (closing_events s) = 0%nat.
Proof.
  intros (_ & Hj & Hc & _). unfold closing_events, count.
  destruct (joinable s), (m_localSocket s), (m_proxySocket s); cbn; by rewrite ?Hj, ?Hc.
Qed.

Lemma Close_winsock p sel s : of_winsock p → count p (net_trace (Close sel s)) = count p (net_trace s).
Proof.
  intros Hp. destruct (Close_resources sel s) as [H _]. rewrite <- (count_resources p (net_trace (Close sel s))) by apply Hp.
  rewrite H, net_count_app, closing_winsock, count_resources by apply Hp. lia.
Qed.

Lemma bridge_winsock p sels s : of_winsock p → count p (net_trace (bridge_turns sels s)) = count p (net_trace s).
Proof.
  intros Hp. destruct (bridge_turns_resources sels s) as [H _].
  by rewrite <- (count_resources p (net_trace (bridge_turns sels s))), H, count_resources by apply Hp.
Qed.

Lemma HandleError_winsock p context message s :
  of_winsock p → count p (net_trace (HandleError context message s)) = count p (net_trace s).
Proof.
  intros Hp. destruct (HandleError_resources context message s) as [H _].
  rewrite <- (count_resources p (net_trace (HandleError context message s))) by apply Hp.
  rewrite H, !net_count_app, closing_winsock, count_resources by apply Hp.
  destruct (m_callback s); cbn; [|lia]. unfold count. cbn. rewrite (proj2 (proj2 (proj2 Hp))). cbn. lia.
Qed.

(** The calls that [Start] needs, and the answer it takes for a tunnel: one with
    one of the three phrases anywhere in it. *)
Definition accepts (os : SessionOs) : bool :=
  ss_startup os && (match ss_socket os with Some _ => true | None => false end) &&
  (match ss_resolve os with Some _ => true | None => false end) && ss_connect os && ss_send os &&
  match ss_recv os with Some bytes => established (cstr bytes) | None => false end.

Lemma Start_accepts os r s0 ok s : Start os r s0 = (ok, s) → ok = accepts os.
Proof.
  unfold Start, ConnectToProxy, SendConnectRequest, ReadConnectResponse, accepts.
  destruct (ss_startup os); cbn [negb andb]; [|by intros [= <- _]].
  destruct (ss_socket os); cbn [andb]; [|by intros [= <- _]].
  destruct (ss_resolve os); cbn [andb]; [|by intros [= <- _]].
  destruct (ss_connect os); cbn [andb]; [|by intros [= <- _]].
  destruct (ss_send os); cbn [andb]; [|by intros [= <- _]].
  destruct (ss_recv os) as [b|]; [|by intros [= <- _]]. by destruct (established (cstr b)); intros [= <- _].
Qed.

Lemma Start_winsock os r s0 ok s :
  fresh s0 → Start os r s0 = (ok, s) →
  count is_startup (net_trace s) = (if ss_startup os then 1 else 0)%nat ∧ count is_cleanup (net_trace s) = 0%nat.
Proof.
  destruct s0 as [l p b c rd i rx tx e st cb tr]. intros (Htr & Hp & Hb). cbn in Htr, Hp, Hb. subst.
  unfold Start, ConnectToProxy, SendConnectRequest, ReadConnectResponse. cbn [set_state set_redirect].
  assert (W1 : of_winsock is_startup) by (by split_and!; try intros []).
  assert (W2 : of_winsock is_cleanup) by (by split_and!; try intros []).
  destruct (ss_startup os); cbn [negb]; [|intros [= _ <-]; by rewrite !HandleError_winsock].
  destruct (ss_socket os); [|intros [= _ <-]; by rewrite !HandleError_winsock].
  destruct (ss_resolve os); [|intros [= _ <-]; by rewrite !HandleError_winsock].
  destruct (ss_connect os); [|intros [= _ <-]; by rewrite !HandleError_winsock].
  destruct (ss_send os); [|intros [= _ <-]; by rewrite !HandleError_winsock].
  destruct (ss_recv os) as [bytes|]; [|intros [= _ <-]; by rewrite !HandleError_winsock].
  destruct (established (cstr bytes)); [|intros [= _ <-]; by rewrite !HandleError_winsock].
  intros [= _ <-]. by destruct cb.
Qed.

(** C40: a session releases its sockets, its thread and its address list, and
    keeps Winsock started.  [Start] succeeds exactly if every call does and the
    answer of the proxy has one of three phrases with 200 anywhere in it, be it a
    refusal; it then has one bridge thread and has reported success once; else it
    has reported the error once and released all of these.  In between the bridge
    may run for as long as it likes; and a [Close], at whatever point of the
    bridge, leaves both sockets closed exactly once, the local one included, the
    thread joined, and the state Closed.  But the WSAStartup of [Start] is never
    cleaned up, whether it succeeds or fails.  The state Error is never seen: a
    failed session is Closed. *)
Theorem session_releases_its_sockets os r s0 ok s sels sel :
  fresh s0 → Start os r s0 = (ok, s) →
  ok = accepts os ∧ (if ok then start_succeeded s0 s else start_failed s0 s) ∧
  let s' := Close sel (bridge_turns sels s) in
  balanced (m_localSocket s0) (net_trace s') ∧
  count is_startup (net_trace s') = (if ss_startup os then 1 else 0)%nat ∧ count is_cleanup (net_trace s') = 0%nat ∧
  callbacks (net_trace s') = callbacks (net_trace s) ∧
  m_localSocket s' = None ∧ m_proxySocket s' = None ∧ m_bridge s' = NoBridge ∧ m_state s' = Closed.
Proof.
  intros Hf Hs. pose proof (Start_result os r s0 ok s Hf Hs) as HR.
  split; [by apply (Start_accepts os r s0 ok s)|]. split; [done|]. cbv zeta.
  assert (HW : ∀ p, of_winsock p → count p (net_trace (Close sel (bridge_turns sels s))) = count p (net_trace s)).
  { intros p Hp. by rewrite Close_winsock, bridge_winsock. }
  rewrite !HW by (by split_and!; try intros []). destruct (Start_winsock os r s0 ok s Hf Hs) as [W1 W2].
  rewrite W1, W2. cut (balanced (m_localSocket s0) (net_trace (Close sel (bridge_turns sels s))) ∧
    callbacks (net_trace (Close sel (bridge_turns sels s))) = callbacks (net_trace s) ∧
    m_localSocket (Close sel (bridge_turns sels s)) = None ∧ m_proxySocket (Close sel (bridge_turns sels s)) = None ∧
    m_bridge (Close sel (bridge_turns sels s)) = NoBridge ∧ m_state (Close sel (bridge_turns sels s)) = Closed);
    [by intros (? & ?)|]. clear HW W1 W2.
  destruct (Close_resources sel (bridge_turns sels s)) as (H1 & H2 & H3 & _ & H4 & H5 & _).
  destruct (bridge_turns_resources sels s) as (B1 & B2 & B3 & _ & B5 & _).
  rewrite B1 in H1. assert (Hce : closing_events (bridge_turns sels s) = closing_events s).
  { unfold closing_events. by rewrite B2, B3, B5. }
  rewrite Hce in H1. apply resources_facts in H1 as (F1 & F2 & F3 & F4 & F5 & F6 & F7).
  rewrite !net_count_app, !count_resources in F4, F5, F6, F7 by (by intros []).
  rewrite created_app, created_resources in F1. rewrite closed_app, closed_resources in F2.
  rewrite callbacks_app, callbacks_resources in F3. unfold closing_events, joinable, balanced in *.
  rewrite F1, F2, F3, F4, F5, F6, F7. destruct ok.
  - destruct HR as (G1 & G2 & G3 & [h G4] & G5 & G6 & G7 & G8 & G9 & G10).
    rewrite G2, G3, G4, G5, G6, G7, G8, G9, G4. destruct (m_localSocket s0); cbn; rewrite ?app_nil_r; by split_and!.
  - destruct HR as (G1 & G2 & G3 & G4 & (G5 & G6 & G7) & _).
    rewrite G2, G3, G4, G5, G6, G7. cbn. rewrite !app_nil_r. by split_and!.
Qed.

(** * The bridge *)

Definition bridge_round (sel : Selected) (s : ProxySession) : ProxySession := bridge_turn sel (bridge_turn sel s).
Definition bridge_rounds (sels : list Selected) (s : ProxySession) : ProxySession :=
  foldl (λ s sel, bridge_round sel s) s sels.

(** What a sequence of rounds offers in one direction: the chunks up to the
    first end, and whether there is an end. *)
Definition local_of (sel : Selected) : option (option text) := match sel with SelectReady l _ => l | _ => None end.
Definition proxy_of (sel : Selected) : option (option text) := match sel with SelectReady _ p => p | _ => None end.

Fixpoint stream (dir : Selected → option (option text)) (sels : list Selected) : list text :=
  match sels with
  | [] => []
  | sel :: sels' =>
      match dir sel with
      | Some (Some bytes) => bytes :: stream dir sels'
      | Some None => []
      | None => stream dir sels'
      end
  end.

Definition ends (r : option (option text)) : bool := match r with Some None => true | _ => false end.
Definition ended (dir : Selected → option (option text)) (sels : list Selected) : bool := existsb (ends ∘ dir) sels.

(** The chunks sent to a socket, and how often its sending side was shut. *)
Definition sent_to (h : Z) (tr : list NetEvent) : list text :=
  omap (λ e, match e with NetSend k bytes => if k =? h then Some bytes else None | _ => None end) tr.
Definition is_half_close (h : Z) (e : NetEvent) : bool :=
  match e with NetShutdown k both => (k =? h) && negb both | _ => false end.

Definition total (chunks : list text) : Z := Z.of_nat (length (concat chunks)).

(** What a run in one direction has done: [h] got the chunks, and was shut if
    the direction ended. *)
Definition forwarded (h : Z) (chunks : list text) (fin : bool) (s s' : ProxySession) : Prop :=
  sent_to h (net_trace s') = sent_to h (net_trace s) ++ chunks ∧
  count (is_half_close h) (net_trace s') = (count (is_half_close h) (net_trace s) + if fin then 1 else 0)%nat.

Definition chunk (done : bool) (r : option (option text)) : list text :=
  match done, r with false, Some (Some bytes) => [bytes] | _, _ => [] end.

Lemma sent_app h a b : sent_to h (a ++ b) = sent_to h a ++ sent_to h b.
Proof. apply omap_app. Qed.

Lemma forwarded_trans h c1 c2 f1 f2 s1 s2 s3 :
  forwarded h c1 f1 s1 s2 → forwarded h c2 f2 s2 s3 → f1 && f2 = false →
  forwarded h (c1 ++ c2) (f1 || f2) s1 s3.
Proof.
  intros [H1 H2] [G1 G2] Hf. split; [by rewrite G1, H1, <- app_assoc|]. rewrite G2, H2. destruct f1, f2; cbn in *; try done; lia.
Qed.

Lemma forwarded_nil h s s' : net_trace s' = net_trace s → forwarded h [] false s s'.
Proof. intros E. unfold forwarded. rewrite E, app_nil_r. split; [done|lia]. Qed.

Ltac forwarded_done :=
  unfold forwarded; cbn [net net_trace set_counts]; rewrite ?sent_app, ?net_count_app; split;
  [f_equal; cbn; rewrite ?Z.eqb_refl|cbn; rewrite ?Z.eqb_refl].

Lemma relay_local_spec r done s l p done' s' :
  m_localSocket s = Some l → m_proxySocket s = Some p → l ≠ p → relay_local r done s = (done', s') →
  done' = done || ends r ∧ forwarded p (chunk done r) (negb done && ends r) s s' ∧ forwarded l [] false s s' ∧
  m_txBytes s' = (match done, r with false, Some (Some b) => wrap 64 (m_txBytes s + Z.of_nat (length b)) | _, _ => m_txBytes s end) ∧
  m_rxBytes s' = m_rxBytes s ∧ m_localSocket s' = Some l ∧ m_proxySocket s' = Some p ∧ m_state s' = m_state s.
Proof.
  destruct s as [ls ps b c rd i rx tx e st cb tr]. cbn. intros -> -> Hne. unfold relay_local.
  assert (Hlp : (p =? l) = false) by by apply Z.eqb_neq.
  destruct done, r as [[bytes|]|]; intros [= <- <-]; cbn [ends negb orb andb chunk on_socket]; split_and!; try done;
    try (by apply forwarded_nil); forwarded_done; rewrite ?Hlp; cbn; rewrite ?app_nil_r; try done.
Qed.

Lemma relay_proxy_spec r done s l p done' s' :
  m_localSocket s = Some l → m_proxySocket s = Some p → l ≠ p → relay_proxy r done s = (done', s') →
  done' = done || ends r ∧ forwarded l (chunk done r) (negb done && ends r) s s' ∧ forwarded p [] false s s' ∧
  m_rxBytes s' = (match done, r with false, Some (Some b) => wrap 64 (m_rxBytes s + Z.of_nat (length b)) | _, _ => m_rxBytes s end) ∧
  m_txBytes s' = m_txBytes s ∧ m_localSocket s' = Some l ∧ m_proxySocket s' = Some p ∧ m_state s' = m_state s.
Proof.
  destruct s as [ls ps b c rd i rx tx e st cb tr]. cbn. intros -> -> Hne. unfold relay_proxy.
  assert (Hlp : (l =? p) = false) by by apply Z.eqb_neq.
  destruct done, r as [[bytes|]|]; intros [= <- <-]; cbn [ends negb orb andb chunk on_socket]; split_and!; try done;
    try (by apply forwarded_nil); forwarded_done; rewrite ?Hlp; cbn; rewrite ?app_nil_r; try done.
Qed.

(** The bridge between two bodies of its loop. *)
Definition bridging (l p : Z) (ld pd : bool) (s : ProxySession) : Prop :=
  m_bridge s = Looping ld pd ∧ m_state s = TunnelEstablished ∧ m_localSocket s = Some l ∧ m_proxySocket s = Some p.

Lemma ended_rounds sels s : m_bridge s = BridgeEnded → bridge_rounds sels s = s.
Proof.
  intros H. induction sels as [|sel sels IH]; [done|]. cbn. fold (bridge_rounds sels (bridge_round sel s)).
  assert (E : bridge_round sel s = s); [|by rewrite E]. unfold bridge_round, bridge_turn. by rewrite !H.
Qed.

Lemma round_both_done l p sel s :
  bridging l p true true s → bridge_turn sel s = end_bridge s.
Proof. intros (H1 & H2 & _ & _). unfold bridge_turn, is_established. by rewrite H1, H2. Qed.

Definition carried (done : bool) (dir : Selected → option (option text)) (sels : list Selected) : list text :=
  if done then [] else stream dir sels.

Lemma carried_cons done dir sel sels :
  carried done dir (sel :: sels) = chunk done (dir sel) ++ carried (done || ends (dir sel)) dir sels.
Proof. unfold carried, chunk. by destruct done; cbn; destruct (dir sel) as [[]|]. Qed.

Lemma total_app a b : total (a ++ b) = total a + total b.
Proof. unfold total. rewrite concat_app, length_app. lia. Qed.

(** One round of a bridge that goes on. *)
Lemma round_spec l p ld pd sel s :
  bridging l p ld pd s → l ≠ p → ld && pd = false → sel ≠ SelectError →
  let s' := bridge_round sel s in
  bridging l p (ld || ends (local_of sel)) (pd || ends (proxy_of sel)) s' ∧
  forwarded p (chunk ld (local_of sel)) (negb ld && ends (local_of sel)) s s' ∧
  forwarded l (chunk pd (proxy_of sel)) (negb pd && ends (proxy_of sel)) s s' ∧
  wrap 64 (m_txBytes s') = wrap 64 (m_txBytes s + total (chunk ld (local_of sel))) ∧
  wrap 64 (m_rxBytes s') = wrap 64 (m_rxBytes s + total (chunk pd (proxy_of sel))).
Proof.
  intros (Hb & Hst & Hl & Hp) Hne Hd Hsel. cbv zeta. unfold bridge_round.
  assert (E : bridge_turn sel s = set_bridge (Selecting ld pd) s).
  { unfold bridge_turn, is_established. by rewrite Hb, Hst, Hd. }
  rewrite E. unfold bridge_turn. cbn [m_bridge set_bridge].
  destruct sel as [| |a b]; [done| |]; cbn [local_of proxy_of ends chunk].
  - destruct ld, pd; cbn in *; (split; [by split_and!|]); (split; [by apply forwarded_nil|]);
      (split; [by apply forwarded_nil|]); unfold total; cbn; by rewrite !Z.add_0_r.
  - set (t := set_bridge _ s). destruct (relay_local a ld t) as [ld' s1] eqn:E1.
    apply (relay_local_spec a ld t l p) in E1 as (-> & F1 & F2 & F3 & F4 & F5 & F6 & F7); [|done..].
    destruct (relay_proxy b pd s1) as [pd' s2] eqn:E2.
    apply (relay_proxy_spec b pd s1 l p) in E2 as (-> & G1 & G2 & G3 & G4 & G5 & G6 & G7); [|done..].
    split; [unfold bridging; cbn; split_and!; [done|by rewrite G7, F7|done..]|].
    split; [|split; [|split]].
    + pose proof (forwarded_trans p _ _ _ _ _ _ _ F1 G2) as H. rewrite app_nil_r, orb_false_r in H. apply H.
      by rewrite andb_false_r.
    + pose proof (forwarded_trans l _ _ _ _ _ _ _ F2 G1) as H. by apply H.
    + cbn [m_txBytes set_bridge]. rewrite G4, F3. unfold total.
      destruct ld, a as [[]|]; cbn; rewrite ?app_nil_r, ?Z.add_0_r; try done. apply wrap_wrap.
    + cbn [m_rxBytes set_bridge]. rewrite G3. unfold total.
      destruct pd, b as [[]|]; cbn; rewrite ?app_nil_r, ?Z.add_0_r, ?F4; try done. apply wrap_wrap.
Qed.

Lemma rounds_spec l p sels : ∀ ld pd s,
  bridging l p ld pd s → l ≠ p → Forall (λ sel, sel ≠ SelectError) sels →
  let s' := bridge_turn SelectTimeout (bridge_rounds sels s) in
  forwarded p (carried ld local_of sels) (negb ld && ended local_of sels) s s' ∧
  forwarded l (carried pd proxy_of sels) (negb pd && ended proxy_of sels) s s' ∧
  wrap 64 (m_txBytes s') = wrap 64 (m_txBytes s + total (carried ld local_of sels)) ∧
  wrap 64 (m_rxBytes s') = wrap 64 (m_rxBytes s + total (carried pd proxy_of sels)) ∧
  (m_bridge s' = BridgeEnded ↔ ld || ended local_of sels = true ∧ pd || ended proxy_of sels = true).
Proof.
  assert (Hend : ∀ s sels, bridging l p true true s →
    bridge_turn SelectTimeout (bridge_rounds sels s) = end_bridge s).
  { intros s [|sel sels'] Hs; cbn; [by apply (round_both_done l p)|].
    fold (bridge_rounds sels' (bridge_round sel s)). unfold bridge_round. rewrite (round_both_done l p sel s) by done.
    change (bridge_turn sel (end_bridge s)) with (end_bridge s). by rewrite ended_rounds. }
  induction sels as [|sel sels IH]; intros ld pd s Hs Hne Hall; cbv zeta.
  - destruct (ld && pd) eqn:Hd.
    + apply andb_prop in Hd as [-> ->]. rewrite (Hend s []) by done. cbn. split_and!;
        first [by apply forwarded_nil|by split|unfold total; cbn; by rewrite ?Z.add_0_r].
    + cbn [bridge_rounds foldl]. pose proof Hs as (Hb & Hst & _ & _).
      unfold bridge_turn, is_established. rewrite Hb, Hst, Hd. cbn.
      split_and!; try (by destruct ld, pd; apply forwarded_nil); unfold total; try (by destruct ld, pd; cbn; rewrite ?Z.add_0_r).
      destruct ld, pd; cbn in *; try done; split; try done; by intros [].
  - apply Forall_cons in Hall as [Hsel Hall]. destruct (ld && pd) eqn:Hd.
    + apply andb_prop in Hd as [-> ->]. rewrite Hend by done. cbn. split_and!;
        first [by apply forwarded_nil|by split|unfold total; cbn; by rewrite ?Z.add_0_r].
    + cbn [bridge_rounds foldl]. fold (bridge_rounds sels (bridge_round sel s)).
      destruct (round_spec l p ld pd sel s Hs Hne Hd Hsel) as (R1 & R2 & R3 & R4 & R5).
      destruct (IH _ _ _ R1 Hne Hall) as (I1 & I2 & I3 & I4 & I5). rewrite !carried_cons, !total_app. split_and!.
      * pose proof (forwarded_trans _ _ _ _ _ _ _ _ R2 I1) as H. unfold ended in *. cbn [existsb compose].
        destruct ld, (ends (local_of sel)); apply H; done.
      * pose proof (forwarded_trans _ _ _ _ _ _ _ _ R3 I2) as H. unfold ended in *. cbn [existsb compose].
        destruct pd, (ends (proxy_of sel)); apply H; done.
      * rewrite I3, <- wrap_add_l, R4, wrap_add_l. f_equal. lia.
      * rewrite I4, <- wrap_add_l, R5, wrap_add_l. f_equal. lia.
      * rewrite I5. unfold ended. cbn [existsb]. unfold compose. by rewrite !orb_assoc.
Qed.

(** the bridge forwards each direction until it ends, and ends when both
    have.  Whatever [select] reports round after round, short of an error: the
    proxy socket is sent exactly what came from the local socket up to its
    end, in order, and is then shut for sending once, while the other
    direction goes on; the same holds the other way; the counters agree modulo
    2^64; and the loop is over exactly when both directions have ended. *)
Theorem bridge_relays_until_both_end l p sels s :
  bridging l p false false s → l ≠ p → Forall (λ sel, sel ≠ SelectError) sels →
  let s' := bridge_turn SelectTimeout (bridge_rounds sels s) in
  forwarded p (stream local_of sels) (ended local_of sels) s s' ∧
  forwarded l (stream proxy_of sels) (ended proxy_of sels) s s' ∧
  wrap 64 (m_txBytes s') = wrap 64 (m_txBytes s + total (stream local_of sels)) ∧
  wrap 64 (m_rxBytes s') = wrap 64 (m_rxBytes s + total (stream proxy_of sels)) ∧
  (m_bridge s' = BridgeEnded ↔ ended local_of sels = true ∧ ended proxy_of sels = true).
Proof. intros Hs Hne Hall. by apply (rounds_spec l p sels false false s). Qed.

(** * The credentials of the request *)

(** A wide string of the first 256 characters. *)
Definition latin1 (w : text) : Prop := Forall is_byte w.

Lemma narrow_latin1 w : latin1 w → narrow w = w.
Proof. intros H. unfold narrow. induction H as [|c w Hc _ IH]; [done|]. cbn. by rewrite IH, (wrap_small 8 c Hc). Qed.

Lemma narrow_bytes w : Forall is_byte (narrow w).
Proof. unfold narrow. induction w as [|c w IH]; cbn; constructor; [by apply (wrap_range 8)|done]. Qed.

(** The proxy reads the configured login and password from a request with
    credentials, if both are of the first 256 characters; others are cut to
    eight bits. *)
Lemma request_carries_credentials c r :
  pc_auth_required c = true → pc_has_password c = true → pc_plain_password c ≠ [] →
  latin1 (pc_login c) → latin1 (pc_plain_password c) →
  ∃ pre post token,
    connect_request c r = pre ++ lit "Proxy-Authorization: Basic " ++ token ++ crlf ++ post ∧
    SspiBase64Decode token = pc_login c ++ lit ":" ++ pc_plain_password c.
Proof.
  intros Ha Hp Hne Hl Hpw. unfold connect_request, credentials_of. rewrite Ha, Hp. cbn [andb].
  destruct (text_eqb (pc_plain_password c) []) eqn:E; [by apply text_eqb_spec in E|]. cbn [negb].
  rewrite !narrow_latin1 by done.
  exists (connect_line (inet_ntop (re_original_address_v4 r)) (re_original_port r)),
    (lit "User-Agent: TcpRedirector/1.0" ++ crlf ++ lit "Proxy-Connection: Keep-Alive" ++ crlf ++ crlf),
    (ProxyBase64Encode (pc_login c ++ lit ":" ++ pc_plain_password c)).
  split; [rewrite <- !app_assoc; reflexivity|].
  assert (H : Forall is_byte (pc_login c ++ lit ":" ++ pc_plain_password c)).
  { apply Forall_app. split; [done|]. apply Forall_app. split; [|done]. repeat constructor; unfold in_u; lia. }
  assert (Hin : In ProxyBase64Encode all_encoders) by (do 3 right; by left).
  rewrite (all_encoders_spec _ _ H Hin). by apply decode_spec; try apply _.
Qed.

(** The service shuts its engine down in [Stop] and again in its destructor:
    two releases of Winsock for one. *)
Lemma second_shutdown_is_unbalanced config sel :
  let e := Shutdown sel (Shutdown sel (snd (Initialize true config ProxyEngine_new))) in
  en_trace e = [NetStartup; NetCleanup; NetCleanup].
Proof. cbv zeta. unfold Shutdown. cbn. by rewrite map_to_list_empty. Qed.

(** * Concrete runs *)

Definition sample_answer (response : text) : SessionOs :=
  mkSessionOs true (Some 5) (Some 1) true true (Some response).

(** A session with the local socket 4. *)
Definition sample_session : ProxySession :=
  SetCompletionCallback (SetLocalSocket 4 (ProxySession_new ProxyConfig_default 1)).

Definition sample_bridge : ProxySession :=
  snd (Start (sample_answer (lit "HTTP/1.1 200 OK")) no_redirect sample_session).

(** Any page that mentions the phrase counts as a tunnel. *)
Example refusal_taken_for_a_tunnel :
  fst (Start (sample_answer (lit "HTTP/1.1 407 Proxy Authentication Required, not 200 OK")) no_redirect sample_session)
  = true.
Proof. reflexivity. Qed.

Definition sample_turns : list Selected := [SelectTimeout; SelectReady (Some (Some (lit "hello"))) None].

Lemma session_releases_its_sockets_witness :
  balanced (Some 4) (net_trace (Close SelectTimeout (bridge_turns sample_turns sample_bridge))) ∧
  m_state (Close SelectTimeout (bridge_turns sample_turns sample_bridge)) = Closed.
Proof.
  assert (Hf : fresh sample_session) by (split; [|split]; vm_compute; reflexivity).
  assert (Hs : Start (sample_answer (lit "HTTP/1.1 200 OK")) no_redirect sample_session = (true, sample_bridge))
    by (vm_compute; reflexivity).
  pose proof (session_releases_its_sockets _ _ _ _ _ sample_turns SelectTimeout Hf Hs) as (_ & _ & Hb & _ & _ & _ & _ & _ & _ & Hst).
  split; [exact Hb|exact Hst].
Defined.

Definition sample_rounds : list Selected :=
  [SelectReady (Some (Some (lit "hello"))) None; SelectReady (Some None) (Some (Some (lit "hi")));
   SelectReady None (Some None)].

Lemma bridge_relays_until_both_end_witness :
  m_bridge (bridge_turn SelectTimeout (bridge_rounds sample_rounds sample_bridge)) = BridgeEnded.
Proof.
  destruct (bridge_relays_until_both_end 4 5 sample_rounds sample_bridge) as (_ & _ & _ & _ & H).
  - vm_compute. repeat split.
  - discriminate.
  - repeat (apply List.Forall_cons; [discriminate|]). apply List.Forall_nil.
  - apply H. split; vm_compute; reflexivity.
Defined.
