(* ===== verification/Hook.v ===== *)
(** The hook library of [service/HookDLL/hook_connect.cpp]: the detour written
    over [connect] of ws2_32.dll, the trampoline with the bytes it replaced,
    their removal, and the hooked [connect] itself.

    Memory is a function from addresses to bytes.  The library's caller, the
    address of [connect], that of a fresh executable page, and what the socket
    calls answer come with the call.  The two jumps the source writes are read
    back as its comments describe them: an absolute jump through rax, and a
    jump through the quadword at a displacement from the next instruction. *)

From S2P Require Import Prelude.
From S2P Require Import Text.
From S2P Require Import Entities.
From S2P Require Import Relay.
From S2P Require Import Json.

(** * Memory *)

Definition Memory : Type := Z → Z.

Definition write_bytes (a : Z) (l : list Z) (m : Memory) : Memory := λ x,
  if (a <=? x) && (x <? a + Z.of_nat (length l)) then nth (Z.to_nat (x - a)) l 0 else m x.

Fixpoint read_bytes (n : nat) (a : Z) (m : Memory) : list Z :=
  match n with O => [] | S n' => m a :: read_bytes n' (a + 1) m end.

(** Little-endian integers. *)
Fixpoint le_split (n : nat) (v : Z) : list Z :=
  match n with O => [] | S n' => v mod 256 :: le_split n' (v / 256) end.

Fixpoint le_combine (l : list Z) : Z :=
  match l with [] => 0 | b :: l' => b + 256 * le_combine l' end.

Lemma length_read n a m : length (read_bytes n a m) = n.
Proof. revert a. induction n as [|n IH]; intros a; cbn; [done|]. by rewrite IH. Qed.

Lemma length_le_split n v : length (le_split n v) = n.
Proof. revert v. induction n as [|n IH]; intros v; cbn; [done|]. by rewrite IH. Qed.

Lemma le_combine_split n v : le_combine (le_split n v) = v mod 256 ^ Z.of_nat n.
Proof.
  revert v. induction n as [|n IH]; intros v; [cbn; by rewrite Z.mod_1_r|].
  cbn [le_split le_combine]. rewrite IH, Nat2Z.inj_succ, Z.pow_succ_r by lia.
  rewrite Z.rem_mul_r by (try lia; apply Z.pow_pos_nonneg; lia). lia.
Qed.

Lemma read_ext n a m m' : (∀ x, a <= x < a + Z.of_nat n → m x = m' x) → read_bytes n a m = read_bytes n a m'.
Proof.
  revert a. induction n as [|n IH]; intros a H; cbn; [done|]. f_equal; [apply H; lia|]. apply IH. intros x Hx. apply H. lia.
Qed.

Lemma write_outside a l m x : x < a ∨ a + Z.of_nat (length l) <= x → write_bytes a l m x = m x.
Proof. intros H. unfold write_bytes. destruct (Z.leb_spec a x), (Z.ltb_spec x (a + Z.of_nat (length l))); cbn; try done; lia. Qed.

Lemma write_inside a l m i : 0 <= i < Z.of_nat (length l) → write_bytes a l m (a + i) = nth (Z.to_nat i) l 0.
Proof.
  intros H. unfold write_bytes. destruct (Z.leb_spec a (a + i)), (Z.ltb_spec (a + i) (a + Z.of_nat (length l)));
    cbn; try lia. f_equal. lia.
Qed.

Lemma read_nth n a m i : (i < n)%nat → nth i (read_bytes n a m) 0 = m (a + Z.of_nat i).
Proof.
  revert a i. induction n as [|n IH]; intros a [|i] H; cbn; try lia; [by rewrite Z.add_0_r|].
  rewrite IH by lia. f_equal. lia.
Qed.

(** Reading a part of what was written. *)
Lemma read_written n a l m i :
  0 <= i → i + Z.of_nat n <= Z.of_nat (length l) →
  read_bytes n (a + i) (write_bytes a l m) = take n (drop (Z.to_nat i) l).
Proof.
  revert i. induction n as [|n IH]; intros i Hi Hn; [cbn; by rewrite take_0|]. cbn [read_bytes].
  rewrite write_inside by lia. replace (a + i + 1) with (a + (i + 1)) by lia. rewrite IH by lia.
  replace (Z.to_nat (i + 1)) with (S (Z.to_nat i)) by lia.
  destruct (drop (Z.to_nat i) l) as [|x l'] eqn:E.
  - apply (f_equal length) in E. rewrite length_drop in E. cbn in E. lia.
  - change (S (Z.to_nat i)) with (1 + Z.to_nat i)%nat. rewrite <- skipn_skipn, E. cbn. f_equal.
    rewrite <- (firstn_skipn (Z.to_nat i) l), E. rewrite app_nth2; rewrite length_firstn; [|lia].
    replace (Z.to_nat i - _)%nat with O by lia. done.
Qed.

(** * The library *)

Definition DETOUR_SIZE : nat := 12.

Record Hook := mkHook {
  g_proxy_host : text;
  g_proxy_port : Z;
  g_hook_enabled : bool;
  g_hook_lock : bool;                    (* the critical section is initialized *)
  RealConnect : option Z;
  Trampoline : option Z;
  OriginalBytes : list Z;
  hk_pages : list Z;                     (* executable pages allocated *)
  hk_memory : Memory
}.

Definition Hook_new (m : Memory) : Hook :=
  mkHook (lit "127.0.0.1") 3128 true false None None (repeat 0 DETOUR_SIZE) [] m.

Definition SetProxyConfig (host : text) (port : Z) (h : Hook) : Hook :=
  mkHook host port (g_hook_enabled h) (g_hook_lock h) (RealConnect h) (Trampoline h) (OriginalBytes h)
    (hk_pages h) (hk_memory h).

(** mov rax, target; jmp rax *)
Definition BuildDetour (target : Z) : list Z := [72; 184] ++ le_split 8 target ++ [255; 224].

(** jmp qword ptr \[rip+offset\] *)
Definition BuildJump (jmpAddr targetAddr : Z) : list Z := [255; 37] ++ le_split 4 (targetAddr - (jmpAddr + 6)).

Definition InstallConnectHook (found page : option Z) (MyConnect : Z) (h : Hook) : bool * Hook :=
  match found with
  | None =>
      (false, mkHook (g_proxy_host h) (g_proxy_port h) (g_hook_enabled h) true (RealConnect h) (Trampoline h)
                (OriginalBytes h) (hk_pages h) (hk_memory h))
  | Some c =>
      let original := read_bytes DETOUR_SIZE c (hk_memory h) in
      match page with
      | None =>
          (false, mkHook (g_proxy_host h) (g_proxy_port h) (g_hook_enabled h) true (Some c) None original
                    (hk_pages h) (hk_memory h))
      | Some t =>
          let jmpAddr := t + Z.of_nat DETOUR_SIZE in
          let m := write_bytes t original (hk_memory h) in
          let m := write_bytes jmpAddr (BuildJump jmpAddr (c + Z.of_nat DETOUR_SIZE)) m in
          let m := write_bytes c (BuildDetour MyConnect) m in
          (true, mkHook (g_proxy_host h) (g_proxy_port h) (g_hook_enabled h) true (Some c) (Some t) original
                   (t :: hk_pages h) m)
      end
  end.

Definition RemoveConnectHook (h : Hook) : Hook :=
  match RealConnect h with
  | None => h
  | Some c =>
      mkHook (g_proxy_host h) (g_proxy_port h) (g_hook_enabled h) false None None (OriginalBytes h)
        (match Trampoline h with Some t => remove_first (Z.eqb t) (hk_pages h) | None => hk_pages h end)
        (write_bytes c (OriginalBytes h) (hk_memory h))
  end.

(** ** The hooked connect *)

Record SockAddr := mkSockAddr { sa_inet : bool; sa_ip : Z; sa_port : Z }.

Record HookOs := mkHookOs {
  ho_real : SockAddr → Z;                (* the real connect, through whatever is called *)
  ho_proxy_ip : Z;                       (* inet_pton of the proxy *)
  ho_send : bool;
  ho_recv : option text
}.

Definition SOCKET_ERROR : Z := -1.

Inductive HookCall := Connects (a : SockAddr) | Sends (request : text) | ClosesSocket.

(** A call through the trampoline, or through a pointer that may be null. *)
Definition call_real (os : HookOs) (h : Hook) (a : SockAddr) : exec Z :=
  match Trampoline h, RealConnect h with
  | None, None => Undefined
  | _, _ => Done (ho_real os a)
  end.

Definition hook_established (resp : text) : bool :=
  (strstr resp (lit "200") && strstr resp (lit "Connection established"))
  || strstr resp (lit "HTTP/1.1 200") || strstr resp (lit "HTTP/1.0 200").

Definition SendConnect (os : HookOs) (host : text) (port : Z) : bool * list HookCall :=
  let req := connect_line host port ++ crlf in
  (ho_send os && match ho_recv os with Some resp => hook_established resp | None => false end, [Sends req]).

Definition MyConnect (os : HookOs) (name : option SockAddr) (h : Hook) : exec Z * list HookCall :=
  match name with
  | Some orig =>
      if g_hook_enabled h && sa_inet orig then
        let proxy := mkSockAddr true (ho_proxy_ip os) (g_proxy_port h) in
        match call_real os h proxy with
        | Done 0 =>
            let '(ok, calls) := SendConnect os (inet_ntop (sa_ip orig)) (sa_port orig) in
            if ok then (Done 0, Connects proxy :: calls)
            else (Done SOCKET_ERROR, Connects proxy :: calls ++ [ClosesSocket])
        | r => (r, [Connects proxy])
        end
      else (call_real os h orig, [Connects orig])
  | None => (call_real os h (mkSockAddr false 0 0), [Connects (mkSockAddr false 0 0)])
  end.

(** * What the processor does with the bytes *)

(** The target of an absolute jump through rax. *)
Definition absolute_jump (a : Z) (m : Memory) : option Z :=
  match read_bytes 2 a m, read_bytes 2 (a + 10) m with
  | [72; 184], [255; 224] => Some (le_combine (read_bytes 8 (a + 2) m))
  | _, _ => None
  end.

(** Where an indirect jump finds its target, and the target. *)
Definition jump_slot (a : Z) (m : Memory) : option Z :=
  match read_bytes 2 a m with
  | [255; 37] => Some (a + 6 + swrap 32 (le_combine (read_bytes 4 (a + 2) m)))
  | _ => None
  end.

Definition indirect_jump (a : Z) (m : Memory) : option Z :=
  (λ p, le_combine (read_bytes 8 p m)) <$> jump_slot a m.

(** * Installing and removing *)

Section install.
Context (c t : Z).

(** The page does not overlap the first bytes of [connect]. *)
Definition apart : Prop := c + 20 <= t ∨ t + 26 <= c.

Lemma read_other n a l b m :
  b + Z.of_nat n <= a ∨ a + Z.of_nat (length l) <= b →
  read_bytes n b (write_bytes a l m) = read_bytes n b m.
Proof. intros H. apply read_ext. intros x Hx. apply write_outside. lia. Qed.

Lemma length_detour my : length (BuildDetour my) = 12%nat.
Proof. reflexivity. Qed.
Lemma length_jump a b : length (BuildJump a b) = 6%nat.
Proof. reflexivity. Qed.

Lemma read_detour n i my m :
  0 <= i → i + Z.of_nat n <= 12 →
  read_bytes n (c + i) (write_bytes c (BuildDetour my) m) = take n (drop (Z.to_nat i) (BuildDetour my)).
Proof. intros Hi Hn. apply read_written; [done|]. by rewrite length_detour. Qed.

Lemma detour_jumps my m : 0 <= my < 2 ^ 64 → absolute_jump c (write_bytes c (BuildDetour my) m) = Some my.
Proof.
  intros Hmy. unfold absolute_jump. rewrite <- (Z.add_0_r c) at 1. rewrite !read_detour by lia.
  change (take 2 (drop (Z.to_nat 0) (BuildDetour my))) with [72; 184].
  change (take 2 (drop (Z.to_nat 10) (BuildDetour my))) with [255; 224].
  change (take 8 (drop (Z.to_nat 2) (BuildDetour my))) with (le_split 8 my). cbv iota.
  rewrite le_combine_split. f_equal. change (256 ^ Z.of_nat 8) with (2 ^ 64). by apply Z.mod_small.
Qed.

Definition installed (my : Z) (h : Hook) : Hook := snd (InstallConnectHook (Some c) (Some t) my h).

Lemma installed_memory my h :
  hk_memory (installed my h) =
  write_bytes c (BuildDetour my)
    (write_bytes (t + 12) (BuildJump (t + 12) (c + 12)) (write_bytes t (read_bytes DETOUR_SIZE c (hk_memory h)) (hk_memory h))).
Proof. reflexivity. Qed.

Lemma installed_elsewhere my h x :
  (x < c ∨ c + 12 <= x) → (x < t ∨ t + 18 <= x) → hk_memory (installed my h) x = hk_memory h x.
Proof.
  intros Hc Ht. rewrite installed_memory.
  rewrite !write_outside; rewrite ?length_detour, ?length_jump, ?length_read; unfold DETOUR_SIZE; try lia; done.
Qed.

Lemma trampoline_bytes my h : apart → read_bytes 12 t (hk_memory (installed my h)) = read_bytes 12 c (hk_memory h).
Proof.
  unfold apart. intros Ha. rewrite installed_memory, read_other by (rewrite length_detour; lia).
  rewrite read_other by (rewrite length_jump; lia). rewrite <- (Z.add_0_r t) at 1.
  rewrite read_written by (rewrite ?length_read; unfold DETOUR_SIZE; lia). rewrite drop_0.
  apply take_ge. by rewrite length_read.
Qed.

(** The jump of the trampoline reads its target from the code of [connect]. *)
Lemma trampoline_slot my h :
  apart → - 2 ^ 31 <= (c + 12) - (t + 18) < 2 ^ 31 → jump_slot (t + 12) (hk_memory (installed my h)) = Some (c + 12).
Proof.
  unfold apart. intros Ha Hr. unfold jump_slot. rewrite installed_memory.
  rewrite !read_other with (a := c) by (rewrite length_detour; lia).
  rewrite <- (Z.add_0_r (t + 12)) at 1. rewrite !read_written by (rewrite ?length_jump; lia).
  change (take 2 (drop (Z.to_nat 0) (BuildJump (t + 12) (c + 12)))) with [255; 37].
  change (take 4 (drop (Z.to_nat 2) (BuildJump (t + 12) (c + 12)))) with (le_split 4 ((c + 12) - (t + 12 + 6))).
  cbv iota. rewrite le_combine_split. f_equal. change (256 ^ Z.of_nat 4) with (2 ^ 32).
  unfold swrap. rewrite Zmod_mod. fold (swrap 32 ((c + 12) - (t + 12 + 6))). rewrite swrap_small; [lia|done|].
  unfold in_s. lia.
Qed.

Lemma trampoline_target my h :
  apart → - 2 ^ 31 <= (c + 12) - (t + 18) < 2 ^ 31 →
  indirect_jump (t + 12) (hk_memory (installed my h)) = Some (le_combine (read_bytes 8 (c + 12) (hk_memory h))).
Proof.
  intros Ha Hr. unfold indirect_jump. rewrite trampoline_slot by done. cbn [fmap option_fmap option_map]. do 2 f_equal.
  apply read_ext. intros x Hx. unfold apart in Ha. apply installed_elsewhere; lia.
Qed.
End install.

Lemma removed_elsewhere c t my m x :
  apart c t → (x < t ∨ t + 18 <= x) → hk_memory (RemoveConnectHook (installed c t my (Hook_new m))) x = m x.
Proof.
  intros Ha Ht. assert (E : hk_memory (RemoveConnectHook (installed c t my (Hook_new m))) =
    write_bytes c (read_bytes DETOUR_SIZE c m) (hk_memory (installed c t my (Hook_new m)))) by reflexivity.
  rewrite E. destruct (decide (c <= x < c + 12)) as [Hx|Hx].
  - replace x with (c + (x - c)) at 1 by lia. rewrite write_inside by (rewrite length_read; unfold DETOUR_SIZE; lia).
    rewrite read_nth by (unfold DETOUR_SIZE; lia). f_equal. lia.
  - rewrite write_outside by (rewrite length_read; unfold DETOUR_SIZE; lia). rewrite installed_elsewhere; [done|lia|done].
Qed.

(** the detour is a round trip.  Installed over an unhooked [connect], it
    sends every call to the hook, whatever address the hook has; the trampoline
    starts with the bytes it replaced; nothing else changes; and removing it
    gives back every byte outside the freed page. *)
Theorem hook_is_a_round_trip c t my m :
  apart c t → 0 <= my < 2 ^ 64 →
  let h := installed c t my (Hook_new m) in
  let h' := RemoveConnectHook h in
  absolute_jump c (hk_memory h) = Some my ∧
  read_bytes 12 t (hk_memory h) = read_bytes 12 c m ∧
  (∀ x, (x < c ∨ c + 12 <= x) → (x < t ∨ t + 18 <= x) → hk_memory h x = m x) ∧
  (∀ x, (x < t ∨ t + 18 <= x) → hk_memory h' x = m x) ∧
  hk_pages h' = [] ∧ RealConnect h' = None ∧ Trampoline h' = None.
Proof.
  intros Ha Hmy. cbv zeta. split_and!.
  - rewrite installed_memory. by apply detour_jumps.
  - by apply trampoline_bytes.
  - intros x. apply installed_elsewhere.
  - intros x. by apply removed_elsewhere.
  - cbn. by rewrite Z.eqb_refl.
  - done.
  - done.
Qed.

(** the trampoline does not return to [connect].  Its last jump goes through
    memory, and the memory it goes through is the code of [connect] after the
    detour, so a call continues at the address those eight bytes spell instead
    of at that code.  And a hook installed twice cannot be removed: the second
    installation takes the first one's detour for the original bytes, so that
    removing it writes the detour again, with no trampoline and no real
    [connect] left, and the first page is lost. *)
Theorem hook_goes_astray c t1 t2 my m os a :
  apart c t1 → apart c t2 → t1 ≠ t2 → 0 <= my < 2 ^ 64 →
  (- 2 ^ 31 <= (c + 12) - (t1 + 18) < 2 ^ 31 →
   indirect_jump (t1 + 12) (hk_memory (installed c t1 my (Hook_new m))) = Some (le_combine (read_bytes 8 (c + 12) m))) ∧
  let h := RemoveConnectHook (installed c t2 my (installed c t1 my (Hook_new m))) in
  absolute_jump c (hk_memory h) = Some my ∧ hk_pages h = [t1] ∧ call_real os h a = Undefined.
Proof.
  intros H1 H2 Hne Hmy. split; [intros Hr; by rewrite trampoline_target|]. cbv zeta. split_and!.
  - set (h1 := installed c t1 my (Hook_new m)).
    assert (Ho : OriginalBytes (installed c t2 my h1) = BuildDetour my).
    { change (OriginalBytes (installed c t2 my h1)) with (read_bytes 12 c (hk_memory h1)). unfold h1.
      rewrite installed_memory. rewrite <- (Z.add_0_r c) at 1. rewrite read_detour by lia.
      rewrite drop_0. apply take_ge. by rewrite length_detour. }
    change (hk_memory (RemoveConnectHook (installed c t2 my h1))) with
      (write_bytes c (OriginalBytes (installed c t2 my h1)) (hk_memory (installed c t2 my h1))).
    rewrite Ho. by apply detour_jumps.
  - cbn. by rewrite Z.eqb_refl.
  - done.
Qed.

(** A connection that the proxy has not accepted at once, as on every
    non-blocking socket, is reported to the program without a tunnel: the
    program later talks to the proxy. *)
Lemma nonblocking_connect_has_no_tunnel os a h :
  g_hook_enabled h = true → sa_inet a = true → is_Some (Trampoline h) →
  ho_real os (mkSockAddr true (ho_proxy_ip os) (g_proxy_port h)) = SOCKET_ERROR →
  MyConnect os (Some a) h = (Done SOCKET_ERROR, [Connects (mkSockAddr true (ho_proxy_ip os) (g_proxy_port h))]).
Proof. intros He Ha [t Ht] Hr. unfold MyConnect, call_real. by rewrite He, Ha, Ht, Hr. Qed.

(** * Concrete runs *)

Definition sample_code : Memory := λ x, (x * 7 + 3) mod 256.

Lemma hook_is_a_round_trip_witness :
  absolute_jump 4096 (hk_memory (installed 4096 8192 123456789 (Hook_new sample_code))) = Some 123456789 ∧
  hk_memory (RemoveConnectHook (installed 4096 8192 123456789 (Hook_new sample_code))) 4100 = sample_code 4100.
Proof.
  destruct (hook_is_a_round_trip 4096 8192 123456789 sample_code) as (H1 & _ & _ & H4 & _); [left; lia|lia|].
  split; [exact H1|]. apply H4. left. lia.
Defined.

Lemma hook_goes_astray_witness :
  absolute_jump 4096 (hk_memory (RemoveConnectHook
    (installed 4096 12288 123456789 (installed 4096 8192 123456789 (Hook_new sample_code))))) = Some 123456789.
Proof.
  apply (hook_goes_astray 4096 8192 12288 123456789 sample_code (mkHookOs (λ _, 0) 0 true None) (mkSockAddr true 0 0));
    [left; lia|left; lia|lia|lia].
Defined.
