(* ===== verification/Sspi.v ===== *)
(** The in-process Negotiate exchange of [infrastructure/auth/auth_sspi.h/.cpp]
    ([SspiNegotiate], [SspiContext::Release]).  The relay uses the
    authentication agent instead and no longer calls it; its parsing and
    base64, which are still used, are in Auth and Base64.

    The answers of the security package come with the call.  A trace records
    the handles and buffers that are acquired and released. *)

From S2P Require Import Prelude.
From S2P Require Import Text.
From S2P Require Import Base64.

Inductive SspiResult := SspiSuccess | SspiComplete | SspiNeedContinue | SspiNoCredentials | SspiError.

Inductive HandleEvent :=
| GotCredentials (h : Z) | FreedCredentials (h : Z)
| GotContext (h : Z) | DeletedContext (h : Z)
| GotBuffer (b : Z) | FreedBuffer (b : Z).

(** Handles of zeros are none. *)
Record SspiContext := mkSspi {
  sc_credentials : option Z;
  sc_context : option Z;
  sc_initialized : bool;
  sc_targetSpn : text;
  sc_trace : list HandleEvent
}.

Definition SspiContext_new : SspiContext := mkSspi None None false [] [].

Definition Release (c : SspiContext) : SspiContext :=
  mkSspi None None false (sc_targetSpn c)
    (sc_trace c ++ (DeletedContext <$> option_list (sc_context c))
     ++ (FreedCredentials <$> option_list (sc_credentials c))).

Inductive Acquired := AcquireOk (h : Z) | AcquireNoCredentials | AcquireFailed.

Inductive SecStatus := SEC_E_OK | SEC_I_COMPLETE_NEEDED | SEC_I_COMPLETE_AND_CONTINUE | SEC_I_CONTINUE_NEEDED | SEC_FAILED.

(** What InitializeSecurityContext answers: a context, if the call was given
    none, and an output buffer that it may have allocated. *)
Record IscAnswer := mkIsc {
  isc_status : SecStatus;
  isc_context : Z;
  isc_token : text;
  isc_buffer : option Z
}.

Definition succeeded (s : SecStatus) : bool := match s with SEC_FAILED => false | _ => true end.

Definition result_of_status (s : SecStatus) : SspiResult :=
  match s with
  | SEC_I_CONTINUE_NEEDED => SspiNeedContinue
  | SEC_FAILED => SspiSuccess
  | _ => SspiComplete
  end.

Definition acquire (a : Acquired) (spn : text) (c : SspiContext) : option SspiResult * SspiContext :=
  if sc_initialized c then (None, c)
  else
    match a with
    | AcquireOk h =>
        (None, mkSspi (Some h) (sc_context c) true spn (sc_trace c ++ [GotCredentials h]))
    | AcquireNoCredentials =>
        (Some SspiNoCredentials, mkSspi (sc_credentials c) (sc_context c) false spn (sc_trace c))
    | AcquireFailed => (Some SspiError, mkSspi (sc_credentials c) (sc_context c) false spn (sc_trace c))
    end.

(** The call with a fresh context, or with the one there is. *)
Definition initialize_context (fresh : bool) (a : IscAnswer) (c : SspiContext) : SspiContext :=
  let trace := sc_trace c ++ (GotBuffer <$> option_list (isc_buffer a)) in
  if succeeded (isc_status a) then
    match fresh, sc_context c with
    | false, Some k => mkSspi (sc_credentials c) (Some k) (sc_initialized c) (sc_targetSpn c) trace
    | _, _ =>
        mkSspi (sc_credentials c) (Some (isc_context a)) (sc_initialized c) (sc_targetSpn c)
          (trace ++ [GotContext (isc_context a)])
    end
  else mkSspi (sc_credentials c) (sc_context c) (sc_initialized c) (sc_targetSpn c) trace.

Definition free_buffer (a : IscAnswer) (c : SspiContext) : SspiContext :=
  mkSspi (sc_credentials c) (sc_context c) (sc_initialized c) (sc_targetSpn c)
    (sc_trace c ++ (FreedBuffer <$> option_list (isc_buffer a))).

Definition is_empty (t : text) : bool := match t with [] => true | _ => false end.

Definition SspiNegotiate (acq : Acquired) (a : IscAnswer) (serverToken spn : text) (c : SspiContext)
    : SspiResult * text * SspiContext :=
  match acquire acq spn c with
  | (Some r, c) => (r, [], c)
  | (None, c) =>
      if negb (is_empty serverToken) && is_empty (SspiBase64Decode serverToken) then (SspiError, [], c)
      else
        let c := initialize_context (is_empty serverToken) a c in
        if succeeded (isc_status a) then
          if is_empty (isc_token a) then (result_of_status (isc_status a), [], c)
          else (result_of_status (isc_status a), SspiBase64Encode (isc_token a), free_buffer a c)
        else (SspiError, [], Release c)
  end.

(** * Handles *)

Definition contexts_got (tr : list HandleEvent) : list Z := omap (λ e, match e with GotContext h => Some h | _ => None end) tr.
Definition contexts_deleted (tr : list HandleEvent) : list Z := omap (λ e, match e with DeletedContext h => Some h | _ => None end) tr.
Definition credentials_got (tr : list HandleEvent) : list Z := omap (λ e, match e with GotCredentials h => Some h | _ => None end) tr.
Definition credentials_freed (tr : list HandleEvent) : list Z := omap (λ e, match e with FreedCredentials h => Some h | _ => None end) tr.

Record SspiCall := mkCall { ca_acquired : Acquired; ca_answer : IscAnswer; ca_token : text; ca_spn : text }.

Definition sspi_call (c : SspiContext) (k : SspiCall) : SspiContext :=
  snd (SspiNegotiate (ca_acquired k) (ca_answer k) (ca_token k) (ca_spn k) c).

Definition sspi_calls (ks : list SspiCall) (c : SspiContext) : SspiContext := foldl sspi_call c ks.

(** The context a call overwrites: one without a challenge starts again. *)
Definition overwritten (c : SspiContext) (k : SspiCall) : list Z :=
  if sc_initialized c && is_empty (ca_token k) && succeeded (isc_status (ca_answer k))
  then option_list (sc_context c) else [].

Fixpoint lost (ks : list SspiCall) (c : SspiContext) : list Z :=
  match ks with [] => [] | k :: ks' => overwritten c k ++ lost ks' (sspi_call c k) end.

(** What is held and what has been released is what was acquired, except for
    the contexts lost so far. *)
Record handles_inv (gone : list Z) (c : SspiContext) : Prop := {
  hi_contexts : contexts_got (sc_trace c) ≡ₚ contexts_deleted (sc_trace c) ++ option_list (sc_context c) ++ gone;
  hi_credentials : credentials_got (sc_trace c) ≡ₚ credentials_freed (sc_trace c) ++ option_list (sc_credentials c);
  hi_initialized : sc_initialized c = false → sc_context c = None ∧ sc_credentials c = None
}.

Ltac handles :=
  unfold contexts_got, contexts_deleted, credentials_got, credentials_freed in *; rewrite ?omap_app;
  cbn; rewrite ?app_nil_r.

Lemma Release_inv gone c : handles_inv gone c → handles_inv gone (Release c).
Proof.
  intros [H1 H2 H3]. destruct c as [cr cx ini spn tr]. cbn in H1, H2, H3. unfold Release.
  constructor; cbn [sc_trace sc_context sc_credentials sc_initialized]; [| |done];
    unfold contexts_got, contexts_deleted, credentials_got, credentials_freed in *; rewrite !omap_app.
  - rewrite H1. destruct cx, cr; cbn; rewrite ?app_nil_r; solve_Permutation.
  - rewrite H2. destruct cx, cr; cbn; rewrite ?app_nil_r; solve_Permutation.
Qed.

Lemma acquire_inv gone a spn c r c' :
  acquire a spn c = (r, c') → handles_inv gone c →
  handles_inv gone c' ∧ sc_context c' = sc_context c ∧
  (r = None → sc_initialized c' = true) ∧ (sc_initialized c = false → sc_context c = None).
Proof.
  destruct c as [cr cx ini spn0 tr]. intros E [H1 H2 H3]. cbn in *. unfold acquire in E. cbn in E.
  destruct ini; [injection E as <- <-; split_and!; try done; by constructor|].
  destruct (H3 eq_refl) as [-> ->].
  destruct a; injection E as <- <-; (split_and!; [|done..]); constructor; cbn; try done; handles; try done.
  by rewrite H2, app_nil_r.
Qed.

Lemma initialize_context_inv gone fresh a c :
  sc_initialized c = true → handles_inv gone c →
  handles_inv ((if fresh && succeeded (isc_status a) then option_list (sc_context c) else []) ++ gone)
    (initialize_context fresh a c).
Proof.
  destruct c as [cr cx ini spn tr]. intros Hi [H1 H2 H3]. cbn in *. subst. unfold initialize_context. cbn.
  destruct (succeeded (isc_status a)); rewrite ?andb_false_r, ?andb_true_r.
  - destruct fresh, cx as [k|]; (constructor; cbn; [| |done]); handles;
      destruct (isc_buffer a); cbn; rewrite ?app_nil_r, ?H1, ?H2; cbn; try done; solve_Permutation.
  - rewrite ?app_nil_l. constructor; cbn; [| |done]; handles; destruct (isc_buffer a); cbn; by rewrite ?app_nil_r.
Qed.

Lemma free_buffer_inv gone a c : handles_inv gone c → handles_inv gone (free_buffer a c).
Proof.
  destruct c as [cr cx ini spn tr]. intros [H1 H2 H3]. unfold free_buffer.
  constructor; cbn in *; [handles|handles|done]; destruct (isc_buffer a); cbn; by rewrite ?app_nil_r.
Qed.

Lemma SspiNegotiate_inv gone k c :
  handles_inv gone c → handles_inv (overwritten c k ++ gone) (sspi_call c k).
Proof.
  intros HI. unfold sspi_call, SspiNegotiate, overwritten.
  destruct (acquire (ca_acquired k) (ca_spn k) c) as [r c1] eqn:E.
  destruct (acquire_inv _ _ _ _ _ _ E HI) as (H1 & Hc & Hini & Hnone).
  assert (Hsame : ∀ b : bool, (if sc_initialized c && b then option_list (sc_context c) else []) =
                              if b then option_list (sc_context c) else []).
  { intros b. destruct (sc_initialized c); [done|]. rewrite (Hnone eq_refl). by destruct b. }
  rewrite <- andb_assoc, Hsame. destruct r as [r|].
  { cbn. assert (E' : sc_initialized c = false).
    { unfold acquire in E. by destruct (sc_initialized c). }
    rewrite (Hnone E'). by destruct (is_empty (ca_token k) && succeeded (isc_status (ca_answer k))). }
  specialize (Hini eq_refl). destruct (negb (is_empty (ca_token k)) && _) eqn:Ht.
  { cbn. apply andb_prop in Ht as [Ht%negb_true_iff _]. by rewrite Ht. }
  pose proof (initialize_context_inv gone (is_empty (ca_token k)) (ca_answer k) c1 Hini H1) as H2.
  rewrite Hc in H2. destruct (succeeded (isc_status (ca_answer k))) eqn:Es.
  - destruct (is_empty (isc_token (ca_answer k))); [done|]. by apply free_buffer_inv.
  - by apply Release_inv.
Qed.

(** An exchange owns its handles.  After any calls and a release, every
    credentials handle has been freed exactly once, and so has every context
    except those that a call without a challenge replaced. *)
Theorem exchange_releases_its_handles ks :
  let c := Release (sspi_calls ks SspiContext_new) in
  credentials_got (sc_trace c) ≡ₚ credentials_freed (sc_trace c) ∧
  contexts_got (sc_trace c) ≡ₚ contexts_deleted (sc_trace c) ++ lost ks SspiContext_new.
Proof.
  assert (H : ∀ ks gone c, handles_inv gone c → ∃ gone', gone' ≡ₚ lost ks c ++ gone ∧ handles_inv gone' (sspi_calls ks c)).
  { clear. induction ks as [|k ks IH]; intros gone c HI; [by exists gone|]. cbn [lost sspi_calls foldl].
    destruct (IH _ _ (SspiNegotiate_inv gone k c HI)) as (g & Hg & HI'). exists g. split; [|done].
    rewrite Hg. solve_Permutation. }
  destruct (H ks [] SspiContext_new) as (g & Hg & HI); [by constructor|]. rewrite app_nil_r in Hg. cbv zeta.
  destruct (Release_inv _ _ HI) as [H1 H2 _]. cbn [sc_context sc_credentials Release option_list] in H1, H2.
  rewrite app_nil_r in H2. split; [done|]. by rewrite <- Hg.
Qed.

(** Two first calls lose the context of the first. *)
Example second_start_loses_a_context :
  let k h := mkCall (AcquireOk 1) (mkIsc SEC_I_CONTINUE_NEEDED h [1; 2; 3] None) [] (lit "HTTP/proxy") in
  lost [k 7; k 8] SspiContext_new = [7].
Proof. reflexivity. Qed.
