(* ===== verification/Tunnel.v ===== *)
(** A proxied connection from its first packet to its tunnel: the capture
    thread (file Capture) records where the connection was going, the relay's
    listener (RelayServer) looks it up when the rewritten connection arrives,
    and the handler (Relay) asks the proxy for a tunnel to that place.  The two
    threads share the connection table only; between the first packet and the
    accepted connection the capture thread handles any other packets. *)

From S2P Require Import Prelude.
From S2P Require Import Text.
From S2P Require Import Entities.
From S2P Require Import RuleEngine.
From S2P Require Import ConnectionTable.
From S2P Require Import ConnectionTracker.
From S2P Require Import PortBitmap.
From S2P Require Import ProcessRules.
From S2P Require Import Auth.
From S2P Require Import Relay.
From S2P Require Import Bridge.
From S2P Require Import Handshake.
From S2P Require Import RelayServer.
From S2P Require Import Capture.

(** * The record of a connection *)

Section recorded.
Context {T : Type} `{!IConnectionTable T} {M : Type} `{!IConnectionMonitor M}.
Implicit Types (s : Capture T M) (p : Packet).

(** The table records the destination [d] for the port [q]. *)
Definition recorded (q : Z) (d : Z * Z) s : Prop :=
  ∃ t, m_connTable s = Some t ∧ it_Get q t = Some d.

(** The packet closes no connection of the port [q]: it is no FIN or RST of the
    client, nor one of the relay to it. *)
Definition spares (relayPort q : Z) (p : Packet) : Prop :=
  closing p = true → src_of p ≠ q ∧ (src_of p = relayPort → dst_of p ≠ q).

Lemma recorded_view q d s : recorded q d s ↔ (port_view q s).1 = Some d.
Proof.
  unfold recorded, port_view. cbn. split.
  - by intros (t & -> & H).
  - destruct (m_connTable s) as [t|]; [by exists t|done].
Qed.

Lemma process_packet_recorded os now p s s' out q d :
  inv s → packet_ok p → port_ok q → spares (m_relayPort s) q p → recorded q d s →
  process_packet os now p s = Some (s', out) → recorded q d s'.
Proof.
  intros Hi Hp Hq Hsp Hr HP. pose proof Hi as (t & Ht & HI). pose proof Hr as (t0 & Ht0 & Hg). simplify_eq.
  destruct (decide (q = src_of p)) as [->|Hne].
  { rewrite (process_tracked os now p s t) in HP by (done || by rewrite Hg). injection HP as <- _.
    assert (Hc : closing p = false) by (destruct (closing p) eqn:E; [by destruct (Hsp E)|done]).
    unfold tracked_packet. rewrite Hc. eexists. split; [done|]. fold (src_of p).
    rewrite (proj1 (it_AddBytes_Get _ _ _ _ _ ltac:(apply HI))). done. }
  destruct (decide (src_of p = m_relayPort s ∧ q = dst_of p)) as [[Hs ->]|Hn].
  - rewrite (process_reply os now p s t) in HP by done. injection HP as HP. apply (f_equal fst) in HP. cbn [fst] in HP. subst s'.
    assert (Hc : closing p = false) by (destruct (closing p) eqn:E; [by destruct (proj2 (Hsp E) Hs)|done]).
    unfold relay_response. fold (dst_of p). rewrite Hg, Hc. eexists. split; [done|].
    rewrite (proj1 (it_AddBytes_Get _ _ _ _ _ ltac:(apply HI))). done.
  - apply recorded_view. rewrite (process_packet_view os now p s s' out q); [by apply recorded_view|done..|].
    intros Hs Hd. by apply Hn.
Qed.

(** What the loop hands to [process_packet] before it ends. *)
Definition event_spares (relayPort q : Z) (e : RecvEvent) : Prop :=
  match e with RecvTcp _ _ p => spares relayPort q p | _ => True end.

Lemma CaptureLoop_recorded events s s' out q d :
  Forall event_ok events → Forall (event_spares (m_relayPort s) q) events → inv s → port_ok q → recorded q d s →
  CaptureLoop events s = Some (s', out) → recorded q d s'.
Proof.
  intros Hok Hsp Hi Hq Hr. revert s s' out Hsp Hi Hr. induction Hok as [|e events He _ IH]; intros s s' out Hsp Hi Hr.
  { by intros [= <- _]. }
  apply Forall_cons in Hsp as [Hse Hsp]. destruct e as [[]| |raw|os now p|]; cbn [CaptureLoop].
  - by intros [= <- _].
  - by apply IH.
  - by apply IH.
  - destruct (CaptureLoop events s) as [[s1 out1]|] eqn:E; [|done]. intros [= <- _]. by eapply IH.
  - destruct He as [Hos Hp]. destruct (process_packet_inv os now p s Hos Hp Hi) as (s1 & sent & E1 & Hi1 & Hr1).
    rewrite E1. destruct (CaptureLoop events s1) as [[s2 out2]|] eqn:E2; [|done]. intros [= <- _].
    eapply (IH s1); [by rewrite Hr1|done| |done].
    exact (process_packet_recorded os now p s s1 sent q d Hi Hp Hq Hse Hr E1).
  - by intros [= <- _].
Qed.
End recorded.

(** * The requests of the handler *)

(** A request of the handler asks for a tunnel to this place. *)
Definition asks_for (ip port : Z) (e : Event) : Prop :=
  match e with
  | EvSend _ request =>
      ∃ auth, request = connect_line (inet_ntop ip) port ++ auth ++ connect_end ∧
              (auth = [] ∨ ∃ kind token, auth = auth_line kind token)
  | _ => True
  end.

Section requests.
Context {W P : Type} `{!IAuthenticationProvider P}.
Context (net_resolve : text → W → option Z * W)
        (net_socket : W → option Z * W)
        (net_connect : Z → Z → Z → W → bool * W)
        (net_send : Z → text → W → bool * W)
        (net_recv : Z → W → RecvResult * W)
        (other_threads : W → text → text)
        (cfg : RelayConfig).
Context (ip port : Z).
Implicit Types (s : HState W P).

Definition asks s : Prop := Forall (asks_for ip port) (hs_trace s).

Lemma asks_invariant :
  handler_invariant net_resolve net_socket net_connect net_send net_recv ip port asks.
Proof.
  split; intros; try assumption.
  - apply Forall_app. split; [done|]. eapply Forall_impl; [done|]. by intros [].
  - apply Forall_app. split; [done|]. constructor; [by eexists|constructor].
  - apply Forall_app. split; [done|]. by repeat constructor.
Qed.

(** Every request of a run asks for the destination of its context. *)
Lemma handler_asks ctx w p token :
  rx_orig_dest_ip ctx = ip → rx_orig_dest_port ctx = port →
  asks (snd (run_handler net_resolve net_socket net_connect net_send net_recv other_threads cfg ctx w p token)).
Proof.
  intros Hip Hport. apply (handler_keeps _ _ _ _ _ other_threads cfg ip port asks asks_invariant); [done..|]. constructor.
Qed.
End requests.

(** ** What a request says *)

Lemma run_inv (P : Z → Prop) a b c d x y :
  Forall P a → Forall P b → ¬ P c → ¬ P d → a ++ c :: x = b ++ d :: y → a = b ∧ c :: x = d :: y.
Proof.
  intros Ha. revert b. induction Ha as [|e a He _ IH]; intros b Hb Hc Hd.
  - destruct Hb as [|e b He _]; cbn [app]; [done|]. intros [= -> _]. done.
  - destruct Hb as [|e' b He' Hb]; cbn [app]; [intros [= -> _]; done|].
    intros [= -> E]. by destruct (IH b Hb Hc Hd E) as [-> ->].
Qed.

(** A decimal number up to its end. *)
Lemma to_string_inv m n c d x y :
  0 <= m < 10 ^ 20 → 0 <= n < 10 ^ 20 → ¬ 48 <= c <= 57 → ¬ 48 <= d <= 57 →
  to_string m ++ c :: x = to_string n ++ d :: y → m = n ∧ x = y.
Proof.
  intros Hm Hn Hc Hd E. assert (Hs : ∀ z, 0 <= z → Forall (λ c, 48 <= c <= 57) (to_string z)).
  { intros z Hz. unfold to_string. rewrite (proj2 (Z.ltb_ge z 0)) by done. by apply digits_of_range. }
  destruct (run_inv (λ c, 48 <= c <= 57) _ _ _ _ _ _ (Hs m ltac:(lia)) (Hs n ltac:(lia)) Hc Hd E) as [Et Er].
  injection Er as _ Er. split; [|done]. rewrite <- (value_of_to_string m), <- (value_of_to_string n), Et by done. done.
Qed.

Ltac not_digit := intros [H1 H2]; vm_compute in H1, H2; congruence.

(** Requests for different places differ, whatever follows. *)
Lemma connect_line_inv ip port ip' port' x y :
  in_u 32 ip → in_u 32 ip' → in_u 16 port → in_u 16 port' →
  connect_line (inet_ntop ip) port ++ x = connect_line (inet_ntop ip') port' ++ y → ip = ip' ∧ port = port'.
Proof.
  unfold in_u. intros Hi Hi' Hp Hp'. unfold connect_line, inet_ntop. rewrite <- !app_assoc. intros E.
  apply app_inv_head in E. rewrite !(land_ones_mod _ 8 255), !Z.shiftr_div_pow2 in E by done.
  change (2 ^ 8) with 256 in *. change (2 ^ 16) with 65536 in *. change (2 ^ 24) with 16777216 in *.
  assert (Hb : ∀ z, 0 <= z mod 256 < 10 ^ 20) by (intros z; pose proof (Z.mod_pos_bound z 256); lia).
  apply to_string_inv in E as [E0 E]; [|apply Hb|apply Hb|not_digit|not_digit].
  apply to_string_inv in E as [E1 E]; [|apply Hb|apply Hb|not_digit|not_digit].
  apply to_string_inv in E as [E2 E]; [|apply Hb|apply Hb|not_digit|not_digit].
  apply to_string_inv in E as [E3 E]; [|apply Hb|apply Hb|not_digit|not_digit].
  apply to_string_inv in E as [E4 _]; [|lia|lia|not_digit|not_digit]. split; [zdivmod_lia|done].
Qed.

(** * From the first packet to the tunnel *)

(** C2: a proxied connection is tunnelled to where it was going.  When the
    rules send the first packet of a connection to the proxy, then after any
    further packets of any connections that do not close this one, for any
    network and authentication provider: the relay accepts the connection, every
    request its handler sends to the proxy asks for a tunnel to the address and
    port of that first packet, and the client's socket is given to the bridge
    only after the proxy, on the bridged socket, answered such a request with a
    200. *)
Theorem proxied_connection_is_tunnelled {T} `{!IConnectionTable T} {M} `{!IConnectionMonitor M}
    {W P : Type} `{!IAuthenticationProvider P}
    (net_resolve : text → W → option Z * W) (net_socket : W → option Z * W)
    (net_connect : Z → Z → Z → W → bool * W) (net_send : Z → text → W → bool * W)
    (net_recv : Z → W → RecvResult * W) (other_threads : W → text → text) (cfg : RelayConfig)
    (os : Os) (now : Z) (p : Packet) (s : Capture T M) (t : T)
    events client_sock is_ipv6 w provider token :
  reachable s → os_ok os → packet_ok p → m_connTable s = Some t →
  pk_Outbound p = true → src_of p ≠ m_relayPort s → it_IsTracked (src_of p) t = false →
  decision_of (src_of p) (m_bitmap s) ≠ DecidedDirect →
  cr_action (snd (CheckProcessRule os (src_of p) (m_rules s))) = PROXY →
  Forall event_ok events → Forall (event_spares (m_relayPort s) (src_of p)) events →
  ∃ s1 q s2 out t2 ctx,
    process_packet os now p s = Some (s1, [mkSent q true]) ∧ pk_DstPort q = htons (m_relayPort s) ∧
    CaptureLoop events s1 = Some (s2, out) ∧ m_connTable s2 = Some t2 ∧
    HandleNewConnection t2 client_sock (src_of p) is_ipv6 true = Handed_over ctx ∧
    let '(o, h) := run_handler net_resolve net_socket net_connect net_send net_recv other_threads cfg ctx w provider token in
    Forall (asks_for (pk_DstAddr p) (dst_of p)) (hs_trace h) ∧
    match o with
    | Bridged c x => c = client_sock ∧ ∃ resp, last_recv (hs_trace h) = Some (x, RecvData resp) ∧ status_200 resp = true
    | _ => True
    end.
Proof.
  intros HR Hos Hp Ht Ho Hne Htr Hd Hv Hev Hsp.
  destruct (first_packet_proxied os now p s t) as (s1 & t1 & HP & Ht1 & Hr1 & HI1 & Hg1);
    [by apply reachable_inv|done..|].
  pose proof (ntohs_port _ (proj1 Hp)) as Hport. assert (Hi1 : inv s1) by by exists t1.
  destruct (CaptureLoop_inv events s1 Hev Hi1) as (s2 & out & HL & _ & _).
  rewrite <- Hr1 in Hsp.
  destruct (CaptureLoop_recorded events s1 s2 out (src_of p) (pk_DstAddr p, dst_of p) Hev Hsp Hi1 Hport)
    as (t2 & Ht2 & Hg2); [by exists t1|done|].
  eexists s1, _, s2, out, t2, _. split; [exact HP|]. split; [apply ModifyDst_ports|]. split; [done|]. split; [done|].
  unfold HandleNewConnection. rewrite Hg2. split; [reflexivity|].
  match goal with |- context [run_handler _ _ _ _ _ _ _ ?c _ _ _] => set (ctx := c) end.
  pose proof (handler_asks net_resolve net_socket net_connect net_send net_recv other_threads cfg
    (pk_DstAddr p) (dst_of p) ctx w provider token eq_refl eq_refl) as Ha.
  pose proof (handler_post net_resolve net_socket net_connect net_send net_recv other_threads cfg
    (rx_client_sock ctx) ctx (start_state w provider token) eq_refl) as Hb.
  unfold run_handler in *. destruct (ConnectionHandler _ _ _ _ _ _ _ _ _) as [o h]. split; [exact Ha|].
  destruct o as [|c x| |]; try done. by destruct Hb as (-> & _ & Hb).
Qed.

(** * A concrete run *)

Lemma proxied_connection_is_tunnelled_witness :
  ∃ ctx, rx_client_sock ctx = 7 ∧
    let '(o, h) := run_handler (λ _ w, (Some 16777343, w)) (λ w, (Some 9, w)) (λ _ _ _ w, (true, w))
      (λ _ _ w, (true, w)) scripted_recv (λ _ t, t) sample_cfg ctx [RecvData (lit "HTTP/1.1 200 OK")]
      (Some (mkBasic (lit "u") (lit "p"))) [] in
    Forall (asks_for 67305985 443) (hs_trace h).
Proof.
  destruct (proxied_connection_is_tunnelled (λ _ w, (Some 16777343, w)) (λ w, (Some 9, w)) (λ _ _ _ w, (true, w))
      (λ _ _ w, (true, w)) scripted_recv (λ _ t, t) sample_cfg sample_os 5 client_packet sample_capture
      ConnectionTable_new [RecvTcp sample_os 6 client_packet; RecvTcp sample_os 7 (direct_fin true)] 7 false
      [RecvData (lit "HTTP/1.1 200 OK")] (Some (mkBasic (lit "u") (lit "p"))) [])
    as (s1 & q & s2 & out & t2 & ctx & _ & _ & _ & _ & Hh & H).
  - exact (run_packets_reachable [] _ [] (Forall_nil_2 _) eq_refl).
  - exact sample_os_ok.
  - exact client_packet_ok.
  - reflexivity.
  - reflexivity.
  - vm_compute. discriminate.
  - vm_compute. reflexivity.
  - vm_compute. discriminate.
  - vm_compute. reflexivity.
  - apply List.Forall_cons; [exact (conj sample_os_ok client_packet_ok)|].
    apply List.Forall_cons; [split; [exact sample_os_ok|split; vm_compute; split; congruence]|apply List.Forall_nil].
  - apply List.Forall_cons; [intros Hc; vm_compute in Hc; discriminate Hc|].
    apply List.Forall_cons; [intros _; split; [vm_compute; discriminate|intros Hr; vm_compute in Hr; discriminate Hr]|apply List.Forall_nil].
  - exists ctx. split.
    + unfold HandleNewConnection in Hh. destruct (it_Get _ t2) as [[a b]|]; [|discriminate Hh]. by injection Hh as <-.
    + destruct (run_handler _ _ _ _ _ _ _ ctx _ _ _) as [o h]. destruct H as [H _].
      change 443 with (dst_of client_packet). exact H.
Defined.
