(* ===== verification/Wire.v ===== *)
(** The JSON library under the service: the texts of requests, replies, of the
    configuration file and of the exceptions are those of file Library, and the
    parts that took printing and parsing as parameters (Ipc, IpcHandler,
    ConfigManager) are put together over bytes. *)

From stdpp Require Import sorting.
From S2P Require Import Prelude.
From S2P Require Import Text.
From S2P Require Import Utf8.
From S2P Require Import Entities.
From S2P Require Import RuleEngine.
From S2P Require Import ConnectionTracker.
From S2P Require Import FloatText.
From S2P Require Import Json.
From S2P Require Import JsonDump.
From S2P Require Import JsonParse.
From S2P Require Import JsonText.
From S2P Require Import Lexer.
From S2P Require Import ParseErrors.
From S2P Require Import ConfigManager.
From S2P Require Import Library.
From S2P Require Import Logger.
From S2P Require Import Ipc.
From S2P Require Import IpcHandler.

(** * Conversations on the socket *)

(** A request as its sender prints it. *)
Definition client_request (method params : text) : json :=
  obj [("method", JStr method); ("params", JStr params)]%string.

Definition request_text (r : text * text) : text :=
  dumped_text (-1) false (client_request (fst r) (snd r)).

Abbreviation with_newline := (λ l : text, l ++ [newline]).

Definition request_ok (r : text * text) : Prop := text_typed (fst r) ∧ text_typed (snd r).

Lemma request_typed r :
  request_ok r →
  canonical (client_request (fst r) (snd r)) = true ∧ representable (client_request (fst r) (snd r)) = true ∧
  printable (client_request (fst r) (snd r)) = true.
Proof.
  destruct r as [m p]. intros [[Hm1 Hm2] [Hp1 Hp2]]. cbn [fst snd] in *. split; [done|].
  change (is_bytes m && (is_bytes p && true) = true ∧ is_utf8 m && (is_utf8 p && true) = true).
  by rewrite Hm1, Hm2, Hp1, Hp2.
Qed.

Lemma request_text_visible r : request_ok r → visible (request_text r).
Proof. intros H. apply compact_visible. exact (proj1 (proj2 (request_typed r H))). Qed.

Lemma trim_cr_visible l : visible l → trim_cr l = l.
Proof.
  intros H. unfold trim_cr. destruct (rev l) as [|c l'] eqn:E.
  - apply (f_equal (@rev Z)) in E. by rewrite rev_involutive in E.
  - destruct (Z.eqb_spec c 13) as [->|]; [|done]. exfalso.
    assert (Hin : 13 ∈ l) by (apply list_elem_of_In, in_rev; rewrite E; by left).
    rewrite Forall_forall in H. apply H in Hin. lia.
Qed.

Lemma lines_of ls r : Forall visible ls → lines (concat (map with_newline ls) ++ r) = (ls ++ fst (lines r), snd (lines r)).
Proof.
  induction 1 as [|l ls Hl _ IH]; cbn [map concat app]; [by destruct (lines r)|].
  rewrite <- !app_assoc. induction Hl as [|c l Hc _ IHl]; cbn [app lines] in *.
  - rewrite IH. done.
  - rewrite IHl. by rewrite (proj2 (Z.eqb_neq c newline)) by (unfold newline; lia).
Qed.

Section conversation.
Context {S : Type} (cb : RequestCallback S).
Implicit Types (s : S) (reqs : list (text * text)).

(** What a thrown exception is answered. *)
Definition error_line (what : text) : text :=
  raw "{'status':'error','error':'parse_error','detail':'" ++ what ++ raw "'}".

(** The reference: the callback on each request in turn. *)
Fixpoint serve_requests reqs s : list text * bool * S :=
  match reqs with
  | [] => ([], true, s)
  | (method, params) :: reqs' =>
      match cb method params s with
      | (Done response, s) => let '(rs, ok, s) := serve_requests reqs' s in (response :: rs, ok, s)
      | (Raised what, s) => let '(rs, ok, s) := serve_requests reqs' s in (error_line what :: rs, ok, s)
      | (Undefined, s) => ([], false, s)
      end
  end.

Lemma respond_request r s :
  request_ok r → respond library_parse (Some cb) (request_text r) s = cb (fst r) (snd r) s.
Proof.
  intros H. destruct (request_typed r H) as (Hc & Hr & Hp). unfold respond, read_request, library_parse.
  unfold request_text. rewrite parse_printed by done. cbn [ebind]. unfold client_request, obj.
  do 2 erewrite value_or_found by reflexivity. cbn [snd get_string ebind]. by destruct r.
Qed.

Lemma request_text_first r : ∃ t, request_text r = 123 :: t.
Proof. by eexists. Qed.

Lemma handle_requests reqs s :
  Forall request_ok reqs →
  handle_lines library_parse (Some cb) (map request_text reqs) s =
  (map with_newline (fst (fst (serve_requests reqs s))), snd (fst (serve_requests reqs s)), snd (serve_requests reqs s)).
Proof.
  intros H. revert s. induction H as [|[m p] reqs Hr _ IH]; intros s; [done|].
  cbn [map handle_lines serve_requests]. unfold handle_line. rewrite trim_cr_visible by by apply request_text_visible.
  destruct (request_text_first (m, p)) as [t Ht]. rewrite Ht, <- Ht, respond_request by done. cbn [fst snd].
  destruct (cb m p s) as [[response|what|] s1]; [..|done]; rewrite IH; destruct (serve_requests reqs s1) as [[rs ok] s2];
    cbn [fst snd app map]; unfold error_line; by rewrite <- ?app_assoc.
Qed.

(** Requests in any pieces are served one by one. *)
Lemma socket_serves reqs chunks s :
  Forall request_ok reqs → concat chunks = concat (map (λ r, with_newline (request_text r)) reqs) →
  TcpClient library_parse (Some cb) [] chunks s =
  (map with_newline (fst (fst (serve_requests reqs s))), snd (fst (serve_requests reqs s)), snd (serve_requests reqs s)).
Proof.
  intros H Hc. rewrite TcpClient_spec by done. cbn [app]. rewrite Hc.
  rewrite <- (map_map request_text with_newline), <- (app_nil_r (concat _)), lines_of.
  - cbn [fst lines]. rewrite app_nil_r. by apply handle_requests.
  - apply Forall_map. eapply Forall_impl; [exact H|]. apply request_text_visible.
Qed.

Lemma serve_length reqs s : snd (fst (serve_requests reqs s)) = true → length (fst (fst (serve_requests reqs s))) = length reqs.
Proof.
  revert s. induction reqs as [|[m p] reqs IH]; intros s; cbn [serve_requests]; [done|].
  destruct (cb m p s) as [[response|what|] s1]; [..|done]; specialize (IH s1);
    destruct (serve_requests reqs s1) as [[rs ok] s2]; cbn in *; intros H; by rewrite IH.
Qed.

Lemma serve_Forall (P : text → Prop) reqs s :
  (∀ m p s r s', cb m p s = (Done r, s') → P r) → (∀ m p s e s', cb m p s = (Raised e, s') → P (error_line e)) →
  Forall P (fst (fst (serve_requests reqs s))).
Proof.
  intros HD HR. revert s. induction reqs as [|[m p] reqs IH]; intros s; cbn [serve_requests]; [constructor|].
  destruct (cb m p s) as [[response|what|] s1] eqn:E; [..|constructor]; specialize (IH s1);
    destruct (serve_requests reqs s1) as [[rs ok] s2]; (constructor; [by eauto|done]).
Qed.
End conversation.

(** * The handler on the socket *)

Section handler.
Context {X : Type}.
Context (sort : list Rule → list Rule).
Context (MultiByteToWideChar WideCharToMultiByte : text → option text).
Context (CryptProtectData CryptUnprotectData : text → option text).
Context (cb : Callbacks text X).
Implicit Types s : Parts text X.

(** [IpcHandler::Handle] over the library, the clock and the file system
    answering the n-th request. *)
Definition Answers (now : nat → Z) (os : nat → nat → FileOs) : RequestCallback (Parts text X * nat) :=
  λ method params '(s, n),
    let '(reply, s) :=
      Handle sort MultiByteToWideChar WideCharToMultiByte CryptProtectData CryptUnprotectData
        file_dump (library_dump (-1)) library_parse cb (now n) (os n) method params s in
    (reply, (s, S n)).

Ltac plain_text := by apply plain_visible, plain_forallb.

Lemma error_line_visible e : visible e → visible (error_line e).
Proof. intros H. unfold error_line. apply Forall_app. split; [plain_text|]. apply Forall_app. split; [done|plain_text]. Qed.

Lemma Answers_visible now os method params st r st' :
  Answers now os method params st = (Done r, st') → visible r.
Proof.
  destruct st as [s n]. unfold Answers, Handle. destruct (MAX_IPC_MESSAGE_SIZE <? _).
  { intros [= <- _]. plain_text. }
  destruct (result_of _ _ _ _ _ _ _ _ _ _ _ _ s) as [[j|e|] s1]; try done.
  destruct (library_dump (-1) j) as [t|w|] eqn:E; intros [= <- _].
  apply library_dump_done in E as (Hr & _ & ->); [|done]. by apply compact_visible.
Qed.

Lemma Answers_raised now os method params st e st' :
  Answers now os method params st = (Raised e, st') → plain e.
Proof.
  destruct st as [s n]. unfold Answers, Handle, result_of. destruct (MAX_IPC_MESSAGE_SIZE <? _); [done|].
  destruct (dispatch _ _ _ _ _ _ _ _ _ _ _ _ s) as [[fields|w|] s1]; try done;
    destruct (library_dump (-1) _) as [t|x|] eqn:E; intros [= <- _]; by eapply library_dump_raised; [|exact E].
Qed.

(** Every request is answered by one line.  However the requests of a
    client, each printed by the library and ended by a line feed, are cut into
    pieces, the handler gets exactly their methods and parameters, one by one
    and in order, and the client, which splits what it receives at line feeds,
    reads exactly the replies of the handler: one for each request, as long as
    no request ends the process. *)
Theorem requests_are_answered_by_lines now os reqs chunks s :
  Forall request_ok reqs → concat chunks = concat (map (λ r, with_newline (request_text r)) reqs) →
  let '(replies, ok, st) := serve_requests (Answers now os) reqs (s, 0%nat) in
  TcpClient library_parse (Some (Answers now os)) [] chunks (s, 0%nat) = (map with_newline replies, ok, st) ∧
  lines (concat (map with_newline replies)) = (replies, []) ∧
  (ok = true → length replies = length reqs).
Proof.
  intros H Hc. pose proof (socket_serves (Answers now os) reqs chunks (s, 0%nat) H Hc) as Hs.
  pose proof (serve_length (Answers now os) reqs (s, 0%nat)) as Hl.
  pose proof (serve_Forall (Answers now os) visible reqs (s, 0%nat)) as Hv.
  destruct (serve_requests (Answers now os) reqs (s, 0%nat)) as [[replies ok] st]. cbn [fst snd] in *.
  split_and!; [done| |done]. rewrite <- (app_nil_r (concat _)), lines_of; [cbn; by rewrite app_nil_r|].
  apply Hv; [apply Answers_visible|]. intros m p st0 e st1 He%Answers_raised.
  by apply error_line_visible, plain_visible.
Qed.

(** ** Any bytes *)

(** The lines of the input that the server does not skip. *)
Definition spoken (l : text) : bool := match trim_cr l with [] => false | _ => true end.

Lemma trim_cr_Forall (Q : Z → Prop) l : Forall Q l → Forall Q (trim_cr l).
Proof.
  intros H. unfold trim_cr. destruct (rev l) as [|c l'] eqn:E; [constructor|]. destruct (c =? 13); [|done].
  apply Forall_rev in H. rewrite E in H. inversion H; subst. by apply Forall_rev.
Qed.

Lemma lines_Forall (Q : Z → Prop) input : Forall Q input → Forall (Forall Q) (fst (lines input)) ∧ Forall Q (snd (lines input)).
Proof.
  induction 1 as [|c input Hc _ [IH1 IH2]]; cbn [lines]; [split; constructor|].
  destruct (lines input) as [ls rest]. cbn [fst snd] in *. destruct (c =? newline).
  - split; [by constructor|done].
  - destruct ls as [|l ls]; cbn [fst snd]; [split; by constructor|].
    split; [|done]. apply Forall_cons in IH1 as [Hl Hls]. constructor; [by constructor|done].
Qed.

Lemma type_error_visible {A} id what j e : visible (lit what) → @type_error A id what j = Raised e → visible e.
Proof.
  intros Hw H. assert (He : exception_name "type_error" id ++ lit what ++ Json.type_name j = e) by (unfold type_error in H; congruence).
  rewrite <- He. unfold exception_name. destruct j; visible_text.
Qed.

Lemma value_or_string_raised key dflt j e : value_or get_string key dflt j = Raised e → visible e.
Proof.
  unfold value_or, get_string. destruct j; try (apply type_error_visible; plain_text).
  destruct (assoc _ _) as [v|]; [|done]. destruct v; try (apply type_error_visible; plain_text). done.
Qed.

Lemma read_request_raised m e : bytes m → read_request library_parse m = Raised e → visible e.
Proof.
  intros Hm. unfold read_request, library_parse. destruct (Lexer.parse true m) as [j|w|] eqn:E; cbn [ebind]; [|intros [= <-]|done].
  - destruct (value_or get_string "method" [] j) as [x|w|] eqn:E1; cbn [ebind]; [|intros [= <-]|done].
    + destruct (value_or get_string "params" [] j) as [y|w|] eqn:E2; cbn [ebind]; [done|intros [= <-]|done].
      by eapply value_or_string_raised.
    + by eapply value_or_string_raised.
  - by eapply parse_error_is_one_line.
Qed.

Lemma respond_visible now os m st r st' :
  bytes m → respond library_parse (Some (Answers now os)) m st = (r, st') →
  match r with Done t => visible t | Raised e => visible e | Undefined => True end.
Proof.
  intros Hm. unfold respond. destruct (read_request library_parse m) as [[method params]|e|] eqn:E.
  - intros H. destruct r; [by eapply Answers_visible|by apply plain_visible; eapply Answers_raised|done].
  - intros [= <- _]. by eapply read_request_raised.
  - by intros [= <- _].
Qed.

Lemma handle_lines_visible now os ls st :
  Forall bytes ls →
  ∃ rs, fst (fst (handle_lines library_parse (Some (Answers now os)) ls st)) = map with_newline rs ∧ Forall visible rs ∧
    (snd (fst (handle_lines library_parse (Some (Answers now os)) ls st)) = true → length rs = length (filterb spoken ls)).
Proof.
  intros H. revert st. induction H as [|l ls Hl _ IH]; intros st; [by exists []|]. cbn [handle_lines].
  unfold filterb. cbn [List.filter]. unfold handle_line, spoken. apply (trim_cr_Forall _) in Hl.
  destruct (trim_cr l) as [|c l'].
  { destruct (IH st) as (rs & H1 & H2 & H3). exists rs.
    destruct (handle_lines _ _ ls st) as [[rs' ok] st']. by cbn in *. }
  destruct (respond _ _ (c :: l') st) as [r st1] eqn:E. apply respond_visible in E; [|done].
  destruct r as [t|e|]; [| |by exists []]; destruct (IH st1) as (rs & H1 & H2 & H3);
    destruct (handle_lines _ _ ls st1) as [[rs' ok] st']; cbn [fst snd app length] in *; subst rs'.
  - exists (t :: rs). split_and!; [done|by constructor|]. intros Hok. cbn. f_equal. by apply H3.
  - exists (error_line e :: rs). split_and!; [|constructor; [by apply error_line_visible|done]|].
    + cbn [map]. unfold error_line. by rewrite <- !app_assoc.
    + intros Hok. cbn. f_equal. by apply H3.
Qed.

(** C9: Whatever bytes a client sends, in whatever pieces, each line of them that is
    not empty is answered by exactly one line, as long as no request ends the
    process: no request, well formed or not, can make the service send a line
    feed inside a reply or leave a request without one. *)
Theorem any_line_gets_one_line now os chunks st :
  bytes (concat chunks) →
  let '(sent, ok, _) := TcpClient library_parse (Some (Answers now os)) [] chunks st in
  ∃ replies, sent = map with_newline replies ∧ lines (concat sent) = (replies, []) ∧
    (ok = true → length replies = length (filterb spoken (fst (lines (concat chunks))))).
Proof.
  intros Hb. rewrite tcp_framing_is_chunk_independent.
  destruct (handle_lines_visible now os (fst (lines (concat chunks))) st) as (rs & H1 & H2 & H3).
  { by apply lines_Forall. }
  destruct (handle_lines _ _ _ st) as [[sent ok] st']. cbn [fst snd] in *. exists rs. split_and!; [done| |done].
  rewrite H1, <- (app_nil_r (concat _)), lines_of by done. cbn. by rewrite app_nil_r.
Qed.

(** ** Parameters that are no JSON *)

(** The methods that parse their parameters. *)
Definition parsing_methods : list text := map lit ["set_config"; "set_rules"; "set_log_level"]%string.

Lemma dispatch_unparsed now os method params s what :
  In method parsing_methods → library_parse params = Raised what →
  dispatch sort MultiByteToWideChar WideCharToMultiByte CryptProtectData CryptUnprotectData file_dump library_parse cb
    now os method params s = (Raised what, s).
Proof.
  intros Hm Hp. unfold parsing_methods in Hm. cbn [map In] in Hm.
  destruct Hm as [<-|[<-|[<-|[]]]]; unfold dispatch, text_eqb; cbn -[library_parse];
    unfold SetConfig, SetRules, SetLogLevel, rules_of_params, read_level; by rewrite Hp.
Qed.

(** The reply of a refused request, which shows the text of the exception. *)
Definition refusal (what : text) : json := obj [("status", JStr (lit "error")); ("error", JStr what)]%string.

Lemma refusal_not_printed what :
  is_bytes what = true → is_utf8 what = false → ∃ e, library_dump (-1) (refusal what) = Raised e ∧ plain e.
Proof.
  intros Hb Hu. assert (Hr : representable (refusal what) = true).
  { change (is_bytes what && true = true). by rewrite Hb. }
  assert (Hp : printable (refusal what) = false).
  { change (is_utf8 what && true = false). by rewrite Hu. }
  pose proof (library_dump_spec (-1) (refusal what) Hr) as H. rewrite Hp in H. apply H. done.
Qed.

(** C31: A client that sends set_config, set_rules or set_log_level with
    parameters that begin with a letter that is not ASCII, in a well-formed
    request that is not too long and is cut into whatever pieces, is not
    answered that the request was refused.  The parameters are refused by the
    parser, changing nothing, with an exception that quotes the first byte or
    two of the letter; the handler puts it into its reply, and printing the
    reply, outside the [try], throws.  The one line the client gets is that of
    the server's own handler of exceptions: a parse error of the request, with
    the text of the second exception.  The letters from U+FEC0 to U+FEFF, whose
    first two bytes are those of a byte order mark, are not among them. *)
Theorem foreign_params_escape_the_handler now os method params chunks s n :
  In method parsing_methods → text_typed params → foreign params = true →
  Z.of_nat (length params) <= MAX_IPC_MESSAGE_SIZE →
  concat chunks = request_text (method, params) ++ [newline] →
  result_of sort MultiByteToWideChar WideCharToMultiByte CryptProtectData CryptUnprotectData file_dump library_parse cb
    (now n) (os n) method params s = (Done (refusal (foreign_error params)), s) ∧
  ∃ e, plain e ∧ Answers now os method params (s, n) = (Raised e, (s, S n)) ∧
    TcpClient library_parse (Some (Answers now os)) [] chunks (s, n) =
      ([error_line e ++ [newline]], true, (s, S n)).
Proof.
  intros Hm Ht Hf Hl Hc. destruct (parse_foreign true params Ht Hf) as (Hp & Hb & Hu).
  assert (Hr : result_of sort MultiByteToWideChar WideCharToMultiByte CryptProtectData
    CryptUnprotectData file_dump library_parse cb (now n) (os n) method params s =
    (Done (refusal (foreign_error params)), s)).
  { unfold result_of. by rewrite (dispatch_unparsed _ _ _ _ _ (foreign_error params) Hm). }
  split; [exact Hr|]. destruct (refusal_not_printed _ Hb Hu) as (e & Hd & He). exists e. split; [exact He|].
  assert (Ha : Answers now os method params (s, n) = (Raised e, (s, S n))).
  { unfold Answers, Handle. rewrite (proj2 (Z.ltb_ge _ _) Hl), Hr. by rewrite Hd. }
  split; [exact Ha|]. rewrite (socket_serves (Answers now os) [(method, params)] chunks (s, n)).
  - cbn [serve_requests]. rewrite Ha. done.
  - constructor; [|constructor]. split; [|exact Ht]. unfold parsing_methods in Hm. cbn [map In] in Hm.
    destruct Hm as [<-|[<-|[<-|[]]]]; by vm_compute.
  - cbn [map concat]. by rewrite app_nil_r.
Qed.

(** * Rules *)

(** The rules of a request, in the form in which [get_rules] shows them. *)
Definition rules_request (rs : list Rule) : json :=
  obj [("rules", JArr (map (rule_reply WideCharToMultiByte) rs))]%string.

Definition rules_params (rs : list Rule) : text := dumped_text (-1) false (rules_request rs).

(** A rule as a request carries it, without its dates. *)
Definition undated (r : Rule) : Rule :=
  mkRule (r_id r) (r_type r) (r_action r) (r_pattern r) (r_description r) (r_priority r) (r_enabled r) 0 0.

Definition sendable (r : Rule) : Prop :=
  named r ∧ text_typed (r_id r) ∧ in_s 32 (r_priority r) ∧
  convertible MultiByteToWideChar WideCharToMultiByte (r_pattern r) ∧
  convertible MultiByteToWideChar WideCharToMultiByte (r_description r).

(** WideCharToMultiByte makes UTF-8. *)
Context (makes_utf8 : ∀ ws t, WideCharToMultiByte ws = Some t → utf8 t).

Lemma WideToUtf8_typed ws : text_typed (WideToUtf8 WideCharToMultiByte ws).
Proof.
  unfold WideToUtf8. destruct ws as [|c ws]; [done|].
  destruct (WideCharToMultiByte (c :: ws)) as [t|] eqn:E; [|done]. by eapply utf8_text_typed, makes_utf8.
Qed.

Lemma named_ints r :
  named r → RuleType_of_int (RuleType_to_int (r_type r)) = r_type r ∧
  RuleAction_of_int (RuleAction_to_int (r_action r)) = r_action r ∧
  0 <= RuleType_to_int (r_type r) <= 2 ∧ 0 <= RuleAction_to_int (r_action r) <= 2.
Proof. intros [[->|[->| ->]] [->|[->| ->]]]; by split_and!. Qed.

Lemma rule_reply_typed r :
  sendable r →
  representable (rule_reply WideCharToMultiByte r) = true ∧ printable (rule_reply WideCharToMultiByte r) = true.
Proof.
  intros (Hn & [Hi1 Hi2] & Hp & _). destruct (named_ints r Hn) as (_ & _ & Ht & Ha).
  destruct (WideToUtf8_typed (r_pattern r)) as [Hp1 Hp2]. destruct (WideToUtf8_typed (r_description r)) as [Hd1 Hd2].
  unfold in_s in Hp.
  assert (Hz : ∀ z, - 2 ^ 31 <= z < 2 ^ 31 → number_in_range z = true).
  { intros z Hz. unfold number_in_range. apply andb_true_iff. rewrite Z.leb_le, Z.ltb_lt. lia. }
  split.
  - change (number_in_range (RuleAction_to_int (r_action r)) && (is_bytes (WideToUtf8 WideCharToMultiByte (r_description r)) &&
      (is_bytes (r_id r) && (is_bytes (WideToUtf8 WideCharToMultiByte (r_pattern r)) &&
       (number_in_range (r_priority r) && (number_in_range (RuleType_to_int (r_type r)) && true))))) = true).
    rewrite !Hz, Hd1, Hi1, Hp1 by lia. done.
  - change (is_utf8 (WideToUtf8 WideCharToMultiByte (r_description r)) &&
      (is_utf8 (r_id r) && (is_utf8 (WideToUtf8 WideCharToMultiByte (r_pattern r)) && true)) = true).
    by rewrite Hd2, Hi2, Hp2.
Qed.

Lemma get_small_int z : 0 <= z <= 2 → get_int (JInt z) = Done z.
Proof. intros Hz. apply get_int_in. unfold in_s. lia. Qed.

Lemma read_rule_reply r :
  sendable r → read_rule MultiByteToWideChar (rule_reply WideCharToMultiByte r) = Done (undated r).
Proof.
  intros (Hn & _ & Hp & Hc & Hd). destruct (named_ints r Hn) as (Ht & Ha & Ht' & Ha').
  unfold read_rule, rule_reply, obj.
  repeat first [erewrite value_or_found by reflexivity | erewrite at_const_found by reflexivity].
  cbn [snd get_string get_bool ebind].
  rewrite (get_int_in _ Hp), (get_small_int _ Ht'), (get_small_int _ Ha'). cbn [ebind]. by rewrite Ht, Ha, Hc, Hd.
Qed.

Lemma canonical_rule_reply r : canonical (rule_reply WideCharToMultiByte r) = true.
Proof. by vm_compute. Qed.

Lemma rules_request_typed rs :
  Forall sendable rs →
  canonical (rules_request rs) = true ∧ representable (rules_request rs) = true ∧ printable (rules_request rs) = true.
Proof.
  intros H. unfold rules_request.
  change (forallb canonical (map (rule_reply WideCharToMultiByte) rs) && true && true = true ∧
          forallb representable (map (rule_reply WideCharToMultiByte) rs) && true = true ∧
          forallb printable (map (rule_reply WideCharToMultiByte) rs) && true = true).
  rewrite !andb_true_r, !forallb_forall, Forall_forall in *.
  split_and!; intros j (r & <- & Hr%list_elem_of_In)%in_map_iff;
    [exact (canonical_rule_reply r)
    |exact (proj1 (rule_reply_typed r (H r Hr)))|exact (proj2 (rule_reply_typed r (H r Hr)))].
Qed.

Lemma rules_params_read rs :
  Forall sendable rs → rules_of_params MultiByteToWideChar library_parse (rules_params rs) = Done (map undated rs).
Proof.
  intros H. destruct (rules_request_typed rs H) as (Hc & Hr & Hp).
  unfold rules_of_params, library_parse, rules_params. rewrite parse_printed by done.
  unfold rules_request, obj. cbn [ebind]. erewrite at_mut_found by reflexivity. cbn [ebind snd elements].
  clear Hc Hr Hp. induction H as [|r rs Hs _ IH]; [done|]. cbn [map read_rules].
  by rewrite (read_rule_reply r Hs), IH.
Qed.
Lemma undated_sendable rs :
  Forall sendable rs →
  Forall (λ r, named r ∧ convertible MultiByteToWideChar WideCharToMultiByte (r_pattern r) ∧
               convertible MultiByteToWideChar WideCharToMultiByte (r_description r)) (map undated rs) ∧
  Forall (λ r, r_created r = 0 ∧ r_modified r = 0 ∧ in_s 32 (r_priority r)) (map undated rs).
Proof.
  intros H. split; apply Forall_map; (eapply Forall_impl; [exact H|]); by intros r (? & ? & ? & ? & ?).
Qed.

Lemma rules_params_typed rs : Forall sendable rs → text_typed (rules_params rs).
Proof.
  intros H. apply utf8_text_typed, (dumped_utf8 (-1)). exact (proj1 (proj2 (rules_request_typed rs H))).
Qed.

(** C8: rules sent over the socket are in force at once and survive a restart,
    down to the bytes.  For rules with kinds that have names, priorities of 32
    bits and text that converts, in a request of at most a mebibyte, printed by
    the library and cut into any pieces: the server answers success in one
    line and the engine decides by these rules; and if the file could be
    written, a service started on its bytes reads back the same settings, up
    to the authentication mode, and an engine with exactly these rules. *)
Theorem rules_over_the_socket now os os' chunks s rs :
  Forall sendable rs → Z.of_nat (length (rules_params rs)) <= MAX_IPC_MESSAGE_SIZE →
  concat chunks = with_newline (request_text (lit "set_rules", rules_params rs)) →
  let manager := ConfigManager.set_rules (map undated rs) (h_configManager s) in
  let saved := SaveImpl WideCharToMultiByte file_dump (os 0%nat 0%nat) manager in
  ∃ s', TcpClient library_parse (Some (Answers now os)) [] chunks (s, 0%nat) =
          ([with_newline (raw "{'status':'success'}")], true, (s', 1%nat)) ∧
    h_ruleEngine s' = RuleEngine.SetRules sort (map undated rs) (h_ruleEngine s) ∧
    h_configManager s' = snd saved ∧
    (settings_ok MultiByteToWideChar WideCharToMultiByte (m_config (h_configManager s)) →
     fst saved = true → fs_write (os 0%nat 0%nat) = Written → fs_exists os' = true → fs_read os' = true →
     ∃ c, LoadImpl MultiByteToWideChar WideCharToMultiByte file_dump file_parse os'
            (ConfigManager_new (cm_file (h_configManager s'))) = (Done true, c) ∧
          RuleEngine.SetRules sort (ConfigManager.GetRules c) (mkRuleEngine []) = h_ruleEngine s' ∧
          m_config c = with_mode KerberosPreferred (m_config (h_configManager s))).
Proof.
  intros Hrs Hlen Hc manager saved.
  assert (Hreq : Forall request_ok [(lit "set_rules", rules_params rs)]).
  { apply Forall_singleton. split; cbn [fst snd]; [split; by vm_compute|exact (rules_params_typed rs Hrs)]. }
  rewrite (socket_serves (Answers now os) _ chunks (s, 0%nat) Hreq) by (cbn [map concat]; by rewrite app_nil_r).
  pose proof (SetRules_effect sort MultiByteToWideChar WideCharToMultiByte file_dump library_parse
    (os 0%nat) (rules_params rs) s (map undated rs) (rules_params_read rs Hrs)) as He.
  assert (Ha : Answers now os (lit "set_rules") (rules_params rs) (s, 0%nat) =
    (Done (raw "{'status':'success'}"),
     (put_config (snd saved) (put_engine (RuleEngine.SetRules sort (map undated rs) (h_ruleEngine s)) s), 1%nat))).
  { unfold Answers, Handle. rewrite (proj2 (Z.ltb_ge _ _)) by done. unfold result_of.
    change (dispatch _ _ _ _ _ _ _ _ _ _ (lit "set_rules") (rules_params rs) s) with
      (IpcHandler.SetRules sort MultiByteToWideChar WideCharToMultiByte file_dump library_parse
         (os 0%nat) (rules_params rs) s).
    rewrite He. reflexivity. }
  cbn [serve_requests]. rewrite Ha. eexists. split; [reflexivity|]. split; [done|]. split; [done|].
  intros Hset Hok Hw Hex Hr. cbn [h_configManager put_config]. destruct (undated_sendable rs Hrs) as [H1 H2].
  destruct (saved_rules_reload sort MultiByteToWideChar WideCharToMultiByte file_dump file_parse
    (os 0%nat 0%nat) os' (h_configManager s) (map undated rs)) as (c & Hl & Hrules & Hm);
    [apply file_parses_back|exact Hset|exact H1|exact Hok|exact Hw|exact Hex|exact Hr|exact H2|].
  exists c. split; [exact Hl|]. split; [apply Hrules|done].
Qed.
End handler.

(** * Concrete runs *)

(** A system that converts the text that is UTF-8 already. *)
Definition sample_utf8 (ws : text) : option text := if is_bytes ws && is_utf8 ws then Some ws else None.

Lemma sample_utf8_makes ws t : sample_utf8 ws = Some t → utf8 t.
Proof.
  unfold sample_utf8. destruct (is_bytes ws) eqn:Hb; [|done]. destruct (is_utf8 ws) eqn:Hu; [|done].
  intros [= <-]. apply utf8_decoded; [by apply forallb_bytes|]. unfold is_utf8 in Hu.
  destruct (decode_text 0 0 ws); [by eexists|done].
Qed.

Definition text_callbacks : Callbacks text unit := mkCallbacks None None None None None.

Definition text_parts : Parts text unit :=
  mkParts (mkRuleEngine []) ConnectionTracker_new (set_config default_config (ConfigManager_new None))
    sample_logger true true tt.

Definition sample_message : text :=
  request_text (lit "set_rules", rules_params sample_utf8 [rule_a; rule_b]) ++ [newline].

Definition sample_answers :=
  Answers (merge_sort prio_le) Some sample_utf8 Some Some text_callbacks
    (λ _, 0) (λ _ _, sample_os).

Lemma requests_are_answered_by_lines_witness :
  let chunk := request_text (lit "ping", []) ++ [newline] in
  fst (lines (concat (fst (fst (TcpClient library_parse (Some sample_answers) []
    [chunk ++ take 7 chunk; drop 7 chunk] (text_parts, 0%nat)))))) =
  [raw "{'error':'unknown_method','status':'error'}"; raw "{'error':'unknown_method','status':'error'}"].
Proof.
  intros chunk.
  destruct (serve_requests sample_answers [(lit "ping", []); (lit "ping", [])] (text_parts, 0%nat)) as [[replies ok] st] eqn:E.
  pose proof (requests_are_answered_by_lines (merge_sort prio_le) Some sample_utf8
    Some Some text_callbacks (λ _, 0) (λ _ _, sample_os) [(lit "ping", []); (lit "ping", [])]
    [chunk ++ take 7 chunk; drop 7 chunk] text_parts) as H.
  assert (E' := E). unfold sample_answers in E. rewrite E in H. destruct H as (H1 & H2 & _).
  - repeat apply List.Forall_cons; try apply Forall_nil; (split; split; vm_compute; reflexivity).
  - vm_compute. reflexivity.
  - unfold sample_answers. rewrite H1. cbn [fst]. rewrite H2. cbn [fst].
    apply (f_equal (λ p, fst (fst p))) in E'. cbn [fst] in E'. rewrite <- E'. vm_compute. reflexivity.
Defined.

Lemma rules_over_the_socket_witness :
  ∃ st, TcpClient library_parse (Some sample_answers) []
          [take 9 sample_message; drop 9 sample_message] (text_parts, 0%nat) =
        ([raw "{'status':'success'}" ++ [newline]], true, st) ∧
  ∃ c, LoadImpl Some sample_utf8 file_dump file_parse sample_os
         (ConfigManager_new (cm_file (h_configManager (fst st)))) = (Done true, c) ∧
       RuleEngine.SetRules (merge_sort prio_le) (ConfigManager.GetRules c) (mkRuleEngine []) =
       mkRuleEngine [rule_b; rule_a].
Proof.
  destruct (rules_over_the_socket (merge_sort prio_le) Some sample_utf8
    Some Some text_callbacks sample_utf8_makes (λ _, 0) (λ _ _, sample_os) sample_os
    [take 9 sample_message; drop 9 sample_message] text_parts [rule_a; rule_b]) as (s' & Hc & He & Hm & H).
  - apply List.Forall_cons; [|apply List.Forall_cons; [|apply List.Forall_nil]];
      (unfold sendable; split_and!; first [by vm_compute|unfold named; cbn; auto]).
  - vm_compute. discriminate.
  - vm_compute. reflexivity.
  - exists (s', 1%nat). split; [exact Hc|]. destruct H as (c & Hl & Hr & _).
    + vm_compute. repeat split; discriminate.
    + vm_compute. reflexivity.
    + reflexivity.
    + reflexivity.
    + reflexivity.
    + exists c. split; [exact Hl|]. rewrite Hr, He. vm_compute. reflexivity.
Defined.

(** A port that is a floating number beyond 16 bits is converted all the same,
    which C++ leaves undefined. *)
Lemma huge_port_is_undefined :
  (j <-? library_parse (raw "{'host':'p','port':1e5}");; read_proxy_config Some j) = Undefined.
Proof. vm_compute. done. Qed.

Lemma foreign_params_escape_the_handler_witness :
  ∃ e, plain e ∧
    TcpClient library_parse (Some sample_answers) [] [request_text (lit "set_rules", [206; 187]); [newline]]
      (text_parts, 0%nat) = ([error_line e ++ [newline]], true, (text_parts, 1%nat)).
Proof.
  destruct (foreign_params_escape_the_handler (merge_sort prio_le) Some sample_utf8 Some Some text_callbacks
           (λ _, 0) (λ _ _, sample_os) (lit "set_rules") [206; 187]
           [request_text (lit "set_rules", [206; 187]); [newline]] text_parts 0) as (_ & e & He & _ & H).
  - right. left. reflexivity.
  - split; vm_compute; reflexivity.
  - vm_compute. reflexivity.
  - vm_compute. discriminate.
  - reflexivity.
  - exists e. split; [exact He|exact H].
Defined.

Lemma any_line_gets_one_line_witness :
  let input := raw "{'method" ++ [10; 10] ++ [206; 10] ++ lit "[]" ++ [10] in
  ∃ replies, lines (concat (fst (fst (TcpClient library_parse (Some sample_answers) [] [input] (text_parts, 0%nat))))) =
             (replies, []) ∧ length replies = 3%nat.
Proof.
  intros input.
  pose proof (any_line_gets_one_line (merge_sort prio_le) Some sample_utf8 Some Some text_callbacks
    (λ _, 0) (λ _ _, sample_os) [input] (text_parts, 0%nat)) as H.
  destruct (TcpClient _ _ _ _ _) as [[sent ok] st] eqn:E.
  assert (Hok : ok = true).
  { apply (f_equal (λ p, snd (fst p))) in E. cbn [fst snd] in E. rewrite <- E. vm_compute. reflexivity. }
  destruct H as (replies & H1 & H2 & H3).
  - apply (bool_decide_unpack _). vm_compute. exact I.
  - exists replies. split; [exact H2|]. rewrite (H3 Hok). vm_compute. reflexivity.
Defined.

(** The reply to a request that ends inside a string shows the quote that began
    it, unescaped: it is no JSON. *)
Lemma malformed_reply_is_not_json :
  match TcpClient library_parse (Some sample_answers) [] [raw "{'method" ++ [10]] (text_parts, 0%nat) with
  | ([reply], true, _) => ∃ what, library_parse reply = Raised what
  | _ => False
  end.
Proof. vm_compute. by eexists. Qed.
